(* ===== verification/_CoqProject ===== *)
-Q . S2P
Prelude.v
Effects.v
Js.v
Cli.v
Dates.v
Money.v
Schema.v
Wallet.v
Ledger.v
Crash.v
Simulation.v
EthBlock.v
Keys.v
ReportQuery.v
OperatorWallet.v
HttpWallet.v
OperatorBook.v
AuditLog.v
OperatorConfig.v
Launch.v
Sandbox.v
Sessions.v
Reporting.v
ReportSafety.v
ReportPages.v
SessionSafety.v
DataErasure.v
OperatorAuth.v
Provision.v
Fairness.v
Bets.v
BetSafety.v
BetFlow.v
ReportTruth.v
Reconcile.v
Soak.v
LoadStats.v
OperatorApi.v
PublicApi.v
PlayerApi.v
Retention.v
Election.v
Engine.v
EngineSafety.v
Health.v
Telemetry.v
Bootstrap.v
RoundCache.v
Gateway.v
GatewayTiming.v
GatewaySafety.v
