(* ===== verification/Prelude.v ===== *)
(** * Vault Run API: a verification development

    Vault Run is a crash game for casino operators: a round's multiplier climbs
    from 1.00 until a crash point fixed in advance by a published commitment;
    a player who cashes out below it is paid stake times multiplier, everyone
    else loses the stake.  The server is a TypeScript service
    ([src/src/]) over one Postgres database, run by several nodes of which one
    leads.  This library models its logic and proves what makes it correct.

    ** The parts and how they interact

    - The fairness service commits to a hash chain of seeds, mixes in a block
      hash nobody controls, and hands each round the next seed.
    - The election lets one node lead; its engine runs the round loop, persists
      each phase with a deadline, and hands a round over when a node dies.
    - The bet service takes stakes, pays wins and settles rounds.  It sees the
      engine through a small view and moves money through a wallet provider.
    - The provider is chosen per wallet: the internal ledger, or the operator's
      own wallet over HTTP with an outbox of reversals that must reach it.
    - Operators launch players with a signed ticket that becomes a session; the
      session holds the limits, the pending reality check and the routing.
    - The gateway attaches players to sockets, checks what each message may do,
      and runs the sweeps: reality checks, session limits, stranded bets.
    - Around them: the audit log, the keys operators authenticate with, the
      reports they read, the erasure of a player's personal data, the HTTP routes
      and their limits, the probes and the metrics.
    - Beside the service: the scripts that provision operators, reconcile the
      books and sweep dormant players, and the harnesses that load it and kill it.

    ** The files

    Foundations.
    - [Prelude]: tactics, the hint database, lemmas on lists, sums and maps.
    - [Effects]: programs over a shared state.  An async method is one tree,
      read either alone ([run]) or interleaved with any number of others at
      every await ([pool_step]); [safe] is the rely-guarantee judgement whose
      soundness ([pool_safe]) gives every concurrent theorem below.
    - [Js]: the strings, numbers and JSON values of the language; [Cli]: the
      arguments of a command line, as the scripts read them.
    - [Dates]: its calendar, [toISOString] and the ISO format of [Date.parse].
    - [Money]: common/bet-status.ts, common/money.ts, common/currency.ts,
      game/risk.service.ts.
    - [Schema]: prisma/schema.prisma as rows, and the world: the tables, the
      clock, the operator's answers, and a stream of faults that may fail any
      statement before or after it took effect.

    Money.
    - [Wallet]: the provider interface of wallet/wallet-provider.ts as a class
      with its laws, and wallet/wallet-router.ts.
    - [Ledger]: wallet/ledger.service.ts.
    - [OperatorWallet]: wallet/wallet-rollback.service.ts and
      wallet/seamless-operator-wallet.ts.
    - [HttpWallet]: wallet/http-operator-wallet.ts, the transport behind those
      calls, and the endpoint cache of wallet/wallet.module.ts.
    - [OperatorBook]: the operator's side of it, the reference wallet of
      load/operator-wallet-stub.ts, and scripts/operator-recon-check.ts, which
      compares the two books.
    - [Bets], [BetSafety], [BetFlow]: game/bets.service.ts, its invariants
      under any interleaving, and the contract of each operation.
    - [Keys]: the idempotency keys, common/uuid.ts, and the transaction lookup of
      operator/reporting-query.ts.

    Rounds.
    - [Crash]: fairness/crash.ts and fairness/seed-chain.ts; [Simulation]:
      scripts/simulate-rtp.ts, which tallies it.
    - [EthBlock]: fairness/eth-block.ts, fairness/salt.provider.ts and the boot
      assertion of fairness/fairness.module.ts.
    - [Fairness]: fairness/fairness.service.ts.
    - [Election]: ha/election.service.ts over ha/pg-advisory-lock.ts.
    - [Engine], [EngineSafety]: game/game-engine.service.ts and its properties.
    - [RoundCache]: game/public-round-cache.ts.
    - [Health]: health/health.controller.ts, the metrics key and the build.
    - [Telemetry]: metrics/metrics.service.ts over a registry that is a class,
      observability/sentry.ts, common/log-redact.ts.
    - [Bootstrap]: main.ts, the connection strings of prisma/prisma.service.ts and
      ha/pg-advisory-lock.ts, the probe of redis/redis-io.adapter.ts.

    Players' sockets.
    - [Gateway]: game/game.gateway.ts and game/ws-schemas.ts, every handler and
      sweep over the process's memory; [GatewayTiming]: the message limit and the
      timing of reality checks; [GatewaySafety]: the live socket of a user, who
      may bet, what a connection restores, what a sweep leaves.

    Operators and players.
    - [OperatorConfig]: operator/bet-limits.ts and operator/rg-config.ts.
    - [Launch]: operator/launch-token.service.ts and common/locale.ts; [Sandbox]:
      scripts/sandbox-seed.ts, which mints the tickets by hand, and
      scripts/sandbox-verify.ts.
    - [Sessions], [SessionSafety]: operator/game-session.service.ts.
    - [OperatorAuth]: operator/reporting-key.ts, operator/operator-auth.guard.ts,
      common/timing-safe.ts and common/client-ip.ts.
    - [DataErasure]: privacy/data-erasure.service.ts.
    - [AuditLog]: audit/audit-event.service.ts.
    - [ReportQuery]: the date, currency, page and audit parameters of
      operator/reporting-query.ts.
    - [Reporting], [ReportSafety], [ReportPages], [ReportTruth]:
      operator/reporting.service.ts; its sums, its pages and the isolation of
      tenants, and what a status says of the journal.
    - [Reconcile]: scripts/reconcile-check.ts, the gate a soak must pass;
      [Soak]: load/recon-soak.ts and load/failover-drill.ts, what they compare and
      when they fail; [LoadStats]: the statistics, the simulated player and the
      ramp of load/ws-load.ts.
    - [OperatorApi]: the operator's routes behind their guards, the limits of
      app.module.ts and the throttler guards, and the answers of
      observability/all-exceptions.filter.ts.
    - [PublicApi]: the routes anybody may read: rounds, fairness, leaderboard.
    - [PlayerApi]: auth/auth.service.ts and the routes a player's token opens.
    - [Provision]: scripts/operator-provision.ts, scripts/operator-launch-token.ts.
    - [Retention]: scripts/retention-sweep.ts and scripts/anonymize-player.ts.

    A definition keeps the name of the method it translates, inside a module
    named after the service; a record field keeps the column's name after a
    prefix ([b_status] is the column [status] of a bet).

    ** What the theorems show

    - No money is created or lost in the ledger: it equals its journal in every
      interleaving, whatever fails ([ledger_sound]); one key moves money once
      ([duplicate_debits_post_once]).
    - A bet is settled one way, once, below the crash point of its own round,
      for the floor of stake times multiplier ([settled_one_way],
      [payout_below_crash], [cashOut_pays_floor]); the house's exposure to a
      round stays under its cap ([round_exposure_bounded]).
    - Against an operator's wallet, a win is paid or reported pending, and a
      reversal is accepted once ([win_paid_or_pending], [reversal_accepted_once]);
      a call over HTTP raises the error of its outcome and is one call of the
      abstract operator ([post_exact], [http_call_refines]); the reference wallet
      conserves its book and applies a retried call once ([book_conserves],
      [retries_apply_once], [client_and_stub_agree]).
    - One node leads, a node that lost the lead writes nothing, the loop never
      stalls, and failover keeps a round's crash instant and hides it until then
      ([one_authoritative_node], [fenced_transition_writes_nothing],
      [loop_never_stalls], [failover_keeps_crash_time], [crash_point_secret]).
    - The published commitment binds the crash points and their distribution is
      the advertised one ([generated_chain_verifies], [commit_binds],
      [crash_distribution], [finalizedBlockHash_majority]).
    - Sessions are consistent with the operator's configuration and route the
      money of a wallet one way ([sessions_consistent],
      [routing_follows_session]); a launch ticket, the limits in a play token and
      an operator key read back as issued; the guard admits exactly the requests
      it should ([guard_exact]), a read key writes nothing
      ([read_keys_never_write]), and an operator the script provisions works at
      once ([provisioned_operator_works]).
    - Erasure is complete and touches no money ([erase_complete],
      [erasure_keeps_money]), and the sweep erases dormant players only
      ([sweep_erases_dormant_only]).
    - A public answer depends on no secret and no player's data
      ([public_answers_keep_secrets]), a player's on his own only
      ([player_reads_own]).
    - The reports are the exact sums of the operator's own bets, agree with each
      other, list every bet once over any number of pages, and depend on nothing
      of another tenant ([summary_exact], [daily_partitions_summary],
      [pages_list_everything], [reports_isolate_tenants]); a status never denies a
      posted move ([status_never_denies]).  The reconciliation gates pass
      exactly when the internal book balances ([reconcile_exact]) and when the
      sums over the operator's book agree ([operator_gate_exact]); the soak and
      the drill exit with 0 exactly when what they compare agrees ([soak_exact],
      [drill_exact]).
    - What the process says of itself is what happened: the probes
      ([health_exact]), the counters and the realized return ([metrics_exact]), the
      percentiles of the load harness ([percentile_exact], [harness_accounts]), the
      simulation's tables ([perfect_tables]); it starts with the access it was
      configured for ([bootstrap_safe], [pool_is_bounded]).
    - A user has one live socket, a paused session places no bet, a connection
      restores exactly the session its token was minted for, and reality checks
      and the session limit come when they are due and not otherwise
      ([one_live_socket], [paused_session_places_nothing],
      [token_restores_session], [rg_sweep_exact], [rg_timing],
      [rg_check_punctual]); messages are limited within a bound
      ([message_limit]).
    Where the code does something else than it says, the behaviour is proved on a
    concrete run, next to the component: [lost_ack_underfunds_next_stake],
    [failed_refund_is_lost], [crash_after_claim_loses_win],
    [late_crash_hits_successor], [restart_refund_races_cancel],
    [stale_failure_reopens_confirmed], [promotion_after_shutdown],
    [revoke_reaches_sibling_demo], [launch_races_erasure],
    [refund_told_not_posted], [reconnect_window_skips_pause],
    [dead_socket_evicts_live], [body_outlives_timeout],
    [offsetting_losses_pass], [same_millisecond_false_alarm],
    [unclosed_session_never_erased], [late_debit_charged], [unknown_bet_never_seen],
    [deadman_kills_healthy_round], [disabled_for_good], [blank_whitelist_opens],
    [cancelled_stake_in_rtp], [late_tick_hides_gap], [older_publication_wins] and
    others.

    ** Modelling choices

    - A two-decimal multiplier is the integer number of its cents, money an
      integer of minor units, a timestamp an integer of milliseconds, a UUID its
      128-bit number.  Integers the code keeps in [bigint] are unbounded there
      as well.
    - A string is a list of code units in the Latin-1 range; case conversion
      touches the ASCII letters only.
    - Code outside [src/] is a parameter: hash functions, [Math.exp], the token
      library, the block-explorer endpoints, the operator's answers, which
      characters a UUID column accepts.  Laws a theorem needs of it are a class
      or a named hypothesis, and the witnesses instantiate them.
    - An interactive transaction that the code runs serially on locked rows is one
      atomic step; every other statement is a step of its own.
    - A promise the code does not await ([void this.maintain()]) is run in line
      by the method that starts it, and modelled as a program of the pool as well.

    ** Fuel and bounds

    Loops over data recurse on the data.  The retries recurse on the literal
    number of attempts of the source (three activations, three win attempts,
    ...), the polling loops are one iteration per step of a pool or of a node.
    A program is a finite tree, so [run] is total and needs no fuel; nothing
    below is of the form "if it returns".  Three loops have fuel: the client that
    walks the pages, where [pages_list_everything] gives the fuel that is enough,
    the sweep over the live map of sockets, where one unit per registered socket
    is ([rg_sweep_exact]), and the release of the load harness's ramp, where one
    per client left to start is ([release_complete]).

    ** Not modelled

    The wiring of the framework's modules, the calls of the Prisma, Postgres and
    Redis clients beyond the statements they carry, and the text of log lines and
    reports: third-party machinery or output with no rule of its own.  Of the
    harnesses, the child processes, the sockets and the scraped text.  The smoke
    tests (bet-smoke, load-test, sentry-smoke, wallet-provider-smoke and ws-smoke
    under scripts/) call a running server and print what it answers.  Timing side channels, memory
    and the scheduling of timers beyond their order are outside the model. *)

From Stdlib Require Export Ascii ZArith Lia.
From stdpp Require Export base tactics gmap sets strings list fin_maps sorting.

Open Scope Z_scope.

#[local] Set Warnings "-clear-no-such-hyp".

(** ** Tactics *)

(** Destruct the first match or [if] scrutinee of the goal, keeping its equation. *)
Ltac case_match_eqn :=
  match goal with
  | |- context [match ?x with _ => _ end] =>
      lazymatch x with
      | context [match _ with _ => _ end] => fail
      | _ => destruct x eqn:?
      end
  end.

(** The same for a hypothesis. *)
Ltac case_hyp H :=
  match type of H with
  | context [match ?x with _ => _ end] =>
      lazymatch x with
      | context [match _ with _ => _ end] => fail
      | _ => destruct x eqn:?
      end
  end.

(** Turn boolean comparisons on [Z] into propositions. *)
Ltac z_bool :=
  repeat match goal with
  | H : (_ <? _) = true |- _ => apply Z.ltb_lt in H
  | H : (_ <? _) = false |- _ => apply Z.ltb_ge in H
  | H : (_ <=? _) = true |- _ => apply Z.leb_le in H
  | H : (_ <=? _) = false |- _ => apply Z.leb_gt in H
  | H : (_ =? _) = true |- _ => apply Z.eqb_eq in H
  | H : (_ =? _) = false |- _ => apply Z.eqb_neq in H
  | H : (_ && _) = true |- _ => apply andb_true_iff in H as [? ?]
  | H : (_ || _) = false |- _ => apply orb_false_iff in H as [? ?]
  | H : negb _ = true |- _ => apply negb_true_iff in H
  | H : negb _ = false |- _ => apply negb_false_iff in H
  end.

(** Case analysis on every comparison of the goal, then linear arithmetic. *)
Ltac bool_lia := repeat case_match; z_bool; lia.

(** ** Sums of integers *)

Fixpoint sumZ {A} (f : A -> Z) (l : list A) : Z :=
  match l with
  | [] => 0
  | x :: l => f x + sumZ f l
  end.

Definition sum_map `{Countable K} {A} (f : A -> Z) (m : gmap K A) : Z :=
  map_fold (fun _ x acc => f x + acc) 0 m.

Lemma sumZ_app {A} (f : A -> Z) l1 l2 : sumZ f (l1 ++ l2) = sumZ f l1 + sumZ f l2.
Proof. induction l1; simpl; lia. Qed.

Lemma sumZ_nonneg {A} (f : A -> Z) l :
  Forall (fun x => 0 <= f x) l -> 0 <= sumZ f l.
Proof. induction 1; simpl; lia. Qed.

Lemma sumZ_le {A} (f g : A -> Z) l :
  Forall (fun x => f x <= g x) l -> sumZ f l <= sumZ g l.
Proof. induction 1; simpl; lia. Qed.

Lemma sumZ_ext {A} (f g : A -> Z) l : (forall x, f x = g x) -> sumZ f l = sumZ g l.
Proof. intros Hfg. induction l; simpl; congruence. Qed.

(** The accumulating loop [for (x of l) acc += f x] is the sum. *)
Lemma fold_left_sumZ {A} (f : A -> Z) l acc :
  fold_left (fun s x => s + f x) l acc = acc + sumZ f l.
Proof. revert acc; induction l as [|x l IH]; intros acc; simpl; [lia|rewrite IH; lia]. Qed.

Section sum_map.
Context `{Countable K} {A : Type} (f : A -> Z).

Lemma sum_map_empty : sum_map f (∅ : gmap K A) = 0.
Proof. apply map_fold_empty. Qed.

Lemma sum_map_insert (m : gmap K A) k x :
  m !! k = None -> sum_map f (<[k:=x]> m) = f x + sum_map f m.
Proof.
  intros Hk. unfold sum_map.
  rewrite (map_fold_insert_L (fun _ x acc => f x + acc) 0 k x m); [done| |done].
  intros; lia.
Qed.

Lemma sum_map_lookup (m : gmap K A) k x :
  m !! k = Some x -> sum_map f m = f x + sum_map f (delete k m).
Proof.
  intros Hk. rewrite <- (insert_delete_id m k x Hk) at 1.
  apply sum_map_insert, lookup_delete_eq.
Qed.

Lemma sum_map_delete_None (m : gmap K A) k :
  m !! k = None -> sum_map f (delete k m) = sum_map f m.
Proof. intros. by rewrite delete_id. Qed.

(** Overwriting a row changes the sum by the difference of the two rows. *)
Lemma sum_map_update (m : gmap K A) k x y :
  m !! k = Some x -> sum_map f (<[k:=y]> m) = sum_map f m - f x + f y.
Proof.
  intros Hk. rewrite (sum_map_lookup m k x Hk), <- insert_delete_eq.
  rewrite sum_map_insert by apply lookup_delete_eq. lia.
Qed.

(** The sum, as a loop over the rows in any order. *)
Lemma sum_map_list (m : gmap K A) : sum_map f m = sumZ f (map_to_list m).*2.
Proof.
  induction m as [|k x m Hk IH] using map_ind; [done|].
  rewrite sum_map_insert, IH by done.
  assert (Hp : forall l l', l ≡ₚ l' -> sumZ f l = sumZ f l') by (induction 1; simpl; lia).
  rewrite (Hp ((map_to_list (<[k:=x]> m)).*2) (((k, x) :: map_to_list m).*2)); [done|].
  by apply fmap_Permutation, map_to_list_insert.
Qed.

(** Fewer or smaller rows have a smaller sum. *)
Lemma sum_map_mono (m m' : gmap K A) :
  (forall k x, m !! k = Some x -> 0 <= f x) ->
  (forall k x', m' !! k = Some x' -> exists x, m !! k = Some x /\ f x' <= f x) ->
  sum_map f m' <= sum_map f m.
Proof.
  revert m. induction m' as [|k x' m' Hk IH] using map_ind; intros m Hpos Hle.
  - rewrite sum_map_empty, sum_map_list. apply sumZ_nonneg, Forall_forall.
    intros x (kx & -> & Hin)%list_elem_of_fmap. destruct kx. by eapply Hpos, elem_of_map_to_list.
  - rewrite sum_map_insert by done.
    destruct (Hle k x') as (x & Hx & Hxx); [apply lookup_insert_eq|].
    rewrite (sum_map_lookup m k x Hx). apply Z.add_le_mono; [done|]. apply IH.
    + intros j y Hj. apply lookup_delete_Some in Hj as [_ Hj]. by eapply Hpos.
    + intros j y Hj. destruct (decide (j = k)) as [->|Hne]; [congruence|].
      destruct (Hle j y) as (z & Hz & ?); [by rewrite lookup_insert_ne|].
      exists z. by rewrite lookup_delete_ne.
Qed.
End sum_map.

(** A sum of nothing but zeros. *)
Lemma sum_map_zero `{Countable K} {A} (f : A -> Z) (m : gmap K A) :
  (forall k x, m !! k = Some x -> f x = 0) -> sum_map f m = 0.
Proof.
  induction m as [|k x m Hk IH] using map_ind; intros Hz; [apply sum_map_empty|].
  rewrite sum_map_insert, (Hz k x), IH; [done| |apply lookup_insert_eq|done].
  intros j y Hj. apply (Hz j y). rewrite lookup_insert_ne; [done|]. intros ->. congruence.
Qed.

(** A sum with at most one non-zero term. *)
Lemma sum_map_single `{Countable K} {A} (f : A -> Z) (m : gmap K A) k :
  (forall j x, m !! j = Some x -> j <> k -> f x = 0) ->
  sum_map f m = match m !! k with Some x => f x | None => 0 end.
Proof.
  intros Hz. destruct (m !! k) as [x|] eqn:E.
  - rewrite (sum_map_lookup f m k x E), (sum_map_zero f (delete k m)); [lia|].
    intros j y [Hne Hj]%lookup_delete_Some. by apply (Hz j y).
  - apply sum_map_zero. intros j y Hj. apply (Hz j y Hj). intros ->. congruence.
Qed.

Lemma sum_map_add `{Countable K} {A} (f g : A -> Z) (m : gmap K A) :
  sum_map (fun x => f x + g x) m = sum_map f m + sum_map g m.
Proof. rewrite !sum_map_list. induction (map_to_list m).*2 as [|x l IH]; cbn [sumZ]; lia. Qed.

(** A filtered sum is a sum of conditional terms. *)
Lemma sumZ_filter {A} (P : A -> bool) (f : A -> Z) l :
  sumZ f (List.filter P l) = sumZ (fun x => if P x then f x else 0) l.
Proof. induction l as [|x l IH]; simpl; [done|]. destruct (P x); simpl; lia. Qed.

(** ** Options *)

Definition opt_eqb {A} `{EqDecision A} (x y : option A) : bool := bool_decide (x = y).

Lemma opt_eqb_true {A} `{EqDecision A} (x y : option A) : opt_eqb x y = true <-> x = y.
Proof. apply bool_decide_eq_true. Qed.

(** [v ?? d] of the source: the value unless it is null or undefined. *)
Definition nullish {A} (o : option A) (d : A) : A :=
  match o with Some a => a | None => d end.

(** ** Strings *)

Definition eqb_str (a b : string) : bool := bool_decide (a = b).

Lemma eqb_str_refl a : eqb_str a a = true.
Proof. by apply bool_decide_eq_true. Qed.

Lemma eqb_str_eq a b : eqb_str a b = true <-> a = b.
Proof. apply bool_decide_eq_true. Qed.

Lemma eqb_str_neq a b : a <> b -> eqb_str a b = false.
Proof. apply bool_decide_eq_false_2. Qed.

Lemma eqb_str_false a b : eqb_str a b = false <-> a <> b.
Proof. apply bool_decide_eq_false. Qed.

(** A string without the character [c]. *)
Fixpoint lacks (c : ascii) (s : string) : Prop :=
  match s with
  | EmptyString => True
  | String a s => a <> c /\ lacks c s
  end.

Fixpoint lacksb (c : ascii) (s : string) : bool :=
  match s with
  | EmptyString => true
  | String a s => negb (Ascii.eqb a c) && lacksb c s
  end.

Lemma lacksb_spec c s : lacksb c s = true <-> lacks c s.
Proof.
  induction s as [|a s IH]; simpl; [done|].
  rewrite andb_true_iff, IH, negb_true_iff, Ascii.eqb_neq. done.
Qed.

(** Splitting a string at the first separator is unambiguous. *)
Lemma sep_inj (c : ascii) (a b x y : string) :
  lacks c a -> lacks c b ->
  (a +:+ String c x = b +:+ String c y)%string -> a = b /\ x = y.
Proof.
  revert b; induction a as [|h a IH]; intros [|h' b] Ha Hb E; simpl in E, Ha, Hb.
  - by simplify_eq.
  - injection E as <- _. by destruct Hb.
  - injection E as -> _. by destruct Ha.
  - destruct Ha as [_ Ha], Hb as [_ Hb]. injection E as -> E.
    by destruct (IH b Ha Hb E) as [-> ->].
Qed.

Lemma string_app_inj (p a b : string) : (p +:+ a = p +:+ b)%string -> a = b.
Proof. induction p; simpl; [done|]. intros E; simplify_eq; auto. Qed.

Lemma string_app_assoc (a b c : string) : ((a +:+ b) +:+ c = a +:+ (b +:+ c))%string.
Proof. induction a as [|h a IH]; [done|]. exact (f_equal (String h) IH). Qed.

Lemma string_cons_app h (a b : string) : (String h a +:+ b = String h (a +:+ b))%string.
Proof. done. Qed.

Lemma string_length_app (a b : string) : String.length (a +:+ b)%string = (String.length a + String.length b)%nat.
Proof. induction a as [|h a IH]; [done|]. exact (f_equal S IH). Qed.

Lemma string_app_nil (a : string) : (a +:+ EmptyString = a)%string.
Proof. induction a as [|h a IH]; [done|]. exact (f_equal (String h) IH). Qed.

Create Rewrite HintDb vr_sum.
#[export] Hint Rewrite @sum_map_empty @sumZ_app : vr_sum.

Definition is_Some_b {A} (o : option A) : bool := match o with Some _ => true | None => false end.

Lemma take_subset {A} (n : nat) (l : list A) x : x ∈ take n l -> x ∈ l.
Proof. intros H. rewrite <- (take_drop n l). apply elem_of_app. by left. Qed.

(** A count of rows that is not positive: no row satisfies the condition. *)
Lemma count_none {A} (P : A -> bool) (l : list A) x :
  (Z.of_nat (length (List.filter P l)) >? 0) = false -> x ∈ l -> P x = false.
Proof.
  intros Hc Hx. destruct (P x) eqn:HP; [|done].
  assert (Hin : x ∈ List.filter P l) by (apply list_elem_of_In, List.filter_In; split; [by apply list_elem_of_In|done]).
  rewrite Z.gtb_ltb in Hc. apply Z.ltb_ge in Hc. destruct (List.filter P l); [set_solver|cbn [length] in Hc; lia].
Qed.

(** The values of a table are its rows. *)
Lemma map_values_in `{Countable K} {A} (m : gmap K A) x : x ∈ (map_to_list m).*2 <-> exists k, m !! k = Some x.
Proof.
  rewrite list_elem_of_fmap. split.
  - intros ([k y] & -> & Hin%elem_of_map_to_list). by exists k.
  - intros [k Hk]. exists (k, x). split; [done|]. by apply elem_of_map_to_list.
Qed.
Lemma map_value_in `{Countable K} {A} (m : gmap K A) k x : m !! k = Some x -> x ∈ (map_to_list m).*2.
Proof. intros Hk. apply map_values_in. by exists k. Qed.

(** Decide the comparisons of string literals. *)
Ltac str_literals := repeat match goal with |- context [eqb_str ?a ?b] =>
  let v := eval vm_compute in (eqb_str a b) in change (eqb_str a b) with v end.

(** ** Maps in insertion order *)

(** The language's [Map] as the list of its entries. *)
Section amap.
Context {K V : Type} `{EqDecision K}.

Fixpoint amap_get (k : K) (m : list (K * V)) : option V :=
  match m with
  | [] => None
  | (j, v) :: m => if decide (j = k) then Some v else amap_get k m
  end.

Fixpoint amap_set (k : K) (v : V) (m : list (K * V)) : list (K * V) :=
  match m with
  | [] => [(k, v)]
  | (j, u) :: m => if decide (j = k) then (j, v) :: m else (j, u) :: amap_set k v m
  end.

Lemma amap_get_set k v j m : amap_get j (amap_set k v m) = if decide (k = j) then Some v else amap_get j m.
Proof.
  induction m as [|[i u] m IH]; cbn; [done|]. destruct (decide (i = k)) as [->|]; cbn.
  - by destruct (decide (k = j)).
  - rewrite IH. destruct (decide (i = j)) as [->|]; [|done]. by destruct (decide (k = j)).
Qed.

Lemma amap_get_keys k m : k ∈ m.*1 <-> is_Some (amap_get k m).
Proof.
  induction m as [|[j v] m IH]; cbn.
  - split; [intros H; by apply not_elem_of_nil in H|by intros []].
  - rewrite elem_of_cons, IH. destruct (decide (j = k)) as [->|]; [split; [eauto|by left]|naive_solver].
Qed.

Lemma amap_set_keys k v m : NoDup m.*1 -> NoDup (amap_set k v m).*1.
Proof.
  induction m as [|[j u] m IH]; cbn; intros Hnd; [repeat constructor; by intros ?%not_elem_of_nil|].
  apply NoDup_cons in Hnd as [Hj Hnd]. destruct (decide (j = k)) as [->|]; cbn; apply NoDup_cons; split; auto.
  rewrite amap_get_keys, amap_get_set. destruct (decide (k = j)) as [->|]; [done|]. by rewrite <- amap_get_keys.
Qed.

Lemma amap_get_in k v m : NoDup m.*1 -> (k, v) ∈ m <-> amap_get k m = Some v.
Proof.
  induction m as [|[j u] m IH]; cbn; intros Hnd.
  { split; [intros H; by apply not_elem_of_nil in H|done]. }
  apply NoDup_cons in Hnd as [Hj Hnd]. rewrite elem_of_cons, (IH Hnd). destruct (decide (j = k)) as [->|].
  - split; [intros [H|H]|intros [= ->]; by left]; [by simplify_eq|].
    exfalso. apply Hj, amap_get_keys. by exists v.
  - split; [intros [H|H]; [by simplify_eq|done]|by right].
Qed.
End amap.

(** ** Rows under their key *)

Section rows.
Context {R K : Type} `{EqDecision K} (key : R -> K).

(** The rows of a key, in order. *)
Definition rows_of (k : K) (rows : list R) : list R := List.filter (fun r => bool_decide (key r = k)) rows.

Lemma rows_of_app k l l' : rows_of k (l ++ l') = rows_of k l ++ rows_of k l'.
Proof. apply List.filter_app. Qed.

Lemma rows_of_single k r : rows_of k [r] = if decide (key r = k) then [r] else [].
Proof.
  unfold rows_of. cbn. destruct (decide (key r = k)); [by rewrite bool_decide_eq_true_2|by rewrite bool_decide_eq_false_2].
Qed.

Lemma rows_of_nil k l : rows_of k l = [] <-> k ∉ key <$> l.
Proof.
  unfold rows_of. induction l as [|r l IH]; cbn; [split; [intros _; apply not_elem_of_nil|done]|].
  rewrite not_elem_of_cons. destruct (bool_decide_reflect (key r = k)); naive_solver.
Qed.

Lemma rows_of_cons k r l : rows_of k (r :: l) = if decide (key r = k) then r :: rows_of k l else rows_of k l.
Proof.
  unfold rows_of. cbn. destruct (decide (key r = k)); [by rewrite bool_decide_eq_true_2|by rewrite bool_decide_eq_false_2].
Qed.

Lemma rows_of_in k r l : r ∈ rows_of k l <-> key r = k /\ r ∈ l.
Proof.
  unfold rows_of. rewrite list_elem_of_In, List.filter_In, bool_decide_eq_true, <- list_elem_of_In. tauto.
Qed.

(** Rows split by key add up, over any keys that cover the rows that count. *)
Lemma sumZ_keys (f : R -> Z) rows ks : NoDup ks -> (forall r, r ∈ rows -> f r <> 0 -> key r ∈ ks) ->
  sumZ (fun k => sumZ f (rows_of k rows)) ks = sumZ f rows.
Proof.
  intros Hnd. induction rows as [|r rows IH]; intros Hcov.
  { clear. induction ks as [|k ks IH]; [done|]. cbn [sumZ]. by rewrite IH. }
  cbn [sumZ]. rewrite <- IH by (intros x Hx; apply Hcov; by right).
  assert (Hk : f r <> 0 -> key r ∈ ks) by (apply Hcov; by left). clear Hcov IH.
  assert (Hpt : forall k, sumZ f (rows_of k (r :: rows)) = (if decide (key r = k) then f r else 0) + sumZ f (rows_of k rows)).
  { intros k. rewrite rows_of_cons. by destruct (decide (key r = k)). }
  assert (H0 : sumZ (fun k => if decide (key r = k) then f r else 0) ks = f r).
  { assert (Hout : forall l, key r ∉ l -> sumZ (fun k => if decide (key r = k) then f r else 0) l = 0).
    { induction l as [|k l IHl]; [done|]. rewrite not_elem_of_cons. intros [Hne Hl]. cbn [sumZ].
      rewrite IHl by done. by destruct (decide (key r = k)). }
    destruct (decide (f r = 0)) as [Hz|Hz].
    { clear -Hz. induction ks as [|k ks IH]; [done|]. cbn [sumZ]. rewrite IH. destruct (decide _); lia. }
    specialize (Hk Hz). clear Hpt. induction Hnd as [|k ks Hn Hnd IH]; [by apply not_elem_of_nil in Hk|].
    cbn [sumZ]. destruct (decide (key r = k)) as [<-|Hne]; [rewrite Hout by done; lia|].
    apply elem_of_cons in Hk as [?|Hk]; [done|]. by rewrite IH. }
  rewrite <- H0. clear H0 Hk Hnd. induction ks as [|k ks IH]; [done|]. cbn [sumZ]. rewrite Hpt, IH. lia.
Qed.
End rows.

(** The loop that accumulates rows under their key. *)
Section tally.
Context {R K V : Type} `{EqDecision K} (key : R -> K) (init : R -> V) (step : V -> R -> V).

#[local] Abbreviation rows_of := (rows_of key).

Definition tally_step (m : list (K * V)) (r : R) : list (K * V) :=
  amap_set (key r) (step (nullish (amap_get (key r) m) (init r)) r) m.

(** Each key ends with its own rows folded in order, from what its first row starts. *)
Lemma tally_spec rows : let m := fold_left tally_step rows [] in
  NoDup m.*1 /\
  forall k, amap_get k m = match rows_of k rows with [] => None | r :: l => Some (fold_left step (r :: l) (init r)) end.
Proof.
  cbv zeta. induction rows as [|r rows [IH1 IH2]] using rev_ind; [split; [constructor|done]|].
  rewrite fold_left_app. cbn [fold_left]. unfold tally_step at 1 3. split; [by apply amap_set_keys|].
  intros k. rewrite amap_get_set, rows_of_app, rows_of_single, !IH2.
  destruct (decide (key r = k)) as [->|Hne]; [|by rewrite app_nil_r].
  by destruct (rows_of k rows) as [|x l]; [|cbn; rewrite fold_left_app].
Qed.

Lemma tally_in rows k v : (k, v) ∈ fold_left tally_step rows [] <->
  exists r l, rows_of k rows = r :: l /\ v = fold_left step (r :: l) (init r).
Proof.
  destruct (tally_spec rows) as [Hnd Hget]. rewrite (amap_get_in _ _ _ Hnd), Hget.
  destruct (rows_of k rows) as [|r l]; [split; [done|by intros (? & ? & ? & _)]|].
  split; [intros [= <-]; by exists r, l|]. by intros (? & ? & [= <- <-] & ->).
Qed.

End tally.

(** A loop that skips some rows is the loop over the others. *)
Lemma fold_left_skip {A B} (P : A -> bool) (f : B -> A -> B) (l : list A) (b : B) :
  fold_left (fun m r => if P r then f m r else m) l b = fold_left f (List.filter P l) b.
Proof. revert b; induction l as [|r l IH]; intros b; [done|]. cbn. rewrite IH. by destruct (P r). Qed.

(** The groups of rows with equal keys ([groupBy]), in some order of the keys. *)
Definition group_by {R K} `{EqDecision K} (key : R -> K) (rows : list R) : list (K * list R) :=
  (fun k => (k, rows_of key k rows)) <$> remove_dups (key <$> rows).

Lemma sumZ_map {A B} (g : A -> B) (f : B -> Z) l : sumZ f (g <$> l) = sumZ (fun x => f (g x)) l.
Proof. induction l as [|x l IH]; [done|]. cbn. by rewrite IH. Qed.

Lemma sumZ_perm {A} (f : A -> Z) l l' : l ≡ₚ l' -> sumZ f l = sumZ f l'.
Proof. induction 1; cbn; lia. Qed.

(** The groups partition the rows. *)
Lemma group_by_sum {R K} `{EqDecision K} (key : R -> K) (f : R -> Z) rows :
  sumZ (fun g => sumZ f g.2) (group_by key rows) = sumZ f rows.
Proof.
  unfold group_by. rewrite sumZ_map. cbn. apply sumZ_keys; [apply NoDup_remove_dups|].
  intros r Hr _. apply elem_of_remove_dups, list_elem_of_fmap. by exists r.
Qed.
