(* ===== verification/Effects.v ===== *)
(** * Effectful programs

    The services of the repository are asynchronous TypeScript methods: a
    sequence of awaited database statements, operator calls and clock reads,
    with [throw] and [try]/[catch].  A method is modelled once, as a value of
    [prog S A]: a tree whose nodes are the atomic accesses to the shared state
    [S] and whose leaves are a result or an exception.  The same tree has two
    readings.  [run] executes it alone (functional behaviour).  [pool_step]
    interleaves any number of them at every await point (concurrency between
    requests, nodes and sweeps), and [safe] is the rely-guarantee judgement,
    with ownership tokens, whose soundness theorem is [pool_safe]. *)

From S2P Require Import Prelude.

#[local] Set Warnings "-clear-no-such-hyp".

(** ** Exceptions and results *)

(** The exceptions the services throw; the string is the [message]. *)
Inductive exn :=
| BadRequest (m : string)
| Unauthorized (m : string)
| Forbidden (m : string)
| TooManyRequests
| NotFound (m : string)
| Conflict (m : string)
| UniqueViolation          (* Prisma P2002 *)
| RecordNotFound           (* Prisma P2025 / findUniqueOrThrow *)
| DbUnavailable            (* any other database error *)
| OperatorInsufficientFunds
| OperatorTimeout
| OperatorError (m : string)
| ReserveRejected (m : string) (* new Error("reserve_rejected") with rejectReason = m *)
| JsError (m : string).    (* new Error(m), RangeError, ... *)

#[export] Instance exn_eq_dec : EqDecision exn.
Proof. solve_decision. Defined.

Inductive res (A : Type) :=
| Ok (a : A)
| Raise (e : exn).
Arguments Ok {A} a.
Arguments Raise {A} e.

(** ** Programs *)

Inductive prog (S A : Type) : Type :=
| Done (r : res A)
| Act (X : Type) (f : S -> X * S) (k : X -> prog S A).
Arguments Done {S A} r.
Arguments Act {S A X} f k.

Fixpoint prog_bind {S A B} (k : A -> prog S B) (p : prog S A) : prog S B :=
  match p with
  | Done (Ok a) => k a
  | Done (Raise e) => Done (Raise e)
  | Act f c => Act f (fun x => prog_bind k (c x))
  end.

#[export] Instance prog_mret {S} : MRet (prog S) := fun A a => Done (Ok a).
#[export] Instance prog_mbind {S} : MBind (prog S) := fun A B => @prog_bind S A B.

Definition raise {S A} (e : exn) : prog S A := Done (Raise e).

(** [try { p } catch (e) { h(e) }] *)
Fixpoint try_catch {S A} (p : prog S A) (h : exn -> prog S A) : prog S A :=
  match p with
  | Done (Ok a) => Done (Ok a)
  | Done (Raise e) => h e
  | Act f c => Act f (fun x => try_catch (c x) h)
  end.

(** One atomic access. *)
Definition atom {S A} (f : S -> A * S) : prog S A := Act f (fun a => Done (Ok a)).

(** One atomic access that may throw. *)
Definition atom_res {S A} (f : S -> res A * S) : prog S A := Act f Done.

Definition gets {S A} (f : S -> A) : prog S A := atom (fun s => (f s, s)).

(** [if (c) p] as a statement. *)
Definition when {S} (c : bool) (p : prog S unit) : prog S unit :=
  if c then p else mret tt.

(** [for (const x of l) body(x)] *)
Fixpoint for_each {S A} (l : list A) (body : A -> prog S unit) : prog S unit :=
  match l with
  | [] => mret tt
  | x :: l => _ ← body x; for_each l body
  end.

(** [for (const x of l)] accumulating a value. *)
Fixpoint fold_each {S A B} (l : list A) (body : B -> A -> prog S B) (b : B) : prog S B :=
  match l with
  | [] => mret b
  | x :: l => b' ← body b x; fold_each l body b'
  end.

(** ** Sequential execution *)

Fixpoint run {S A} (p : prog S A) (s : S) : res A * S :=
  match p with
  | Done r => (r, s)
  | Act f k => let xs := f s in run (k (fst xs)) (snd xs)
  end.

(** The effect of a database transaction: run to completion in one step, and
    undo when it throws; [undo before after] is the state left then. *)
Definition run_transaction {S A} (undo : S -> S -> S) (p : prog S A) (s : S) : res A * S :=
  match run p s with
  | (Ok a, s') => (Ok a, s')
  | (Raise e, s') => (Raise e, undo s s')
  end.

(** ** Interleaving *)

(** A pool of programs sharing one state; any of them may take the next step. *)
Inductive pool_step {S} : S -> list (prog S unit) -> S -> list (prog S unit) -> Prop :=
| pool_step_act s ps i X (f : S -> X * S) k :
    ps !! i = Some (Act f k) ->
    pool_step s ps (snd (f s)) (<[i := k (fst (f s))]> ps).

Inductive pool_steps {S} : S -> list (prog S unit) -> S -> list (prog S unit) -> Prop :=
| pool_refl s ps : pool_steps s ps s ps
| pool_trans s1 ps1 s2 ps2 s3 ps3 :
    pool_step s1 ps1 s2 ps2 -> pool_steps s2 ps2 s3 ps3 -> pool_steps s1 ps1 s3 ps3.

(** A computable scheduler: run the given thread indices one step each. *)
Fixpoint schedule_pool {S} (sched : list nat) (s : S) (ps : list (prog S unit))
  : S * list (prog S unit) :=
  match sched with
  | [] => (s, ps)
  | i :: sched =>
      match ps !! i with
      | Some (Act f k) => let xs := f s in schedule_pool sched (snd xs) (<[i := k (fst xs)]> ps)
      | _ => schedule_pool sched s ps
      end
  end.

(** Forget a program's value, so that programs of any type enter a pool. *)
Definition forget {S A} (p : prog S A) : prog S unit := _ ← p; mret tt.

(** ** Laws of the monad and of [run] *)

Section laws.
Context {S : Type}.

Lemma bind_ret_l {A B} (a : A) (k : A -> prog S B) : (x ← mret a; k x) = k a.
Proof. done. Qed.

Lemma run_ret {A} (a : A) (s : S) : run (mret a) s = (Ok a, s).
Proof. done. Qed.

Lemma run_bind {A B} (p : prog S A) (k : A -> prog S B) s :
  run (x ← p; k x) s =
  match run p s with
  | (Ok a, s') => run (k a) s'
  | (Raise e, s') => (Raise e, s')
  end.
Proof.
  revert s; induction p as [[a|e]|X f c IH]; intros s; simpl; [done..|].
  apply IH.
Qed.

Lemma run_try {A} (p : prog S A) (h : exn -> prog S A) s :
  run (try_catch p h) s =
  match run p s with
  | (Ok a, s') => (Ok a, s')
  | (Raise e, s') => run (h e) s'
  end.
Proof.
  revert s; induction p as [[a|e]|X f c IH]; intros s; simpl; [done..|].
  apply IH.
Qed.

Lemma run_atom {A} (f : S -> A * S) s : run (atom f) s = (Ok (f s).1, (f s).2).
Proof. done. Qed.

Lemma run_atom_res {A} (f : S -> res A * S) s : run (atom_res f) s = f s.
Proof. unfold atom_res; simpl. by destruct (f s). Qed.

Lemma run_for_each_nil {A} (body : A -> prog S unit) s :
  run (for_each [] body) s = (Ok tt, s).
Proof. done. Qed.

(** An invariant that every iteration keeps holds after the loop. *)
Lemma run_for_each_inv {A} (P : S -> Prop) (l : list A) (body : A -> prog S unit) s :
  P s -> (forall x s, x ∈ l -> P s -> P (run (body x) s).2) -> P (run (for_each l body) s).2.
Proof.
  revert s; induction l as [|x l IH]; intros s Hs Hb; [done|].
  cbn [for_each]. rewrite run_bind. specialize (Hb x s) as Hx.
  destruct (run (body x) s) as [[[]|e] s'] eqn:E; simpl in *.
  - apply IH; [apply Hx; set_solver|]. intros; apply Hb; set_solver.
  - apply Hx; set_solver.
Qed.

Lemma run_fold_each_inv {A B} (P : S -> Prop) (l : list A) (body : B -> A -> prog S B) b s :
  P s -> (forall b x s, x ∈ l -> P s -> P (run (body b x) s).2) ->
  P (run (fold_each l body b) s).2.
Proof.
  revert s b; induction l as [|x l IH]; intros s b Hs Hb; [done|].
  cbn [fold_each]. rewrite run_bind. specialize (Hb b x s) as Hx.
  destruct (run (body b x) s) as [[b'|e] s'] eqn:E; simpl in *.
  - apply IH; [apply Hx; set_solver|]. intros; apply Hb; set_solver.
  - apply Hx; set_solver.
Qed.

(** [p] always ends without an exception and keeps [P]. *)
Definition total {A} (p : prog S A) : Prop := forall s, exists a, (run p s).1 = Ok a.

Lemma schedule_pool_steps sched (s : S) ps :
  pool_steps s ps (schedule_pool sched s ps).1 (schedule_pool sched s ps).2.
Proof.
  revert s ps; induction sched as [|i sched IH]; intros s ps; simpl; [constructor|].
  destruct (ps !! i) as [[r|X f k]|] eqn:E; [apply IH| |apply IH].
  econstructor; [by apply pool_step_act|apply IH].
Qed.
End laws.

Create Rewrite HintDb vr_run.
#[export] Hint Rewrite @run_bind @run_try @run_ret @run_atom @run_atom_res : vr_run.

(** Inversion of successful runs. *)
Lemma run_bind_ok {S A B} (p : prog S A) (k : A -> prog S B) s b s' :
  run (x ← p; k x) s = (Ok b, s') ->
  exists a s1, run p s = (Ok a, s1) /\ run (k a) s1 = (Ok b, s').
Proof. rewrite run_bind. destruct (run p s) as [[a|e] s1]; [eauto|done]. Qed.

(** ** Sequential specifications

    [spec P p Q]: run alone from a state in [P], [p] ends with a result and a
    state in [Q]. *)
Definition spec {S A} (P : S -> Prop) (p : prog S A) (Q : res A -> S -> Prop) : Prop :=
  forall s, P s -> Q (run p s).1 (run p s).2.

Section spec.
Context {S : Type}.

Lemma spec_ret {A} (P : S -> Prop) (a : A) (Q : res A -> S -> Prop) :
  (forall s, P s -> Q (Ok a) s) -> spec P (mret a) Q.
Proof. intros H s Hs. by apply H. Qed.

Lemma spec_raise {A} (P : S -> Prop) e (Q : res A -> S -> Prop) :
  (forall s, P s -> Q (Raise e) s) -> spec P (raise e) Q.
Proof. intros H s Hs. by apply H. Qed.

Lemma spec_bind {A B} (P : S -> Prop) (M : A -> S -> Prop) (p : prog S A) (k : A -> prog S B) Q :
  spec P p (fun r s => match r with Ok a => M a s | Raise e => Q (Raise e) s end) ->
  (forall a, spec (M a) (k a) Q) -> spec P (x ← p; k x) Q.
Proof.
  intros Hp Hk s Hs. rewrite run_bind. specialize (Hp s Hs).
  destruct (run p s) as [[a|e] s']; cbn [fst snd] in *; [by apply Hk|done].
Qed.

Lemma spec_try {A} (P : S -> Prop) (M : exn -> S -> Prop) (p : prog S A) h Q :
  spec P p (fun r s => match r with Ok a => Q (Ok a) s | Raise e => M e s end) ->
  (forall e, spec (M e) (h e) Q) -> spec P (try_catch p h) Q.
Proof.
  intros Hp Hk s Hs. rewrite run_try. specialize (Hp s Hs).
  destruct (run p s) as [[a|e] s']; cbn [fst snd] in *; [done|by apply Hk].
Qed.

Lemma spec_conseq {A} (P P' : S -> Prop) (p : prog S A) (Q Q' : res A -> S -> Prop) :
  spec P p Q -> (forall s, P' s -> P s) -> (forall r s, Q r s -> Q' r s) -> spec P' p Q'.
Proof. intros Hp HP HQ s Hs. apply HQ, Hp, HP, Hs. Qed.

Lemma spec_pure {A} (P : S -> Prop) (phi : Prop) (p : prog S A) (Q : res A -> S -> Prop) :
  (phi -> spec P p Q) -> spec (fun s => P s /\ phi) p Q.
Proof. intros H s [Hs Hphi]. by apply H. Qed.

Lemma spec_when (P : S -> Prop) (c : bool) p (Q : res unit -> S -> Prop) :
  (c = true -> spec P p Q) -> (c = false -> forall s, P s -> Q (Ok tt) s) -> spec P (when c p) Q.
Proof. destruct c; intros H1 H2; [by apply H1|]. apply spec_ret. by apply H2. Qed.

Lemma spec_for_each {A} (I : S -> Prop) (l : list A) body (Q : res unit -> S -> Prop) :
  (forall x, x ∈ l -> spec I (body x) (fun r s => match r with Ok _ => I s | Raise e => Q (Raise e) s end)) ->
  (forall s, I s -> Q (Ok tt) s) -> spec I (for_each l body) Q.
Proof.
  induction l as [|x l IH]; intros Hb HQ; [by apply spec_ret|]. cbn [for_each].
  apply (spec_bind _ (fun _ => I)); [apply Hb; by left|]. intros _. apply IH; [|done]. intros y Hy. apply Hb. by right.
Qed.
End spec.

(** ** Step relations

    [steps_in R p]: every atomic access of [p], from whatever state and with
    whatever answers, is a transition of [R]. *)
Fixpoint steps_in {S A} (R : S -> S -> Prop) (p : prog S A) : Prop :=
  match p with
  | Done _ => True
  | Act f k => (forall s, R s (f s).2) /\ (forall x, steps_in R (k x))
  end.

Section steps.
Context {S : Type} (R : S -> S -> Prop).

Lemma steps_ret {A} (a : A) : steps_in R (mret a : prog S A).
Proof. done. Qed.

Lemma steps_raise {A} e : steps_in R (raise e : prog S A).
Proof. done. Qed.

Lemma steps_bind {A B} (p : prog S A) (k : A -> prog S B) :
  steps_in R p -> (forall a, steps_in R (k a)) -> steps_in R (x ← p; k x).
Proof. intros Hp Hk. induction p as [[a|e]|X f c IH]; simpl in *; [done..|]. naive_solver. Qed.

Lemma steps_try {A} (p : prog S A) h :
  steps_in R p -> (forall e, steps_in R (h e)) -> steps_in R (try_catch p h).
Proof. intros Hp Hk. induction p as [[a|e]|X f c IH]; simpl in *; [done..|]. naive_solver. Qed.

Lemma steps_for_each {A} (l : list A) body :
  (forall x, steps_in R (body x)) -> steps_in R (for_each l body).
Proof. intros Hb. induction l; [done|]. cbn [for_each]. apply steps_bind; auto. Qed.

Lemma steps_fold_each {A B} (l : list A) (body : B -> A -> prog S B) b :
  (forall b x, steps_in R (body b x)) -> steps_in R (fold_each l body b).
Proof.
  intros Hb. revert b; induction l; intros; [done|]. cbn [fold_each]. apply steps_bind; auto.
Qed.

Lemma steps_when c p : steps_in R p -> steps_in R (when c p).
Proof. by destruct c. Qed.

Lemma steps_atom {A} (f : S -> A * S) : (forall s, R s (f s).2) -> steps_in R (atom f).
Proof. done. Qed.

Lemma steps_atom_res {A} (f : S -> res A * S) : (forall s, R s (f s).2) -> steps_in R (atom_res f).
Proof. done. Qed.

Lemma steps_forget {A} (p : prog S A) : steps_in R p -> steps_in R (forget p).
Proof. intros. apply steps_bind; [done|]. intros; apply steps_ret. Qed.

Lemma steps_mono {A} (R' : S -> S -> Prop) (p : prog S A) :
  (forall s s', R' s s' -> R s s') -> steps_in R' p -> steps_in R p.
Proof. intros HR. induction p as [r|X f k IH]; simpl; [done|]. intros [Hf Hk]. eauto. Qed.

Context `{!PreOrder R}.

Lemma steps_gets {A} (f : S -> A) : steps_in R (gets f).
Proof. apply steps_atom. intros s. simpl. reflexivity. Qed.

Lemma run_steps_in {A} (p : prog S A) s : steps_in R p -> R s (run p s).2.
Proof.
  revert s. induction p as [r|X f k IH]; simpl; intros s; [reflexivity|].
  intros [Hf Hk]. etrans; [apply Hf|]. apply IH, Hk.
Qed.

(** A program whose steps are in [R] changes the state by [R]. *)
Lemma spec_steps {A} (p : prog S A) s0 :
  steps_in R p -> spec (fun s => s = s0) p (fun _ s => R s0 s).
Proof. intros Hp s Hs. rewrite Hs. by apply run_steps_in. Qed.

(** Any interleaving of programs whose steps are in [R] is a transition of [R]. *)
Lemma pool_steps_in s ps s' ps' :
  pool_steps s ps s' ps' -> Forall (steps_in R) ps -> R s s'.
Proof.
  induction 1 as [|s1 ps1 s2 ps2 s3 ps3 Hstep Hsteps IH]; intros Hps; [reflexivity|].
  inversion Hstep as [s ps i X f k Hi]; subst.
  pose proof (Forall_lookup_1 _ _ _ _ Hps Hi) as [Hf Hk].
  etrans; [apply Hf|]. apply IH. apply Forall_insert; [done|apply Hk].
Qed.
End steps.

Create HintDb vr_steps.
#[export] Hint Resolve steps_ret steps_raise steps_when steps_for_each steps_fold_each
  steps_forget steps_gets : vr_steps.
#[export] Hint Extern 1 (PreOrder _) => typeclasses eauto : vr_steps.

(** Break a program down to its accesses. *)
Ltac steps :=
  repeat first
    [ progress intros
    | apply steps_ret | apply steps_raise
    | solve [eauto 3 with vr_steps]
    | apply steps_bind | apply steps_try | apply steps_when
    | apply steps_for_each | apply steps_fold_each | apply steps_forget
    | case_match ].

(** ** Rely-guarantee with history and ownership tokens

    [secure s o p Q], from the state [s] and owning the tokens [o]: whatever
    transitions of [R] the other threads make, every access of [p] is itself a
    transition of [R] and keeps the shared invariant [I], given the tokens all
    threads own.  What [p] learned at an earlier state it may use later through
    [R]; what it owns nobody else can take. *)

Section guarantee.
Context {S : Type} {T : Type} `{Countable T}.
Context (R : S -> S -> Prop) (I : S -> gset T -> Prop).

Fixpoint secure {A} (s : S) (o : gset T) (p : prog S A) (Q : S -> gset T -> res A -> Prop) : Prop :=
  match p with
  | Done r => Q s o r
  | Act f k => forall s' F, R s s' -> o ## F -> I s' (o ∪ F) ->
      R s' (f s').2 /\
      exists o', o' ## F /\ I (f s').2 (o' ∪ F) /\ secure (f s').2 o' (k (f s').1) Q
  end.

(** The tokens owned by a pool, thread by thread. *)
Inductive pool_secure (s : S) : list (gset T) -> list (prog S unit) -> Prop :=
| pool_secure_nil : pool_secure s [] []
| pool_secure_cons o p os ps :
    secure s o p (fun _ _ _ => True) -> o ## ⋃ os -> pool_secure s os ps ->
    pool_secure s (o :: os) (p :: ps).

Lemma secure_weaken {A} s o (p : prog S A) (Q Q' : S -> gset T -> res A -> Prop) :
  secure s o p Q -> (forall s' o r, Q s' o r -> Q' s' o r) -> secure s o p Q'.
Proof.
  revert s o; induction p as [r|X f k IH]; simpl; intros s o Hs HQ; [auto|].
  intros s' F HR Ho HI. destruct (Hs s' F HR Ho HI) as (? & o' & ? & ? & ?). eauto 10.
Qed.

Lemma secure_ret {A} s o (a : A) (Q : S -> gset T -> res A -> Prop) :
  Q s o (Ok a) -> secure s o (mret a) Q.
Proof. done. Qed.

Lemma secure_raise {A} s o e (Q : S -> gset T -> res A -> Prop) :
  Q s o (Raise e) -> secure s o (raise e) Q.
Proof. done. Qed.

Lemma secure_bind {A B} s o (p : prog S A) (k : A -> prog S B) Q :
  secure s o p (fun s' o' r =>
    match r with Ok a => secure s' o' (k a) Q | Raise e => Q s' o' (Raise e) end) ->
  secure s o (x ← p; k x) Q.
Proof.
  revert s o; induction p as [[a|e]|X f c IH]; simpl; intros s o Hs; [done..|].
  intros s' F HR Ho HI. destruct (Hs s' F HR Ho HI) as (? & o' & ? & ? & ?).
  split; [done|]. exists o'. eauto.
Qed.

Lemma secure_try {A} s o (p : prog S A) (h : exn -> prog S A) Q :
  secure s o p (fun s' o' r =>
    match r with Ok a => Q s' o' (Ok a) | Raise e => secure s' o' (h e) Q end) ->
  secure s o (try_catch p h) Q.
Proof.
  revert s o; induction p as [[a|e]|X f c IH]; simpl; intros s o Hs; [done..|].
  intros s' F HR Ho HI. destruct (Hs s' F HR Ho HI) as (? & o' & ? & ? & ?).
  split; [done|]. exists o'. eauto.
Qed.

Context `{!PreOrder R}.

(** Time passes between two accesses. *)
Lemma secure_later {A} s s' o (p : prog S A) Q :
  R s s' -> secure s o p Q -> (forall s s' o r, R s s' -> Q s o r -> Q s' o r) -> secure s' o p Q.
Proof.
  destruct p as [r|X f k]; simpl; intros HR Hs HQ; [eauto|].
  intros s'' F HR' Ho HI. apply Hs; [by etrans|done..].
Qed.

(** A program all of whose accesses keep [R] and [I] while the thread's
    tokens stay with it. *)
Lemma secure_steps {A} (M : S -> S -> Prop) s o (p : prog S A) Q :
  steps_in M p ->
  (forall s1 s2 F, R s s1 -> o ## F -> I s1 (o ∪ F) -> M s1 s2 -> R s1 s2 /\ I s2 (o ∪ F)) ->
  (forall s' r, R s s' -> Q s' o r) -> secure s o p Q.
Proof.
  intros Hp HM HQ.
  assert (Hgen : forall s1, R s s1 -> secure s1 o p Q); [|by apply Hgen].
  induction p as [r|X f k IH]; simpl in *; intros s1 Hs1; [by apply HQ|].
  destruct Hp as [Hf Hk]. intros s' F HR Ho HI.
  destruct (HM s' (f s').2 F) as [HR' HI']; [by etrans|done|done|apply Hf|].
  split; [done|]. exists o. split; [done|]. split; [done|]. apply IH; [apply Hk|].
  etrans; [exact Hs1|]. by etrans.
Qed.

Lemma secure_for_each {A} s o (l : list A) (body : A -> prog S unit) Q :
  (forall s', R s s' -> Q s' o (Ok tt)) ->
  (forall x s', x ∈ l -> R s s' -> secure s' o (body x) (fun s2 o' r =>
      R s' s2 /\ match r with Ok _ => o' = o | Raise e => Q s2 o' (Raise e) end)) ->
  secure s o (for_each l body) Q.
Proof.
  intros HQ Hb.
  assert (Hgen : forall s1, R s s1 -> secure s1 o (for_each l body) Q); [|by apply Hgen].
  induction l as [|x l IH]; intros s1 Hs1; [by apply HQ|]. cbn [for_each].
  apply secure_bind. eapply secure_weaken; [apply Hb; [by left|done]|].
  cbv beta. intros s2 o' [[]|e] [HR Hr]; [subst|done].
  apply IH; [intros; apply Hb; [by right|done]|]. by etrans.
Qed.

Lemma secure_fold_each {A B} s o (l : list A) (body : B -> A -> prog S B) b Q :
  (forall s' b, R s s' -> Q s' o (Ok b)) ->
  (forall x b s', x ∈ l -> R s s' -> secure s' o (body b x) (fun s2 o' r =>
      R s' s2 /\ match r with Ok _ => o' = o | Raise e => Q s2 o' (Raise e) end)) ->
  secure s o (fold_each l body b) Q.
Proof.
  intros HQ Hb.
  assert (Hgen : forall s1 b, R s s1 -> secure s1 o (fold_each l body b) Q); [|by apply Hgen].
  clear b. induction l as [|x l IH]; intros s1 b Hs1; [by apply HQ|]. cbn [fold_each].
  apply secure_bind. eapply secure_weaken; [apply Hb; [by left|done]|].
  cbv beta. intros s2 o' [b'|e] [HR Hr]; [subst|done].
  apply IH; [intros; apply Hb; [by right|done]|]. by etrans.
Qed.

Lemma secure_forget {A} s o (p : prog S A) :
  secure s o p (fun _ _ _ => True) -> secure s o (forget p) (fun _ _ _ => True).
Proof. intros Hs. apply secure_bind. eapply secure_weaken; [done|]. by intros s' o' [a|e]. Qed.

(** Threads that start with no token. *)
Lemma union_list_idle (n : nat) : ⋃ replicate n (∅ : gset T) = ∅.
Proof. induction n as [|n IH]; [done|]. cbn. rewrite IH. set_solver. Qed.

Lemma pool_secure_idle s ps :
  Forall (fun p => secure s ∅ p (fun _ _ _ => True)) ps -> pool_secure s (replicate (length ps) ∅) ps.
Proof. induction 1; cbn; constructor; [done|set_solver|done]. Qed.

Lemma pool_secure_later s s' os ps : R s s' -> pool_secure s os ps -> pool_secure s' os ps.
Proof. intros HR. induction 1; constructor; [by eapply secure_later|done..]. Qed.

(** Replacing one thread and its tokens after a transition. *)
Lemma pool_secure_update s s' (os : list (gset T)) ps (i : nat) (p : prog S unit) :
  pool_secure s os ps -> R s s' -> ps !! i = Some p ->
  exists o F : gset T, secure s o p (fun _ _ _ => True) /\ o ## F /\ ⋃ os = o ∪ F /\
    forall (o' : gset T) p', o' ## F -> secure s' o' p' (fun _ _ _ => True) ->
      exists os', pool_secure s' os' (<[i:=p']> ps) /\ ⋃ os' = o' ∪ F.
Proof.
  intros Hok HR; revert i; induction Hok as [|o1 p1 os ps Hs Hd Hok IH]; intros i Hp; [done|].
  destruct i as [|i]; simpl in Hp; simplify_eq.
  - exists o1, (⋃ os). split; [done|]. split; [done|]. split; [done|]. intros o' p' Ho' Hp'.
    exists (o' :: os). split; [|done]. constructor; [done..|]. by eapply pool_secure_later.
  - destruct (IH i Hp) as (o & F & Ho & HF & HU & Hupd).
    exists o, (o1 ∪ F). assert (Hs' := secure_later _ _ _ _ _ HR Hs ltac:(done)).
    clear Hok IH Hp Hs.
    split; [done|]. split; [clear Ho Hupd Hs'; set_solver|].
    split; [clear Ho Hupd Hs'; cbn; set_solver|].
    intros o' p' Ho' Hp'. destruct (Hupd o' p') as (os' & Hok' & HU');
      [clear Hp' Hupd Ho Hs'; set_solver|done|].
    exists (o1 :: os'). clear Hupd Ho.
    split; [constructor; [exact Hs'|clear Hs' Hok' Hp'|exact Hok']|clear Hs' Hok' Hp']; cbn in *; set_solver.
Qed.

(** Soundness: every interleaving is a transition of [R] and keeps [I]. *)
Lemma pool_secure_sound s ps s' ps' os :
  pool_steps s ps s' ps' -> pool_secure s os ps -> I s (⋃ os) ->
  exists os', pool_secure s' os' ps' /\ I s' (⋃ os') /\ R s s'.
Proof.
  intros Hsteps; revert os.
  induction Hsteps as [s ps|s1 ps1 s2 ps2 s3 ps3 Hstep Hsteps IH]; intros os Hok HI.
  { exists os. split_and!; [done..|reflexivity]. }
  inversion Hstep as [s ps i X f k Hi]; subst. clear Hstep Hsteps.
  destruct (pool_secure_update _ s1 _ _ _ _ Hok ltac:(reflexivity) Hi) as (o0 & F0 & Hs0 & Hd0 & HU0 & _).
  rewrite HU0 in HI. destruct (Hs0 s1 F0 ltac:(reflexivity) Hd0 HI) as (HR & _).
  destruct (pool_secure_update _ (f s1).2 _ _ _ _ Hok HR Hi) as (o & F & Hs & Hd & HU & Hupd).
  rewrite <- HU0, HU in HI. destruct (Hs s1 F ltac:(reflexivity) Hd HI) as (_ & o' & Hd' & HI' & Hs').
  destruct (Hupd o' _ Hd' Hs') as (os' & Hok' & HU').
  rewrite <- HU' in HI'. destruct (IH os' Hok' HI') as (os2 & Hok2 & HI2 & HR2).
  exists os2. split_and!; [done..|]. by etrans.
Qed.
End guarantee.

(** ** Rely-guarantee with tokens only

    The same judgement when the invariant and the tokens are all that matters. *)

Section safety.
Context {S : Type} {T : Type} `{Countable T}.
(** [I s own]: the shared invariant, given the tokens owned by all threads. *)
Context (I : S -> gset T -> Prop).

(** [safe o p Q]: started with the tokens [o], [p] keeps [I] at every step
    whatever the other threads do, and ends owning tokens that satisfy [Q]. *)
Fixpoint safe {A} (o : gset T) (p : prog S A) (Q : gset T -> res A -> Prop) : Prop :=
  match p with
  | Done r => Q o r
  | Act f k => forall s F, o ## F -> I s (o ∪ F) ->
      exists o', o' ## F /\ I (f s).2 (o' ∪ F) /\ safe o' (k (f s).1) Q
  end.

Lemma safe_weaken {A} o (p : prog S A) (Q Q' : gset T -> res A -> Prop) :
  safe o p Q -> (forall o r, Q o r -> Q' o r) -> safe o p Q'.
Proof.
  revert o; induction p as [r|X f k IH]; simpl; intros o Hs HQ; [auto|].
  intros s F Ho HI. destruct (Hs s F Ho HI) as (o' & ? & ? & ?).
  exists o'; eauto.
Qed.

Lemma safe_ret {A} o (a : A) (Q : gset T -> res A -> Prop) : Q o (Ok a) -> safe o (mret a) Q.
Proof. done. Qed.

Lemma safe_raise {A} o e (Q : gset T -> res A -> Prop) : Q o (Raise e) -> safe o (raise e) Q.
Proof. done. Qed.

Lemma safe_bind {A B} o (p : prog S A) (k : A -> prog S B) Q :
  safe o p (fun o' r => match r with Ok a => safe o' (k a) Q | Raise e => Q o' (Raise e) end) ->
  safe o (x ← p; k x) Q.
Proof.
  revert o; induction p as [[a|e]|X f c IH]; simpl; intros o Hs; [done..|].
  intros s F Ho HI. destruct (Hs s F Ho HI) as (o' & ? & ? & ?). exists o'. eauto.
Qed.

Lemma safe_try {A} o (p : prog S A) (h : exn -> prog S A) Q :
  safe o p (fun o' r => match r with Ok a => Q o' (Ok a) | Raise e => safe o' (h e) Q end) ->
  safe o (try_catch p h) Q.
Proof.
  revert o; induction p as [[a|e]|X f c IH]; simpl; intros o Hs; [done..|].
  intros s F Ho HI. destruct (Hs s F Ho HI) as (o' & ? & ? & ?). exists o'. eauto.
Qed.

(** A step that changes nothing needs no ownership argument. *)
Lemma safe_gets {A} o (f : S -> A) Q :
  (forall s F, I s (o ∪ F) -> Q o (Ok (f s))) -> safe o (gets f) Q.
Proof. intros HQ s F Ho HI. exists o. simpl. eauto using HQ. Qed.

(** A program all of whose accesses keep [I] while the tokens stay put. *)
Lemma safe_steps {A} (M : S -> S -> Prop) o (p : prog S A) (Q : gset T -> res A -> Prop) :
  steps_in M p ->
  (forall s s' F, o ## F -> I s (o ∪ F) -> M s s' -> I s' (o ∪ F)) ->
  (forall r, Q o r) -> safe o p Q.
Proof.
  intros Hp HM HQ. induction p as [r|X f k IH]; simpl in *; [apply HQ|].
  destruct Hp as [Hf Hk]. intros s F Ho HI. exists o. split; [done|]. split; [by eapply HM|]. apply IH, Hk.
Qed.

Lemma safe_for_each {A} o (l : list A) (body : A -> prog S unit) (Q : gset T -> res unit -> Prop) :
  Q o (Ok tt) ->
  (forall x, x ∈ l -> safe o (body x)
      (fun o' r => match r with Ok _ => o' = o | Raise e => Q o' (Raise e) end)) ->
  safe o (for_each l body) Q.
Proof.
  intros HQ; induction l as [|x l IH]; intros Hb; [done|]. cbn [for_each].
  apply safe_bind. eapply safe_weaken; [apply Hb; set_solver|].
  intros o' [[]|e]; [intros ->; apply IH; intros; apply Hb; set_solver|done].
Qed.

Lemma safe_fold_each {A B} o (l : list A) (body : B -> A -> prog S B) b (Q : gset T -> res B -> Prop) :
  (forall b, Q o (Ok b)) ->
  (forall x b, x ∈ l -> safe o (body b x)
      (fun o' r => match r with Ok _ => o' = o | Raise e => Q o' (Raise e) end)) ->
  safe o (fold_each l body b) Q.
Proof.
  intros HQ; revert b; induction l as [|x l IH]; intros b Hb; [apply HQ|]. cbn [fold_each].
  apply safe_bind. eapply safe_weaken; [apply Hb; set_solver|].
  intros o' [b'|e]; [intros ->; apply IH; intros; apply Hb; set_solver|done].
Qed.

Lemma safe_forget {A} o (p : prog S A) :
  safe o p (fun _ _ => True) -> safe o (forget p) (fun _ _ => True).
Proof. intros Hs. apply safe_bind. eapply safe_weaken; [done|]. by intros o' [a|e]. Qed.

Definition always (_ _ : S) : Prop := True.
#[export] Instance always_preorder : PreOrder always.
Proof. by split. Qed.

Lemma safe_secure {A} s o (p : prog S A) Q :
  safe o p Q -> secure always I s o p (fun _ => Q).
Proof.
  revert s o; induction p as [r|X f k IH]; simpl; intros s o Hs; [done|].
  intros s' F _ Ho HI. destruct (Hs s' F Ho HI) as (o' & ? & ? & ?). split; [done|]. eauto 10.
Qed.

(** Soundness, for threads that start with no token. *)
Lemma pool_safe s ps s' ps' :
  pool_steps s ps s' ps' -> Forall (fun p => safe ∅ p (fun _ _ => True)) ps -> I s ∅ ->
  exists own, I s' own.
Proof.
  intros Hsteps Hps HI.
  destruct (pool_secure_sound always I s ps s' ps' (replicate (length ps) ∅) Hsteps) as (os' & _ & ? & _).
  - apply pool_secure_idle; [apply _|]. eapply Forall_impl; [exact Hps|]. intros p. apply (safe_secure s).
  - by rewrite union_list_idle.
  - eauto.
Qed.
End safety.

(** Pass a value on to what follows. *)
Ltac secure_next :=
  cbv beta iota;
  repeat lazymatch goal with
  | |- secure _ _ _ _ (mret _) _ => apply secure_ret; cbv beta iota
  | |- secure _ _ _ _ (raise _) _ => apply secure_raise; cbv beta iota
  | |- safe _ _ (mret _) _ => apply safe_ret; cbv beta iota
  | |- safe _ _ (raise _) _ => apply safe_raise; cbv beta iota
  end.
