(* ===== verification/Js.v ===== *)
(** * The parts of JavaScript's library the services use

    Strings (code units in the Latin-1 range), [Number] and [BigInt] parsing,
    JSON values.  [Number(s)] is modelled by the exact rational the literal
    denotes, so a literal that needs more than 53 significant bits keeps the
    digits a double would round. *)

From S2P Require Import Prelude.
From Stdlib Require Import QArith DecimalString DecimalZ.


Open Scope Z_scope.

(** ** Characters *)

Definition code (a : ascii) : Z := Z.of_N (N_of_ascii a).
Definition in_range (lo hi : Z) (a : ascii) : bool := (lo <=? code a) && (code a <=? hi).
Definition is_digit := in_range 48 57.
Definition is_upper := in_range 65 90.
Definition is_lower := in_range 97 122.
Definition is_alpha (a : ascii) : bool := is_upper a || is_lower a.
Definition is_alnum (a : ascii) : bool := is_alpha a || is_digit a.
Definition is_hex (a : ascii) : bool := is_digit a || in_range 65 70 a || in_range 97 102 a.
Definition is_space (a : ascii) : bool := in_range 9 13 a || (code a =? 32) || (code a =? 160).

Definition upper_char (a : ascii) : ascii :=
  if is_lower a then ascii_of_N (Z.to_N (code a - 32)) else a.
Definition lower_char (a : ascii) : ascii :=
  if is_upper a then ascii_of_N (Z.to_N (code a + 32)) else a.

(** ** Strings *)

Fixpoint string_map (f : ascii -> ascii) (s : string) : string :=
  match s with
  | EmptyString => EmptyString
  | String a s => String (f a) (string_map f s)
  end.

Definition toUpperCase := string_map upper_char.
Definition toLowerCase := string_map lower_char.

(** [/^[class]*$/] *)
Fixpoint all_chars (p : ascii -> bool) (s : string) : bool :=
  match s with
  | EmptyString => true
  | String a s => p a && all_chars p s
  end.

Definition nonempty (s : string) : bool :=
  match s with EmptyString => false | _ => true end.

Fixpoint drop_while (p : ascii -> bool) (s : string) : string :=
  match s with
  | String a s' => if p a then drop_while p s' else s
  | EmptyString => EmptyString
  end.

Fixpoint drop_end (p : ascii -> bool) (s : string) : string :=
  match s with
  | EmptyString => EmptyString
  | String a s =>
      match drop_end p s with
      | EmptyString => if p a then EmptyString else String a EmptyString
      | r => String a r
      end
  end.

Definition trim (s : string) : string := drop_end is_space (drop_while is_space s).

Definition startsWith (p s : string) : bool := String.prefix p s.

(** [s.slice(n)] for a non-negative [n]. *)
Fixpoint slice_from (n : nat) (s : string) : string :=
  match n, s with
  | O, _ => s
  | S n, String _ s => slice_from n s
  | S _, EmptyString => EmptyString
  end.

Definition endsWith (suf s : string) : bool :=
  (String.length suf <=? String.length s)%nat &&
  eqb_str (slice_from (String.length s - String.length suf) s) suf.

(** [s.includes(sub)] *)
Fixpoint includes (sub s : string) : bool :=
  startsWith sub s || match s with String _ s => includes sub s | EmptyString => false end.

(** [s.slice(0, n)] *)
Fixpoint slice_to (n : nat) (s : string) : string :=
  match n, s with
  | S n, String a s => String a (slice_to n s)
  | _, _ => EmptyString
  end.

(** [s.split(c)] *)
Fixpoint split_on (c : ascii) (s : string) : list string :=
  match s with
  | EmptyString => [EmptyString]
  | String a s =>
      if Ascii.eqb a c then EmptyString :: split_on c s
      else match split_on c s with
           | w :: ws => String a w :: ws
           | [] => [String a EmptyString]
           end
  end.

(** [l.join(c)] *)
Fixpoint join_with (c : ascii) (l : list string) : string :=
  match l with
  | [] => EmptyString
  | [w] => w
  | w :: ws => (w +:+ String c (join_with c ws))%string
  end.

(** [s.padStart(n, c)] *)
Definition padStart (n : nat) (c : ascii) (s : string) : string :=
  (String.concat "" (replicate (n - String.length s) (String c EmptyString)) +:+ s)%string.

(** ** Integers in strings *)

Definition digit_value (a : ascii) : Z :=
  if is_digit a then code a - 48
  else if is_upper a then code a - 55
  else if is_lower a then code a - 87
  else 99.

Fixpoint digits_value (base acc : Z) (s : string) : option Z :=
  match s with
  | EmptyString => Some acc
  | String a s =>
      let d := digit_value a in
      if d <? base then digits_value base (base * acc + d) s else None
  end.

Definition parse_digits (base : Z) (s : string) : option Z :=
  match s with
  | EmptyString => None
  | _ => digits_value base 0 s
  end.

(** A decimal literal, by the Standard Library's decimal syntax. *)
Definition decimal_digits (s : string) : option Z :=
  Z.of_uint <$> NilZero.uint_of_string s.

(** [v.toString()] of a BigInt. *)
Definition BigInt_toString (v : Z) : string := NilZero.string_of_int (Z.to_int v).

(** A literal with a [0x], [0o] or [0b] prefix. *)
Definition prefixed_literal (s : string) : option Z :=
  match s with
  | String z (String c d) =>
      if negb (Ascii.eqb z "0"%char) then None
      else if Ascii.eqb (lower_char c) "x"%char then parse_digits 16 d
      else if Ascii.eqb (lower_char c) "o"%char then parse_digits 8 d
      else if Ascii.eqb (lower_char c) "b"%char then parse_digits 2 d
      else None
  | _ => None
  end.

(** [BigInt(s)] of a string; [None] is its SyntaxError. *)
Definition js_BigInt (s0 : string) : option Z :=
  let s := trim s0 in
  match s with
  | EmptyString => Some 0
  | String a d =>
      if Ascii.eqb a "-"%char then Z.opp <$> decimal_digits d
      else if Ascii.eqb a "+"%char then decimal_digits d
      else match prefixed_literal s with
           | Some z => Some z
           | None => decimal_digits s
           end
  end.

(** ** Numbers *)

Inductive jsnum := NaN | Infinite (negative : bool) | Fin (q : Q).

(** The decimal part of [Number]: digits, an optional fraction, an optional exponent. *)
Definition parse_fraction (s : string) : option Q :=
  match split_on "."%char s with
  | [i] => inject_Z <$> decimal_digits i
  | [i; f] =>
      let pow := Pos.pow 10 (Pos.of_nat (String.length f)) in
      match i, f with
      | EmptyString, EmptyString => None
      | EmptyString, _ => (fun fz => Qmake fz pow) <$> decimal_digits f
      | _, EmptyString => inject_Z <$> decimal_digits i
      | _, _ => iz ← decimal_digits i; fz ← decimal_digits f;
                Some (inject_Z iz + Qmake fz pow)%Q
      end
  | _ => None
  end.

Definition parse_exponent (s : string) : option Z :=
  match s with
  | String a d =>
      if Ascii.eqb a "-"%char then Z.opp <$> decimal_digits d
      else if Ascii.eqb a "+"%char then decimal_digits d
      else decimal_digits s
  | EmptyString => None
  end.

Definition parse_decimal (s : string) : option Q :=
  match split_on "e"%char (string_map lower_char s) with
  | [m] => parse_fraction m
  | [m; e] => q ← parse_fraction m; z ← parse_exponent e; Some (q * Qpower 10 z)%Q
  | _ => None
  end.

(** [Number(s)] of a string. *)
Definition js_Number (s0 : string) : jsnum :=
  let s := trim s0 in
  match s with
  | EmptyString => Fin 0
  | String a d =>
      if eqb_str s "Infinity" || eqb_str s "+Infinity" then Infinite false
      else if eqb_str s "-Infinity" then Infinite true
      else if Ascii.eqb a "-"%char then
        match parse_decimal d with Some q => Fin (- q) | None => NaN end
      else if Ascii.eqb a "+"%char then
        match parse_decimal d with Some q => Fin q | None => NaN end
      else match prefixed_literal s with
           | Some z => Fin (inject_Z z)
           | None => match parse_decimal s with Some q => Fin q | None => NaN end
           end
  end.

(** [Number(v)] of an environment variable, where undefined gives NaN. *)
Definition js_Number_opt (v : option string) : jsnum :=
  match v with Some s => js_Number s | None => NaN end.

Definition Qfloor_Z (q : Q) : Z := Qnum q / Zpos (Qden q).

Definition js_isInteger (n : jsnum) : bool :=
  match n with Fin q => Qnum q mod Zpos (Qden q) =? 0 | _ => false end.

(** [n >= z] and [n > z] for an integer [z]; false on NaN. *)
Definition js_ge (n : jsnum) (z : Z) : bool :=
  match n with
  | NaN => false
  | Infinite neg => negb neg
  | Fin q => z * Zpos (Qden q) <=? Qnum q
  end.
Definition js_gt (n : jsnum) (z : Z) : bool :=
  match n with
  | NaN => false
  | Infinite neg => negb neg
  | Fin q => z * Zpos (Qden q) <? Qnum q
  end.
Definition js_lt (n : jsnum) (z : Z) : bool :=
  match n with
  | NaN => false
  | Infinite neg => neg
  | Fin q => Qnum q <? z * Zpos (Qden q)
  end.
Definition js_le (n : jsnum) (z : Z) : bool :=
  match n with
  | NaN => false
  | Infinite neg => neg
  | Fin q => Qnum q <=? z * Zpos (Qden q)
  end.
Definition js_isFinite (n : jsnum) : bool :=
  match n with Fin _ => true | _ => false end.

(** ** JSON values *)

#[warnings="-register-all"]
Inductive json :=
| JNull
| JBool (b : bool)
| JNum (q : Q)
| JStr (s : string)
| JArr (l : list json)
| JObj (fields : list (string * json)).

Definition js_int (z : Z) : jsnum := Fin (inject_Z z).

(** [Number(b)] of a [bigint]: the nearest double, ties to even
    (a column of 64 bits stays finite). *)
Definition bigint_to_number (z : Z) : Z :=
  let m := Z.abs z in
  if m <? 2 ^ 53 then z
  else
    let s := Z.log2 m - 52 in
    let q := m / 2 ^ s in
    let r := m mod 2 ^ s in
    let half := 2 ^ (s - 1) in
    Z.sgn z * ((if (half <? r) || ((r =? half) && Z.odd q) then q + 1 else q) * 2 ^ s).

(** [z.string().min(n)] of a field, in the schemas of the controllers. *)
Definition z_min (n : nat) (v : option json) : option string :=
  match v with Some (JStr s) => if (n <=? String.length s)%nat then Some s else None | _ => None end.

(** [Number(v)] of a JSON value: an array is its joined text, so at most one
    element counts. *)
Fixpoint json_Number (v : json) : jsnum :=
  match v with
  | JNull => js_int 0
  | JBool b => js_int (if b then 1 else 0)
  | JNum q => Fin q
  | JStr s => js_Number s
  | JArr [] => js_int 0
  | JArr [JBool _] => NaN
  | JArr [v] => json_Number v
  | JArr _ | JObj _ => NaN
  end.

(** [BigInt(v)] of a JSON value; [None] is its exception.  An array is its
    joined text, so at most one element counts; a number of 10^21 or more prints
    in scientific notation, which is no BigInt literal. *)
Fixpoint json_BigInt (v : json) : option Z :=
  match v with
  | JNull => None
  | JBool b => Some (if b then 1 else 0)
  | JNum q => if js_isInteger (Fin q) then Some (Qfloor_Z q) else None
  | JStr s => js_BigInt s
  | JArr [] | JArr [JNull] => Some 0
  | JArr [JBool _] => None
  | JArr [JNum q] => if js_isInteger (Fin q) && (Z.abs (Qfloor_Z q) <? 10 ^ 21) then Some (Qfloor_Z q) else None
  | JArr [v] => json_BigInt v
  | JArr _ | JObj _ => None
  end.

(** [o.k] of an object; undefined when absent.  A later field of the same name
    wins, as [JSON.parse] has it. *)
Fixpoint assoc_last (k : string) (l : list (string * json)) : option json :=
  match l with
  | [] => None
  | (k', v) :: l =>
      match assoc_last k l with
      | Some v' => Some v'
      | None => if eqb_str k k' then Some v else None
      end
  end.

(** [Object.keys(o)]: each own name once, where it first appeared.  (Names that
    are array indices come first in JavaScript; the services only look a name up
    in this order by its letters' case, where indices cannot differ.) *)
Definition js_keys (fields : list (string * json)) : list string :=
  rev (remove_dups (rev fields.*1)).

(** ** Lemmas *)

Lemma upper_char_idem a : upper_char (upper_char a) = upper_char a.
Proof. destruct a as [[] [] [] [] [] [] [] []]; vm_compute; reflexivity. Qed.

Lemma upper_char_sep a : upper_char a = ":"%char -> a = ":"%char.
Proof. destruct a as [[] [] [] [] [] [] [] []]; vm_compute; congruence. Qed.

Lemma toUpperCase_idem s : toUpperCase (toUpperCase s) = toUpperCase s.
Proof.
  unfold toUpperCase. induction s as [|a s IH]; simpl; [done|].
  by rewrite upper_char_idem, IH.
Qed.

Lemma split_on_nonempty c s : split_on c s <> [].
Proof. destruct s as [|a s]; simpl; [done|]. destruct (Ascii.eqb a c); [done|]. by destruct (split_on c s). Qed.

(** A word without the separator is one field. *)
Lemma split_on_word c s : lacks c s -> split_on c s = [s].
Proof.
  induction s as [|a s IH]; simpl; [done|]. intros [Ha Hs].
  rewrite (proj2 (Ascii.eqb_neq a c) Ha), (IH Hs). done.
Qed.

Lemma split_on_cons c w s :
  lacks c w -> split_on c (w +:+ String c s)%string = w :: split_on c s.
Proof.
  induction w as [|a w IH]; simpl; intros Hw.
  - by rewrite Ascii.eqb_refl.
  - destruct Hw as [Ha Hw]. rewrite (proj2 (Ascii.eqb_neq a c) Ha), (IH Hw). done.
Qed.

(** The fields of a split hold no separator, and join back. *)
Lemma split_parts s : forall c, Forall (lacks c) (split_on c s) /\ s = join_with c (split_on c s).
Proof.
  intros c. induction s as [|a s [IH1 IH2]]; cbn; [by repeat constructor|].
  destruct (Ascii.eqb_spec a c) as [->|Hne].
  - split; [by constructor|]. pose proof (split_on_nonempty c s). destruct (split_on c s) as [|w ws]; [done|].
    cbn in *. by rewrite IH2 at 1.
  - destruct (split_on c s) as [|w ws] eqn:E; [by destruct (split_on_nonempty c s)|].
    apply Forall_cons in IH1 as [Hw Hws]. split; [by constructor|].
    rewrite IH2 at 1. by destruct ws.
Qed.

(** [split] undoes [join] on words without the separator. *)
Lemma split_join c l :
  l <> [] -> Forall (lacks c) l -> split_on c (join_with c l) = l.
Proof.
  induction l as [|w l IH]; [done|]. intros _ Hl. apply Forall_cons in Hl as [Hw Hl].
  destruct l as [|w' l]; [by apply split_on_word|].
  change (join_with c (w :: w' :: l)) with (w +:+ String c (join_with c (w' :: l)))%string.
  rewrite split_on_cons by done. by rewrite IH.
Qed.

Lemma all_chars_lacks p c s : p c = false -> all_chars p s = true -> lacks c s.
Proof.
  intros Hc. induction s as [|a s IH]; simpl; [done|].
  rewrite andb_true_iff. intros [Ha Hs]. split; [congruence|auto].
Qed.

Lemma all_chars_app p a b : all_chars p (a +:+ b)%string = all_chars p a && all_chars p b.
Proof. induction a as [|h a IH]; simpl; [done|]. by rewrite IH, andb_assoc. Qed.

(** ** Printing and parsing integers *)

Lemma all_chars_slice p n s : all_chars p s = true -> all_chars p (slice_to n s) = true.
Proof.
  revert n; induction s as [|a s IH]; intros [|n]; try done. simpl.
  rewrite !andb_true_iff. intros [Ha Hs]. auto.
Qed.

Lemma slice_to_length n s : (n <= String.length s)%nat -> String.length (slice_to n s) = n.
Proof. revert n; induction s as [|a s IH]; intros [|n] Hn; simpl in *; [lia..|]. rewrite IH; lia. Qed.

Lemma slice_to_short n s : (String.length (slice_to n s) <= n)%nat.
Proof. revert n; induction s as [|a s IH]; intros [|n]; simpl; try lia. specialize (IH n). lia. Qed.

(** What holds of all characters survives trimming. *)
Lemma all_chars_drop_while p q s : all_chars p s = true -> all_chars p (drop_while q s) = true.
Proof. induction s as [|a s IH]; [done|]. cbn. intros [Ha Hs]%andb_true_iff. destruct (q a); [by apply IH|]. cbn. by rewrite Ha. Qed.

Lemma all_chars_drop_end p q s : all_chars p s = true -> all_chars p (drop_end q s) = true.
Proof.
  induction s as [|a s IH]; [done|]. cbn. intros [Ha Hs]%andb_true_iff. specialize (IH Hs).
  destruct (drop_end q s); [destruct (q a); [done|]; cbn; by rewrite Ha|]. cbn in *. by rewrite Ha.
Qed.

Lemma all_chars_trim p s : all_chars p s = true -> all_chars p (trim s) = true.
Proof. intros H. apply all_chars_drop_end, all_chars_drop_while, H. Qed.

Lemma string_of_uint_digits u : all_chars is_digit (NilEmpty.string_of_uint u) = true.
Proof. induction u; simpl; auto. Qed.

Lemma NilZero_string_digits u : all_chars is_digit (NilZero.string_of_uint u) = true.
Proof. destruct u; apply (string_of_uint_digits _) || done. Qed.

Lemma NilZero_string_nonempty u : nonempty (NilZero.string_of_uint u) = true.
Proof. by destruct u. Qed.

Lemma is_digit_facts a : is_digit a = true ->
  is_space a = false /\ Ascii.eqb a "-"%char = false /\ Ascii.eqb a "+"%char = false /\
  lower_char a = a /\ Ascii.eqb a "x"%char = false /\ Ascii.eqb a "o"%char = false /\
  Ascii.eqb a "b"%char = false.
Proof. destruct a as [[] [] [] [] [] [] [] []]; vm_compute; intuition congruence. Qed.

Lemma drop_end_digits s : all_chars is_digit s = true -> drop_end is_space s = s.
Proof.
  induction s as [|a s IH]; simpl; [done|]. rewrite andb_true_iff. intros [Ha Hs].
  rewrite (IH Hs). destruct (is_digit_facts a Ha) as [-> _]. by destruct s.
Qed.

Lemma trim_digits s : all_chars is_digit s = true -> trim s = s.
Proof.
  intros Hs. unfold trim. destruct s as [|a s]; [done|]. simpl drop_while.
  simpl in Hs. apply andb_true_iff in Hs as [Ha Hs].
  destruct (is_digit_facts a Ha) as [-> _]. apply drop_end_digits. simpl. by rewrite Ha.
Qed.

Lemma prefixed_literal_digits s : all_chars is_digit s = true -> prefixed_literal s = None.
Proof.
  destruct s as [|a [|b s]]; [done..|]. simpl.
  rewrite !andb_true_iff. intros (_ & Hb & _).
  destruct (is_digit_facts b Hb) as (_ & _ & _ & -> & -> & -> & ->). by destruct (negb _).
Qed.

Lemma decimal_digits_print u : decimal_digits (NilZero.string_of_uint u) = Some (Z.of_uint u).
Proof.
  unfold decimal_digits.
  destruct u; [done|..]; by rewrite NilZero.usu.
Qed.

Lemma BigInt_toString_nonneg u :
  js_BigInt (NilZero.string_of_uint u) = Some (Z.of_uint u).
Proof.
  pose proof (NilZero_string_digits u) as Hd. pose proof (NilZero_string_nonempty u) as Hn.
  unfold js_BigInt. rewrite (trim_digits _ Hd), (prefixed_literal_digits _ Hd), decimal_digits_print.
  destruct (NilZero.string_of_uint u) as [|a s]; [done|].
  simpl in Hd. apply andb_true_iff in Hd as [Ha _].
  by destruct (is_digit_facts a Ha) as (_ & -> & -> & _).
Qed.

Lemma trim_minus_digits s : all_chars is_digit s = true ->
  trim (String "-" s) = String "-" s.
Proof.
  intros Hs. unfold trim. simpl. rewrite (drop_end_digits _ Hs). by destruct s.
Qed.

(** Printing an integer and parsing it with [BigInt] gives it back. *)
Lemma js_BigInt_toString z : js_BigInt (BigInt_toString z) = Some z.
Proof.
  rewrite <- (DecimalZ.of_to z) at 2. unfold BigInt_toString.
  destruct (Z.to_int z) as [u|u]; cbn [NilZero.string_of_int Z.of_int].
  - apply BigInt_toString_nonneg.
  - pose proof (NilZero_string_digits u) as Hd.
    unfold js_BigInt. rewrite (trim_minus_digits _ Hd). cbn -[decimal_digits].
    by rewrite decimal_digits_print.
Qed.

(** An integer goes through a JSON number and through a decimal string. *)
Lemma js_isInteger_int z : js_isInteger (Fin (inject_Z z)) = true.
Proof. cbn. by rewrite Z.mod_1_r. Qed.

Lemma Qfloor_int z : Qfloor_Z (inject_Z z) = z.
Proof. unfold Qfloor_Z. cbn. apply Z.div_1_r. Qed.

Lemma json_BigInt_toString z : json_BigInt (JStr (BigInt_toString z)) = Some z.
Proof. apply js_BigInt_toString. Qed.

Lemma js_isInteger_floor q : js_isInteger (Fin q) = true ->
  Qnum q = Qfloor_Z q * Zpos (Qden q).
Proof.
  cbn. intros H%Z.eqb_eq. unfold Qfloor_Z. pose proof (Z.div_mod (Qnum q) (Zpos (Qden q)) ltac:(lia)). lia.
Qed.

(** The order on integers is the order of the numbers that denote them. *)
Lemma js_ge_int q z : js_isInteger (Fin q) = true -> js_ge (Fin q) z = (z <=? Qfloor_Z q).
Proof. intros H%js_isInteger_floor. cbn. rewrite H. apply eq_bool_prop_intro. rewrite !Is_true_true, !Z.leb_le. nia. Qed.
Lemma js_le_int q z : js_isInteger (Fin q) = true -> js_le (Fin q) z = (Qfloor_Z q <=? z).
Proof. intros H%js_isInteger_floor. cbn. rewrite H. apply eq_bool_prop_intro. rewrite !Is_true_true, !Z.leb_le. nia. Qed.
Lemma js_gt_int q z : js_isInteger (Fin q) = true -> js_gt (Fin q) z = (z <? Qfloor_Z q).
Proof. intros H%js_isInteger_floor. cbn. rewrite H. apply eq_bool_prop_intro. rewrite !Is_true_true, !Z.ltb_lt. nia. Qed.
Lemma js_lt_int q z : js_isInteger (Fin q) = true -> js_lt (Fin q) z = (Qfloor_Z q <? z).
Proof. intros H%js_isInteger_floor. cbn. rewrite H. apply eq_bool_prop_intro. rewrite !Is_true_true, !Z.ltb_lt. nia. Qed.
