(* ===== verification/Cli.v ===== *)
(** * The command line

    The argument reader that the operational scripts share, word for word, in
    [scripts/retention-sweep.ts], [scripts/anonymize-player.ts],
    [scripts/operator-provision.ts] and [scripts/operator-launch-token.ts]. *)

From S2P Require Import Prelude Js.

Module Cli.
Inductive value := Text (s : string) | Flag.

(** [parseArgs]: "--key value", or a flag when no value follows. *)
Fixpoint parseArgs (argv : list string) : list (string * value) :=
  match argv with
  | [] => []
  | a :: rest =>
      if startsWith "--" a then
        match rest with
        | [] => [(slice_from 2 a, Flag)]
        | next :: rest' =>
            if startsWith "--" next then (slice_from 2 a, Flag) :: parseArgs rest
            else (slice_from 2 a, Text next) :: parseArgs rest'
        end
      else parseArgs rest
  end.

(** [args[key]]: the last one given. *)
Fixpoint arg (key : string) (args : list (string * value)) : option value :=
  match args with
  | [] => None
  | (k, v) :: args => match arg key args with Some v => Some v | None => if eqb_str k key then Some v else None end
  end.
Definition str (v : option value) : option string := match v with Some (Text s) => Some s | _ => None end.
Definition is_true (v : option value) : bool := match v with Some Flag => true | _ => false end.
(** [v.split(",").map((s) => s.trim()).filter(Boolean)] *)
Definition list_ (v : option value) : option (list string) :=
  match v with Some (Text s) => Some (List.filter nonempty (List.map trim (split_on ","%char s))) | _ => None end.
End Cli.
