(* ===== verification/Dates.v ===== *)
(** * Dates

    The proleptic Gregorian calendar of the language's [Date]: a time value is
    an integer of milliseconds since 1970-01-01 UTC.  [toISOString] and the
    ISO format of [Date.parse]; what the implementation does with a string
    outside that format (or with a local time) is the parameter [implementation].
    Proved: the calendar is a bijection between days and valid dates, and a
    printed date reads back. *)

From S2P Require Import Prelude Js.

Open Scope Z_scope.

Module Dates.
Definition MS_PER_DAY : Z := 86400000.

(** ** The calendar *)

Definition leap_year (y : Z) : bool :=
  ((y mod 4 =? 0) && negb (y mod 100 =? 0)) || (y mod 400 =? 0).

Definition days_in_month (y m : Z) : Z :=
  if m =? 2 then (if leap_year y then 29 else 28)
  else if (m =? 4) || (m =? 6) || (m =? 9) || (m =? 11) then 30 else 31.

Definition valid_date (y m d : Z) : bool :=
  (1 <=? m) && (m <=? 12) && (1 <=? d) && (d <=? days_in_month y m).

(** Years of an era of 400 are counted from March; the days before year [yoe]. *)
Definition days_before (yoe : Z) : Z := yoe * 365 + yoe / 4 - yoe / 100.
Definition day_of_year (m d : Z) : Z := (153 * (if 2 <? m then m - 3 else m + 9) + 2) / 5 + d - 1.

Definition days_from_civil (y m d : Z) : Z :=
  let y' := if m <=? 2 then y - 1 else y in
  y' / 400 * 146097 + (days_before (y' mod 400) + day_of_year m d) - 719468.

Definition year_of_era (doe : Z) : Z :=
  let e := doe / 365 in if (doe <? days_before e) || (e =? 400) then e - 1 else e.

Definition month_day (doy : Z) : Z * Z :=
  let mp := (5 * doy + 2) / 153 in
  ((if mp <? 10 then mp + 3 else mp - 9), doy - (153 * mp + 2) / 5 + 1).

Definition civil_from_days (day : Z) : Z * Z * Z :=
  let z := day + 719468 in
  let yoe := year_of_era (z mod 146097) in
  let '(m, d) := month_day (z mod 146097 - days_before yoe) in
  (yoe + z / 146097 * 400 + (if m <=? 2 then 1 else 0), m, d).

(** ** Printing *)

(** The last [w] decimal digits of [n]. *)
Fixpoint decw (w : nat) (n : Z) : string :=
  match w with
  | O => EmptyString
  | S w => (decw w (n / 10) +:+ String (ascii_of_N (Z.to_N (48 + n mod 10))) EmptyString)%string
  end.

Definition year_string (y : Z) : string :=
  if (0 <=? y) && (y <=? 9999) then decw 4 y
  else if y <? 0 then String "-" (decw 6 (- y)) else String "+" (decw 6 y).

Definition date_string (y m d : Z) : string :=
  (year_string y +:+ String "-" (decw 2 m +:+ String "-" (decw 2 d)))%string.

Definition time_string (ms : Z) : string :=
  (decw 2 (ms / 3600000) +:+ String ":" (decw 2 (ms / 60000 mod 60) +:+ String ":"
    (decw 2 (ms / 1000 mod 60) +:+ String "." (decw 3 (ms mod 1000)))))%string.

Definition day_string (day : Z) : string := let '(y, m, d) := civil_from_days day in date_string y m d.

(** [new Date(t).toISOString()] *)
Definition toISOString (t : Z) : string :=
  (day_string (t / MS_PER_DAY) +:+ String "T" (time_string (t mod MS_PER_DAY) +:+ "Z"))%string.

(** ** Parsing *)

(** Exactly [w] digits, and the rest. *)
Fixpoint read_digits (w : nat) (acc : Z) (s : string) : option (Z * string) :=
  match w with
  | O => Some (acc, s)
  | S w => match s with
           | String a s => if is_digit a then read_digits w (10 * acc + (code a - 48)) s else None
           | EmptyString => None
           end
  end.

Definition read_char (c : ascii) (s : string) : option string :=
  match s with String a s => if Ascii.eqb a c then Some s else None | EmptyString => None end.

(** [c] and [w] digits, when they are there. *)
Definition read_field (c : ascii) (w : nat) (s : string) : option (Z * string) :=
  match read_char c s with Some s => read_digits w 0 s | None => None end.

(** [-MM] and [-DD], both optional. *)
Definition read_month_day (s : string) : Z * Z * string :=
  match read_field "-" 2 s with
  | Some (m, s) => match read_field "-" 2 s with
                   | Some (d, s) => (m, d, s)
                   | None => (m, 1, s)
                   end
  | None => (1, 1, s)
  end.

(** [:ss] and [.sss], both optional. *)
Definition read_seconds (s : string) : Z * Z * string :=
  match read_field ":" 2 s with
  | Some (sec, s) => match read_field "." 3 s with
                     | Some (ms, s) => (sec, ms, s)
                     | None => (sec, 0, s)
                     end
  | None => (0, 0, s)
  end.

Definition valid_time (h mi sec ms : Z) : bool :=
  (((h <=? 23) && (mi <=? 59)) || ((h =? 24) && (mi =? 0) && (sec =? 0) && (ms =? 0))) && (sec <=? 59).

Definition ms_of_time (h mi sec ms : Z) : Z := ((h * 60 + mi) * 60 + sec) * 1000 + ms.

(** The offset of a zone in minutes; a missing zone is the local one. *)
Definition read_zone (s : string) : option Z :=
  if eqb_str s "Z" then Some 0
  else
    let offset (sign : Z) (s : string) :=
      match read_digits 2 0 s with
      | Some (h, s) => match read_field ":" 2 s with
                       | Some (mi, EmptyString) => if valid_time h mi 0 0 && (h <=? 23) then Some (sign * (h * 60 + mi)) else None
                       | _ => None
                       end
      | None => None
      end in
    match s with
    | String a s => if Ascii.eqb a "+" then offset 1 s else if Ascii.eqb a "-" then offset (-1) s else None
    | EmptyString => None
    end.

(** A time of day, and its zone. *)
Definition read_time (s : string) : option Z :=
  match read_digits 2 0 s with
  | None => None
  | Some (h, s) =>
      match read_field ":" 2 s with
      | None => None
      | Some (mi, s) =>
          let '(sec, ms, s) := read_seconds s in
          match read_zone s with
          | Some off => if valid_time h mi sec ms then Some (ms_of_time h mi sec ms - off * 60000) else None
          | None => None
          end
      end
  end.

(** A string of the date-time format with a four-digit year. *)
Definition parse_iso (s : string) : option Z :=
  match read_digits 4 0 s with
  | None => None
  | Some (y, s) =>
      let '(m, d, s) := read_month_day s in
      if valid_date y m d then
        match s with
        | EmptyString => Some (days_from_civil y m d * MS_PER_DAY)
        | _ => match read_char "T" s with
               | Some s => option_map (fun t => days_from_civil y m d * MS_PER_DAY + t) (read_time s)
               | None => None
               end
        end
      else None
  end.

(** [new Date(s).getTime()]; [None] is an invalid date. *)
Definition Date_parse (implementation : string -> option Z) (s : string) : option Z :=
  match parse_iso s with Some t => Some t | None => implementation s end.

(** ** The calendar is a bijection *)

Fixpoint zseq (from : Z) (n : nat) : list Z :=
  match n with O => [] | S n => from :: zseq (from + 1) n end.

Definition range (n : Z) : list Z := zseq 0 (Z.to_nat n).

Lemma zseq_in n from z : from <= z < from + Z.of_nat n -> In z (zseq from n).
Proof.
  revert from; induction n as [|n IH]; intros from Hz; [lia|]. cbn [zseq].
  destruct (decide (from = z)) as [->|]; [by left|]. right. apply IH. lia.
Qed.

Lemma range_in n z : 0 <= z < n -> In z (range n).
Proof. intros Hz. apply zseq_in. lia. Qed.

Lemma range_forall n (P : Z -> bool) z : forallb P (range n) = true -> 0 <= z < n -> P z = true.
Proof. rewrite forallb_forall. intros HP Hz. by apply HP, range_in. Qed.

(** A year of the era has 366 days when the February that ends it is leap. *)
Lemma leap_year_era y k : leap_year (y + k * 400) = leap_year y.
Proof.
  unfold leap_year. assert (H : forall n q, 400 = n * q -> n <> 0 -> (y + k * 400) mod n = y mod n).
  { intros n q Hn Hz. rewrite Hn, (Z.mul_comm n q), Z.mul_assoc. by apply Z.mod_add. }
  by rewrite (H 4 100), (H 100 4), (H 400 1).
Qed.

Lemma leap_year_spec y : leap_year y = true <-> y mod 4 = 0 /\ (y mod 100 <> 0 \/ y mod 400 = 0).
Proof.
  unfold leap_year. rewrite orb_true_iff, andb_true_iff, negb_true_iff, !Z.eqb_eq, Z.eqb_neq. split; [|lia].
  intros [[? ?]|H]; [lia|]. split; [|by right]. apply Z.mod_divide in H as [q ->]; [|lia].
  replace (q * 400) with (q * 100 * 4) by ring. by apply Z.mod_mul.
Qed.

(** Linear arithmetic with quotients and remainders by constants. *)
Ltac dlia := Z.div_mod_to_equations; lia.

Lemma year_of_era_ok doe : 0 <= doe < 146097 ->
  let yoe := year_of_era doe in let doy := doe - days_before yoe in
  0 <= yoe < 400 /\ 0 <= doy <= 365 /\ (doy = 365 -> leap_year (yoe + 1) = true).
Proof.
  intros Hd. cbv zeta. rewrite leap_year_spec. unfold year_of_era, days_before.
  set (e := doe / 365). assert (He : 365 * e <= doe < 365 * e + 365) by (unfold e; dlia).
  clearbody e. destruct (Z.ltb_spec doe (e * 365 + e / 4 - e / 100)); cbn [orb].
  - replace (e - 1 + 1) with e by ring. split_and!; dlia.
  - destruct (Z.eqb_spec e 400) as [->|]; split_and!; dlia.
Qed.

Lemma year_of_era_inv yoe doy : 0 <= yoe < 400 -> 0 <= doy <= 365 -> (doy = 365 -> leap_year (yoe + 1) = true) ->
  year_of_era (days_before yoe + doy) = yoe /\ 0 <= days_before yoe + doy < 146097.
Proof.
  intros Hy Hd. rewrite leap_year_spec. intros Hl. unfold year_of_era, days_before in *.
  remember (yoe * 365 + yoe / 4 - yoe / 100 + doy) as doe eqn:Hdoe. split; [|dlia].
  set (e := doe / 365). assert (He : 365 * e <= doe < 365 * e + 365) by (unfold e; dlia). clearbody e.
  assert (e = yoe \/ e = yoe + 1) as [->| ->] by dlia.
  - destruct (Z.ltb_spec doe (yoe * 365 + yoe / 4 - yoe / 100)); [dlia|]. cbn [orb].
    destruct (Z.eqb_spec yoe 400); dlia.
  - destruct (Z.ltb_spec doe ((yoe + 1) * 365 + (yoe + 1) / 4 - (yoe + 1) / 100)); cbn [orb]; [dlia|].
    destruct (Z.eqb_spec (yoe + 1) 400); dlia.
Qed.

(** The last day of a year is the leap day, if any. *)
Definition months_ok : bool :=
  forallb (fun doy => let '(m, d) := month_day doy in
    (day_of_year m d =? doy) && (1 <=? m) && (m <=? 12) && (1 <=? d) && (d <=? days_in_month 0 m)
    && ((doy =? 365) || (d <=? days_in_month 1 m))) (range 366).

Definition dates_ok : bool :=
  forallb (fun m => forallb (fun d =>
    negb (valid_date 0 m d)
    || (bool_decide (month_day (day_of_year m d) = (m, d)) && (0 <=? day_of_year m d) && (day_of_year m d <=? 365)
        && (negb (day_of_year m d =? 365) || ((m =? 2) && (d =? 29))))) (range 32)) (range 13).

Lemma months_hold : months_ok = true. Proof. reflexivity. Qed.
Lemma dates_hold : dates_ok = true. Proof. reflexivity. Qed.

Lemma days_in_month_leap y m : leap_year y = true -> days_in_month y m = days_in_month 0 m.
Proof. intros Hl. unfold days_in_month. by rewrite Hl. Qed.

Lemma days_in_month_common y m : leap_year y = false -> days_in_month y m = days_in_month 1 m.
Proof. intros Hl. unfold days_in_month. by rewrite Hl. Qed.

Lemma days_in_month_le y m : days_in_month 1 m <= days_in_month y m <= days_in_month 0 m.
Proof.
  unfold days_in_month. change (leap_year 0) with true. change (leap_year 1) with false.
  destruct (m =? 2); [destruct (leap_year y); lia|]. by destruct (_ || _).
Qed.

Lemma valid_date_bounds y m d : valid_date y m d = true <-> 1 <= m <= 12 /\ 1 <= d <= days_in_month y m.
Proof. unfold valid_date. rewrite !andb_true_iff, !Z.leb_le. lia. Qed.

Lemma month_day_ok doy : 0 <= doy <= 365 ->
  let '(m, d) := month_day doy in
  day_of_year m d = doy /\ 1 <= m <= 12 /\ 1 <= d <= days_in_month 0 m /\ (doy <> 365 -> d <= days_in_month 1 m).
Proof.
  intros Hd. pose proof (range_forall 366 _ doy months_hold ltac:(lia)) as H. cbv beta in H.
  destruct (month_day doy) as [m d]. rewrite !andb_true_iff, orb_true_iff in H.
  destruct H as [[[[[H1 H2] H3] H4] H5] H6]. rewrite !Z.eqb_eq, !Z.leb_le in *. lia.
Qed.

Lemma day_of_year_ok y m d : valid_date y m d = true ->
  month_day (day_of_year m d) = (m, d) /\ 0 <= day_of_year m d <= 365 /\
  (day_of_year m d = 365 -> leap_year y = true /\ m = 2).
Proof.
  rewrite valid_date_bounds. intros [Hm Hd].
  pose proof (days_in_month_le y m) as Hle.
  assert (Hv : valid_date 0 m d = true) by (apply valid_date_bounds; lia).
  assert (Hd31 : days_in_month 0 m <= 31) by (unfold days_in_month; repeat case_match; cbn; lia).
  pose proof (range_forall 13 _ m dates_hold ltac:(lia)) as H. cbv beta in H.
  apply (range_forall 32 _ d) in H; [|lia]. cbv beta in H. rewrite Hv in H. cbn [negb orb] in H.
  rewrite !andb_true_iff, orb_true_iff, andb_true_iff, negb_true_iff, bool_decide_eq_true in H.
  destruct H as [[[H1 H2] H3] H4]. rewrite !Z.leb_le, !Z.eqb_eq, Z.eqb_neq in *.
  split; [done|]. split; [lia|]. intros H365. destruct H4 as [?|[-> ->]]; [done|]. split; [|done].
  unfold days_in_month in Hd. cbn in Hd. destruct (leap_year y); [done|lia].
Qed.

(** A day number converted to a date is a valid one, and converts back. *)
Theorem days_of_civil day :
  let '(y, m, d) := civil_from_days day in valid_date y m d = true /\ days_from_civil y m d = day.
Proof.
  unfold civil_from_days. set (z := day + 719468). pose proof (Z.mod_pos_bound z 146097 ltac:(lia)) as Hz.
  pose proof (Z.div_mod z 146097 ltac:(lia)) as Hdm.
  destruct (year_of_era_ok _ Hz) as (Hy & Hdoy & Hleap). cbv zeta in *.
  set (yoe := year_of_era (z mod 146097)) in *. set (doy := z mod 146097 - days_before yoe) in *.
  pose proof (month_day_ok doy Hdoy) as Hm. destruct (month_day doy) as [m d].
  destruct Hm as (Hinv & Hm & Hd & Hd365).
  set (b := if m <=? 2 then 1 else 0).
  split.
  - apply valid_date_bounds. split; [done|]. split; [lia|].
    replace (yoe + z / 146097 * 400 + b) with (yoe + b + z / 146097 * 400) by ring.
    destruct (decide (doy = 365)) as [H365|Hne].
    + destruct (decide (m = 2)) as [->|Hm2].
      * rewrite days_in_month_leap; [lia|]. rewrite leap_year_era. by apply Hleap.
      * revert Hd. unfold days_in_month. rewrite (proj2 (Z.eqb_neq m 2) Hm2). lia.
    + pose proof (days_in_month_le (yoe + b + z / 146097 * 400) m). specialize (Hd365 Hne). lia.
  - unfold days_from_civil. fold b.
    replace (if m <=? 2 then yoe + z / 146097 * 400 + b - 1 else yoe + z / 146097 * 400 + b)
      with (yoe + z / 146097 * 400) by (unfold b; destruct (m <=? 2); lia).
    rewrite Z.div_add, Z.mod_add, Z.div_small, Z.mod_small by lia. rewrite Hinv. lia.
Qed.

(** A valid date converted to its day number converts back. *)
Theorem civil_of_days y m d : valid_date y m d = true -> civil_from_days (days_from_civil y m d) = (y, m, d).
Proof.
  intros Hv. destruct (day_of_year_ok y m d Hv) as (Hmd & Hdoy & Hleap).
  unfold days_from_civil. set (y' := if m <=? 2 then y - 1 else y).
  pose proof (Z.mod_pos_bound y' 400 ltac:(lia)) as Hy. pose proof (Z.div_mod y' 400 ltac:(lia)) as Hdm.
  assert (Hl : day_of_year m d = 365 -> leap_year (y' mod 400 + 1) = true).
  { intros H. destruct (Hleap H) as [Hly ->]. change y' with (y - 1) in *.
    rewrite <- (leap_year_era _ ((y - 1) / 400)). by replace (_ + _) with y by lia. }
  destruct (year_of_era_inv (y' mod 400) (day_of_year m d) Hy Hdoy Hl) as [Hye Hr].
  unfold civil_from_days.
  replace (y' / 400 * 146097 + (days_before (y' mod 400) + day_of_year m d) - 719468 + 719468)
    with (days_before (y' mod 400) + day_of_year m d + y' / 400 * 146097) by ring.
  rewrite Z.div_add, Z.mod_add, Z.div_small, Z.mod_small by lia. rewrite Hye.
  replace (_ - _) with (day_of_year m d) by ring. rewrite Hmd.
  do 2 f_equal. unfold y' in *. destruct (m <=? 2); lia.
Qed.

(** ** Printing and parsing *)

Lemma decw_length w n : String.length (decw w n) = w.
Proof.
  revert n; induction w as [|w IH]; intros n; [done|]. cbn [decw]. rewrite string_length_app, IH. simpl. lia.
Qed.

Lemma digit_char n : let a := ascii_of_N (Z.to_N (48 + n mod 10)) in is_digit a = true /\ code a = 48 + n mod 10.
Proof.
  pose proof (Z.mod_pos_bound n 10 ltac:(lia)).
  assert (Hc : code (ascii_of_N (Z.to_N (48 + n mod 10))) = 48 + n mod 10)
    by (unfold code; rewrite N_ascii_embedding by lia; lia).
  split; [|done]. unfold is_digit, in_range. rewrite Hc, andb_true_iff, !Z.leb_le. lia.
Qed.

Lemma decw_digits w n : all_chars is_digit (decw w n) = true.
Proof.
  revert n; induction w as [|w IH]; intros n; [done|]. cbn [decw]. rewrite all_chars_app, IH. cbn.
  by rewrite (proj1 (digit_char n)).
Qed.

Lemma read_digits_app w1 w2 acc s :
  read_digits (w1 + w2) acc s = match read_digits w1 acc s with Some (a, s) => read_digits w2 a s | None => None end.
Proof.
  revert acc s; induction w1 as [|w1 IH]; intros acc s; [done|]. cbn [read_digits Nat.add].
  destruct s as [|a s]; [done|]. destruct (is_digit a); [apply IH|done].
Qed.

Lemma read_decw w acc n s :
  read_digits w acc (decw w n +:+ s)%string = Some (acc * 10 ^ Z.of_nat w + n mod 10 ^ Z.of_nat w, s).
Proof.
  revert acc n s; induction w as [|w IH]; intros acc n s.
  { cbn [read_digits decw Z.of_nat]. change (10 ^ 0) with 1. rewrite Z.mod_1_r. do 2 f_equal. lia. }
  replace (S w) with (w + 1)%nat at 1 by lia. rewrite read_digits_app. cbn [decw].
  rewrite string_app_assoc, IH. destruct (digit_char n) as [Hd Hc].
  match goal with |- context [(String ?a EmptyString +:+ s)%string] =>
    change (String a EmptyString +:+ s)%string with (String a s) end.
  cbn [read_digits]. rewrite Hd, Hc.
  do 2 f_equal. rewrite Nat2Z.inj_succ, Z.pow_succ_r by lia.
  rewrite (Z.rem_mul_r n 10 (10 ^ Z.of_nat w)) by lia. ring.
Qed.

Lemma read_decw_small w n s : 0 <= n < 10 ^ Z.of_nat w -> read_digits w 0 (decw w n +:+ s)%string = Some (n, s).
Proof. intros Hn. rewrite read_decw, Z.mod_small by done. f_equal. Qed.

Lemma read_field_decw c w n s : 0 <= n < 10 ^ Z.of_nat w ->
  read_field c w (String c (decw w n +:+ s)%string) = Some (n, s).
Proof. intros Hn. unfold read_field, read_char. rewrite Ascii.eqb_refl. by apply read_decw_small. Qed.

(** The days whose year prints with four digits. *)
Definition four_digit_year (day : Z) : bool :=
  let '(y, _, _) := civil_from_days day in (0 <=? y) && (y <=? 9999).

Lemma date_string_app y m d s : 0 <= y <= 9999 ->
  (date_string y m d +:+ s = decw 4 y +:+ String "-" (decw 2 m +:+ String "-" (decw 2 d +:+ s)))%string.
Proof.
  intros Hy. unfold date_string, year_string. rewrite (proj2 (andb_true_iff _ _)) by (rewrite !Z.leb_le; lia).
  by rewrite string_app_assoc; cbn; rewrite string_app_assoc.
Qed.

Lemma date_string_length y m d : 0 <= y <= 9999 -> String.length (date_string y m d) = 10%nat.
Proof.
  intros Hy. rewrite <- (string_app_nil (date_string y m d)), date_string_app by done.
  repeat (rewrite string_length_app; cbn [String.length]). by rewrite !decw_length.
Qed.

Lemma parse_iso_date y m d s : 0 <= y <= 9999 -> valid_date y m d = true ->
  parse_iso (date_string y m d +:+ s)%string =
  match s with
  | EmptyString => Some (days_from_civil y m d * MS_PER_DAY)
  | _ => match read_char "T" s with
         | Some s => option_map (fun t => days_from_civil y m d * MS_PER_DAY + t) (read_time s)
         | None => None
         end
  end.
Proof.
  intros Hy Hv. pose proof Hv as Hb. apply valid_date_bounds in Hb as [Hm Hd].
  assert (d <= 31) by (pose proof (days_in_month_le y m); unfold days_in_month in *; repeat case_match; lia).
  rewrite date_string_app by done. unfold parse_iso. rewrite read_decw_small by lia.
  unfold read_month_day. rewrite read_field_decw by lia. rewrite read_field_decw by lia. by rewrite Hv.
Qed.

Lemma day_string_parse day s : four_digit_year day = true ->
  parse_iso (day_string day +:+ s)%string =
  match s with
  | EmptyString => Some (day * MS_PER_DAY)
  | _ => match read_char "T" s with Some s => option_map (fun t => day * MS_PER_DAY + t) (read_time s) | None => None end
  end.
Proof.
  unfold four_digit_year, day_string. pose proof (days_of_civil day) as Hc.
  destruct (civil_from_days day) as [[y m] d]. destruct Hc as [Hv Hinv].
  rewrite andb_true_iff, !Z.leb_le. intros Hy. rewrite parse_iso_date by done. by rewrite Hinv.
Qed.

Lemma day_string_length day : four_digit_year day = true -> String.length (day_string day) = 10%nat.
Proof.
  unfold four_digit_year, day_string. destruct (civil_from_days day) as [[y m] d].
  rewrite andb_true_iff, !Z.leb_le. apply date_string_length.
Qed.

Lemma day_string_inj a b : four_digit_year a = true -> four_digit_year b = true -> day_string a = day_string b -> a = b.
Proof.
  intros Ha Hb Heq. pose proof (day_string_parse a EmptyString Ha) as Pa.
  rewrite Heq, (day_string_parse b EmptyString Hb) in Pa. apply (inj Some) in Pa. unfold MS_PER_DAY in Pa. lia.
Qed.

Lemma read_time_string ms : 0 <= ms < MS_PER_DAY -> read_time (time_string ms +:+ "Z")%string = Some ms.
Proof.
  unfold MS_PER_DAY. intros Hms. unfold time_string. repeat first [rewrite string_app_assoc | rewrite string_cons_app].
  assert (0 <= ms / 3600000 <= 23 /\ 0 <= ms / 60000 mod 60 <= 59 /\ 0 <= ms / 1000 mod 60 <= 59 /\ 0 <= ms mod 1000 <= 999)
    by (Z.div_mod_to_equations; lia).
  unfold read_time. rewrite read_decw_small by lia.
  rewrite read_field_decw by lia. unfold read_seconds. rewrite read_field_decw by lia.
  rewrite read_field_decw by lia. change (read_zone "Z") with (Some 0). unfold valid_time.
  rewrite (proj2 (Z.leb_le (ms / 3600000) 23)), (proj2 (Z.leb_le (ms / 60000 mod 60) 59)),
    (proj2 (Z.leb_le (ms / 1000 mod 60) 59)) by lia.
  cbn [andb orb]. f_equal. unfold ms_of_time. Z.div_mod_to_equations; lia.
Qed.

(** A printed date reads back, to the millisecond. *)
Theorem toISOString_parses t : four_digit_year (t / MS_PER_DAY) = true -> parse_iso (toISOString t) = Some t.
Proof.
  intros Hy. unfold toISOString. rewrite day_string_parse by done.
  change (read_char "T" (String "T" ?s)) with (Some s). cbv iota.
  rewrite read_time_string by (apply Z.mod_pos_bound; reflexivity). cbn [option_map]. f_equal.
  pose proof (Z.div_mod t MS_PER_DAY ltac:(done)). lia.
Qed.

Lemma slice_to_app a b : slice_to (String.length a) (a +:+ b)%string = a.
Proof. induction a as [|h a IH]; [by destruct b|]. exact (f_equal (String h) IH). Qed.

(** [date.toISOString().slice(0, 10)] is the day. *)
Lemma iso_day t : four_digit_year (t / MS_PER_DAY) = true -> slice_to 10 (toISOString t) = day_string (t / MS_PER_DAY).
Proof. intros Hy. unfold toISOString. rewrite <- (day_string_length _ Hy) at 1. apply slice_to_app. Qed.
End Dates.
