(* ===== verification/Money.v ===== *)
(** * Money, currencies and house risk

    The pure money layer: the canonical bet-status sets
    ([src/src/common/bet-status.ts]), the exact integer payout and ratio
    helpers ([common/money.ts]), the currency precision table
    ([common/currency.ts]) and the risk limits with the go-live boot guard
    ([game/risk.service.ts]).  A 2-decimal multiplier is the integer number of
    its cents, which is what [Math.round(mult * 100)] recovers from it. *)

From S2P Require Import Prelude Js.

Open Scope Z_scope.

(** ** Bet statuses *)

Inductive bet_status :=
| reserving | cancelling | active | cashed_out | busted | cancelled
| payout_pending | voiding | voided.

#[export] Instance bet_status_eq_dec : EqDecision bet_status.
Proof. solve_decision. Defined.

Definition status_eqb (a b : bet_status) : bool := bool_decide (a = b).

Module BetStatus.
Definition WAGERED_STATUSES : list bet_status := [active; cashed_out; busted; payout_pending].
Definition WON_STATUSES : list bet_status := [cashed_out; payout_pending].
Definition isWageredStatus (s : bet_status) : bool := bool_decide (s ∈ WAGERED_STATUSES).
Definition isWonStatus (s : bet_status) : bool := bool_decide (s ∈ WON_STATUSES).

(** A won bet is also a wagered one, so a session's won total never exceeds
    what its wagered bets paid. *)
Lemma won_is_wagered s : isWonStatus s = true -> isWageredStatus s = true.
Proof. destruct s; vm_compute; congruence. Qed.
End BetStatus.

(** ** Exact money arithmetic *)

Module Money.
Definition minorUnitsToString (v : Z) : string := BigInt_toString v.

(** won / wagered with four decimals, floored; BigInt division truncates. *)
Definition rtp_scaled (won wagered : Z) : Z := Z.quot (won * 10000) wagered.

Definition rtpRatioString (won wagered : Z) : string :=
  if wagered <=? 0 then "0"
  else
    let scaled := rtp_scaled won wagered in
    let intPart := Z.quot scaled 10000 in
    let frac := padStart 4 "0"%char (BigInt_toString (Z.rem scaled 10000)) in
    (BigInt_toString intPart +:+ String "." frac)%string.

(** [floorPayout(stakeMinor, mult)] with [mult = multCents / 100]. *)
Definition floorPayout (stakeMinor multCents : Z) : Z := Z.quot (stakeMinor * multCents) 100.

Lemma floorPayout_div s c : 0 <= s -> 0 <= c -> floorPayout s c = s * c / 100.
Proof. intros. apply Z.quot_div_nonneg; nia. Qed.

Lemma floorPayout_nonneg s c : 0 <= s -> 0 <= c -> 0 <= floorPayout s c.
Proof. intros. rewrite floorPayout_div by done. apply Z.div_pos; nia. Qed.

Lemma floorPayout_mono s1 s2 c1 c2 :
  0 <= s1 -> s1 <= s2 -> 0 <= c1 -> c1 <= c2 -> floorPayout s1 c1 <= floorPayout s2 c2.
Proof. intros. rewrite !floorPayout_div by lia. apply Z.div_le_mono; nia. Qed.

Lemma floorPayout_hundred s m : 0 <= s -> 0 <= m -> floorPayout s (m * 100) = s * m.
Proof.
  intros. rewrite floorPayout_div by lia.
  replace (s * (m * 100)) with (s * m * 100) by ring. apply Z.div_mul; lia.
Qed.

(** The payout is the exact floor of stake times multiplier, whatever the
    size of the stake: no unit is created and none is lost. *)
Theorem floorPayout_exact (stake cents : Z) (Hs : 0 <= stake) (Hc : 0 <= cents) :
  100 * floorPayout stake cents <= stake * cents < 100 * (floorPayout stake cents + 1).
Proof.
  rewrite floorPayout_div by done.
  pose proof (Z.mul_div_le (stake * cents) 100). pose proof (Z.mod_pos_bound (stake * cents) 100).
  pose proof (Z.div_mod (stake * cents) 100). lia.
Qed.

Lemma floorPayout_exact_witness :
  (0 <= 9007199254740993) /\
  100 * floorPayout 9007199254740993 114 <= 9007199254740993 * 114
    < 100 * (floorPayout 9007199254740993 114 + 1).
Proof. split; [lia|]. apply (floorPayout_exact 9007199254740993 114); lia. Defined.

(** The two counterexamples of the comment in the source: 1.14 pays 114 on 100. *)
Example floorPayout_100_114 : floorPayout 100 114 = 114.
Proof. reflexivity. Qed.

(** The ratio's integer and fractional parts read back as the floored ratio. *)
Lemma rtp_parts won wagered :
  0 <= won -> 0 < wagered ->
  let s := rtp_scaled won wagered in
  s = Z.quot s 10000 * 10000 + Z.rem s 10000 /\ 0 <= Z.rem s 10000 < 10000 /\
  s * wagered <= won * 10000 < (s + 1) * wagered.
Proof.
  intros Hwon Hw s. assert (Hs : s = won * 10000 / wagered)
    by (apply Z.quot_div_nonneg; lia).
  assert (0 <= s) by (rewrite Hs; apply Z.div_pos; lia).
  split; [pose proof (Z.quot_rem' s 10000); lia|].
  split; [apply Z.rem_bound_pos; lia|]. rewrite Hs.
  pose proof (Z.mul_div_le (won * 10000) wagered).
  pose proof (Z.mul_succ_div_gt (won * 10000) wagered). lia.
Qed.
End Money.

(** ** Currencies *)

Module Currency.
Record CurrencyMeta := { cm_code : string; cm_decimals : Z; cm_name : option string }.
Record CurrencyMetaResolved := { cr_meta : CurrencyMeta; cr_known : bool }.

#[export] Instance CurrencyMeta_eq_dec : EqDecision CurrencyMeta.
Proof. solve_decision. Defined.

(** [/^[A-Z0-9]{1,16}$/] *)
Definition CURRENCY_CODE_RE (s : string) : bool :=
  all_chars (fun a => is_upper a || is_digit a) s && nonempty s
  && (String.length s <=? 16)%nat.

Definition CurrencyMetaSchema (c : CurrencyMeta) : bool :=
  CURRENCY_CODE_RE (cm_code c) && (0 <=? cm_decimals c) && (cm_decimals c <=? 18).

Definition DEFAULT_DECIMALS : Z := 2.

Definition row code dec name := {| cm_code := code; cm_decimals := dec; cm_name := Some name |}.

Definition SEED : list CurrencyMeta :=
  [ row "DEMO" 2 "Demo Credits"; row "EUR" 2 "Euro"; row "USD" 2 "US Dollar";
    row "GBP" 2 "Pound Sterling"; row "CHF" 2 "Swiss Franc"; row "CAD" 2 "Canadian Dollar";
    row "AUD" 2 "Australian Dollar"; row "BRL" 2 "Brazilian Real"; row "INR" 2 "Indian Rupee";
    row "JPY" 0 "Japanese Yen"; row "USDT" 6 "Tether"; row "USDC" 6 "USD Coin";
    row "BTC" 8 "Bitcoin"; row "ETH" 18 "Ether" ]%string.

(** Module load: validate every row and refuse duplicate codes. *)
Definition load_table (seed : list CurrencyMeta) : option (list CurrencyMeta) :=
  if forallb CurrencyMetaSchema seed && bool_decide (NoDup (cm_code <$> seed))
  then Some seed else None.

Definition CURRENCIES : list CurrencyMeta :=
  match load_table SEED with Some t => t | None => [] end.

(** [BY_CODE.get(code)]: a Map built from the rows (codes are distinct). *)
Definition BY_CODE (code : string) : option CurrencyMeta :=
  find (fun c => eqb_str (cm_code c) code) CURRENCIES.

Definition currencyMeta (code : option string) : CurrencyMetaResolved :=
  let upper := toUpperCase (nullish code EmptyString) in
  match BY_CODE upper with
  | Some hit => {| cr_meta := hit; cr_known := true |}
  | None => {| cr_meta := {| cm_code := upper; cm_decimals := DEFAULT_DECIMALS; cm_name := None |};
               cr_known := false |}
  end.

Definition isKnownCurrency (code : option string) : bool :=
  match BY_CODE (toUpperCase (nullish code EmptyString)) with Some _ => true | None => false end.

Definition code_le (a b : CurrencyMeta) : Prop := String.le (cm_code a) (cm_code b).
#[export] Instance code_le_dec a b : Decision (code_le a b).
Proof. unfold code_le. apply _. Defined.

(** Sorted by code; on upper-case codes [localeCompare] is the byte order. *)
Definition listCurrencies : list CurrencyMeta := merge_sort code_le CURRENCIES.

#[export] Instance code_le_total : Total code_le.
Proof. intros a b. unfold code_le. apply String.le_total. Qed.

Lemma table_loads : load_table SEED = Some SEED.
Proof. vm_compute. reflexivity. Qed.

Lemma BY_CODE_code code c : BY_CODE code = Some c -> cm_code c = code.
Proof.
  unfold BY_CODE. intros Hf. apply find_some in Hf as [_ Hf]. by apply eqb_str_eq in Hf.
Qed.

(** Resolution never fails, is case-insensitive and idempotent, an unknown
    code keeps its upper-cased form with two decimals, and [known] agrees with
    [isKnownCurrency]. *)
Theorem currencyMeta_spec (code : option string) :
  let r := currencyMeta code in
  cm_code (cr_meta r) = toUpperCase (nullish code EmptyString) /\
  cr_known r = isKnownCurrency code /\
  (cr_known r = false -> cm_decimals (cr_meta r) = 2) /\
  (cr_known r = true -> cr_meta r ∈ CURRENCIES) /\
  currencyMeta (Some (cm_code (cr_meta r))) = r.
Proof.
  unfold currencyMeta, isKnownCurrency.
  set (u := toUpperCase (nullish code EmptyString)).
  assert (Hu : toUpperCase u = u) by apply toUpperCase_idem.
  destruct (BY_CODE u) as [hit|] eqn:E; simpl.
  - pose proof (BY_CODE_code _ _ E) as Hc. split; [done|]. split; [done|].
    split; [done|]. split.
    + intros _. apply find_some in E as [Hin _]. by apply list_elem_of_In.
    + rewrite Hc, Hu, E. done.
  - rewrite Hu, E. done.
Qed.

Lemma listCurrencies_sorted :
  listCurrencies ≡ₚ CURRENCIES /\ Sorted code_le listCurrencies.
Proof. split; [apply merge_sort_Permutation|apply Sorted_merge_sort; apply _]. Qed.
End Currency.

(** ** House risk controls *)

Module Risk.
Record RiskLimits := {
  minBet : Z; maxBet : Z; maxWinPerBet : Z;
  maxMultiplier : Z;  (* a number; BigInt() of it is what the exposure uses *)
  maxRoundExposure : Z
}.

Record PerBetLimits := { pl_minBet : Z; pl_maxBet : Z; pl_maxWinPerBet : Z }.

Definition env := string -> option string.

(** [v && /^\d+$/.test(v) ? BigInt(v) : def] *)
Definition envBig (e : env) (name : string) (def : Z) : Z :=
  match e name with
  | Some v =>
      if nonempty v && all_chars is_digit v
      then match js_BigInt v with Some z => z | None => def end
      else def
  | None => def
  end.

(** [v && !isNaN(Number(v)) ? Number(v) : def] *)
Definition envNum (e : env) (name : string) (def : jsnum) : jsnum :=
  match e name with
  | Some v =>
      if nonempty v then match js_Number v with NaN => def | n => n end else def
  | None => def
  end.

Definition REQUIRED_REALMONEY_RISK_KEYS : list string :=
  ["RISK_MAX_WIN_PER_BET"; "RISK_MAX_MULTIPLIER"; "RISK_MAX_ROUND_EXPOSURE"; "RISK_MAX_BET"]%string.

Definition risk_key_missing (e : env) (k : string) : bool :=
  match e k with
  | None => true
  | Some v => eqb_str (trim v) EmptyString || negb (js_gt (js_Number v) 0)
  end.

(** The go-live boot guard: [Some missing] is the thrown error. *)
Definition assertRiskConfigForMode (e : env) : option (list string) :=
  let mode := nullish (e "WALLET_PROVIDER_TYPE"%string) "internal"%string in
  if eqb_str mode "internal" || opt_eqb (e "RISK_ALLOW_DEMO_DEFAULTS"%string) (Some "true"%string)
  then None
  else match List.filter (risk_key_missing e) REQUIRED_REALMONEY_RISK_KEYS with
       | [] => None
       | missing => Some missing
       end.

(** [BigInt(n)] of a number: RangeError unless it is an integer. *)
Definition BigInt_of_number (n : jsnum) : option Z :=
  match n with
  | Fin q => if js_isInteger n then Some (Qfloor_Z q) else None
  | _ => None
  end.

(** The limits the service is constructed with; [None] stands for a
    multiplier that [BigInt()] will refuse in every exposure computation. *)
Definition limits (e : env) : option RiskLimits :=
  m ← BigInt_of_number (envNum e "RISK_MAX_MULTIPLIER" (Fin (QArith_base.inject_Z 1000000)));
  Some {| minBet := envBig e "RISK_MIN_BET" 1;
          maxBet := envBig e "RISK_MAX_BET" 1000000;
          maxWinPerBet := envBig e "RISK_MAX_WIN_PER_BET" 100000000;
          maxMultiplier := m;
          maxRoundExposure := envBig e "RISK_MAX_ROUND_EXPOSURE" 10000000000 |}.

Definition default_limits : RiskLimits :=
  {| minBet := 1; maxBet := 1000000; maxWinPerBet := 100000000;
     maxMultiplier := 1000000; maxRoundExposure := 10000000000 |}.

Section service.
Context (l : RiskLimits).

(** The error reason, or [None] when the stake is accepted. *)
Definition checkBetAmount (amount : Z) (lim : option PerBetLimits) : option string :=
  let '(lo, hi) := match lim with
                   | Some p => (pl_minBet p, pl_maxBet p)
                   | None => (minBet l, maxBet l)
                   end in
  if (amount <? lo) || (hi <? amount) then Some "invalid_amount"%string else None.

Definition potentialPayout (amount : Z) : Z :=
  let uncapped := amount * maxMultiplier l in
  if uncapped <? maxWinPerBet l then uncapped else maxWinPerBet l.

Definition checkRoundExposure (currentExposure amount : Z) : string + Z :=
  let newExposure := currentExposure + potentialPayout amount in
  if maxRoundExposure l <? newExposure then inl "round_exposure_cap"%string
  else inr newExposure.

Definition capPayout (payout : Z) (maxWin : option Z) : Z :=
  let m := nullish maxWin (maxWinPerBet l) in
  let cap := if m <? maxWinPerBet l then m else maxWinPerBet l in
  if cap <? payout then cap else payout.

Lemma potentialPayout_min a : potentialPayout a = (a * maxMultiplier l) `min` maxWinPerBet l.
Proof. unfold potentialPayout. bool_lia. Qed.

Lemma capPayout_min p m : capPayout p m = p `min` (nullish m (maxWinPerBet l) `min` maxWinPerBet l).
Proof.
  unfold capPayout. set (m' := nullish m (maxWinPerBet l)). bool_lia.
Qed.

Lemma capPayout_le_house p m : capPayout p m <= maxWinPerBet l.
Proof. rewrite capPayout_min. lia. Qed.

Lemma capPayout_le p m : capPayout p m <= p.
Proof. rewrite capPayout_min. lia. Qed.

Lemma checkBetAmount_ok a lim :
  checkBetAmount a lim = None <->
  match lim with
  | Some p => pl_minBet p <= a <= pl_maxBet p
  | None => minBet l <= a <= maxBet l
  end.
Proof.
  unfold checkBetAmount. destruct lim as [p|]; simpl; case_match; z_bool;
    (split; [|intros; try done; exfalso]); try done; try lia;
    apply orb_true_iff in H as [H|H]; z_bool; lia.
Qed.

(** What a bet can actually be paid never exceeds the exposure reserved
    for it, PROVIDED the configured multiplier ceiling covers the crash
    multiplier the bet is cashed at. *)
Theorem payout_within_reserved_exposure (stake cents : Z) (cap : option Z)
    (Hs : 0 <= stake) (Hc : 0 <= cents) (Hm : cents <= maxMultiplier l * 100) :
  capPayout (Money.floorPayout stake cents) cap <= potentialPayout stake.
Proof.
  rewrite capPayout_min, potentialPayout_min.
  assert (Money.floorPayout stake cents <= stake * maxMultiplier l).
  { rewrite <- Money.floorPayout_hundred by nia. apply Money.floorPayout_mono; lia. }
  lia.
Qed.

(** Admitting stakes one after the other through the breaker. *)
Fixpoint admit_all (exposure : Z) (stakes : list Z) : Z * list Z :=
  match stakes with
  | [] => (exposure, [])
  | a :: rest =>
      match checkRoundExposure exposure a with
      | inr e' => let '(e2, adm) := admit_all e' rest in (e2, a :: adm)
      | inl _ => admit_all exposure rest
      end
  end.

Lemma admit_all_exposure e stakes :
  e <= maxRoundExposure l ->
  (admit_all e stakes).1 <= maxRoundExposure l /\
  (admit_all e stakes).1 = e + sumZ potentialPayout (admit_all e stakes).2.
Proof.
  revert e; induction stakes as [|a rest IH]; intros e He; simpl; [lia|].
  unfold checkRoundExposure.
  destruct (Z.ltb_spec (maxRoundExposure l) (e + potentialPayout a)) as [H|H]; [by apply IH|].
  specialize (IH _ H). destruct (admit_all (e + potentialPayout a) rest); simpl in *. lia.
Qed.
End service.

(** The breaker bounds what a round can owe: however the admitted bets of
    one currency are cashed, at multipliers the ceiling covers, the sum of
    the capped payouts stays within [maxRoundExposure]. *)
Theorem admitted_payouts_bounded (l : RiskLimits) (stakes : list Z) (mult : Z -> Z) (cap : Z -> option Z)
    (Hpos : Forall (fun a => 0 <= a) stakes) (Hexp : 0 <= maxRoundExposure l)
    (Hm : forall a, 0 <= mult a <= maxMultiplier l * 100) :
  sumZ (fun a => capPayout l (Money.floorPayout a (mult a)) (cap a)) (admit_all l 0 stakes).2
    <= maxRoundExposure l.
Proof.
  destruct (admit_all_exposure l 0 stakes Hexp) as [Hle Heq].
  rewrite Heq, Z.add_0_l in Hle.
  etrans; [|exact Hle]. apply sumZ_le. clear Heq Hle.
  assert (Hsub : forall e, Forall (fun a => 0 <= a) (admit_all l e stakes).2).
  { induction stakes as [|a rest IH]; intros e; simpl; [constructor|].
    apply Forall_cons in Hpos as [Ha Hrest]. case_match; [by apply IH|].
    specialize (IH Hrest z). destruct (admit_all l z rest); simpl in *. by constructor. }
  eapply Forall_impl; [apply Hsub|]. intros a Ha. simpl.
  apply payout_within_reserved_exposure; [done|apply Hm..].
Qed.

Lemma admitted_payouts_bounded_witness :
  sumZ (fun a => capPayout default_limits (Money.floorPayout a 100000000) None)
       (admit_all default_limits 0 [1000000; 500; 7]).2 <= 10000000000.
Proof.
  apply (admitted_payouts_bounded default_limits [1000000; 500; 7] (fun _ => 100000000) (fun _ => None)).
  - repeat constructor; lia.
  - simpl; lia.
  - intros; simpl; lia.
Defined.

Lemma payout_within_reserved_exposure_witness :
  capPayout default_limits (Money.floorPayout 37 100000000) (Some 5000) <= potentialPayout default_limits 37.
Proof. apply (payout_within_reserved_exposure default_limits 37 100000000 (Some 5000)); simpl; lia. Defined.

(** The comment on [potentialPayout] calls it the most the house could
    owe.  With a multiplier ceiling below the 1,000,000x crash ceiling that is
    false: cash-out never clamps the multiplier, so a bet can be paid more
    than was reserved for it. *)
Theorem exposure_underreserved_below_crash_ceiling :
  let l := {| minBet := 1; maxBet := 1000000; maxWinPerBet := 1000000;
              maxMultiplier := 100; maxRoundExposure := 2000000 |} in
  potentialPayout l 100 = 10000 /\
  capPayout l (Money.floorPayout 100 (500 * 100)) None = 50000.
Proof. split; reflexivity. Qed.

(** Outside internal mode a boot that passes the guard has every
    real-money ceiling set to a positive number. *)
Theorem boot_guard_sound (e : env) (mode : string)
    (Hmode : e "WALLET_PROVIDER_TYPE"%string = Some mode) (Hni : mode <> "internal"%string)
    (Hesc : e "RISK_ALLOW_DEMO_DEFAULTS"%string <> Some "true"%string)
    (Hok : assertRiskConfigForMode e = None) :
  Forall (fun k => exists v, e k = Some v /\ js_gt (js_Number v) 0 = true)
         REQUIRED_REALMONEY_RISK_KEYS.
Proof.
  unfold assertRiskConfigForMode in Hok. rewrite Hmode in Hok. cbn [nullish] in Hok.
  rewrite (eqb_str_neq _ _ Hni) in Hok.
  assert (Hf : opt_eqb (e "RISK_ALLOW_DEMO_DEFAULTS"%string) (Some "true"%string) = false).
  { apply not_true_iff_false. by rewrite opt_eqb_true. }
  rewrite Hf in Hok.
  apply Forall_forall. intros k Hk.
  destruct (List.filter (risk_key_missing e) REQUIRED_REALMONEY_RISK_KEYS) as [|m ms] eqn:Hfl;
    cbn [orb] in Hok; [|by simpl in Hok].
  assert (Hnot : risk_key_missing e k = false).
  { apply not_true_iff_false. intros Ht. apply list_elem_of_In in Hk.
    assert (In k []) as []. rewrite <- Hfl. by apply filter_In. }
  unfold risk_key_missing in Hnot. destruct (e k) as [v|]; [|done].
  exists v. split; [done|]. apply orb_false_iff in Hnot as [_ Hn]. by apply negb_false_iff in Hn.
Qed.

Definition live_env (k : string) : option string :=
  if eqb_str k "WALLET_PROVIDER_TYPE" then Some "operator"%string
  else if eqb_str k "RISK_ALLOW_DEMO_DEFAULTS" then None
  else Some "2500000"%string.

Lemma boot_guard_sound_witness :
  Forall (fun k => exists v, live_env k = Some v /\ js_gt (js_Number v) 0 = true)
         REQUIRED_REALMONEY_RISK_KEYS.
Proof. apply (boot_guard_sound live_env "operator"%string); vm_compute; congruence. Defined.
End Risk.
