(* ===== verification/Schema.v ===== *)
(** * The database and the other shared state

    The rows of [src/prisma/schema.prisma] the services read and write, the
    idempotency keys of the ledger, and the world a program runs in: the
    tables, the wall clock, the operator's answers, and a stream of faults that
    lets any database statement fail.  A UUID is the 128-bit number it denotes;
    [randomUUID()] and the column defaults draw one never drawn before. *)

From S2P Require Import Prelude Effects Js Money.

Open Scope Z_scope.

Abbreviation uuid := N (only parsing).

Inductive panel := PanelA | PanelB.

#[export] Instance panel_eq_dec : EqDecision panel.
Proof. solve_decision. Defined.
#[export] Program Instance panel_countable : Countable panel :=
  inj_countable' (fun p => match p with PanelA => true | PanelB => false end)
                 (fun b => if b then PanelA else PanelB) _.
Next Obligation. by intros []. Qed.

(** ** Idempotency keys

    [bet:{round}:{user}:{panel}:debit], [bet:{id}:payout], ... and the key of a
    demo reset; [Keys.render] gives the strings. *)
Inductive idem_key :=
| KDebit (round user : uuid) (p : panel)
| KPayout (bet : uuid)
| KRefund (bet : uuid)
| KRestartRefund (bet : uuid)
| KVoidReclaim (bet : uuid)
| KVoidRefund (bet : uuid)
| KDemoReset (tag : string).

#[export] Instance idem_key_eq_dec : EqDecision idem_key.
Proof. solve_decision. Defined.

Definition idem_key_code (k : idem_key) : (N * N * panel) + (nat * N) + string :=
  match k with
  | KDebit r u p => inl (inl (r, u, p))
  | KPayout b => inl (inr (0%nat, b))
  | KRefund b => inl (inr (1%nat, b))
  | KRestartRefund b => inl (inr (2%nat, b))
  | KVoidReclaim b => inl (inr (3%nat, b))
  | KVoidRefund b => inl (inr (4%nat, b))
  | KDemoReset s => inr s
  end.
Definition idem_key_decode (c : (N * N * panel) + (nat * N) + string) : idem_key :=
  match c with
  | inl (inl (r, u, p)) => KDebit r u p
  | inl (inr (0%nat, b)) => KPayout b
  | inl (inr (1%nat, b)) => KRefund b
  | inl (inr (2%nat, b)) => KRestartRefund b
  | inl (inr (3%nat, b)) => KVoidReclaim b
  | inl (inr (_, b)) => KVoidRefund b
  | inr s => KDemoReset s
  end.
#[export] Program Instance idem_key_countable : Countable idem_key :=
  inj_countable' idem_key_code idem_key_decode _.
Next Obligation. by intros []. Qed.

(** ** Rows *)

(** A ledger row id or an operator's own transaction reference. *)
Inductive tx_id := TxLedger (id : uuid) | TxOperator (ref : string).
#[export] Instance tx_id_eq_dec : EqDecision tx_id.
Proof. solve_decision. Defined.

Record bet := mk_bet {
  b_id : uuid; b_roundId : uuid; b_userId : uuid; b_walletId : uuid; b_panel : panel;
  b_amount : Z; b_autoCashout : option Z; b_status : bet_status;
  b_cashoutMult : option Z; b_payout : Z; b_demo : bool;
  b_operatorId : option uuid; b_currency : string; b_maxWinPerBet : option Z;
  b_debitTxId : option tx_id; b_payoutTxId : option tx_id;
  b_createdAt : Z; b_settledAt : option Z
}.

Definition bet_with_status (b : bet) (s : bet_status) (settled : option Z) : bet :=
  mk_bet (b_id b) (b_roundId b) (b_userId b) (b_walletId b) (b_panel b) (b_amount b)
    (b_autoCashout b) s (b_cashoutMult b) (b_payout b) (b_demo b) (b_operatorId b) (b_currency b)
    (b_maxWinPerBet b) (b_debitTxId b) (b_payoutTxId b) (b_createdAt b) settled.

(** [{ status: s }] *)
Definition set_status (s : bet_status) (b : bet) : bet := bet_with_status b s (b_settledAt b).
(** [{ status: s, settledAt: new Date() }] *)
Definition set_settled (s : bet_status) (now : Z) (b : bet) : bet := bet_with_status b s (Some now).
(** [{ status: "cashed_out", cashoutMult, payout, settledAt }] *)
Definition set_cashed_out (mult payout now : Z) (b : bet) : bet :=
  mk_bet (b_id b) (b_roundId b) (b_userId b) (b_walletId b) (b_panel b) (b_amount b)
    (b_autoCashout b) cashed_out (Some mult) payout (b_demo b) (b_operatorId b) (b_currency b)
    (b_maxWinPerBet b) (b_debitTxId b) (b_payoutTxId b) (b_createdAt b) (Some now).
Definition set_debitTxId (t : tx_id) (b : bet) : bet :=
  mk_bet (b_id b) (b_roundId b) (b_userId b) (b_walletId b) (b_panel b) (b_amount b)
    (b_autoCashout b) (b_status b) (b_cashoutMult b) (b_payout b) (b_demo b) (b_operatorId b)
    (b_currency b) (b_maxWinPerBet b) (Some t) (b_payoutTxId b) (b_createdAt b) (b_settledAt b).
Definition set_payoutTxId (t : tx_id) (b : bet) : bet :=
  mk_bet (b_id b) (b_roundId b) (b_userId b) (b_walletId b) (b_panel b) (b_amount b)
    (b_autoCashout b) (b_status b) (b_cashoutMult b) (b_payout b) (b_demo b) (b_operatorId b)
    (b_currency b) (b_maxWinPerBet b) (b_debitTxId b) (Some t) (b_createdAt b) (b_settledAt b).

Inductive phase := Waiting | Betting | Running | Crashed | Settling | Completed.
#[export] Instance phase_eq_dec : EqDecision phase.
Proof. solve_decision. Defined.
Definition phase_eqb (a b : phase) : bool := bool_decide (a = b).

Record round := mk_round {
  r_id : uuid; r_seedId : uuid; r_nonce : Z; r_crashPoint : Z (* cents *);
  r_status : phase; r_bettingOpensAt : Z; r_phaseEndsAt : option Z;
  r_startedAt : option Z; r_crashedAt : option Z; r_settledAt : option Z; r_createdAt : Z
}.

Record wallet := mk_wallet { w_userId : uuid; w_currency : string; w_balance : Z }.

Inductive ledger_type := Deposit | Withdrawal | BetDebit | PayoutCredit | Refund | Adjustment.
#[export] Instance ledger_type_eq_dec : EqDecision ledger_type.
Proof. solve_decision. Defined.

(** [refType] is "bet" exactly when [refId] is a bet. *)
Record ledger_row := mk_ledger {
  l_id : uuid; l_walletId : uuid; l_type : ledger_type; l_amount : Z;
  l_balanceAfter : Z; l_refId : option uuid
}.

Record profile := mk_profile { p_displayName : string; p_totalLoot : Z; p_biggestMultiplier : Z }.

Record user := mk_user { u_username : string; u_isGuest : bool; u_anonymizedAt : option Z }.

Record operator := mk_operator {
  o_enabled : bool; o_demoEnabled : bool; o_launchSecret : string; o_currencies : list string;
  o_callbackUrl : option string; o_ipWhitelist : list string; o_betLimits : option json; o_rgConfig : option json;
  o_reportingApiKeyHash : option string; o_writeApiKeyHash : option string;
  o_code : string; o_name : string; o_walletApiUrl : option string; o_walletApiKey : option string
}.

Record session := mk_session {
  s_id : uuid; s_operatorId : uuid; s_playerId : string; s_currency : string; s_locale : string;
  s_walletId : uuid; s_demo : bool; s_launchJti : string; s_createdAt : Z;
  s_revokedAt : option Z; s_rcDueAt : option Z; s_rcPendingAt : option Z; s_rcLastAckAt : option Z
}.

Inductive chain_status := ChPending | ChArmed | ChActive | ChExhausted.
#[export] Instance chain_status_eq_dec : EqDecision chain_status.
Proof. solve_decision. Defined.

Record chain := mk_chain {
  c_id : uuid; c_epoch : Z; c_commitHash : string; c_length : Z; c_saltSource : string;
  c_targetChain : option string; c_targetBlock : option Z; c_salt : option string;
  c_status : chain_status; c_createdAt : Z; c_armedAt : option Z
}.

Record seed := mk_seed {
  sd_id : uuid; sd_chainId : uuid; sd_chainIndex : Z; sd_seedHash : string;
  sd_seed : string; sd_revealedAt : option Z
}.

(** Reasons of a rollback and the logical reversal they identify. *)
Inductive rb_status := RbPending | RbDraining | RbConfirmed.
#[export] Instance rb_status_eq_dec : EqDecision rb_status.
Proof. solve_decision. Defined.

Definition dedupe_key : Type := (uuid + idem_key) * string.

Record rollback_row := mk_rollback {
  rb_id : uuid; rb_operatorId : uuid; rb_playerId : string; rb_currency : string;
  rb_transactionId : idem_key; rb_dedupeKey : dedupe_key; rb_reason : string;
  rb_betId : option uuid; rb_amount : option Z; rb_status_ : rb_status;
  rb_attempts : Z; rb_lastError : option exn; rb_leaseUntil : option Z; rb_resolvedAt : option Z
}.

Record audit_event := mk_audit {
  a_actor : string; a_action : string; a_targetType : option string; a_targetId : option string;
  a_operatorId : option uuid; a_ip : option string;
  a_before : option json; a_after : option json; a_meta : option json
}.

(** A stored event and its creation time. *)
Record audit_row := mk_audit_row { ar_createdAt : Z; ar_event : audit_event }.

(** ** Operator calls *)

Inductive op_call :=
| OpBalance (op : uuid) (player ccy : string)
| OpBet (op : uuid) (player ccy : string) (amount : Z) (tx : idem_key) (betId : option uuid)
| OpWin (op : uuid) (player ccy : string) (amount : Z) (tx : idem_key) (betId : option uuid)
| OpRollback (op : uuid) (player ccy : string) (tx : idem_key) (betId : option uuid).

#[export] Instance op_call_eq_dec : EqDecision op_call.
Proof. solve_decision. Defined.

(** What an operator answers: its transaction reference and the balance. *)
Record op_answer := mk_answer { oa_txId : string; oa_balance : Z }.

(** In-memory effects other parts of the process observe. *)
Inductive event :=
| EvMetric (name : string) (label : string)
| EvPhase (round : uuid) (ph : phase)
| EvCrash (round : uuid) (mult : Z)
| EvSettle (round : uuid)
| EvSettled (round : uuid)
| EvRecordBet (amount : Z)
| EvRecordPayout (amount : Z)
| EvGauge (name : string) (a b : Z)
| EvLog (what : string).

(** ** The world *)

(** A statement may fail before it has any effect, or after its effect is
    committed but before the acknowledgement arrives. *)
Inductive fault := NoFault | FailBefore | FailAfter.

Record world := mk_world {
  w_now : Z;
  w_faults : list fault;
  w_uuid : N;
  w_bets : gmap N bet;
  w_rounds : gmap N round;
  w_wallets : gmap N wallet;
  w_ledger : gmap idem_key ledger_row;
  w_profiles : gmap N profile;
  w_sessions : gmap N session;
  w_chains : list chain;
  w_seeds : list seed;
  w_rollbacks : list rollback_row;
  w_audit : list audit_row;
  w_answers : list (res op_answer);
  w_calls : list (op_call * bool);
  w_events : list event;
  w_operators : gmap N operator;
  w_users : gmap N user
}.

Definition empty_world : world :=
  mk_world 0 [] 0 ∅ ∅ ∅ ∅ ∅ ∅ [] [] [] [] [] [] [] ∅ ∅.

Definition set_bets (x : gmap N bet) (w : world) : world :=
  mk_world (w_now w) (w_faults w) (w_uuid w) x (w_rounds w) (w_wallets w) (w_ledger w)
    (w_profiles w) (w_sessions w) (w_chains w) (w_seeds w) (w_rollbacks w) (w_audit w)
    (w_answers w) (w_calls w) (w_events w)
    (w_operators w) (w_users w).
Definition set_rounds (x : gmap N round) (w : world) : world :=
  mk_world (w_now w) (w_faults w) (w_uuid w) (w_bets w) x (w_wallets w) (w_ledger w)
    (w_profiles w) (w_sessions w) (w_chains w) (w_seeds w) (w_rollbacks w) (w_audit w)
    (w_answers w) (w_calls w) (w_events w)
    (w_operators w) (w_users w).
Definition set_wallets (x : gmap N wallet) (w : world) : world :=
  mk_world (w_now w) (w_faults w) (w_uuid w) (w_bets w) (w_rounds w) x (w_ledger w)
    (w_profiles w) (w_sessions w) (w_chains w) (w_seeds w) (w_rollbacks w) (w_audit w)
    (w_answers w) (w_calls w) (w_events w)
    (w_operators w) (w_users w).
Definition set_ledger (x : gmap idem_key ledger_row) (w : world) : world :=
  mk_world (w_now w) (w_faults w) (w_uuid w) (w_bets w) (w_rounds w) (w_wallets w) x
    (w_profiles w) (w_sessions w) (w_chains w) (w_seeds w) (w_rollbacks w) (w_audit w)
    (w_answers w) (w_calls w) (w_events w)
    (w_operators w) (w_users w).
Definition set_profiles (x : gmap N profile) (w : world) : world :=
  mk_world (w_now w) (w_faults w) (w_uuid w) (w_bets w) (w_rounds w) (w_wallets w) (w_ledger w)
    x (w_sessions w) (w_chains w) (w_seeds w) (w_rollbacks w) (w_audit w)
    (w_answers w) (w_calls w) (w_events w)
    (w_operators w) (w_users w).
Definition set_sessions (x : gmap N session) (w : world) : world :=
  mk_world (w_now w) (w_faults w) (w_uuid w) (w_bets w) (w_rounds w) (w_wallets w) (w_ledger w)
    (w_profiles w) x (w_chains w) (w_seeds w) (w_rollbacks w) (w_audit w)
    (w_answers w) (w_calls w) (w_events w)
    (w_operators w) (w_users w).
Definition set_chains (x : list chain) (w : world) : world :=
  mk_world (w_now w) (w_faults w) (w_uuid w) (w_bets w) (w_rounds w) (w_wallets w) (w_ledger w)
    (w_profiles w) (w_sessions w) x (w_seeds w) (w_rollbacks w) (w_audit w)
    (w_answers w) (w_calls w) (w_events w)
    (w_operators w) (w_users w).
Definition set_seeds (x : list seed) (w : world) : world :=
  mk_world (w_now w) (w_faults w) (w_uuid w) (w_bets w) (w_rounds w) (w_wallets w) (w_ledger w)
    (w_profiles w) (w_sessions w) (w_chains w) x (w_rollbacks w) (w_audit w)
    (w_answers w) (w_calls w) (w_events w)
    (w_operators w) (w_users w).
Definition set_rollbacks (x : list rollback_row) (w : world) : world :=
  mk_world (w_now w) (w_faults w) (w_uuid w) (w_bets w) (w_rounds w) (w_wallets w) (w_ledger w)
    (w_profiles w) (w_sessions w) (w_chains w) (w_seeds w) x (w_audit w)
    (w_answers w) (w_calls w) (w_events w)
    (w_operators w) (w_users w).
Definition set_audit (x : list audit_row) (w : world) : world :=
  mk_world (w_now w) (w_faults w) (w_uuid w) (w_bets w) (w_rounds w) (w_wallets w) (w_ledger w)
    (w_profiles w) (w_sessions w) (w_chains w) (w_seeds w) (w_rollbacks w) x
    (w_answers w) (w_calls w) (w_events w)
    (w_operators w) (w_users w).
Definition set_events (x : list event) (w : world) : world :=
  mk_world (w_now w) (w_faults w) (w_uuid w) (w_bets w) (w_rounds w) (w_wallets w) (w_ledger w)
    (w_profiles w) (w_sessions w) (w_chains w) (w_seeds w) (w_rollbacks w) (w_audit w)
    (w_answers w) (w_calls w) x
    (w_operators w) (w_users w).
Definition set_calls (a : list (res op_answer)) (c : list (op_call * bool)) (w : world) : world :=
  mk_world (w_now w) (w_faults w) (w_uuid w) (w_bets w) (w_rounds w) (w_wallets w) (w_ledger w)
    (w_profiles w) (w_sessions w) (w_chains w) (w_seeds w) (w_rollbacks w) (w_audit w)
    a c (w_events w)
    (w_operators w) (w_users w).
Definition set_faults (x : list fault) (w : world) : world :=
  mk_world (w_now w) x (w_uuid w) (w_bets w) (w_rounds w) (w_wallets w) (w_ledger w)
    (w_profiles w) (w_sessions w) (w_chains w) (w_seeds w) (w_rollbacks w) (w_audit w)
    (w_answers w) (w_calls w) (w_events w)
    (w_operators w) (w_users w).
Definition bump_uuid (w : world) : world :=
  mk_world (w_now w) (w_faults w) (N.succ (w_uuid w)) (w_bets w) (w_rounds w) (w_wallets w)
    (w_ledger w) (w_profiles w) (w_sessions w) (w_chains w) (w_seeds w) (w_rollbacks w)
    (w_audit w) (w_answers w) (w_calls w) (w_events w)
    (w_operators w) (w_users w).
Definition set_now (t : Z) (w : world) : world :=
  mk_world t (w_faults w) (w_uuid w) (w_bets w) (w_rounds w) (w_wallets w) (w_ledger w)
    (w_profiles w) (w_sessions w) (w_chains w) (w_seeds w) (w_rollbacks w) (w_audit w)
    (w_answers w) (w_calls w) (w_events w)
    (w_operators w) (w_users w).

Definition set_operators (x : gmap N operator) (w : world) : world :=
  mk_world (w_now w) (w_faults w) (w_uuid w) (w_bets w) (w_rounds w) (w_wallets w) (w_ledger w)
    (w_profiles w) (w_sessions w) (w_chains w) (w_seeds w) (w_rollbacks w) (w_audit w)
    (w_answers w) (w_calls w) (w_events w) x (w_users w).
Definition set_users (x : gmap N user) (w : world) : world :=
  mk_world (w_now w) (w_faults w) (w_uuid w) (w_bets w) (w_rounds w) (w_wallets w) (w_ledger w)
    (w_profiles w) (w_sessions w) (w_chains w) (w_seeds w) (w_rollbacks w) (w_audit w)
    (w_answers w) (w_calls w) (w_events w) (w_operators w) x.

(** ** Statements *)

(** A database statement: one atomic step, subject to the next fault. *)
Definition db_step {A} (f : world -> res A * world) (w : world) : res A * world :=
  match w_faults w with
  | [] => f w
  | NoFault :: fs => f (set_faults fs w)
  | FailBefore :: fs => (Raise DbUnavailable, set_faults fs w)
  | FailAfter :: fs => (Raise DbUnavailable, (f (set_faults fs w)).2)
  end.

Definition db {A} (f : world -> res A * world) : prog world A := atom_res (db_step f).

Definition db_get {A} (f : world -> A) : prog world A := db (fun w => (Ok (f w), w)).
Definition db_set (f : world -> world) : prog world unit := db (fun w => (Ok tt, f w)).

(** The state after a rolled-back transaction: the tables of [before]; what the
    process did in memory, and the identifiers it drew, stay. *)
Definition undo_tables (before after : world) : world :=
  mk_world (w_now before) (w_faults after) (N.max (w_uuid before) (w_uuid after)) (w_bets before) (w_rounds before)
    (w_wallets before) (w_ledger before) (w_profiles before) (w_sessions before)
    (w_chains before) (w_seeds before) (w_rollbacks before) (w_audit before)
    (w_answers after) (w_calls after) (w_events after)
    (w_operators before) (w_users before).

(** [prisma.$transaction(async (tx) => p)]; the commit is itself a statement. *)
Definition db_transaction {A} (p : prog world A) : prog world A :=
  db (run_transaction undo_tables p).

(** In-memory effects: never fail. *)
Definition emit (e : event) : prog world unit :=
  atom (fun w => (tt, set_events (e :: w_events w) w)).
Definition Date_now : prog world Z := gets w_now.
Definition randomUUID : prog world N := atom (fun w => (w_uuid w, bump_uuid w)).

(** [updateMany({ where: { id, ...P }, data: f })]: compare-and-swap on one bet;
    the count of rows changed. *)
Definition bet_updateMany_id (id : N) (P : bet -> bool) (f : bet -> bet) : prog world Z :=
  db (fun w => match w_bets w !! id with
               | Some b => if P b then (Ok 1, set_bets (<[id := f b]> (w_bets w)) w) else (Ok 0, w)
               | None => (Ok 0, w)
               end).

(** [update({ where: { id }, data: f })]: throws when there is no such row. *)
Definition bet_update (id : N) (f : bet -> bet) : prog world unit :=
  db (fun w => match w_bets w !! id with
               | Some b => (Ok tt, set_bets (<[id := f b]> (w_bets w)) w)
               | None => (Raise RecordNotFound, w)
               end).

Definition bet_delete (id : N) : prog world unit :=
  db (fun w => match w_bets w !! id with
               | Some _ => (Ok tt, set_bets (delete id (w_bets w)) w)
               | None => (Raise RecordNotFound, w)
               end).

(** [findMany({ where: P })]: the rows, in some order. *)
Definition bets_where (P : bet -> bool) (w : world) : list bet :=
  List.filter P (map_to_list (w_bets w)).*2.

Lemma bets_where_elem P w b : b ∈ bets_where P w <-> (exists id, w_bets w !! id = Some b) /\ P b = true.
Proof. unfold bets_where. by rewrite list_elem_of_In, List.filter_In, <- list_elem_of_In, map_values_in. Qed.

(** [updateMany({ where: P, data: f })] over the whole table; the count. *)
Definition bets_updateMany (P : bet -> bool) (f : bet -> bet) : prog world Z :=
  db (fun w => (Ok (Z.of_nat (length (bets_where P w))),
                set_bets ((fun b => if P b then f b else b) <$> w_bets w) w)).

Definition bets_count (P : bet -> bool) : prog world Z :=
  db_get (fun w => Z.of_nat (length (bets_where P w))).

(** The [@@unique([roundId, userId, panel])] slot. *)
Definition same_slot (round user : N) (p : panel) (b : bet) : bool :=
  bool_decide (b_roundId b = round) && bool_decide (b_userId b = user) && bool_decide (b_panel b = p).

Definition bet_findUnique_slot (round user : N) (p : panel) (w : world) : option bet :=
  head (bets_where (same_slot round user p) w).

Definition bet_create (b : bet) : prog world unit :=
  db (fun w => match w_bets w !! b_id b, bet_findUnique_slot (b_roundId b) (b_userId b) (b_panel b) w with
               | None, None => (Ok tt, set_bets (<[b_id b := b]> (w_bets w)) w)
               | _, _ => (Raise UniqueViolation, w)
               end).

(** [operator.findUnique({ where: { code } })], and its key. *)
Definition operator_by_code (w : world) (code : string) : option (uuid * operator) :=
  List.find (fun e => eqb_str (o_code e.2) code) (map_to_list (w_operators w)).
Definition operator_with_code (w : world) (code : string) : option uuid := fst <$> operator_by_code w code.

(** ** Operator calls *)

Definition op_accepted (r : res op_answer) : bool := match r with Ok _ => true | Raise _ => false end.

(** One call to the operator: the next of its answers, recorded with whether it
    succeeded.  An operator that answers nothing times out. *)
Definition op_invoke (c : op_call) : prog world op_answer :=
  atom_res (fun w => match w_answers w with
                     | r :: rs => (r, set_calls rs ((c, op_accepted r) :: w_calls w) w)
                     | [] => (Raise OperatorTimeout, set_calls [] ((c, false) :: w_calls w) w)
                     end).

(** ** Relations between worlds *)

(** Only the environment changed: clock, faults, answers, memory, and the
    identifiers drawn, which only move on. *)
Definition tables_eq (w w' : world) : Prop :=
  w_bets w' = w_bets w /\ w_rounds w' = w_rounds w /\ w_wallets w' = w_wallets w /\
  w_ledger w' = w_ledger w /\ w_profiles w' = w_profiles w /\ w_sessions w' = w_sessions w /\
  w_chains w' = w_chains w /\ w_seeds w' = w_seeds w /\ w_rollbacks w' = w_rollbacks w /\
  w_audit w' = w_audit w /\ w_operators w' = w_operators w /\ w_users w' = w_users w /\
  (w_uuid w <= w_uuid w')%N.

(** Prove the equations of a frame, and that the counter did not go back. *)
Ltac frame := repeat (split; [first [reflexivity | congruence]|]); cbn; first [reflexivity | congruence | lia].

#[export] Instance tables_eq_preorder : PreOrder tables_eq.
Proof. split; [intros w; frame|]. unfold tables_eq. intros x y z ??; destruct_and!; split_and!; first [congruence|lia]. Qed.

Lemma tables_set_faults fs w : tables_eq w (set_faults fs w).
Proof. frame. Qed.
Lemma tables_undo w w' : tables_eq w (undo_tables w w').
Proof. frame. Qed.
Lemma tables_uuid w w' : tables_eq w w' -> (w_uuid w <= w_uuid w')%N.
Proof. unfold tables_eq. by intros ?; destruct_and!. Qed.
Lemma undo_tables_refl w : undo_tables w w = w.
Proof. unfold undo_tables. rewrite N.max_id. by destruct w. Qed.

(** A relation that only looks at the tables. *)
Class TableRel (R : world -> world -> Prop) : Prop := {
  table_preorder :: PreOrder R;
  table_env w w' : tables_eq w w' -> R w w'
}.

#[export] Instance tables_eq_rel : TableRel tables_eq.
Proof. split; [apply _|done]. Qed.

Section table_steps.
Context (R : world -> world -> Prop) `{!TableRel R}.

Lemma db_step_rel {A} (f : world -> res A * world) w :
  (forall w, R w (f w).2) -> R w (db_step f w).2.
Proof.
  intros Hf. unfold db_step. destruct (w_faults w) as [|[] fs]; simpl; [apply Hf|..].
  - etrans; [apply table_env, tables_set_faults|apply Hf].
  - apply table_env, tables_set_faults.
  - etrans; [apply table_env, tables_set_faults|apply Hf].
Qed.

Lemma steps_db {A} (f : world -> res A * world) :
  (forall w, R w (f w).2) -> steps_in R (db f).
Proof. intros Hf. apply steps_atom_res. intros w. by apply db_step_rel. Qed.

Lemma steps_db_get {A} (f : world -> A) : steps_in R (db_get f).
Proof. apply steps_db. intros w. simpl. reflexivity. Qed.

Lemma steps_db_set f : (forall w, R w (f w)) -> steps_in R (db_set f).
Proof. intros Hf. by apply steps_db. Qed.

Lemma steps_transaction {A} (p : prog world A) :
  (forall w a w', run p w = (Ok a, w') -> R w w') -> steps_in R (db_transaction p).
Proof.
  intros Hp. apply steps_db. intros w. unfold run_transaction.
  destruct (run p w) as [[a|e] w'] eqn:E; simpl; [eauto|apply table_env, tables_undo].
Qed.

Lemma steps_emit e : steps_in R (emit e).
Proof. apply steps_atom. intros w. apply table_env. frame. Qed.

Lemma steps_now : steps_in R Date_now.
Proof. apply steps_gets. apply _. Qed.

Lemma steps_uuid : steps_in R randomUUID.
Proof. apply steps_atom. intros w. apply table_env. frame. Qed.

Lemma steps_op c : steps_in R (op_invoke c).
Proof.
  apply steps_atom_res. intros w. apply table_env.
  destruct (w_answers w); frame.
Qed.
End table_steps.

#[export] Hint Resolve steps_db_get steps_emit steps_now steps_uuid steps_op : vr_steps.
#[export] Hint Extern 1 (TableRel _) => typeclasses eauto : vr_steps.

(** A successful statement ran its function in a state with the same tables. *)
Lemma run_db_ok {A} (f : world -> res A * world) w a w' :
  run (db f) w = (Ok a, w') -> exists fs, f (set_faults fs w) = (Ok a, w').
Proof.
  unfold db. rewrite run_atom_res. unfold db_step.
  destruct (w_faults w) as [|[] fs] eqn:E; intros Hr; try done; [|eauto].
  exists []. rewrite <- E. by destruct w.
Qed.

Lemma run_db_nofault {A} (f : world -> res A * world) w :
  w_faults w = [] -> run (db f) w = f w.
Proof. intros Hw. unfold db. rewrite run_atom_res. unfold db_step. by rewrite Hw. Qed.

Lemma run_db_get {A} (f : world -> A) w :
  w_faults w = [] -> run (db_get f) w = (Ok (f w), w).
Proof. intros Hw. unfold db_get. by rewrite run_db_nofault. Qed.

(** Specifications of statements: a property of the tables survives a fault. *)
Lemma spec_db {A} (P : world -> Prop) (f : world -> res A * world) (Q : res A -> world -> Prop) :
  (forall w fs, P w -> P (set_faults fs w)) ->
  (forall w, P w -> Q (Raise DbUnavailable) w) ->
  (forall w, P w -> Q (f w).1 (f w).2 /\ Q (Raise DbUnavailable) (f w).2) ->
  spec P (db f) Q.
Proof.
  intros Hfs Hfail Hf w Hw. unfold db. rewrite run_atom_res. unfold db_step.
  destruct (w_faults w) as [|[] fs]; cbn [fst snd]; [by apply Hf|by apply Hf, Hfs|by apply Hfail, Hfs|].
  by apply Hf, Hfs.
Qed.

Lemma spec_db_get {A} (P : world -> Prop) (f : world -> A) (Q : res A -> world -> Prop) :
  (forall w fs, P w -> P (set_faults fs w)) ->
  (forall w, P w -> Q (Raise DbUnavailable) w) -> (forall w, P w -> Q (Ok (f w)) w) ->
  spec P (db_get f) Q.
Proof. intros H1 H2 H3. apply spec_db; [done..|]. intros w Hw. split; [by apply H3|by apply H2]. Qed.

(** *** Statements under rely-guarantee *)

(** A shared invariant that only looks at the tables. *)
Class TableInv `{Countable T} (I : world -> gset T -> Prop) : Prop :=
  inv_env w w' own : tables_eq w w' -> I w own -> I w' own.

Section secure_db.
Context `{Countable T} (R : world -> world -> Prop) (I : world -> gset T -> Prop).
Context `{!TableRel R} `{!TableInv I}.

Lemma secure_db {A} s o (f : world -> res A * world) (Q : world -> gset T -> res A -> Prop) :
  (forall w F, R s w -> o ## F -> I w (o ∪ F) ->
     R w (f w).2 /\ exists o', o' ## F /\ I (f w).2 (o' ∪ F) /\
       Q (f w).2 o' (f w).1 /\ Q (f w).2 o' (Raise DbUnavailable)) ->
  (forall w, R s w -> Q w o (Raise DbUnavailable)) ->
  secure R I s o (db f) Q.
Proof.
  intros Hf Hfail w F HR Ho HI. cbn [db atom_res fst snd].
  assert (Hfs : forall fs, tables_eq w (set_faults fs w)) by (intros; apply tables_set_faults).
  assert (HRf : forall fs, R w (set_faults fs w)) by (intros; by apply table_env).
  unfold db_step. destruct (w_faults w) as [|[] fs].
  - destruct (Hf w F HR Ho HI) as (? & o' & ? & ? & ? & ?). split; [done|]. by exists o'.
  - destruct (Hf (set_faults fs w) F) as (HR' & o' & ? & ? & ? & ?); [etrans; [exact HR|apply HRf]|done|eapply inv_env; [apply Hfs|exact HI]|].
    split; [etrans; [apply HRf|exact HR']|]. by exists o'.
  - split; [apply HRf|]. exists o. split; [done|]. split; [eapply inv_env; [apply Hfs|exact HI]|]. apply Hfail. etrans; [exact HR|apply HRf].
  - destruct (Hf (set_faults fs w) F) as (HR' & o' & ? & ? & ? & ?); [etrans; [exact HR|apply HRf]|done|eapply inv_env; [apply Hfs|exact HI]|].
    split; [etrans; [apply HRf|exact HR']|]. by exists o'.
Qed.

(** A statement that only reads. *)
Lemma secure_read {A} s o (f : world -> res A * world) (Q : world -> gset T -> res A -> Prop) :
  (forall w, (f w).2 = w) ->
  (forall w F, R s w -> o ## F -> I w (o ∪ F) -> Q w o (f w).1) ->
  (forall w, R s w -> Q w o (Raise DbUnavailable)) ->
  secure R I s o (db f) Q.
Proof.
  intros Hw HQ Hfail. apply secure_db; [|done]. intros w F HR Ho HI. rewrite Hw.
  split; [reflexivity|]. exists o. split_and!; eauto.
Qed.

Lemma secure_get {A} s o (f : world -> A) (Q : world -> gset T -> res A -> Prop) :
  (forall w F, R s w -> o ## F -> I w (o ∪ F) -> Q w o (Ok (f w))) ->
  (forall w, R s w -> Q w o (Raise DbUnavailable)) ->
  secure R I s o (db_get f) Q.
Proof. intros. by apply secure_read. Qed.

Lemma secure_transaction {A} s o (p : prog world A) (Q : world -> gset T -> res A -> Prop) :
  (forall w F a w', R s w -> o ## F -> I w (o ∪ F) -> run p w = (Ok a, w') ->
     R w w' /\ exists o', o' ## F /\ I w' (o' ∪ F) /\ Q w' o' (Ok a) /\ Q w' o' (Raise DbUnavailable)) ->
  (forall w e, R s w -> Q w o (Raise e)) ->
  secure R I s o (db_transaction p) Q.
Proof.
  intros Hok Hfail. apply secure_db; [|eauto]. intros w F HR Ho HI. unfold run_transaction.
  destruct (run p w) as [[a|e] w'] eqn:Er; cbn [fst snd]; [eauto|].
  assert (R w (undo_tables w w')) by (apply table_env, tables_undo).
  split; [done|]. exists o. split; [done|]. split; [eapply inv_env; [apply tables_undo|done]|].
  split; apply Hfail; by etrans.
Qed.
End secure_db.
