(* ===== verification/Wallet.v ===== *)
(** * The wallet-provider interface and the money router

    [wallet/wallet-provider.ts] is the interface the game talks to; it is the
    class [WalletProvider], with what every implementation promises about the
    tables it leaves alone in [WalletLaws].  [wallet/wallet-router.ts]
    dispatches each move by wallet. *)

From S2P Require Import Prelude Effects Money Schema.

Open Scope Z_scope.

Record WalletTxResult := { tx_txId : tx_id; tx_balanceAfter : Z }.

Inductive direction := OrigDebit | OrigCredit.

Record ReverseParams := {
  rp_originalKey : idem_key;
  rp_reverseKey : idem_key;
  rp_amount : Z;
  rp_originalDirection : direction;
  rp_type : ledger_type;
  rp_ref : option uuid;        (* ref.refId *)
  rp_intent : option string
}.

Class WalletProvider := {
  wp_debit : uuid -> Z -> ledger_type -> idem_key -> option uuid -> prog world WalletTxResult;
  wp_credit : uuid -> Z -> ledger_type -> idem_key -> option uuid -> prog world WalletTxResult;
  wp_rollback : uuid -> idem_key -> option uuid -> prog world unit;
  wp_reverse : uuid -> ReverseParams -> prog world unit;
  wp_getBalance : uuid -> prog world Z
}.

(** The tables no money move writes: bets, rounds, profiles, sessions,
    fairness, audit; and identifiers are only drawn. *)
Definition money_frame (w w' : world) : Prop :=
  w_bets w' = w_bets w /\ w_rounds w' = w_rounds w /\ w_profiles w' = w_profiles w /\
  w_sessions w' = w_sessions w /\ w_chains w' = w_chains w /\ w_seeds w' = w_seeds w /\
  w_audit w' = w_audit w /\ (w_uuid w <= w_uuid w')%N.

#[export] Instance money_frame_rel : TableRel money_frame.
Proof.
  split; [split|].
  - intros w. frame.
  - unfold money_frame. intros x y z ??; destruct_and!; split_and!; first [congruence|lia].
  - unfold tables_eq, money_frame. intros; destruct_and!; split_and!; done.
Qed.

(** Nor the ledger. *)
Definition still (w w' : world) : Prop := money_frame w w' /\ w_ledger w' = w_ledger w.

#[export] Instance still_rel : TableRel still.
Proof.
  split; [split|].
  - by intros w.
  - unfold still. intros x y z [? ?] [? ?]. split; [by etrans|congruence].
  - intros w w' Ht. split; [by apply table_env|]. unfold tables_eq in Ht. by destruct_and!.
Qed.

(** A money move under a key: at most one row, under that key, which was
    free, of that amount on that wallet. *)
Definition key_step (k : idem_key) (wid : uuid) (amt : Z) (w w' : world) : Prop :=
  money_frame w w' /\
  (w_ledger w' = w_ledger w \/
   w_ledger w !! k = None /\ exists row, w_ledger w' = <[k := row]> (w_ledger w) /\
     l_walletId row = wid /\ l_amount row = amt).

#[export] Instance key_step_rel k wid amt : TableRel (key_step k wid amt).
Proof.
  split; [split|].
  - intros w. split; [reflexivity|by left].
  - intros x y z [F1 [E1|(N1 & r1 & E1 & H1)]] [F2 [E2|(N2 & r2 & E2 & H2)]];
      (split; [by etrans|]); [left|right|right|]; try congruence.
    + split; [congruence|]. exists r2. by rewrite E2, E1.
    + split; [done|]. exists r1. by rewrite E2, E1.
    + rewrite E1, lookup_insert_eq in N2. done.
  - intros w w' Ht. split; [by apply table_env|]. left. unfold tables_eq in Ht. by destruct_and!.
Qed.

Lemma still_key_step k wid amt w w' : still w w' -> key_step k wid amt w w'.
Proof. intros [? ?]. split; [done|by left]. Qed.

(** What a reversal adds to the wallet. *)
Definition inverse_amount (p : ReverseParams) : Z :=
  match rp_originalDirection p with OrigDebit => rp_amount p | OrigCredit => - rp_amount p end.

Class WalletLaws (W : WalletProvider) : Prop := {
  wp_debit_posts wid amt ty k ref : steps_in (key_step k wid (- amt)) (wp_debit wid amt ty k ref);
  wp_credit_posts wid amt ty k ref : steps_in (key_step k wid amt) (wp_credit wid amt ty k ref);
  wp_rollback_still a b c : steps_in still (wp_rollback a b c);
  wp_reverse_posts wid p : steps_in (key_step (rp_reverseKey p) wid (inverse_amount p)) (wp_reverse wid p);
  wp_balance_still a : steps_in still (wp_getBalance a)
}.

(** ** The router *)

Module Router.
Section router.
Context (ledger operator : WalletProvider) (isDemoWallet : uuid -> prog world bool).

(** [(await this.pick(walletId)).k(...)] *)
Definition pick {A} (walletId : uuid) (k : WalletProvider -> prog world A) : prog world A :=
  demo ← isDemoWallet walletId; k (if demo : bool then ledger else operator).

Definition debit walletId amount ty key ref : prog world WalletTxResult :=
  pick walletId (fun P => @wp_debit P walletId amount ty key ref).
Definition credit walletId amount ty key ref : prog world WalletTxResult :=
  pick walletId (fun P => @wp_credit P walletId amount ty key ref).
Definition rollback walletId key ref : prog world unit :=
  pick walletId (fun P => @wp_rollback P walletId key ref).
Definition reverse walletId params : prog world unit :=
  pick walletId (fun P => @wp_reverse P walletId params).
Definition getBalance walletId : prog world Z :=
  pick walletId (fun P => @wp_getBalance P walletId).

Definition WalletRouter : WalletProvider := {|
  wp_debit := debit; wp_credit := credit; wp_rollback := rollback;
  wp_reverse := reverse; wp_getBalance := getBalance
|}.

Lemma steps_pick {A} R walletId (k : WalletProvider -> prog world A) :
  steps_in R (isDemoWallet walletId) -> steps_in R (k ledger) -> steps_in R (k operator) ->
  steps_in R (pick walletId k).
Proof. intros Hd Hl Ho. apply steps_bind; [done|]. by intros []. Qed.

Lemma WalletRouter_laws :
  WalletLaws ledger -> WalletLaws operator ->
  (forall id, steps_in still (isDemoWallet id)) -> WalletLaws WalletRouter.
Proof.
  intros Hl Ho Hd. split; intros; apply steps_pick; try done; try apply Hl; try apply Ho;
    by apply (steps_mono _ still); [apply still_key_step|].
Qed.

(** Routing: the demo flag of the wallet alone decides which provider runs,
    and a failed lookup reaches neither. *)
Lemma run_pick {A} walletId (k : WalletProvider -> prog world A) w :
  run (pick walletId k) w =
  match run (isDemoWallet walletId) w with
  | (Ok true, w') => run (k ledger) w'
  | (Ok false, w') => run (k operator) w'
  | (Raise e, w') => (Raise e, w')
  end.
Proof.
  unfold pick. rewrite run_bind. by destruct (run (isDemoWallet walletId) w) as [[[]|e] w'].
Qed.
End router.
End Router.
