(* ===== verification/Ledger.v ===== *)
(** * The internal ledger

    [wallet/ledger.service.ts]: an append-only journal whose cached total is
    the wallet's balance.  Modelled: [debit], [credit], [reverse], [rollback],
    [getBalance], [resetTo] and the private [record].  Proved: the functional
    behaviour of each branch, idempotence on the key, and, for every step of
    every interleaving and whatever statement fails, that the journal only
    grows and that balance minus journal total never moves. *)

From S2P Require Import Prelude Effects Money Schema Wallet.

Open Scope Z_scope.

Module Ledger.
Definition INSUFFICIENT : exn := BadRequest "insufficient_balance".

Definition findKey (k : idem_key) : prog world (option ledger_row) :=
  db_get (fun w => w_ledger w !! k).

Definition wallet_findUniqueOrThrow (id : uuid) : prog world wallet :=
  db (fun w => match w_wallets w !! id with
               | Some wl => (Ok wl, w)
               | None => (Raise RecordNotFound, w)
               end).

Definition wallet_set_balance (id : uuid) (bal : Z) : prog world unit :=
  db (fun w => match w_wallets w !! id with
               | Some wl => (Ok tt, set_wallets
                   (<[id := mk_wallet (w_userId wl) (w_currency wl) bal]> (w_wallets w)) w)
               | None => (Raise RecordNotFound, w)
               end).

Definition ledger_create (k : idem_key) (row : ledger_row) : prog world ledger_row :=
  db (fun w => match w_ledger w !! k with
               | Some _ => (Raise UniqueViolation, w)
               | None => (Ok row, set_ledger (<[k := row]> (w_ledger w)) w)
               end).

(** The unique-violation backstop around the transaction. *)
Definition with_backstop (k : idem_key) (p : prog world (option ledger_row))
  : prog world (option ledger_row) :=
  try_catch p (fun e =>
    match e with
    | UniqueViolation => row ← findKey k;
                         match row with Some r => mret (Some r) | None => raise e end
    | _ => raise e
    end).

(** The body of [record]'s transaction, run under the wallet's row lock. *)
Definition record_tx (walletId : uuid) (signedAmount : Z) (ty : ledger_type) (k : idem_key)
    (ref : option uuid) : prog world (option ledger_row) :=
  dup ← findKey k;
  match dup with
  | Some r => mret (Some r)
  | None =>
      wl ← wallet_findUniqueOrThrow walletId;
      let balanceAfter := w_balance wl + signedAmount in
      if balanceAfter <? 0 then raise INSUFFICIENT
      else
        _ ← wallet_set_balance walletId balanceAfter;
        id ← randomUUID;
        row ← ledger_create k (mk_ledger id walletId ty signedAmount balanceAfter ref);
        mret (Some row)
  end.

Definition to_result (row : option ledger_row) : prog world WalletTxResult :=
  match row with
  | Some r => mret {| tx_txId := TxLedger (l_id r); tx_balanceAfter := l_balanceAfter r |}
  | None => raise (JsError "null row")
  end.

Definition record (walletId : uuid) (signedAmount : Z) (ty : ledger_type) (k : idem_key)
    (ref : option uuid) : prog world (option ledger_row) :=
  existing ← findKey k;
  match existing with
  | Some r => mret (Some r)
  | None => with_backstop k (db_transaction (record_tx walletId signedAmount ty k ref))
  end.

Definition debit walletId (amount : Z) ty k ref : prog world WalletTxResult :=
  if amount <=? 0 then raise (BadRequest "amount_must_be_positive")
  else row ← record walletId (- amount) ty k ref; to_result row.

Definition credit walletId (amount : Z) ty k ref : prog world WalletTxResult :=
  if amount <=? 0 then raise (BadRequest "amount_must_be_positive")
  else row ← record walletId amount ty k ref; to_result row.

Definition getBalance (walletId : uuid) : prog world Z :=
  wl ← wallet_findUniqueOrThrow walletId; mret (w_balance wl).

Definition rollback (_ : uuid) (_ : idem_key) (_ : option uuid) : prog world unit := mret tt.

Definition reverse (walletId : uuid) (p : ReverseParams) : prog world unit :=
  match rp_originalDirection p with
  | OrigDebit => _ ← credit walletId (rp_amount p) (rp_type p) (rp_reverseKey p) (rp_ref p); mret tt
  | OrigCredit => _ ← debit walletId (rp_amount p) (rp_type p) (rp_reverseKey p) (rp_ref p); mret tt
  end.

(** [resetTo]: [None] is the null of a wallet already at its target. *)
Definition resetTo_tx (walletId : uuid) (target : Z) (k : idem_key) (ref : option uuid)
  : prog world (option ledger_row) :=
  dup ← findKey k;
  match dup with
  | Some r => mret (Some r)
  | None =>
      wl ← wallet_findUniqueOrThrow walletId;
      let delta := target - w_balance wl in
      if delta =? 0 then mret None
      else
        _ ← wallet_set_balance walletId target;
        id ← randomUUID;
        row ← ledger_create k (mk_ledger id walletId Adjustment delta target ref);
        mret (Some row)
  end.

Definition resetTo (walletId : uuid) (target : Z) (k : idem_key) (ref : option uuid)
  : prog world (option ledger_row) :=
  if target <? 0 then raise (BadRequest "amount_must_not_be_negative")
  else
    existing ← findKey k;
    match existing with
    | Some r => mret (Some r)
    | None => with_backstop k (db_transaction (resetTo_tx walletId target k ref))
    end.

#[export] Instance LedgerService : WalletProvider := {
  wp_debit := debit; wp_credit := credit; wp_rollback := rollback;
  wp_reverse := reverse; wp_getBalance := getBalance
}.

(** ** The journal and the cached balance *)

Definition row_of (id : uuid) (r : ledger_row) : Z := if bool_decide (l_walletId r = id) then l_amount r else 0.

(** Total of a wallet's journal. *)
Definition journal (w : world) (id : uuid) : Z := sum_map (row_of id) (w_ledger w).

(** One transition of the money tables: rows are only added, wallets stay,
    balance minus journal is fixed, and a solvent wallet stays solvent. *)
Definition ledger_step (w w' : world) : Prop :=
  w_ledger w ⊆ w_ledger w' /\
  forall id wl, w_wallets w !! id = Some wl ->
    exists wl', w_wallets w' !! id = Some wl' /\
      w_balance wl' - journal w' id = w_balance wl - journal w id /\
      w_userId wl' = w_userId wl /\ w_currency wl' = w_currency wl /\
      (0 <= w_balance wl -> 0 <= w_balance wl').

#[export] Instance ledger_step_rel : TableRel ledger_step.
Proof.
  split; [split|].
  - intros w. split; [done|]. eauto 10.
  - intros x y z [Hl1 Hw1] [Hl2 Hw2]. split; [by etrans|].
    intros id wl Hid. destruct (Hw1 _ _ Hid) as (wl1 & H1 & ? & ? & ? & ?).
    destruct (Hw2 _ _ H1) as (wl2 & ? & ? & ? & ? & ?).
    exists wl2. split_and!; try congruence; auto; lia.
  - unfold tables_eq, ledger_step, journal. intros w w' ?; destruct_and!.
    repeat match goal with H : _ w' = _ w |- _ => rewrite H end.
    split; [done|]. eauto 10.
Qed.

(** Posting one row and moving the balance with it is such a transition. *)
Lemma post_step w id wl k row :
  w_wallets w !! id = Some wl -> w_ledger w !! k = None ->
  l_walletId row = id -> 0 <= w_balance wl + l_amount row ->
  ledger_step w (set_ledger (<[k := row]> (w_ledger w))
    (set_wallets (<[id := mk_wallet (w_userId wl) (w_currency wl) (w_balance wl + l_amount row)]>
                    (w_wallets w)) w)).
Proof.
  intros Hid Hk Hrow Hpos. split; [by apply insert_subseteq|].
  intros id' wl' Hid'. unfold journal; cbn [w_wallets w_ledger set_ledger set_wallets].
  rewrite sum_map_insert by done.
  destruct (decide (id' = id)) as [->|Hne].
  - simplify_eq. eexists; split; [apply lookup_insert_eq|]. simpl.
    unfold row_of. rewrite bool_decide_eq_true_2 by done. split_and!; try done; lia.
  - exists wl'. rewrite lookup_insert_ne by congruence. split; [done|].
    unfold row_of. rewrite (bool_decide_eq_false_2 (l_walletId row = id')) by congruence.
    split_and!; try done; lia.
Qed.

(** ** Inversion of the statements *)

Lemma findKey_ok k w r w' : run (findKey k) w = (Ok r, w') -> r = w_ledger w !! k /\ tables_eq w w'.
Proof. intros (fs & E)%run_db_ok. simplify_eq. split; [done|apply tables_set_faults]. Qed.

Lemma wallet_find_ok id w wl w' :
  run (wallet_findUniqueOrThrow id) w = (Ok wl, w') -> w_wallets w !! id = Some wl /\ tables_eq w w'.
Proof.
  intros (fs & E)%run_db_ok. cbn in E. destruct (w_wallets w !! id); simplify_eq.
  split; [done|apply tables_set_faults].
Qed.

(** The two writes that end a transaction. *)
Definition post (id : uuid) (wl : wallet) (bal : Z) (k : idem_key) (mk : N -> ledger_row)
  : prog world (option ledger_row) :=
  _ ← wallet_set_balance id bal; i ← randomUUID; row ← ledger_create k (mk i); mret (Some row).

Lemma post_ok id wl bal k mk w r w' :
  w_wallets w !! id = Some wl -> run (post id wl bal k mk) w = (Ok r, w') ->
  exists i, r = Some (mk i) /\ w_ledger w !! k = None /\ (w_uuid w <= i < w_uuid w')%N /\
    tables_eq (set_ledger (<[k := mk i]> (w_ledger w))
      (set_wallets (<[id := mk_wallet (w_userId wl) (w_currency wl) bal]> (w_wallets w)) w)) w'.
Proof.
  intros Hwl E. apply run_bind_ok in E as ([] & w1 & E1 & E).
  apply run_db_ok in E1 as (fs & E1). cbn in E1. rewrite Hwl in E1. simplify_eq.
  apply run_bind_ok in E as (i & w2 & E2 & E). cbn in E2. simplify_eq.
  apply run_bind_ok in E as (row & w3 & E3 & E). apply run_db_ok in E3 as (fs' & E3).
  cbn in E3. destruct (w_ledger w !! k) eqn:Hk; simplify_eq.
  rewrite run_ret in E. simplify_eq. eexists; split; [done|]. split; [done|]. split; [cbn; lia|]. frame.
Qed.

Lemma record_tx_step walletId amt ty k ref w r w' :
  run (record_tx walletId amt ty k ref) w = (Ok r, w') -> ledger_step w w'.
Proof.
  intros E. apply run_bind_ok in E as (dup & w1 & (-> & T1)%findKey_ok & E).
  destruct (w_ledger w !! k) as [row|] eqn:Hk.
  { rewrite run_ret in E. simplify_eq. by apply table_env. }
  apply run_bind_ok in E as (wl & w2 & (Hwl & T2)%wallet_find_ok & E). cbn zeta in E.
  destruct (Z.ltb_spec (w_balance wl + amt) 0) as [Hneg|Hpos]; [done|].
  etrans; [apply table_env; etrans; [exact T1|exact T2]|].
  assert (Hwl2 : w_wallets w2 !! walletId = Some wl).
  { destruct T2 as (_ & _ & -> & _). done. }
  apply (post_ok walletId wl _ k (fun i => mk_ledger i walletId ty amt _ ref)) in E
    as (i & -> & Hk2 & _ & T3); [|done].
  etrans; [|apply table_env, T3].
  by apply (post_step w2 walletId wl k (mk_ledger i walletId ty amt (w_balance wl + amt) ref)).
Qed.

(** A reset replays, finds nothing to do, or posts the difference. *)
Lemma resetTo_tx_ok wid target k ref w r w' :
  run (resetTo_tx wid target k ref) w = (Ok r, w') ->
  tables_eq w w' \/
  (exists wl i, w_ledger w !! k = None /\ w_wallets w !! wid = Some wl /\ (w_uuid w <= i < w_uuid w')%N /\
     tables_eq (set_ledger (<[k := mk_ledger i wid Adjustment (target - w_balance wl) target ref]> (w_ledger w))
       (set_wallets (<[wid := mk_wallet (w_userId wl) (w_currency wl) target]> (w_wallets w)) w)) w').
Proof.
  intros E. apply run_bind_ok in E as (dup & w1 & (-> & T1)%findKey_ok & E).
  destruct (w_ledger w !! k) as [row|] eqn:Hk.
  { rewrite run_ret in E. simplify_eq. by left. }
  apply run_bind_ok in E as (wl & w2 & (Hwl & T2)%wallet_find_ok & E). cbn zeta in E.
  pose proof T1 as (_ & _ & HW1 & HL1 & _). pose proof T2 as (_ & _ & HW2 & HL2 & _).
  destruct (Z.eqb_spec (target - w_balance wl) 0) as [_|_].
  { rewrite run_ret in E. simplify_eq. left. by etrans. }
  right. exists wl.
  apply (post_ok wid wl _ k (fun i => mk_ledger i wid Adjustment _ _ ref)) in E
    as (i & _ & _ & Hi & T3); [|congruence].
  pose proof (tables_uuid _ _ T1). pose proof (tables_uuid _ _ T2).
  exists i. split; [done|]. split; [congruence|]. split; [lia|].
  etrans; [|apply T3]. unfold tables_eq in *; destruct_and!; split_and!; cbn in *; first [congruence|lia].
Qed.

Lemma resetTo_tx_step walletId target k ref w r w' :
  0 <= target -> run (resetTo_tx walletId target k ref) w = (Ok r, w') -> ledger_step w w'.
Proof.
  intros Ht [T|(wl & i & Hk & Hwl & _ & T)]%resetTo_tx_ok; [by apply table_env|].
  etrans; [|apply table_env, T].
  pose proof (post_step w walletId wl k
    (mk_ledger i walletId Adjustment (target - w_balance wl) target ref) Hwl Hk eq_refl) as H.
  cbn [l_amount] in H. replace (w_balance wl + (target - w_balance wl)) with target in H by lia.
  by apply H.
Qed.

Lemma steps_findKey R k : TableRel R -> steps_in R (findKey k).
Proof. intros. by apply steps_db_get. Qed.

Lemma steps_find_wallet R id : TableRel R -> steps_in R (wallet_findUniqueOrThrow id).
Proof. intros. apply steps_db; [done|]. intros w. by destruct (w_wallets w !! id). Qed.

Lemma steps_with_backstop R k p : TableRel R -> steps_in R p -> steps_in R (with_backstop k p).
Proof.
  intros HR Hp. apply steps_try; [done|]. intros []; try apply steps_raise.
  apply steps_bind; [by apply steps_findKey|]. intros []; [apply steps_ret|apply steps_raise].
Qed.

Lemma steps_to_result R row : steps_in R (to_result row).
Proof. destruct row; [apply steps_ret|apply steps_raise]. Qed.
#[local] Hint Resolve steps_findKey steps_find_wallet steps_with_backstop steps_to_result : vr_steps.

(** A relation that holds of every committed transaction holds of the operations. *)
Section ops.
Context (R : world -> world -> Prop) `{!TableRel R}.

(** A committed posting, with its type and reference. *)
Definition commits_as (wid : uuid) (amt : Z) (ty : ledger_type) (k : idem_key) (ref : option uuid) : Prop :=
  forall w r w', run (record_tx wid amt ty k ref) w = (Ok r, w') -> R w w'.

Definition commits (wid : uuid) (amt : Z) (k : idem_key) : Prop :=
  forall ty ref w r w', run (record_tx wid amt ty k ref) w = (Ok r, w') -> R w w'.

Lemma steps_record wid amt ty k ref : commits_as wid amt ty k ref -> steps_in R (record wid amt ty k ref).
Proof using All.
  intros Hc. apply steps_bind; [by apply steps_findKey|]. intros []; [apply steps_ret|].
  apply steps_with_backstop; [done|]. apply steps_transaction; [done|]. apply Hc.
Qed.
#[local] Hint Resolve steps_record : vr_steps.

Lemma steps_debit_as wid amt ty k ref : commits_as wid (- amt) ty k ref -> steps_in R (debit wid amt ty k ref).
Proof using All. intros Hc. unfold debit. steps. Qed.
Lemma steps_credit_as wid amt ty k ref : commits_as wid amt ty k ref -> steps_in R (credit wid amt ty k ref).
Proof using All. intros Hc. unfold credit. steps. Qed.
#[local] Hint Resolve steps_debit_as steps_credit_as : vr_steps.

Lemma steps_reverse_as wid p :
  (forall amt, commits_as wid amt (rp_type p) (rp_reverseKey p) (rp_ref p)) -> steps_in R (reverse wid p).
Proof using All. intros Hc. unfold reverse. steps. Qed.

Lemma steps_debit wid amt ty k ref : commits wid (- amt) k -> steps_in R (debit wid amt ty k ref).
Proof using All. intros Hc. by apply steps_debit_as; intros w; apply Hc. Qed.
Lemma steps_credit wid amt ty k ref : commits wid amt k -> steps_in R (credit wid amt ty k ref).
Proof using All. intros Hc. by apply steps_credit_as; intros w; apply Hc. Qed.
Lemma steps_reverse wid p : (forall amt, commits wid amt (rp_reverseKey p)) -> steps_in R (reverse wid p).
Proof using All. intros Hc. apply steps_reverse_as. intros amt w. apply Hc. Qed.
Lemma steps_rollback wid k ref : steps_in R (rollback wid k ref).
Proof using All. apply steps_ret. Qed.
Lemma steps_getBalance wid : steps_in R (getBalance wid).
Proof using All. unfold getBalance. steps. Qed.

Lemma steps_resetTo wid target k ref :
  (forall w r w', 0 <= target -> run (resetTo_tx wid target k ref) w = (Ok r, w') -> R w w') ->
  steps_in R (resetTo wid target k ref).
Proof using All.
  intros Hc. unfold resetTo. destruct (Z.ltb_spec target 0); [apply steps_raise|].
  apply steps_bind; [by apply steps_findKey|]. intros []; [apply steps_ret|].
  apply steps_with_backstop; [done|]. apply steps_transaction; eauto.
Qed.
End ops.

(** The calls a service can make on the ledger. *)
Inductive call :=
| CDebit (wid : uuid) (amt : Z) (ty : ledger_type) (k : idem_key) (ref : option uuid)
| CCredit (wid : uuid) (amt : Z) (ty : ledger_type) (k : idem_key) (ref : option uuid)
| CReverse (wid : uuid) (p : ReverseParams)
| CResetTo (wid : uuid) (target : Z) (k : idem_key) (ref : option uuid)
| CBalance (wid : uuid).

Definition perform (c : call) : prog world unit :=
  match c with
  | CDebit wid amt ty k ref => forget (debit wid amt ty k ref)
  | CCredit wid amt ty k ref => forget (credit wid amt ty k ref)
  | CReverse wid p => reverse wid p
  | CResetTo wid target k ref => forget (resetTo wid target k ref)
  | CBalance wid => forget (getBalance wid)
  end.

Lemma record_tx_commits wid amt k : commits ledger_step wid amt k.
Proof. intros ty ref w r w'. apply record_tx_step. Qed.

Lemma steps_ledger c : steps_in ledger_step (perform c).
Proof.
  destruct c; cbn [perform]; try apply steps_forget.
  - apply steps_debit; [apply _|apply record_tx_commits].
  - apply steps_credit; [apply _|apply record_tx_commits].
  - apply steps_reverse; [apply _|intros; apply record_tx_commits].
  - apply steps_resetTo; [apply _|]. intros. by eapply resetTo_tx_step.
  - apply steps_getBalance. apply _.
Qed.

(** ** What one posting does *)

Definition balance (w : world) (id : uuid) : option Z := w_balance <$> w_wallets w !! id.

(** Nothing under the key moved, or the key was free and posted [d] once. *)
Definition posts (id : uuid) (k : idem_key) (d : Z) (w w' : world) : Prop :=
  (w_ledger w' !! k = w_ledger w !! k /\ balance w' id = balance w id) \/
  (w_ledger w !! k = None /\ exists row, w_ledger w' !! k = Some row /\ l_amount row = d /\ balance w' id = (fun b => b + d) <$> balance w id).

#[export] Instance posts_rel id k d : TableRel (posts id k d).
Proof.
  split; [split|].
  - by left.
  - intros x y z [[H1 H2]|(H1 & row & H2 & H3 & H4)] [[H5 H6]|(H5 & row' & H7 & H8 & H9)];
      [left|right|right|]; try congruence.
    + split; congruence.
    + split; [congruence|]. exists row'. split_and!; congruence.
    + split; [done|]. exists row. split_and!; congruence.
  - intros w w' ?. left. unfold tables_eq, balance in *. destruct_and!. split; congruence.
Qed.

(** A transaction either replays the key's row, or posts one with the
    wallet's new balance. *)
Lemma record_tx_ok wid amt ty k ref w r w' :
  run (record_tx wid amt ty k ref) w = (Ok r, w') ->
  (exists row, r = Some row /\ w_ledger w !! k = Some row /\ tables_eq w w') \/
  (exists wl i, w_ledger w !! k = None /\ w_wallets w !! wid = Some wl /\ 0 <= w_balance wl + amt /\
     r = Some (mk_ledger i wid ty amt (w_balance wl + amt) ref) /\ (w_uuid w <= i < w_uuid w')%N /\
     tables_eq (set_ledger (<[k := mk_ledger i wid ty amt (w_balance wl + amt) ref]> (w_ledger w))
       (set_wallets (<[wid := mk_wallet (w_userId wl) (w_currency wl) (w_balance wl + amt)]>
          (w_wallets w)) w)) w').
Proof.
  intros E. apply run_bind_ok in E as (dup & w1 & (-> & T1)%findKey_ok & E).
  destruct (w_ledger w !! k) as [row|] eqn:Hk.
  { rewrite run_ret in E. simplify_eq. left; eauto. }
  apply run_bind_ok in E as (wl & w2 & (Hwl & T2)%wallet_find_ok & E). cbn zeta in E.
  destruct (Z.ltb_spec (w_balance wl + amt) 0) as [Hneg|Hpos]; [done|].
  right. exists wl. pose proof T1 as (_ & _ & HW1 & HL1 & _). pose proof T2 as (_ & _ & HW2 & HL2 & _).
  apply (post_ok wid wl _ k (fun i => mk_ledger i wid ty amt _ ref)) in E
    as (i & -> & _ & Hi & T3); [|congruence].
  pose proof (tables_uuid _ _ T1). pose proof (tables_uuid _ _ T2).
  exists i. split; [done|]. split; [congruence|]. split; [done|]. split; [done|]. split; [lia|].
  etrans; [|apply T3]. unfold tables_eq in *; destruct_and!; split_and!; cbn in *; first [congruence|lia].
Qed.

(** A relation that every posting keeps contains every call on the ledger. *)
Section moves.
Context (R : world -> world -> Prop) `{!TableRel R}.
Context (Hmove : forall w wid wl bal l, w_wallets w !! wid = Some wl ->
  R w (set_ledger l (set_wallets (<[wid := mk_wallet (w_userId wl) (w_currency wl) bal]> (w_wallets w)) w))).

Lemma moves_record wid amt k : commits R wid amt k.
Proof using All.
  intros ty ref w r w' [(row & _ & _ & T)|(wl & i & _ & Hwl & _ & _ & _ & T)]%record_tx_ok; [by apply table_env|].
  etrans; [|apply table_env, T]. by apply Hmove.
Qed.

Lemma moves_resetTo wid target k ref : steps_in R (resetTo wid target k ref).
Proof using All.
  apply steps_resetTo; [done|]. intros w r w' _ [T|(wl & i & _ & Hwl & _ & T)]%resetTo_tx_ok; [by apply table_env|].
  etrans; [|apply table_env, T]. by apply Hmove.
Qed.

Lemma moves_perform c : steps_in R (perform c).
Proof using All.
  pose proof moves_record.
  destruct c; cbn [perform]; try apply steps_forget.
  - by apply steps_debit.
  - by apply steps_credit.
  - by apply steps_reverse.
  - apply moves_resetTo.
  - by apply steps_getBalance.
Qed.
End moves.

Lemma record_tx_posts wid amt k : commits (posts wid k amt) wid amt k.
Proof.
  intros ty ref w r w' E. apply record_tx_ok in E as [(row & _ & _ & T)|(wl & i & Hk & Hwl & _ & _ & _ & T)].
  { by apply table_env. }
  etrans; [|apply table_env, T]. right. split; [done|]. eexists.
  split; [apply lookup_insert_eq|]. split; [done|]. unfold balance; cbn.
  by rewrite lookup_insert_eq, Hwl.
Qed.

(** The laws of the interface. *)
Lemma record_tx_key_step wid amt k : commits (key_step k wid amt) wid amt k.
Proof.
  intros ty ref w r w' E. apply record_tx_ok in E as [(row & _ & _ & T)|(wl & i & Hk & _ & _ & _ & _ & T)].
  - by apply table_env.
  - etrans; [|apply table_env, T]. split; [frame|]. right. split; [done|]. by eexists.
Qed.

#[export] Instance LedgerService_laws : WalletLaws LedgerService.
Proof.
  pose proof record_tx_key_step. split; intros; cbn.
  - by apply steps_debit; [apply _|].
  - by apply steps_credit; [apply _|].
  - by apply (steps_rollback still).
  - unfold reverse, inverse_amount. destruct (rp_originalDirection p); (apply steps_bind; [|intros; apply steps_ret]).
    + by apply steps_credit; [apply _|].
    + by apply steps_debit; [apply _|].
  - apply steps_getBalance, _.
Qed.

(** *** Execution when no statement fails *)

(** The world after posting [row] under [k] and setting the wallet to [bal]. *)
Definition posted (w : world) (id : uuid) (wl : wallet) (bal : Z) (k : idem_key) (row : ledger_row) : world :=
  bump_uuid (set_ledger (<[k := row]> (w_ledger w))
    (set_wallets (<[id := mk_wallet (w_userId wl) (w_currency wl) bal]> (w_wallets w)) w)).

Lemma post_run id wl bal k mk w :
  w_faults w = [] -> w_wallets w !! id = Some wl -> w_ledger w !! k = None ->
  run (post id wl bal k mk) w = (Ok (Some (mk (w_uuid w))), posted w id wl bal k (mk (w_uuid w))).
Proof.
  intros Hf Hwl Hk. unfold post, wallet_set_balance, ledger_create.
  rewrite run_bind, run_db_nofault, Hwl by done. rewrite run_bind. cbn [run randomUUID atom fst snd].
  rewrite run_bind, run_db_nofault by done. cbn. by rewrite Hk.
Qed.

(** A transaction behind the fast path and the backstop: it replays the row
    of a used key, and otherwise commits, or undoes what it did. *)
Lemma guarded_run k p w :
  w_faults w = [] -> w_ledger w !! k = None ->
  run (with_backstop k (db_transaction p)) w =
  match run p w with
  | (Ok r, w') => (Ok r, w')
  | (Raise e, w') => run (match e with
      | UniqueViolation => row ← findKey k;
                           match row with Some r => mret (Some r) | None => raise e end
      | _ => raise e end) (undo_tables w w')
  end.
Proof.
  intros Hf Hk. unfold with_backstop. rewrite run_try. unfold db_transaction.
  rewrite run_db_nofault by done. unfold run_transaction. by destruct (run p w) as [[r|[]] w'].
Qed.

Lemma record_run wid amt ty k ref w :
  w_faults w = [] ->
  run (record wid amt ty k ref) w =
  match w_ledger w !! k, w_wallets w !! wid with
  | Some r, _ => (Ok (Some r), w)
  | None, None => (Raise RecordNotFound, w)
  | None, Some wl =>
      let bal := w_balance wl + amt in
      if bal <? 0 then (Raise INSUFFICIENT, w)
      else let row := mk_ledger (w_uuid w) wid ty amt bal ref in
           (Ok (Some row), posted w wid wl bal k row)
  end.
Proof.
  intros Hf. unfold record, findKey. rewrite run_bind, run_db_get by done.
  destruct (w_ledger w !! k) as [r|] eqn:Hk; [done|]. rewrite guarded_run by done.
  unfold record_tx, findKey. rewrite run_bind, run_db_get, Hk by done.
  unfold wallet_findUniqueOrThrow. rewrite run_bind, run_db_nofault by done.
  destruct (w_wallets w !! wid) as [wl|] eqn:Hwl; [|cbn; by rewrite undo_tables_refl].
  cbn zeta. destruct (w_balance wl + amt <? 0); [cbn; by rewrite undo_tables_refl|].
  pose proof (post_run wid wl (w_balance wl + amt) k
    (fun i => mk_ledger i wid ty amt (w_balance wl + amt) ref) w Hf Hwl Hk) as E.
  unfold post in E. cbv beta in E. by rewrite E.
Qed.

Lemma resetTo_run wid target k ref w :
  w_faults w = [] -> 0 <= target ->
  run (resetTo wid target k ref) w =
  match w_ledger w !! k, w_wallets w !! wid with
  | Some r, _ => (Ok (Some r), w)
  | None, None => (Raise RecordNotFound, w)
  | None, Some wl =>
      if target - w_balance wl =? 0 then (Ok None, w)
      else let row := mk_ledger (w_uuid w) wid Adjustment (target - w_balance wl) target ref in
           (Ok (Some row), posted w wid wl target k row)
  end.
Proof.
  intros Hf Ht. unfold resetTo, findKey. destruct (Z.ltb_spec target 0); [lia|].
  rewrite run_bind, run_db_get by done.
  destruct (w_ledger w !! k) as [r|] eqn:Hk; [done|]. rewrite guarded_run by done.
  unfold resetTo_tx, findKey. rewrite run_bind, run_db_get, Hk by done.
  unfold wallet_findUniqueOrThrow. rewrite run_bind, run_db_nofault by done.
  destruct (w_wallets w !! wid) as [wl|] eqn:Hwl; [|cbn; by rewrite undo_tables_refl].
  cbn zeta. destruct (target - w_balance wl =? 0); [done|].
  pose proof (post_run wid wl target k
    (fun i => mk_ledger i wid Adjustment (target - w_balance wl) target ref) w Hf Hwl Hk) as E.
  unfold post in E. cbv beta in E. by rewrite E.
Qed.

(** ** Properties *)

Definition result_of (r : ledger_row) : WalletTxResult :=
  {| tx_txId := TxLedger (l_id r); tx_balanceAfter := l_balanceAfter r |}.

Lemma move_run (sign : Z) wid amt ty k ref w :
  w_faults w = [] -> 0 < amt ->
  run (row ← record wid (sign * amt) ty k ref; to_result row) w =
  match w_ledger w !! k, w_wallets w !! wid with
  | Some r, _ => (Ok (result_of r), w)
  | None, None => (Raise RecordNotFound, w)
  | None, Some wl =>
      let bal := w_balance wl + sign * amt in
      if bal <? 0 then (Raise INSUFFICIENT, w)
      else let row := mk_ledger (w_uuid w) wid ty (sign * amt) bal ref in
           (Ok (result_of row), posted w wid wl bal k row)
  end.
Proof.
  intros Hf Ha. rewrite run_bind, record_run by done.
  destruct (w_ledger w !! k); [done|]. destruct (w_wallets w !! wid) as [wl|]; [|done].
  cbn zeta. by destruct (w_balance wl + sign * amt <? 0).
Qed.

Lemma debit_run wid amt ty k ref w :
  w_faults w = [] -> 0 < amt ->
  run (debit wid amt ty k ref) w = run (row ← record wid (-1 * amt) ty k ref; to_result row) w.
Proof.
  intros _ Ha. unfold debit. destruct (Z.leb_spec amt 0); [lia|]. by replace (-1 * amt) with (- amt) by lia.
Qed.

Lemma credit_run wid amt ty k ref w :
  w_faults w = [] -> 0 < amt ->
  run (credit wid amt ty k ref) w = run (row ← record wid (1 * amt) ty k ref; to_result row) w.
Proof.
  intros _ Ha. unfold credit. destruct (Z.leb_spec amt 0); [lia|]. by rewrite Z.mul_1_l.
Qed.

(** [debit] on every branch, with the database healthy: a non-positive
    amount and an overdraft are refused, an unknown wallet raises, and none of
    the three changes anything; a key already in the journal returns its row
    unchanged, whatever wallet or amount the caller names; otherwise exactly
    one row of [- amount] is posted and the balance falls by [amount]. *)
Theorem debit_functional wid amt ty k ref w :
  w_faults w = [] ->
  run (debit wid amt ty k ref) w =
  if amt <=? 0 then (Raise (BadRequest "amount_must_be_positive"), w)
  else match w_ledger w !! k, w_wallets w !! wid with
       | Some r, _ => (Ok (result_of r), w)
       | None, None => (Raise RecordNotFound, w)
       | None, Some wl =>
           if w_balance wl - amt <? 0 then (Raise (BadRequest "insufficient_balance"), w)
           else let row := mk_ledger (w_uuid w) wid ty (- amt) (w_balance wl - amt) ref in
                (Ok (result_of row), bump_uuid (set_ledger (<[k := row]> (w_ledger w))
                  (set_wallets (<[wid := mk_wallet (w_userId wl) (w_currency wl) (w_balance wl - amt)]>
                     (w_wallets w)) w)))
       end.
Proof.
  intros Hf. unfold debit. destruct (amt <=? 0); [done|].
  rewrite run_bind, record_run by done.
  destruct (w_ledger w !! k); [done|]. destruct (w_wallets w !! wid) as [wl|]; [|done].
  replace (w_balance wl - amt) with (w_balance wl + - amt) by lia. cbn zeta.
  by destruct (w_balance wl + - amt <? 0).
Qed.

(** A wallet of 500 with an empty journal. *)
Definition demo_world : world :=
  set_wallets {[ 1%N := mk_wallet 7%N "USD" 500 ]} empty_world.

Lemma debit_functional_witness :
  w_faults demo_world = [] /\
  (run (debit 1%N 200 BetDebit (KPayout 9%N) None) demo_world).1
    = Ok {| tx_txId := TxLedger 0; tx_balanceAfter := 300 |}.
Proof.
  split; [reflexivity|]. rewrite debit_functional by reflexivity. vm_compute. reflexivity.
Defined.

(** Any number of concurrent requests for the same debit, interleaved at
    every await and with any statement failing before or after its commit,
    move the balance once or not at all: a retry after a lost acknowledgement
    never takes the stake twice. *)
Theorem duplicate_debits_post_once (n : nat) wid amt ty k ref w w' ps' :
  pool_steps w (replicate n (forget (debit wid amt ty k ref))) w' ps' ->
  (w_ledger w' !! k = w_ledger w !! k /\ balance w' wid = balance w wid) \/
  (w_ledger w !! k = None /\ exists row, w_ledger w' !! k = Some row /\ l_amount row = - amt /\
     balance w' wid = (fun b => b + - amt) <$> balance w wid).
Proof.
  intros Hp. apply (pool_steps_in (posts wid k (- amt)) _ _ _ _ Hp).
  apply Forall_replicate, steps_forget, steps_debit; [apply _|apply record_tx_posts].
Qed.

(** Two requests, the first losing its commit acknowledgement. *)
Definition lossy_world : world := set_faults [NoFault; NoFault; FailAfter] demo_world.
Definition two_debits : list (prog world unit) :=
  replicate 2 (forget (debit 1%N 200 BetDebit (KPayout 9%N) None)).

Lemma duplicate_debits_post_once_witness :
  exists w' ps', pool_steps lossy_world two_debits w' ps' /\
    balance w' 1%N = Some 300 /\
    ((w_ledger w' !! KPayout 9%N = w_ledger lossy_world !! KPayout 9%N /\
        balance w' 1%N = balance lossy_world 1%N) \/
     (w_ledger lossy_world !! KPayout 9%N = None /\
        exists row, w_ledger w' !! KPayout 9%N = Some row /\ l_amount row = - 200 /\
        balance w' 1%N = (fun b => b + - 200) <$> balance lossy_world 1%N)).
Proof.
  pose (r := schedule_pool [0; 1; 0; 1; 1]%nat lossy_world two_debits).
  exists r.1, r.2. assert (H : pool_steps lossy_world two_debits r.1 r.2)
    by apply schedule_pool_steps.
  split; [exact H|]. split; [vm_compute; reflexivity|].
  exact (duplicate_debits_post_once 2 1%N 200 BetDebit (KPayout 9%N) None _ _ _ H).
Defined.

(** C3: The ledger's guarantee.  Whatever calls run concurrently, however they
    interleave and whichever statements fail: a wallet whose balance is the
    total of its journal and not negative stays so, and no posted row is ever
    changed or lost. *)
Theorem ledger_sound (cs : list call) w w' ps' :
  pool_steps w (perform <$> cs) w' ps' ->
  w_ledger w ⊆ w_ledger w' /\
  forall id b, balance w id = Some b -> b = journal w id -> 0 <= b ->
    exists b', balance w' id = Some b' /\ b' = journal w' id /\ 0 <= b'.
Proof.
  intros Hp. assert (ledger_step w w') as [Hl Hb].
  { apply (pool_steps_in ledger_step _ _ _ _ Hp), Forall_fmap, Forall_true, steps_ledger. }
  split; [done|]. intros id b Hid -> Hpos. unfold balance in *.
  destruct (w_wallets w !! id) as [wl|] eqn:E; simplify_eq/=.
  destruct (Hb _ _ E) as (wl' & -> & Hj & _ & _ & Hs). eexists; split; [done|]. lia.
Qed.

Definition sample_calls : list call :=
  [CCredit 1%N 500 Deposit (KDemoReset "a") None;
   CDebit 1%N 700 BetDebit (KPayout 9%N) None; CResetTo 1%N 50 (KDemoReset "b") None].
Definition funded_world : world :=
  set_ledger {[ KDemoReset "seed" := mk_ledger 3%N 1%N Deposit 500 500 None ]} demo_world.

Lemma ledger_sound_witness :
  exists w' ps', pool_steps funded_world (perform <$> sample_calls) w' ps' /\
    (exists b', balance w' 1%N = Some b' /\ b' = journal w' 1%N /\ 0 <= b').
Proof.
  pose (r := schedule_pool [0; 1; 0; 1; 2; 2; 0; 1]%nat funded_world (perform <$> sample_calls)).
  exists r.1, r.2.
  pose proof (schedule_pool_steps [0; 1; 0; 1; 2; 2; 0; 1]%nat funded_world (perform <$> sample_calls)
    : pool_steps funded_world (perform <$> sample_calls) r.1 r.2) as H.
  split; [exact H|].
  destruct (ledger_sound sample_calls _ _ _ H) as [_ Hb].
  apply (Hb 1%N 500); [vm_compute; reflexivity|vm_compute; reflexivity|lia].
Defined.

(** A reset leaves the wallet at its target and, repeated under the same
    key, changes nothing; it never errs on a wallet that exists. *)
Theorem resetTo_sets_target wid target k ref w :
  w_faults w = [] -> 0 <= target -> w_ledger w !! k = None -> is_Some (w_wallets w !! wid) ->
  exists r w', run (resetTo wid target k ref) w = (Ok r, w') /\
    balance w' wid = Some target /\ w_faults w' = [] /\
    run (resetTo wid target k ref) w' = (Ok r, w').
Proof.
  intros Hf Ht Hk [wl Hwl]. rewrite resetTo_run, Hk, Hwl by done.
  destruct (Z.eqb_spec (target - w_balance wl) 0) as [He|_].
  - exists None, w. split; [done|]. unfold balance. rewrite Hwl. simpl.
    split; [f_equal; lia|]. split; [done|]. rewrite resetTo_run, Hk, Hwl by done.
    by rewrite (proj2 (Z.eqb_eq _ _) He).
  - eexists _, _. split; [done|]. unfold balance; cbn. rewrite lookup_insert_eq.
    split; [done|]. split; [done|]. rewrite resetTo_run by done. cbn. by rewrite lookup_insert_eq.
Qed.

Lemma resetTo_sets_target_witness :
  exists r w', run (resetTo 1%N 900 (KDemoReset "t") None) demo_world = (Ok r, w') /\
    balance w' 1%N = Some 900 /\ w_faults w' = [] /\
    run (resetTo 1%N 900 (KDemoReset "t") None) w' = (Ok r, w').
Proof.
  apply (resetTo_sets_target 1%N 900 (KDemoReset "t") None demo_world);
    [reflexivity|lia|reflexivity|by eexists].
Defined.

(** Reversing a settled move under a fresh key posts exactly one inverse
    row: a refunded debit gives the stake back, a reclaimed payout is taken
    back, and a reclaim of more than the balance is refused with nothing
    changed. *)
Theorem reverse_restores wid p w wl :
  w_faults w = [] -> w_wallets w !! wid = Some wl -> 0 < rp_amount p ->
  w_ledger w !! rp_reverseKey p = None ->
  if w_balance wl + inverse_amount p <? 0 then run (reverse wid p) w = (Raise INSUFFICIENT, w)
  else exists w' row, run (reverse wid p) w = (Ok tt, w') /\
    w_ledger w' = <[rp_reverseKey p := row]> (w_ledger w) /\ l_amount row = inverse_amount p /\
    balance w' wid = Some (w_balance wl + inverse_amount p).
Proof.
  intros Hf Hwl Ha Hk. unfold reverse, debit, credit, balance, inverse_amount.
  destruct (Z.leb_spec (rp_amount p) 0); [lia|].
  destruct (rp_originalDirection p);
    rewrite !run_bind, record_run, Hk, Hwl by done; cbn zeta; destruct (_ <? 0); try done;
    (eexists _, _; split; [done|]; split; [done|]; split; [done|]; cbn; by rewrite lookup_insert_eq).
Qed.

Lemma reverse_restores_witness :
  exists w' row, run (reverse 1%N {| rp_originalKey := KPayout 9%N; rp_reverseKey := KVoidReclaim 9%N;
      rp_amount := 500; rp_originalDirection := OrigCredit; rp_type := Adjustment;
      rp_ref := None; rp_intent := None |}) demo_world = (Ok tt, w') /\
    w_ledger w' = <[KVoidReclaim 9%N := row]> (w_ledger demo_world) /\ l_amount row = - 500 /\
    balance w' 1%N = Some 0.
Proof.
  apply (reverse_restores 1%N (Build_ReverseParams (KPayout 9%N) (KVoidReclaim 9%N) 500 OrigCredit
    Adjustment None None) demo_world (mk_wallet 7%N "USD" 500)); [reflexivity|reflexivity| |reflexivity].
  reflexivity.
Defined.
End Ledger.
