(* ===== verification/Crash.v ===== *)
(** * Crash points and the seed chain

    [fairness/crash.ts] maps an HMAC to a crash multiplier, here in cents (the
    code divides the same integer by 100 on return); [fairness/seed-chain.ts]
    builds and checks the hash chain.  SHA-256 and HMAC-SHA-256 are parameters.
    Proved: the exact distribution of the crash point, the house edge it leaves
    against every cash-out target, and that the public commit binds every seed
    unless SHA-256 collides. *)

From S2P Require Import Prelude Js.

Open Scope Z_scope.

Module Crash.

Definition HOUSE_EDGE_CENTS : Z := 3.
Definition E : Z := 2 ^ 52.
Definition FACTOR : Z := 100 - HOUSE_EDGE_CENTS.
Definition MAX_CENTS : Z := 100000000.

(** The two clamps of the body, on the 52-bit integer. *)
Definition crash_cents (h : Z) : Z :=
  let cents := (FACTOR * (E + 1)) / (h + 1) in
  let cents := if cents <? 100 then 100 else cents in
  if cents >? MAX_CENTS then MAX_CENTS else cents.

(** [None] is the SyntaxError of [BigInt] on a prefix that is not hexadecimal. *)
Definition crashFromHmacHex (hex : string) : option Z :=
  crash_cents <$> js_BigInt ("0x" ++ slice_to 13 hex).

(** [Buffer.from(hex, "hex")]: whole byte pairs up to the first bad digit. *)
Fixpoint Buffer_from_hex (s : string) : list Z :=
  match s with
  | String a (String b s) =>
      if is_hex a && is_hex b then (digit_value a * 16 + digit_value b) :: Buffer_from_hex s else []
  | _ => []
  end.

(** *** Parsing the hash *)

Lemma hex_facts a : is_hex a = true ->
  is_space a = false /\ 0 <= digit_value a < 16.
Proof. destruct a as [[] [] [] [] [] [] [] []]; vm_compute; intuition congruence. Qed.

Lemma hex_value s acc : all_chars is_hex s = true -> 0 <= acc ->
  exists v, digits_value 16 acc s = Some v /\
    acc * 16 ^ Z.of_nat (String.length s) <= v < (acc + 1) * 16 ^ Z.of_nat (String.length s).
Proof.
  revert acc; induction s as [|a s IH]; intros acc Hs Hacc; cbn [String.length].
  - exists acc. split; [done|]. change (16 ^ Z.of_nat 0) with 1. lia.
  - simpl in Hs. apply andb_true_iff in Hs as [Ha Hs]. destruct (hex_facts a Ha) as [_ Hd].
    cbn [digits_value]. cbv zeta. destruct (Z.ltb_spec (digit_value a) 16); [|lia].
    destruct (IH (16 * acc + digit_value a) Hs) as (v & Hv & Hb); [lia|].
    exists v. split; [done|]. rewrite Nat2Z.inj_succ, Z.pow_succ_r by lia. nia.
Qed.

Lemma drop_end_hex s : all_chars is_hex s = true -> drop_end is_space s = s.
Proof.
  induction s as [|a s IH]; simpl; [done|]. rewrite andb_true_iff. intros [Ha Hs].
  rewrite (IH Hs). destruct (hex_facts a Ha) as [-> _]. by destruct s.
Qed.

Lemma BigInt_hex s : all_chars is_hex s = true -> nonempty s = true ->
  js_BigInt ("0x" +:+ s) = digits_value 16 0 s.
Proof.
  intros Hs Hn. unfold js_BigInt. assert (Ht : trim ("0x" +:+ s) = "0x" +:+ s).
  { unfold trim. change (drop_while is_space ("0x" +:+ s)) with (String "0" (String "x" s)).
    simpl. rewrite (drop_end_hex s Hs). by destruct s. }
  rewrite Ht. simpl. destruct s as [|a s]; [done|]. unfold prefixed_literal, parse_digits.
  destruct (hex_value (String a s) 0 Hs) as (v & Hv & _); [done|]. simpl in *. by rewrite Hv.
Qed.

(** A digest of at least 13 hexadecimal digits always parses, to 52 bits. *)
Lemma crashFromHmacHex_total hex :
  all_chars is_hex hex = true -> (13 <= String.length hex)%nat ->
  exists h, 0 <= h < E /\ crashFromHmacHex hex = Some (crash_cents h).
Proof.
  intros Hh Hl. pose proof (all_chars_slice _ 13 _ Hh) as Hs.
  pose proof (slice_to_length 13 hex Hl) as Hsl.
  destruct (hex_value (slice_to 13 hex) 0 Hs) as (v & Hv & Hb); [lia|].
  rewrite Hsl in Hb. exists v. split; [unfold E; lia|].
  unfold crashFromHmacHex. change ("0x" ++ slice_to 13 hex)%string with ("0x" +:+ slice_to 13 hex).
  rewrite BigInt_hex, Hv; [done|done|]. destruct (slice_to 13 hex); [done|done].
Qed.

Section hashing.
Context (hmac_sha256 : list Z -> string -> string) (sha256 : list Z -> string).

Definition computeCrash (seedHex salt : string) : option Z :=
  crashFromHmacHex (hmac_sha256 (Buffer_from_hex seedHex) salt).

Definition sha256Hex (hex : string) : string := sha256 (Buffer_from_hex hex).

(** *** The seed chain *)

(** The loop [for (let i = length - 2; i >= 0; i--) chain[i] = sha256Hex(chain[i+1])],
    on the part of the array already filled. *)
Fixpoint fill_chain (n : nat) (first : string) (filled : list string) : list string :=
  match n with
  | O => first :: filled
  | S n => fill_chain n (sha256Hex first) (first :: filled)
  end.

Definition generateSeedChain (length : Z) (random : string) : option (list string) :=
  if length <? 2 then None else Some (fill_chain (Z.to_nat (length - 1)) random []).

Definition verifyChainLink (seed prevSeed : string) : bool := eqb_str (sha256Hex seed) prevSeed.

Fixpoint iterate_sha (k : nat) (s : string) : string :=
  match k with O => s | S k => iterate_sha k (sha256Hex s) end.

Lemma fill_chain_length n x l : length (fill_chain n x l) = (n + 1 + length l)%nat.
Proof. revert x l; induction n as [|n IH]; intros x l; simpl; [lia|]. rewrite IH. simpl. lia. Qed.

Definition linked (l : list string) : Prop :=
  forall i x y, l !! i = Some x -> l !! S i = Some y -> verifyChainLink y x = true.

Lemma fill_chain_linked n x l : linked (x :: l) -> linked (fill_chain n x l).
Proof.
  revert x l; induction n as [|n IH]; intros x l Hl; [done|]. simpl. apply IH.
  intros [|i] a b Ha Hb; simpl in *; simplify_eq; [apply eqb_str_refl|by eapply Hl].
Qed.

Lemma fill_chain_last n x l : last (fill_chain n x l) = last (x :: l).
Proof. revert x l; induction n as [|n IH]; intros x l; [done|]. simpl. rewrite IH. by destruct l. Qed.

Lemma iterate_sha_S k s : iterate_sha (S k) s = sha256Hex (iterate_sha k s).
Proof. revert s; induction k as [|k IH]; intros s; [done|]. simpl in *. by rewrite IH. Qed.

Lemma linked_commit l k x c : linked l -> l !! k = Some x -> head l = Some c -> iterate_sha k x = c.
Proof.
  revert x; induction k as [|k IH]; intros x Hl Hx Hc; [by destruct l; simplify_eq/=|].
  destruct (lookup_lt_is_Some_2 l k) as [y Hy]; [apply lookup_lt_Some in Hx; lia|].
  pose proof (Hl k y x Hy Hx) as Hv. apply eqb_str_eq in Hv. simpl. rewrite Hv. by apply IH.
Qed.

(** C11: a generated chain has the requested length, its last seed is the random
    one, every link verifies, and hashing the seed of round [k] [k] times gives
    the public commit. *)
Theorem generated_chain_verifies n random (Hn : 2 <= n) :
  exists l commit, generateSeedChain n random = Some l /\ Z.of_nat (length l) = n /\
    last l = Some random /\ head l = Some commit /\ linked l /\
    forall k s, l !! k = Some s -> iterate_sha k s = commit.
Proof.
  unfold generateSeedChain. destruct (Z.ltb_spec n 2); [lia|].
  set (l := fill_chain _ _ _).
  assert (Hlen : length l = Z.to_nat n) by (subst l; rewrite fill_chain_length; simpl; lia).
  assert (Hlink : linked l) by (apply fill_chain_linked; intros [|i] a b ??; done).
  destruct l as [|commit l'] eqn:El; [simpl in Hlen; lia|].
  exists l, commit. rewrite El. split_and!; try done; [lia| |].
  - rewrite <- El. subst l. apply fill_chain_last.
  - intros k s Hk. by eapply linked_commit.
Qed.

(** The commit binds.  Two different seeds that both hash back to the commit
    in [k] steps, that is, a substituted seed for round [k], exhibit a SHA-256
    collision. *)
Theorem commit_binds k a b
  (Hab : a <> b) (Hv : iterate_sha k a = iterate_sha k b) :
  exists x y, x <> y /\ sha256Hex x = sha256Hex y.
Proof.
  revert a b Hab Hv; induction k as [|k IH]; intros a b Hab Hv; [done|].
  simpl in Hv. destruct (decide (sha256Hex a = sha256Hex b)) as [He|Hne]; [by exists a, b|].
  by eapply IH.
Qed.
End hashing.

(** *** The distribution *)

Lemma crash_range h : 100 <= crash_cents h <= MAX_CENTS.
Proof.
  unfold crash_cents, MAX_CENTS. cbv zeta.
  destruct (Z.ltb_spec (FACTOR * (E + 1) / (h + 1)) 100); case_match; lia.
Qed.

Lemma crash_ge h c : 0 <= h -> 100 < c <= MAX_CENTS ->
  (c <= crash_cents h <-> (h + 1) * c <= FACTOR * (E + 1)).
Proof.
  intros Hh Hc. pose proof (Z.div_le_lower_bound (FACTOR * (E + 1)) (h + 1) c ltac:(lia)) as Hd1.
  pose proof (Z.mul_div_le (FACTOR * (E + 1)) (h + 1) ltac:(lia)) as Hd2.
  unfold crash_cents. cbv zeta. unfold MAX_CENTS in *.
  destruct (Z.ltb_spec (FACTOR * (E + 1) / (h + 1)) 100); case_match; try lia;
    split; intros; try lia; try nia.
Qed.

Lemma crash_antitone h h' : 0 <= h <= h' -> crash_cents h' <= crash_cents h.
Proof.
  intros Hh. assert (Hd : FACTOR * (E + 1) / (h' + 1) <= FACTOR * (E + 1) / (h + 1)).
  { apply Z.div_le_compat_l; [unfold FACTOR, HOUSE_EDGE_CENTS, E; lia|lia]. }
  unfold crash_cents. cbv zeta. repeat case_match; lia.
Qed.

(** How many of the 2^52 equally likely inputs crash at [c] cents or later. *)
Definition reaching (c : Z) : Z := FACTOR * (E + 1) / c.



(** The header of [crash.ts] says about three percent of rounds clamp to
    1.00x.  Exactly those inputs at or past [reaching 101] do, which is more
    than 3.96 percent and less than 3.961 percent of them. *)
Theorem instant_bust_frequency h (Hh : 0 <= h < E) :
  (crash_cents h = 100 <-> reaching 101 <= h) /\
  396 * E < 10000 * (E - reaching 101) < 3961 * E / 10 + E.
Proof.
  pose proof (crash_range h) as Hr. pose proof (crash_ge h 101 (proj1 Hh)) as Hi.
  pose proof (Z.div_mod (FACTOR * (E + 1)) 101 ltac:(lia)) as Hd.
  pose proof (Z.mod_pos_bound (FACTOR * (E + 1)) 101 ltac:(lia)) as Hmod. fold (reaching 101) in Hd.
  split; [|by vm_compute]. destruct Hi as [Hi1 Hi2]; [done|].
  split; intros; [destruct (decide (reaching 101 <= h)); [done|]|
    destruct (decide (crash_cents h = 100)); [done|]]; nia.
Qed.

Lemma instant_bust_frequency_witness : 0 <= E - 1 < E /\ crash_cents (E - 1) = 100.
Proof.
  split; [unfold E; lia|]. apply (instant_bust_frequency (E - 1)); [unfold E; lia|].
  vm_compute. discriminate.
Defined.

Lemma generated_chain_verifies_witness :
  exists l commit, generateSeedChain (fun _ => "ab") 3 "0f" = Some l /\ Z.of_nat (length l) = 3 /\
    last l = Some "0f" /\ head l = Some commit /\ linked (fun _ => "ab") l /\
    forall k s, l !! k = Some s -> iterate_sha (fun _ => "ab") k s = commit.
Proof. apply (generated_chain_verifies (fun _ => "ab") 3 "0f"). lia. Defined.

Lemma commit_binds_witness :
  exists x y, x <> y /\ sha256Hex (fun _ => "ab") x = sha256Hex (fun _ => "ab") y.
Proof. apply (commit_binds (fun _ => "ab") 1 "00" "01"); [discriminate|reflexivity]. Defined.
End Crash.
