(* ===== verification/Simulation.v ===== *)
(** * The simulation of the game's mathematics

    [scripts/simulate-rtp.ts]: the tally of the crash points and the tables it
    prints, of the return at a target and of the return capped by the greatest
    win of a bet.  A multiplier is in cents; the sum of the crash points, which
    the script never reads, and the printing are not modelled.  Proved: what the
    tables show when every input of the crash function is drawn once. *)

From Stdlib Require Import QArith.
From S2P Require Import Prelude Js Crash.

Open Scope Z_scope.

#[local] Set Warnings "-clear-no-such-hyp".

Module Simulation.

Definition SALT : string := "vault-run-sim-salt-v1".
Definition MAX_WIN_PER_BET_EUR : Z := 10000.
(** In tenths of a euro. *)
Definition BET_SIZES : list Z := [1; 10; 100; 1000].
Definition THRESHOLDS : list Z := [101; 150; 200; 300; 500; 1000; 2000; 5000; 10000; 100000; 1000000].
Definition CAPPED_TARGETS : list Z := [200; 500; 1000; 10000; 50000; 100000; 500000].

(** A table of counters, one per target. *)
Definition tally (crash : Z) (table : list (Z * Z)) : list (Z * Z) :=
  (fun tn => (tn.1, tn.2 + if tn.1 <=? crash then 1 else 0)) <$> table.
Definition counter (t : Z) (table : list (Z * Z)) : Z :=
  match List.find (fun tn => tn.1 =? t) table with Some (_, n) => n | None => 0 end.

Record sim := mk_sim { instantBust : Z; maxSeen : Z; atLeast : list (Z * Z); cappedAtLeast : list (Z * Z) }.
Definition sim_start : sim := mk_sim 0 100 ((fun t => (t, 0)) <$> THRESHOLDS) ((fun t => (t, 0)) <$> CAPPED_TARGETS).
Definition sim_round (s : sim) (crash : Z) : sim :=
  mk_sim (instantBust s + if crash <=? 100 then 1 else 0) (if maxSeen s <? crash then crash else maxSeen s)
    (tally crash (atLeast s)) (tally crash (cappedAtLeast s)).

(** The loop, over the seeds drawn. *)
Definition crashes (hmac_sha256 : list Z -> string -> string) (seeds : list string) : list Z :=
  omap id (imap (fun i seed => Crash.computeCrash hmac_sha256 seed (SALT +:+ ":" +:+ BigInt_toString (Z.of_nat i))%string) seeds).
Definition run_rounds (cs : list Z) : sim := fold_left sim_round cs sim_start.

(** [P(crash >= t)], [RTP(t) = t P(crash >= t)], and with the win capped,
    [RTP(t, b) = min(t, MAX / b) P(crash >= t)]. *)
Definition share (n ROUNDS : Z) : Q := inject_Z n / inject_Z ROUNDS.
Definition rtpAtTarget (s : sim) (ROUNDS t : Z) : Q := (t # 100) * share (counter t (atLeast s)) ROUNDS.
Definition effMax (b : Z) : Z := MAX_WIN_PER_BET_EUR * 100 * 10 / b.
Definition capped_rtp (s : sim) (ROUNDS t b : Z) : Q := (Z.min t (effMax b) # 100) * share (counter t (cappedAtLeast s)) ROUNDS.
Definition marked (t b : Z) : bool := effMax b <? t.

(** ** The counters count *)

Definition reached (t : Z) (cs : list Z) : Z := Z.of_nat (length (List.filter (fun c => t <=? c) cs)).

Lemma reached_cons t c cs : reached t (c :: cs) = (if t <=? c then 1 else 0) + reached t cs.
Proof. unfold reached. cbn [List.filter]. destruct (t <=? c); cbn [length]; lia. Qed.

Lemma counter_tally t c table : counter t (tally c table) = counter t table + if existsb (fun tn => tn.1 =? t) table then (if t <=? c then 1 else 0) else 0.
Proof.
  unfold counter, tally. induction table as [|[t' n] table IH]; [done|]. cbn [fmap list_fmap List.find fst snd existsb].
  destruct (Z.eqb_spec t' t) as [->|Hne]; cbn [orb]; [done|exact IH].
Qed.

Lemma counted t cs table : existsb (fun tn => tn.1 =? t) table = true ->
  counter t (fold_left (fun tb c => tally c tb) cs table) = counter t table + reached t cs.
Proof.
  revert table. induction cs as [|c cs IH]; intros table Hin; cbn [fold_left]; [unfold reached; cbn; lia|].
  rewrite IH; [rewrite counter_tally, Hin, reached_cons; lia|].
  apply existsb_exists in Hin as ([t' n] & Hin & Ht). apply existsb_exists. exists (t', n + if t' <=? c then 1 else 0). split; [|done].
  unfold tally. apply in_map_iff. by exists (t', n).
Qed.

Lemma tables cs s : atLeast (fold_left sim_round cs s) = fold_left (fun tb c => tally c tb) cs (atLeast s) /\
  cappedAtLeast (fold_left sim_round cs s) = fold_left (fun tb c => tally c tb) cs (cappedAtLeast s).
Proof. revert s. induction cs as [|c cs IH]; intros s; [done|]. cbn [fold_left]. by destruct (IH (sim_round s c)) as [-> ->]. Qed.

Lemma simulated t cs : t ∈ THRESHOLDS -> counter t (atLeast (run_rounds cs)) = reached t cs.
Proof.
  intros Ht. unfold run_rounds. rewrite (proj1 (tables cs sim_start)).
  assert (H : existsb (fun tn => tn.1 =? t) (atLeast sim_start) = true /\ counter t (atLeast sim_start) = 0).
  { unfold THRESHOLDS in Ht. rewrite !elem_of_cons, elem_of_nil in Ht. destruct_or?; subst; done || by vm_compute. }
  destruct H as [H1 H2]. by rewrite (counted t cs _ H1), H2.
Qed.

Lemma simulated_capped t cs : t ∈ CAPPED_TARGETS -> counter t (cappedAtLeast (run_rounds cs)) = reached t cs.
Proof.
  intros Ht. unfold run_rounds. rewrite (proj2 (tables cs sim_start)).
  assert (H : existsb (fun tn => tn.1 =? t) (cappedAtLeast sim_start) = true /\ counter t (cappedAtLeast sim_start) = 0).
  { unfold CAPPED_TARGETS in Ht. rewrite !elem_of_cons, elem_of_nil in Ht. destruct_or?; subst; done || by vm_compute. }
  destruct H as [H1 H2]. by rewrite (counted t cs _ H1), H2.
Qed.

(** ** Every input once *)

Lemma reach_iff h c : 0 <= h -> 100 < c <= Crash.MAX_CENTS -> (c <= Crash.crash_cents h <-> h < Crash.reaching c).
Proof.
  intros Hh Hc. rewrite Crash.crash_ge by done. unfold Crash.reaching.
  pose proof (Z.div_mod (Crash.FACTOR * (Crash.E + 1)) c ltac:(lia)) as Hd.
  pose proof (Z.mod_pos_bound (Crash.FACTOR * (Crash.E + 1)) c ltac:(lia)) as Hm. nia.
Qed.

Lemma count_below k (n : nat) : 0 <= k -> Z.of_nat (length (List.filter (fun h => h <? k) (seqZ 0 (Z.of_nat n)))) = Z.min k (Z.of_nat n).
Proof.
  intros Hk. induction n as [|n IH]; [change (seqZ 0 (Z.of_nat 0)) with (@nil Z); cbn [List.filter length]; lia|]. rewrite Nat2Z.inj_succ, <- Z.add_1_r, seqZ_app, List.filter_app, length_app, Nat2Z.inj_add, IH by lia.
  replace (seqZ (0 + Z.of_nat n) 1) with [Z.of_nat n] by done. cbn [List.filter]. destruct (Z.ltb_spec (Z.of_nat n) k); cbn [length]; lia.
Qed.

Lemma reaching_bounds c : 100 < c -> 0 <= Crash.reaching c <= Crash.E /\
  c * Crash.reaching c <= Crash.FACTOR * (Crash.E + 1) < c * (Crash.reaching c + 1).
Proof.
  intros Hc. unfold Crash.reaching. pose proof (Z.div_mod (Crash.FACTOR * (Crash.E + 1)) c ltac:(lia)) as Hd.
  pose proof (Z.mod_pos_bound (Crash.FACTOR * (Crash.E + 1)) c ltac:(lia)) as Hm.
  unfold Crash.FACTOR, Crash.HOUSE_EDGE_CENTS, Crash.E in *. split; nia.
Qed.

Lemma reached_all c cs : Permutation cs (Crash.crash_cents <$> seqZ 0 Crash.E) -> 100 < c <= Crash.MAX_CENTS -> reached c cs = Crash.reaching c.
Proof.
  intros Hp Hc. unfold reached.
  assert (Hl : length (List.filter (fun x => c <=? x) cs) = length (List.filter (fun x => c <=? x) (Crash.crash_cents <$> seqZ 0 Crash.E))).
  { apply Permutation_length. clear Hc. induction Hp as [|x l l' _ IH|x y l|l1 l2 l3 _ IH1 _ IH2]; cbn [List.filter].
    - done.
    - case_match; [by constructor|done].
    - repeat case_match; done || constructor.
    - by etransitivity. }
  rewrite Hl. clear Hl.
  assert (Hm : forall l, Forall (fun h => 0 <= h) l -> length (List.filter (fun x => c <=? x) (Crash.crash_cents <$> l)) =
    length (List.filter (fun h => h <? Crash.reaching c) l)).
  { induction l as [|h l IH]; intros Hl; [done|]. apply Forall_cons in Hl as [Hh Hl]. rewrite fmap_cons. cbn [List.filter].
    pose proof (reach_iff h c Hh Hc) as Hi. destruct (Z.leb_spec c (Crash.crash_cents h)), (Z.ltb_spec h (Crash.reaching c)); try lia;
      cbn [length]; by rewrite IH. }
  rewrite Hm by (apply Forall_forall; intros x Hx%elem_of_seqZ; lia). clear Hm.
  pose proof (reaching_bounds c ltac:(lia)) as [Hb _].
  assert (HE : Crash.E = Z.of_nat (Z.to_nat Crash.E)) by (rewrite Z2Nat.id; unfold Crash.E; lia).
  rewrite HE, count_below by lia. rewrite <- HE. lia.
Qed.

(** ** The tables of a perfect sample *)

(** [n] out of a hundred times the number of inputs. *)
Definition percent (n : Z) : Q := inject_Z n / inject_Z (100 * Crash.E).

Lemma return_le t k n : ((t # 100) * share k Crash.E <= percent n)%Q <-> t * k <= n.
Proof.
  unfold share, percent. change (/ inject_Z Crash.E)%Q with (1 # 4503599627370496)%Q.
  unfold Qdiv. change (/ inject_Z Crash.E)%Q with (1 # 4503599627370496)%Q.
  change (/ inject_Z (100 * Crash.E))%Q with (1 # 450359962737049600)%Q.
  unfold Qle, Qmult, inject_Z. cbn [Qnum Qden]. lia.
Qed.

Lemma return_lt t k n : (percent n < (t # 100) * share k Crash.E)%Q <-> n < t * k.
Proof.
  split; intros H.
  - apply Z.nle_gt. intros H'. apply (Qlt_not_le _ _ H). by apply return_le.
  - apply Qnot_le_lt. intros Hle. apply (Z.lt_irrefl n). eapply Z.lt_le_trans; [exact H|]. by apply return_le.
Qed.

Lemma target_range t : t ∈ THRESHOLDS \/ t ∈ CAPPED_TARGETS -> 100 < t <= Crash.MAX_CENTS.
Proof. unfold THRESHOLDS, CAPPED_TARGETS, Crash.MAX_CENTS. rewrite !elem_of_cons, elem_of_nil. lia. Qed.

Lemma return_range t : 100 < t -> 97 * (Crash.E + 1) - t < t * Crash.reaching t <= 97 * (Crash.E + 1).
Proof. intros Ht. destruct (reaching_bounds t Ht) as [_ H]. change Crash.FACTOR with 97 in H. lia. Qed.

(** A marked target is at least five times what the cap pays out. *)
Lemma capped_short t b : t ∈ CAPPED_TARGETS -> b ∈ BET_SIZES -> effMax b < t -> effMax b * Crash.reaching t <= 97 * Crash.E - 1.
Proof.
  intros Ht Hb Hm.
  assert (Hs : 5 * effMax b <= t).
  { unfold BET_SIZES in Hb. unfold CAPPED_TARGETS in Ht. rewrite !elem_of_cons, elem_of_nil in Hb. rewrite !elem_of_cons, elem_of_nil in Ht.
    unfold effMax, MAX_WIN_PER_BET_EUR in *. destruct_or?; subst;
      first [exfalso; revert Hm; vm_compute; discriminate | vm_compute; discriminate]. }
  pose proof (target_range t (or_intror Ht)) as Hc. pose proof (return_range t ltac:(lia)) as Hr.
  pose proof (proj1 (reaching_bounds t ltac:(lia))) as Hnn. assert (HE : 100 < Crash.E) by done.
  revert Hr Hnn HE Hs. generalize Crash.E, (Crash.reaching t), (effMax b). intros E k m [_ Hr] [Hk _] HE Hs.
  assert (5 * m * k <= t * k) by (apply Z.mul_le_mono_nonneg_r; lia). lia.
Qed.

Lemma percent_lt a b : (percent a < percent b)%Q <-> a < b.
Proof.
  unfold percent, Qdiv. change (/ inject_Z (100 * Crash.E))%Q with (1 # 450359962737049600)%Q.
  unfold Qlt, Qmult, inject_Z. cbn [Qnum Qden]. lia.
Qed.

(** What the script says of its own tables, of a sample that draws every one of
    the 2^52 inputs once, in any order: the return at every target is 97 percent,
    to within the share of one input; with the win capped, it is the same at every
    target the cap does not bind, and falls short of 97 percent at the marked
    ones. *)
Theorem perfect_tables cs (Hp : Permutation cs (Crash.crash_cents <$> seqZ 0 Crash.E)) :
  (forall t, t ∈ THRESHOLDS -> let rtp := rtpAtTarget (run_rounds cs) Crash.E t in
     (percent (97 * (Crash.E + 1) - t) < rtp)%Q /\ (rtp <= percent (97 * (Crash.E + 1)))%Q) /\
  (forall t b, t ∈ CAPPED_TARGETS -> b ∈ BET_SIZES -> let rtp := capped_rtp (run_rounds cs) Crash.E t b in
     if marked t b then (rtp < percent (97 * Crash.E))%Q
     else (percent (97 * (Crash.E + 1) - t) < rtp)%Q /\ (rtp <= percent (97 * (Crash.E + 1)))%Q).
Proof.
  split.
  - intros t Ht. pose proof (target_range t (or_introl Ht)) as Hc. cbv zeta. unfold rtpAtTarget.
    rewrite simulated, (reached_all t cs Hp Hc), return_lt, return_le by done. apply return_range. lia.
  - intros t b Ht Hb. pose proof (target_range t (or_intror Ht)) as Hc. cbv zeta. unfold capped_rtp.
    rewrite simulated_capped, (reached_all t cs Hp Hc) by done. unfold marked. destruct (Z.ltb_spec (effMax b) t) as [Hm|Hm].
    + rewrite Z.min_r by lia. eapply Qle_lt_trans; [apply return_le; by apply capped_short|]. apply percent_lt. lia.
    + rewrite Z.min_l by lia. rewrite return_lt, return_le. apply return_range. lia.
Qed.

(** The drawn seeds the loop really tallies: what [computeCrash] answers for each
    seed under its numbered salt. *)
Lemma crashes_length hmac seeds : (forall k s, is_Some (Crash.crashFromHmacHex (hmac k s))) -> length (crashes hmac seeds) = length seeds.
Proof.
  intros H. unfold crashes, Crash.computeCrash.
  assert (Hgen : forall (f : nat -> string -> option Z), (forall i s, is_Some (f i s)) -> length (omap id (imap f seeds)) = length seeds).
  { induction seeds as [|s seeds IH]; intros f Hf; [done|]. cbn. destruct (Hf 0%nat s) as [c ->]. cbn. f_equal. apply (IH (fun i => f (S i))). by intros. }
  apply Hgen. intros i s. apply H.
Qed.

(** *** A short run *)

Example short_run : let s := run_rounds [100; 250; 1234567; 199] in
  instantBust s = 1 /\ maxSeen s = 1234567 /\ counter 200 (atLeast s) = 2 /\ (rtpAtTarget s 4 200 == 1)%Q /\ (capped_rtp s 4 500000 1000 == 25)%Q.
Proof. vm_compute. by split_and!. Qed.
End Simulation.
