(* ===== verification/EthBlock.v ===== *)
(** * The Ethereum block-hash oracle

    [fairness/eth-block.ts], the providers of [fairness/salt.provider.ts] and
    the boot assertion of [fairness/fairness.module.ts].  What endpoint number
    [i] answers when asked for a block tag is the parameter [ask]: an arbitrary
    function, so every theorem holds against arbitrary endpoints.  Proved: the
    oracle's vote is exactly a strict majority of the configured endpoints, and
    what a boot that passes the strict assertion guarantees. *)

From Stdlib Require Import HexadecimalString HexadecimalZ.
From S2P Require Import Prelude Effects Js Money.

Open Scope Z_scope.

#[local] Set Warnings "-clear-no-such-hyp".

Module EthBlock.

Definition DEFAULT_RPCS : list string :=
  ["https://ethereum-rpc.publicnode.com"; "https://eth.drpc.org";
   "https://eth-mainnet.public.blastapi.io"; "https://eth-pokt.nodies.app"]%string.

Definition rpcUrls (e : Risk.env) : list string :=
  let env := nullish (trim <$> e "ETH_RPC_URLS"%string) EmptyString in
  if nonempty env then List.filter nonempty (trim <$> split_on "," env) else DEFAULT_RPCS.

(** [Math.floor(n)] of a finite number. *)
Definition js_floor (n : jsnum) : Z := match n with Fin q => Qfloor_Z q | _ => 0 end.

Definition minRpcs (e : Risk.env) : Z :=
  let n := js_Number_opt (e "ETH_RPC_MIN"%string) in
  if js_isFinite n && js_ge n 1 then js_floor n else 1.

(** The [result] of [eth_getBlockByNumber]: the two fields read, when present. *)
Record rpc_block := { rb_number : option string; rb_hash : option string }.

(** [target.toString(16)] *)
Definition to_hex (n : Z) : string := NilZero.string_of_int (Z.to_hex_int n).
Definition block_tag (target : Z) : string := ("0x" +:+ to_hex target)%string.

Section oracle.
(** Endpoint [i] with its URL, asked for a tag: a block, null, or an exception. *)
Context (ask : nat -> string -> string -> res (option rpc_block)).

Definition getBlock (i : nat) (url tag : string) : res (option (Z * string)) :=
  match ask i url tag with
  | Raise e => Raise e
  | Ok None => Ok None
  | Ok (Some b) =>
      match rb_number b, rb_hash b with
      | Some n, Some h =>
          if nonempty n && nonempty h then
            match js_BigInt n with
            | Some v => Ok (Some (v, toLowerCase h))
            | None => Raise (JsError "SyntaxError")
            end
          else Ok None
      | _, _ => Ok None
      end
  end.

(** The first endpoint that answers with a block. *)
Fixpoint first_block (i : nat) (urls : list string) (tag : string) : option Z :=
  match urls with
  | [] => None
  | url :: urls =>
      match getBlock i url tag with
      | Ok (Some (n, _)) => Some n
      | _ => first_block (S i) urls tag
      end
  end.

Definition finalizedBlockNumber (e : Risk.env) : res Z :=
  match first_block 0 (rpcUrls e) "finalized" with
  | Some n => Ok n
  | None => Raise (JsError "eth oracle: no RPC returned a finalized block")
  end.

Definition latestBlockNumber (e : Risk.env) : res Z :=
  match first_block 0 (rpcUrls e) "latest" with
  | Some n => Ok n
  | None => Raise (JsError "eth oracle: no RPC returned a latest block")
  end.

(** One iteration of the loop: whether the endpoint has finalized the target,
    and the hash it votes for. *)
Definition endpoint_vote (target : Z) (i : nat) (url : string) : bool * option string :=
  match getBlock i url "finalized" with
  | Ok (Some (head, _)) =>
      if head <? target then (false, None)
      else match getBlock i url (block_tag target) with
           | Ok (Some (_, h)) => (true, if nonempty h then Some h else None)
           | _ => (true, None)
           end
  | _ => (false, None)
  end.

(** [votes.set(h, (votes.get(h) ?? 0) + 1)] on the insertion-ordered Map. *)
Fixpoint add_vote (h : string) (votes : list (string * Z)) : list (string * Z) :=
  match votes with
  | [] => [(h, 1)]
  | (h', n) :: votes => if eqb_str h h' then (h', n + 1) :: votes else (h', n) :: add_vote h votes
  end.

Fixpoint collect (target : Z) (i : nat) (urls : list string) (fin : bool) (votes : list (string * Z))
  : bool * list (string * Z) :=
  match urls with
  | [] => (fin, votes)
  | url :: urls =>
      let v := endpoint_vote target i url in
      collect target (S i) urls (fin || v.1)
        (match v.2 with Some h => add_vote h votes | None => votes end)
  end.

(** [for (const [h, n] of votes) if (n > bestN) ...] *)
Fixpoint best_vote (votes : list (string * Z)) (best : option string) (bestN : Z) : option string * Z :=
  match votes with
  | [] => (best, bestN)
  | (h, n) :: votes => if n >? bestN then best_vote votes (Some h) n else best_vote votes best bestN
  end.

Definition finalizedBlockHash (e : Risk.env) (target : Z) : res (option string) :=
  let urls := rpcUrls e in
  if Z.of_nat (length urls) <? minRpcs e then Raise (JsError "eth oracle: too few RPCs configured")
  else
    let need := Z.of_nat (length urls) / 2 + 1 in
    let '(finalizedSomewhere, votes) := collect target 0 urls false [] in
    if negb finalizedSomewhere then Ok None
    else
      let '(best, bestN) := best_vote votes None 0 in
      let tiedForTop := (1 <? length (List.filter (fun v => (v.2 =? bestN)%Z) votes))%nat in
      if (bestN =? 0) || tiedForTop then Ok None
      else Ok (if bestN >=? need then best else None).

(** *** The specification: counting endpoints *)

(** How many endpoints vote for [h]. *)
Fixpoint supporters (target : Z) (i : nat) (urls : list string) (h : string) : Z :=
  match urls with
  | [] => 0
  | url :: urls =>
      (if opt_eqb (endpoint_vote target i url).2 (Some h) then 1 else 0) + supporters target (S i) urls h
  end.

Fixpoint get_vote (h : string) (votes : list (string * Z)) : Z :=
  match votes with
  | [] => 0
  | (h', n) :: votes => if eqb_str h h' then n else get_vote h votes
  end.

Definition distinct (votes : list (string * Z)) : Prop := NoDup votes.*1.

Lemma add_vote_get h h' votes :
  get_vote h' (add_vote h votes) = get_vote h' votes + (if eqb_str h' h then 1 else 0).
Proof.
  induction votes as [|[h1 n] votes IH]; simpl; [destruct (eqb_str h' h); lia|].
  destruct (eqb_str h h1) eqn:E1; simpl.
  - apply eqb_str_eq in E1 as ->. destruct (eqb_str h' h1); lia.
  - destruct (eqb_str h' h1) eqn:E2; [|done]. apply eqb_str_eq in E2 as ->.
    destruct (eqb_str h1 h) eqn:E3; [|lia]. apply eqb_str_eq in E3 as ->.
    by rewrite eqb_str_refl in E1.
Qed.

Lemma add_vote_keys h votes x : x ∈ (add_vote h votes).*1 <-> x = h \/ x ∈ votes.*1.
Proof.
  induction votes as [|[h1 n] votes IH]; simpl; [set_solver|].
  destruct (eqb_str h h1) eqn:E; simpl; [apply eqb_str_eq in E as ->; set_solver|].
  rewrite !elem_of_cons, IH. naive_solver.
Qed.

Lemma add_vote_distinct h votes : distinct votes -> distinct (add_vote h votes).
Proof.
  unfold distinct. induction votes as [|[h1 n] votes IH]; simpl; [intros; constructor; [set_solver|constructor]|].
  intros [Hn Hd]%NoDup_cons. destruct (eqb_str h h1) eqn:E; simpl; [by constructor|].
  constructor; [|by apply IH]. rewrite add_vote_keys. intros [->|?]; [|done].
  by rewrite eqb_str_refl in E.
Qed.

Lemma get_vote_elem h n votes : distinct votes -> (h, n) ∈ votes -> get_vote h votes = n.
Proof.
  unfold distinct. induction votes as [|[h1 n1] votes IH]; simpl; [set_solver|].
  intros [Hn Hd]%NoDup_cons [?|Hin]%elem_of_cons; simplify_eq; [by rewrite eqb_str_refl|].
  destruct (eqb_str h h1) eqn:E; [|by apply IH]. apply eqb_str_eq in E as ->.
  destruct Hn. apply list_elem_of_fmap. by exists (h1, n).
Qed.

Lemma get_vote_pos h votes : 0 < get_vote h votes -> (h, get_vote h votes) ∈ votes.
Proof.
  induction votes as [|[h1 n] votes IH]; simpl; [lia|].
  destruct (eqb_str h h1) eqn:E; [apply eqb_str_eq in E as ->; set_solver|].
  intros H. apply elem_of_cons. right. by apply IH.
Qed.

Lemma vote_finalizes target i url h :
  (endpoint_vote target i url).2 = Some h -> (endpoint_vote target i url).1 = true.
Proof. unfold endpoint_vote. intros Hv. repeat case_match; done. Qed.

Lemma collect_votes target urls i fin votes h :
  get_vote h (collect target i urls fin votes).2 = get_vote h votes + supporters target i urls h.
Proof.
  revert i fin votes; induction urls as [|url urls IH]; intros i fin votes; simpl; [lia|].
  rewrite IH. destruct (endpoint_vote target i url).2 as [h0|]; [|done].
  rewrite add_vote_get. unfold opt_eqb. replace (eqb_str h h0) with (bool_decide (Some h0 = Some h)); [lia|].
  destruct (eqb_str h h0) eqn:E; [apply eqb_str_eq in E as ->; by apply bool_decide_eq_true|].
  apply bool_decide_eq_false. intros [= ->]. by rewrite eqb_str_refl in E.
Qed.

Lemma collect_distinct target urls i fin votes :
  distinct votes -> distinct (collect target i urls fin votes).2.
Proof.
  revert i fin votes; induction urls as [|url urls IH]; intros i fin votes Hd; simpl; [done|].
  apply IH. destruct (endpoint_vote target i url).2; [by apply add_vote_distinct|done].
Qed.

Lemma collect_finalized target urls i fin votes h :
  (collect target i urls fin votes).1 = false -> fin = false /\ supporters target i urls h = 0.
Proof.
  revert i fin votes; induction urls as [|url urls IH]; intros i fin votes; simpl; [done|].
  intros [Hf Hs]%IH. apply orb_false_iff in Hf as [-> Hf]. split; [done|].
  rewrite Hs. unfold opt_eqb. rewrite bool_decide_eq_false_2; [done|].
  intros Hv%vote_finalizes. congruence.
Qed.

Lemma supporters_bound target urls i h h' : h <> h' ->
  0 <= supporters target i urls h /\ 0 <= supporters target i urls h' /\
  supporters target i urls h + supporters target i urls h' <= Z.of_nat (length urls).
Proof.
  intros Hne. revert i; induction urls as [|url urls IH]; intros i; cbn [supporters length]; [lia|].
  specialize (IH (S i)). unfold opt_eqb in *.
  destruct (bool_decide_reflect ((endpoint_vote target i url).2 = Some h)) as [E|];
    destruct (bool_decide_reflect ((endpoint_vote target i url).2 = Some h')) as [E'|];
    try lia. congruence.
Qed.

Lemma best_vote_spec votes best bestN :
  (forall h n, (h, n) ∈ votes -> n <= (best_vote votes best bestN).2) /\
  bestN <= (best_vote votes best bestN).2 /\
  (best_vote votes best bestN = (best, bestN) \/
   exists h, (best_vote votes best bestN).1 = Some h /\ (h, (best_vote votes best bestN).2) ∈ votes).
Proof.
  revert best bestN; induction votes as [|[h1 n1] votes IH]; intros best bestN; simpl.
  { split; [set_solver|]. split; [lia|by left]. }
  destruct (n1 >? bestN) eqn:E.
  - destruct (IH (Some h1) n1) as (H1 & H2 & H3). split.
    { intros h n [?|?]%elem_of_cons; simplify_eq; eauto. }
    split; [lia|]. right. destruct H3 as [->|(h & ? & ?)]; [exists h1; set_solver|].
    exists h. split; [done|]. by right.
  - destruct (IH best bestN) as (H1 & H2 & H3). split.
    { intros h n [?|?]%elem_of_cons; simplify_eq; eauto. lia. }
    split; [done|]. destruct H3 as [->|(h & ? & ?)]; [by left|].
    right. exists h. split; [done|]. by right.
Qed.

(** A single holder of the top count is not a tie. *)
Lemma unique_top votes h bestN : distinct votes ->
  (forall h' n, (h', n) ∈ votes -> n = bestN -> h' = h) ->
  (length (List.filter (fun v => (v.2 =? bestN)%Z) votes) <= 1)%nat.
Proof.
  unfold distinct. induction votes as [|[h1 n1] votes IH]; simpl; [lia|].
  intros [Hn Hd]%NoDup_cons Hu. destruct (Z.eqb_spec n1 bestN) as [->|Hne].
  - simpl. replace (List.filter _ votes) with (@nil (string * Z)); [simpl; lia|].
    symmetry. destruct (List.filter _ votes) as [|[h2 n2] l] eqn:El; [done|].
    assert (Hin : List.In (h2, n2) (List.filter (fun v => (v.2 =? bestN)%Z) votes)) by (rewrite El; by left).
    apply filter_In in Hin as [Hin Heq]. simpl in Heq. apply Z.eqb_eq in Heq as ->.
    apply list_elem_of_In in Hin.
    assert (h1 = h) by (eapply Hu; [by left|done]). assert (h2 = h) by (eapply Hu; [by right|done]).
    subst. destruct Hn. apply list_elem_of_fmap. by exists (h, bestN).
  - apply IH; [done|]. intros h' n Hin. apply Hu. by right.
Qed.

(** The oracle is a majority vote of the configured fleet.  With enough
    endpoints configured it answers [h] exactly when more than half of ALL the
    configured endpoints have finalized the target and name [h] as its hash, so
    a minority of lying, failing or lagging endpoints can neither inject a salt
    nor change the one the majority gives; below the configured minimum it
    throws. *)
Theorem finalizedBlockHash_majority (e : Risk.env) (target : Z) (h : string) :
  let urls := rpcUrls e in
  if Z.of_nat (length urls) <? minRpcs e
  then exists m, finalizedBlockHash e target = Raise (JsError m)
  else finalizedBlockHash e target = Ok (Some h) <->
       2 * supporters target 0 urls h > Z.of_nat (length urls).
Proof.
  cbv zeta. unfold finalizedBlockHash. destruct (_ <? minRpcs e); [by eexists|]. cbv zeta.
  set (urls := rpcUrls e). set (N := Z.of_nat (length urls)).
  pose proof (collect_finalized target urls 0 false [] h) as Hfin.
  pose proof (fun x => eq_trans (collect_votes target urls 0 false [] x) (Z.add_0_l _)) as Hcnt.
  pose proof (collect_distinct target urls 0 false [] (NoDup_nil_2)) as Hdist.
  destruct (collect target 0 urls false []) as [fin votes]. cbn [fst snd] in *.
  pose proof (best_vote_spec votes None 0) as (Hmax & Hpos & Hor).
  destruct (best_vote votes None 0) as [best bestN]. cbn [fst snd] in *.
  assert (Hdiv : N / 2 + 1 <= bestN <-> 2 * bestN > N).
  { pose proof (Z.div_mod N 2 ltac:(lia)). pose proof (Z.mod_pos_bound N 2 ltac:(lia)). lia. }
  split.
  - destruct fin; [|done]. cbn [negb]. destruct (bestN =? 0) eqn:E0; [done|]. cbn [orb].
    destruct (_ <? _)%nat; [done|]. destruct (Z.geb_spec bestN (N / 2 + 1)); [|done].
    intros [= ->]. destruct Hor as [?|(h1 & ? & Hin)]; simplify_eq.
    apply (get_vote_elem _ _ _ Hdist) in Hin. rewrite Hcnt in Hin. lia.
  - intros Hs. specialize (Hcnt h) as Hc.
    assert (Hh : (h, supporters target 0 urls h) ∈ votes).
    { rewrite <- Hc. apply get_vote_pos. lia. }
    destruct fin; [|destruct Hfin as [_ ?]; [done|lia]]. cbn [negb].
    assert (Htop : forall h' n, (h', n) ∈ votes -> n = bestN -> h' = h).
    { intros h' n Hin ->. apply (get_vote_elem _ _ _ Hdist) in Hin. rewrite Hcnt in Hin.
      destruct (decide (h' = h)); [done|]. pose proof (Hmax _ _ Hh).
      pose proof (supporters_bound target urls 0 h' h ltac:(done)). lia. }
    destruct Hor as [?|(h1 & -> & Hin)]; [simplify_eq; specialize (Hmax _ _ Hh); lia|].
    pose proof (Htop _ _ Hin eq_refl) as ->.
    apply (get_vote_elem _ _ _ Hdist) in Hin. rewrite Hc in Hin. subst bestN.
    destruct (Z.eqb_spec (supporters target 0 urls h) 0); [lia|]. cbn [orb].
    pose proof (unique_top _ _ _ Hdist Htop).
    destruct (Nat.ltb_spec 1 (length (List.filter (fun v => (v.2 =? supporters target 0 urls h)%Z) votes)));
      [lia|]. destruct (Z.geb_spec (supporters target 0 urls h) (N / 2 + 1)); [done|lia].
Qed.
End oracle.

(** *** The salt providers' parameters and the boot assertion *)

Definition MIN_LEAD_BLOCKS : Z := 128.

Definition lead (e : Risk.env) : Z :=
  let n := js_Number_opt (e "ETH_SALT_LEAD_BLOCKS"%string) in
  if js_isFinite n && js_ge n MIN_LEAD_BLOCKS then js_floor n else MIN_LEAD_BLOCKS.

(** [assertFairnessBootConfig]: the message of the error it throws, if any. *)
Definition assertFairnessBootConfig (e : Risk.env) : option string :=
  if negb (opt_eqb (e "FAIRNESS_REQUIRE_BLOCK_SALT"%string) (Some "true"%string)) then None
  else if negb (opt_eqb (e "SALT_PROVIDER_TYPE"%string) (Some "eth-block"%string))
  then Some "requires SALT_PROVIDER_TYPE=eth-block"%string
  else
    let min := minRpcs e in
    if min <? 3 then Some "requires ETH_RPC_MIN>=3"%string
    else
      let urls := rpcUrls e in
      if (Z.of_nat (length urls) <? 3) || (Z.of_nat (length urls) <? min)
      then Some "requires >=3 configured ETH_RPC_URLS"%string
      else match e "ETH_SALT_LEAD_BLOCKS"%string with
           | Some leadRaw =>
               if eqb_str leadRaw EmptyString then None
               else let lead := js_Number leadRaw in
                    if js_isFinite lead && js_ge lead MIN_LEAD_BLOCKS then None
                    else Some "requires ETH_SALT_LEAD_BLOCKS>=128"%string
           | None => None
           end.

Inductive provider_kind := EthBlockSalt | DailySalt.

(** [makeSaltProvider]: the provider, or the boot error. *)
Definition makeSaltProvider (e : Risk.env) : string + provider_kind :=
  match assertFairnessBootConfig e with
  | Some err => inl err
  | None => inr (if opt_eqb (e "SALT_PROVIDER_TYPE"%string) (Some "eth-block"%string)
                 then EthBlockSalt else DailySalt)
  end.

Lemma lead_floor (e : Risk.env) : MIN_LEAD_BLOCKS <= lead e.
Proof.
  unfold lead. destruct (js_Number_opt _) as [|neg|q]; cbn [js_isFinite andb]; try lia.
  destruct (js_ge (Fin q) MIN_LEAD_BLOCKS) eqn:E; [|lia]. unfold js_ge in E. cbn [js_floor].
  unfold Qfloor_Z. apply Z.leb_le in E. apply Z.div_le_lower_bound; lia.
Qed.

(** A node that boots in strict mode uses the block-hash salt, never the
    random one, can ask its oracle without hitting the too-few-endpoints error,
    and its oracle needs at least two agreeing endpoints to accept a hash. *)
Theorem strict_boot_guarantee (e : Risk.env) (k : provider_kind)
  (Hstrict : e "FAIRNESS_REQUIRE_BLOCK_SALT"%string = Some "true"%string)
  (Hboot : makeSaltProvider e = inr k) :
  k = EthBlockSalt /\ 3 <= minRpcs e <= Z.of_nat (length (rpcUrls e)) /\
  2 <= Z.of_nat (length (rpcUrls e)) / 2 + 1 /\ MIN_LEAD_BLOCKS <= lead e.
Proof.
  unfold makeSaltProvider, assertFairnessBootConfig in Hboot. rewrite Hstrict in Hboot.
  unfold opt_eqb in Hboot. rewrite (bool_decide_eq_true_2 (Some "true"%string = _)) in Hboot by done.
  cbn [negb] in Hboot.
  destruct (bool_decide (e "SALT_PROVIDER_TYPE"%string = Some "eth-block"%string)) eqn:Et; [|done].
  cbn [negb] in Hboot. cbv zeta in Hboot.
  destruct (Z.ltb_spec (minRpcs e) 3); [done|].
  destruct (Z.ltb_spec (Z.of_nat (length (rpcUrls e))) 3); [done|].
  destruct (Z.ltb_spec (Z.of_nat (length (rpcUrls e))) (minRpcs e)); [done|]. cbn [orb] in Hboot.
  assert (k = EthBlockSalt) by (repeat case_match; congruence).
  split; [done|]. split; [lia|]. split; [|apply lead_floor].
  pose proof (Z.div_le_mono 3 _ 2 ltac:(lia) ltac:(eassumption)). change (3 / 2) with 1 in *. lia.
Qed.

Definition strict_env (k : string) : option string :=
  if eqb_str k "FAIRNESS_REQUIRE_BLOCK_SALT" then Some "true"%string
  else if eqb_str k "SALT_PROVIDER_TYPE" then Some "eth-block"%string
  else if eqb_str k "ETH_RPC_MIN" then Some "3"%string
  else if eqb_str k "ETH_RPC_URLS" then Some "https://a.example, https://a.example,https://b.example"%string
  else None.

Lemma strict_boot_guarantee_witness :
  makeSaltProvider strict_env = inr EthBlockSalt /\
  3 <= minRpcs strict_env <= Z.of_nat (length (rpcUrls strict_env)).
Proof.
  assert (H : makeSaltProvider strict_env = inr EthBlockSalt) by (vm_compute; reflexivity).
  split; [exact H|]. exact (proj1 (proj2 (strict_boot_guarantee strict_env _ eq_refl H))).
Defined.

(** The assertion counts configured entries, not endpoints.  It says that a
    one- or two-endpoint minority cannot meet the quorum, yet a list that names
    one endpoint twice among three entries passes it, and that endpoint alone
    then decides the salt against the other one. *)
Theorem duplicate_endpoints_pass_boot :
  exists e url forged honest, forged <> honest /\ assertFairnessBootConfig e = None /\
    e "FAIRNESS_REQUIRE_BLOCK_SALT"%string = Some "true"%string /\
    finalizedBlockHash (fun _ u _ => Ok (Some {| rb_number := Some "0x64"%string;
        rb_hash := Some (if eqb_str u url then forged else honest) |})) e 100 = Ok (Some forged).
Proof.
  exists strict_env, "https://a.example"%string, "0xbad"%string, "0xfee"%string.
  split_and!; [discriminate|vm_compute; reflexivity..].
Qed.
End EthBlock.
