(* ===== verification/Keys.v ===== *)
(** * Idempotency keys and transaction ids as strings

    The key formats of [game/bets.service.ts] and [game/game-engine.service.ts]
    (`bet:{roundId}:{userId}:{panel}:debit`, `bet:{betId}:payout`, ...),
    [common/uuid.ts], and [parseTransactionQuery] of
    [operator/reporting-query.ts], which reads them back.  Proved: the formats
    never collide, fit the outbound length bound, and parse back. *)

From S2P Require Import Prelude Effects Js Money Schema.

Open Scope Z_scope.

Module Keys.

(** ** UUIDs *)

Definition hex_char (d : N) : ascii :=
  ascii_of_N (if (d <? 10)%N then 48 + d else 87 + d)%N.

(** The last [w] hexadecimal digits of [n]. *)
Fixpoint hexw (w : nat) (n : N) : string :=
  match w with
  | O => EmptyString
  | S w => (hexw w (n / 16)%N +:+ String (hex_char (n mod 16)%N) EmptyString)%string
  end.

Definition uuid_string (n : N) : string :=
  (hexw 8 (n / 2 ^ 96)%N +:+ String "-" (hexw 4 (n / 2 ^ 80)%N +:+ String "-"
    (hexw 4 (n / 2 ^ 64)%N +:+ String "-" (hexw 4 (n / 2 ^ 48)%N +:+ String "-" (hexw 12 n)))))%string.

(** [UUID_RE.test(s)] *)
Definition hex_group (n : nat) (s : string) : bool := (String.length s =? n)%nat && all_chars is_hex s.
Definition isUuid (s : string) : bool :=
  match split_on "-" s with
  | [a; b; c; d; e] => hex_group 8 a && hex_group 4 b && hex_group 4 c && hex_group 4 d && hex_group 12 e
  | _ => false
  end.

Definition panel_string (p : panel) : string := match p with PanelA => "A" | PanelB => "B" end.

(** ** The formats *)
Definition render (k : idem_key) : string :=
  match k with
  | KDebit r u p => join_with ":" ["bet"; uuid_string r; uuid_string u; panel_string p; "debit"]
  | KPayout b => join_with ":" ["bet"; uuid_string b; "payout"]
  | KRefund b => join_with ":" ["bet"; uuid_string b; "refund"]
  | KRestartRefund b => join_with ":" ["bet"; uuid_string b; "restart_refund"]
  | KVoidReclaim b => join_with ":" ["bet"; uuid_string b; "void_reclaim"]
  | KVoidRefund b => join_with ":" ["bet"; uuid_string b; "void_refund"]
  | KDemoReset tag => tag
  end%string.

Definition MAX_OUTBOUND_TX_ID_LEN : Z := 200.

Definition txIdTooLong (k : idem_key) : bool :=
  MAX_OUTBOUND_TX_ID_LEN <? Z.of_nat (String.length (render k)).

(** ** The transaction-status query *)

Inductive TransactionQuery :=
| ByBetId (betId : string)
| ByDebit (roundId userId : string) (p : panel) (transactionId : string)
| ByPayout (betId transactionId : string)
| ByRefund (betId transactionId : string).

Definition asString (v : option json) : option string :=
  match v with Some (JStr s) => Some s | _ => None end.

Definition field (q : list (string * json)) (k : string) : option json := assoc_last k q.

(** [asString(q.k)?.trim() || undefined] *)
Definition trimmed (q : list (string * json)) (k : string) : option string :=
  match asString (field q k) with
  | Some s => if nonempty (trim s) then Some (trim s) else None
  | None => None
  end.

Definition parse_panel (s : string) : option panel :=
  if eqb_str s "A" then Some PanelA else if eqb_str s "B" then Some PanelB else None.

Definition unrecognized : string + TransactionQuery := inl "unrecognized transactionId"%string.

Definition parse_transactionId (transactionId : string) : string + TransactionQuery :=
  match split_on ":" transactionId with
  | b :: parts =>
      if negb (eqb_str b "bet") then unrecognized
      else match parts with
           | [id; what] =>
               if eqb_str what "payout" || eqb_str what "refund" || eqb_str what "restart_refund" then
                 if negb (isUuid id) then unrecognized
                 else inr (if eqb_str what "payout" then ByPayout id transactionId else ByRefund id transactionId)
               else unrecognized
           | [roundId; userId; p; what] =>
               if eqb_str what "debit" then
                 match isUuid roundId && isUuid userId, parse_panel p with
                 | true, Some p => inr (ByDebit roundId userId p transactionId)
                 | _, _ => unrecognized
                 end
               else unrecognized
           | _ => unrecognized
           end
  | [] => unrecognized
  end.

Definition parseTransactionQuery (q : list (string * json)) : string + TransactionQuery :=
  match trimmed q "transactionId", trimmed q "betId" with
  | Some _, Some _ => inl "provide exactly one of transactionId or betId"%string
  | None, None => inl "missing transactionId or betId"%string
  | None, Some betId => if isUuid betId then inr (ByBetId betId) else inl "invalid betId"%string
  | Some transactionId, None => parse_transactionId transactionId
  end.

(** ** Facts *)

Lemma hex_char_hex d : (d < 16)%N -> is_hex (hex_char d) = true.
Proof.
  intros Hd. assert (H : forallb (fun d => is_hex (hex_char d)) (List.map N.of_nat (List.seq 0 16)) = true) by reflexivity.
  rewrite forallb_forall in H. apply H, in_map_iff. exists (N.to_nat d). split; [lia|]. apply in_seq. lia.
Qed.

Lemma hex_char_inj d e : (d < 16)%N -> (e < 16)%N -> hex_char d = hex_char e -> d = e.
Proof.
  intros Hd He. unfold hex_char. intros H. apply (f_equal N_of_ascii) in H.
  destruct (N.ltb_spec d 10), (N.ltb_spec e 10); rewrite !N_ascii_embedding in H by lia; lia.
Qed.

Lemma hexw_length w n : String.length (hexw w n) = w.
Proof.
  revert n; induction w as [|w IH]; intros n; [done|]. cbn [hexw]. rewrite string_length_app, IH. simpl. lia.
Qed.

Lemma hexw_hex w n : all_chars is_hex (hexw w n) = true.
Proof.
  revert n; induction w as [|w IH]; intros n; [done|]. cbn [hexw]. rewrite all_chars_app, IH.
  simpl. rewrite hex_char_hex; [done|]. apply N.mod_lt. lia.
Qed.

Lemma app_inj_len (a b c d : string) : String.length a = String.length c ->
  (a +:+ b = c +:+ d)%string -> a = c /\ b = d.
Proof.
  revert c; induction a as [|x a IH]; intros [|y c] Hl; try done. simpl. intros [= -> H].
  injection Hl as Hl. destruct (IH c Hl H) as [-> ->]. done.
Qed.

Lemma hexw_inj w n m : hexw w n = hexw w m -> (n mod 16 ^ N.of_nat w = m mod 16 ^ N.of_nat w)%N.
Proof.
  revert n m; induction w as [|w IH]; intros n m H.
  { change (16 ^ N.of_nat 0)%N with 1%N. by rewrite !N.mod_1_r. }
  cbn [hexw] in H. apply app_inj_len in H as [H1 H2]; [|by rewrite !hexw_length].
  apply IH in H1. injection H2 as H2. apply hex_char_inj in H2; [|apply N.mod_lt; lia..].
  rewrite Nat2N.inj_succ, N.pow_succ_r'.
  rewrite (N.Div0.mod_mul_r n 16), (N.Div0.mod_mul_r m 16). congruence.
Qed.

Definition uuid_ok (n : N) : Prop := (n < 2 ^ 128)%N.

Lemma hex_not_dash : is_hex "-"%char = false. Proof. reflexivity. Qed.
Lemma hex_not_colon : is_hex ":"%char = false. Proof. reflexivity. Qed.

Lemma hexw_lacks c w n : is_hex c = false -> lacks c (hexw w n).
Proof. intros Hc. apply (all_chars_lacks is_hex); [done|apply hexw_hex]. Qed.

Lemma uuid_split n : split_on "-" (uuid_string n) =
  [hexw 8 (n / 2 ^ 96)%N; hexw 4 (n / 2 ^ 80)%N; hexw 4 (n / 2 ^ 64)%N; hexw 4 (n / 2 ^ 48)%N; hexw 12 n].
Proof.
  unfold uuid_string. rewrite !split_on_cons by (by apply hexw_lacks).
  by rewrite split_on_word by (by apply hexw_lacks).
Qed.

Lemma uuid_isUuid n : isUuid (uuid_string n) = true.
Proof. unfold isUuid. rewrite uuid_split. unfold hex_group. by rewrite !hexw_length, !hexw_hex. Qed.

Lemma uuid_length n : String.length (uuid_string n) = 36%nat.
Proof. unfold uuid_string. repeat (rewrite ?string_length_app; cbn [String.length]). rewrite !hexw_length. done. Qed.

Lemma uuid_inj n m : uuid_ok n -> uuid_ok m -> uuid_string n = uuid_string m -> n = m.
Proof.
  unfold uuid_ok. intros Hn Hm H. apply (f_equal (split_on "-")) in H. rewrite !uuid_split in H.
  assert (Hi : forall a b c d e a' b' c' d' e' : string, [a; b; c; d; e] = [a'; b'; c'; d'; e'] ->
    a = a' /\ b = b' /\ c = c' /\ d = d' /\ e = e') by (intros; by simplify_eq).
  apply Hi in H as (H1 & H2 & H3 & H4 & H5).
  apply hexw_inj in H1, H2, H3, H4, H5. 
  change (16 ^ N.of_nat 8)%N with (2 ^ 32)%N in *. change (16 ^ N.of_nat 4)%N with (2 ^ 16)%N in *.
  change (16 ^ N.of_nat 12)%N with (2 ^ 48)%N in *.
  assert (E : forall x, (x < 2 ^ 128 -> x = (x / 2 ^ 96) mod 2 ^ 32 * 2 ^ 96 + ((x / 2 ^ 80) mod 2 ^ 16 * 2 ^ 80 +
     ((x / 2 ^ 64) mod 2 ^ 16 * 2 ^ 64 + ((x / 2 ^ 48) mod 2 ^ 16 * 2 ^ 48 + x mod 2 ^ 48))))%N).
  { intros x Hx. rewrite (N.mod_small (x / 2 ^ 96)) by (apply N.Div0.div_lt_upper_bound; lia).
    pose proof (N.Div0.div_mod (x / 2 ^ 80) (2 ^ 16)) as D1. rewrite N.Div0.div_div in D1.
    pose proof (N.Div0.div_mod (x / 2 ^ 64) (2 ^ 16)) as D2. rewrite N.Div0.div_div in D2.
    pose proof (N.Div0.div_mod (x / 2 ^ 48) (2 ^ 16)) as D3. rewrite N.Div0.div_div in D3.
    pose proof (N.Div0.div_mod x (2 ^ 48)) as D4.
    change (2 ^ 80 * 2 ^ 16)%N with (2 ^ 96)%N in D1. change (2 ^ 64 * 2 ^ 16)%N with (2 ^ 80)%N in D2.
    change (2 ^ 48 * 2 ^ 16)%N with (2 ^ 64)%N in D3. lia. }
  rewrite (E n Hn), (E m Hm). by rewrite H1, H2, H3, H4, H5.
Qed.

Lemma uuid_lacks_char c n : is_hex c || Ascii.eqb c "-"%char = false -> lacks c (uuid_string n).
Proof.
  intros Hc. apply (all_chars_lacks (fun a => is_hex a || Ascii.eqb a "-"%char)); [exact Hc|].
  assert (H : forall w m, all_chars (fun a => is_hex a || Ascii.eqb a "-"%char) (hexw w m) = true).
  { intros w m. pose proof (hexw_hex w m) as Hh. induction (hexw w m) as [|a s IH]; [done|].
    simpl in *. apply andb_true_iff in Hh as [-> Hs]. by rewrite IH. }
  unfold uuid_string. repeat (rewrite all_chars_app; cbn [all_chars]). by rewrite !H.
Qed.

Lemma uuid_lacks n : lacks ":"%char (uuid_string n).
Proof. by apply uuid_lacks_char. Qed.

Lemma render_split k : match k with KDemoReset _ => True | _ => split_on ":" (render k) =
  match k with
  | KDebit r u p => ["bet"; uuid_string r; uuid_string u; panel_string p; "debit"]
  | KPayout b => ["bet"; uuid_string b; "payout"]
  | KRefund b => ["bet"; uuid_string b; "refund"]
  | KRestartRefund b => ["bet"; uuid_string b; "restart_refund"]
  | KVoidReclaim b => ["bet"; uuid_string b; "void_reclaim"]
  | KVoidRefund b => ["bet"; uuid_string b; "void_refund"]
  | KDemoReset _ => []
  end%string end.
Proof.
  pose proof uuid_lacks. destruct k as [r u []|b|b|b|b|b|]; try done; unfold render; apply split_join; try done;
    repeat (apply Forall_cons_2; [first [apply H | by repeat split]|]); apply Forall_nil_2.
Qed.

(** A key the game sends to a wallet: one of a bet, with 128-bit identifiers. *)
Definition bet_key (k : idem_key) : Prop :=
  match k with
  | KDebit r u _ => uuid_ok r /\ uuid_ok u
  | KPayout b | KRefund b | KRestartRefund b | KVoidReclaim b | KVoidRefund b => uuid_ok b
  | KDemoReset _ => False
  end.

(** The key formats never collide: two bet keys that render to the same
    string are the same move of the same bet, so deduplication on the string
    never confuses two money moves; and every bet key fits the bound on outbound
    transaction ids, so the length assertion never fires. *)
Theorem keys_injective k1 k2 (H1 : bet_key k1) (H2 : bet_key k2) :
  (render k1 = render k2 -> k1 = k2) /\ txIdTooLong k1 = false.
Proof.
  split.
  - intros H. apply (f_equal (split_on ":")) in H.
    pose proof (render_split k1) as S1. pose proof (render_split k2) as S2.
    destruct k1 as [r1 u1 p1|b1|b1|b1|b1|b1|], k2 as [r2 u2 p2|b2|b2|b2|b2|b2|]; try done;
      rewrite S1, S2 in H; try done; cbn in H1, H2; destruct_and?;
      pose proof (f_equal (fun l => nth 1 l EmptyString) H) as E1; cbn [nth] in E1;
      try (f_equal; by apply uuid_inj).
    pose proof (f_equal (fun l => nth 2 l EmptyString) H) as E2; cbn [nth] in E2.
    pose proof (f_equal (fun l => nth 3 l EmptyString) H) as E3; cbn [nth] in E3.
    assert (p1 = p2) as -> by (by destruct p1, p2). f_equal; by apply uuid_inj.
  - unfold txIdTooLong. destruct k1 as [r1 u1 p1|b1|b1|b1|b1|b1|]; try done; unfold render;
      cbn [join_with String.length]; repeat (rewrite ?string_length_app; cbn [String.length]);
      rewrite !uuid_length; try done. by destruct p1.
Qed.

Lemma keys_injective_witness :
  (render (KPayout 5) = render (KPayout 5) -> KPayout 5 = KPayout 5) /\ txIdTooLong (KPayout 5) = false.
Proof. apply keys_injective; vm_compute; reflexivity. Defined.

Definition visible (a : ascii) : bool := negb (is_space a).

Lemma drop_end_visible s : all_chars visible s = true -> drop_end is_space s = s.
Proof.
  induction s as [|a s IH]; simpl; [done|]. rewrite andb_true_iff. intros [Ha Hs].
  rewrite (IH Hs). unfold visible in Ha. apply negb_true_iff in Ha as ->. by destruct s.
Qed.

Lemma trim_nospace s : all_chars visible s = true -> trim s = s.
Proof.
  intros Hs. unfold trim. destruct s as [|a s]; [done|]. simpl drop_while. pose proof Hs as Hs'.
  simpl in Hs'. apply andb_true_iff in Hs' as [Ha _]. unfold visible in Ha. apply negb_true_iff in Ha as ->.
  by apply drop_end_visible.
Qed.

Lemma uuid_visible n : all_chars visible (uuid_string n) = true.
Proof.
  assert (H : forall w m, all_chars visible (hexw w m) = true).
  { intros w m. pose proof (hexw_hex w m) as Hh. induction (hexw w m) as [|a s IH]; [done|].
    simpl in *. apply andb_true_iff in Hh as [Ha Hs]. rewrite IH by done. unfold visible.
    clear -Ha. revert Ha. by destruct a as [[] [] [] [] [] [] [] []]. }
  unfold uuid_string. repeat (rewrite all_chars_app; cbn [all_chars]). by rewrite !H.
Qed.

Lemma render_nospace k : match k with KDemoReset _ => True | _ => all_chars visible (render k) = true end.
Proof.
  destruct k as [r u []|b|b|b|b|b|]; try done; unfold render; cbn [join_with];
    repeat (rewrite all_chars_app; cbn [all_chars]); by rewrite !uuid_visible.
Qed.

Lemma render_nonempty k : match k with KDemoReset _ => True | _ => nonempty (render k) = true end.
Proof. by destruct k. Qed.

Lemma parse_render k : match k with KDemoReset _ => True | _ =>
  parseTransactionQuery [("transactionId"%string, JStr (render k))] = parse_transactionId (render k) end.
Proof.
  assert (H : forall s, all_chars visible s = true -> nonempty s = true ->
    parseTransactionQuery [("transactionId"%string, JStr s)] = parse_transactionId s).
  { intros s Hv Hn. unfold parseTransactionQuery, trimmed.
    change (field [("transactionId"%string, JStr s)] "transactionId") with (Some (JStr s)).
    change (field [("transactionId"%string, JStr s)] "betId") with (@None json).
    cbn [asString]. by rewrite (trim_nospace s Hv), Hn. }
  pose proof (render_nospace k). pose proof (render_nonempty k). destruct k; auto.
Qed.

(** The transaction lookup understands every key the RGS sends as a wire
    transaction id for a debit, a payout or a refund: it resolves to the same
    round, user and panel, or the same bet, from which the key was built. *)
Theorem transactionId_roundtrip r u p b :
  let lookup s := parseTransactionQuery [("transactionId"%string, JStr s)] in
  lookup (render (KDebit r u p)) = inr (ByDebit (uuid_string r) (uuid_string u) p (render (KDebit r u p))) /\
  lookup (render (KPayout b)) = inr (ByPayout (uuid_string b) (render (KPayout b))) /\
  lookup (render (KRefund b)) = inr (ByRefund (uuid_string b) (render (KRefund b))) /\
  lookup (render (KRestartRefund b)) = inr (ByRefund (uuid_string b) (render (KRestartRefund b))).
Proof.
  cbv beta zeta. rewrite (parse_render (KDebit r u p)), (parse_render (KPayout b)), (parse_render (KRefund b)),
    (parse_render (KRestartRefund b)).
  unfold parse_transactionId.
  rewrite (render_split (KDebit r u p)), (render_split (KPayout b)), (render_split (KRefund b)),
    (render_split (KRestartRefund b)), !uuid_isUuid. by destruct p.
Qed.
End Keys.
