(* ===== verification/ReportQuery.v ===== *)
(** * The parameters of the reports

    The date, currency, cursor and limit parsers of
    [operator/reporting-query.ts] (the transaction lookup is in [Keys]).  A
    query is the fields of the decoded query string; an error is the message of
    the exception.  What the implementation makes of a date outside the ISO
    format is the parameter [implementation] of [Dates].
    Proved: an accepted query is well formed, a date-only range covers exactly
    its days, and a printed instant is read back to the millisecond. *)

From S2P Require Import Prelude Effects Js Dates Money Schema Keys.
Import Dates.

Open Scope Z_scope.

Module ReportQuery.

(** ** Errors *)

(** [throw new BadRequestException(msg)] is [inl msg]. *)
Definition and_then {A B} (x : string + A) (f : A -> string + B) : string + B :=
  match x with inl e => inl e | inr a => f a end.
Notation "'let?' x ':=' e 'in' k" := (and_then e (fun x => k)) (at level 10, x name, e at level 200, k at level 200).

(** ** Queries *)

Record ReportQuery := mk_query {
  q_from : Z; q_to : Z; q_currency : option string; q_includeDemo : bool
}.
Record BetsQuery := mk_bets_query { bq_base : ReportQuery; bq_cursor : option string; bq_limit : Z }.
Record AuditQuery := mk_audit_query {
  aq_action : option string; aq_from : option Z; aq_to : option Z; aq_limit : Z
}.

Definition DEFAULT_LIMIT : Z := 50.
Definition MAX_LIMIT : Z := 200.
Definition MAX_DAILY_RANGE_DAYS : Z := 366.

Definition raw_query := list (string * json).

(** [/^\d{4}-\d{2}-\d{2}$/] *)
Definition digit_group (n : nat) (s : string) : bool := (String.length s =? n)%nat && all_chars is_digit s.
Definition dateOnly (s : string) : bool :=
  match split_on "-" s with
  | [y; m; d] => digit_group 4 y && digit_group 2 m && digit_group 2 d
  | _ => false
  end.

Inductive bound := From | To.
Definition bound_name (b : bound) : string := match b with From => "from" | To => "to" end.

(** [/^[a-z0-9_.]{1,64}$/] *)
Definition ACTION_RE (s : string) : bool :=
  all_chars (fun a => is_lower a || is_digit a || Ascii.eqb a "_"%char || Ascii.eqb a "."%char) s
  && nonempty s && (String.length s <=? 64)%nat.

Section parsers.
Context (implementation : string -> option Z).

Definition parseInstant (raw : option json) (which : bound) : string + Z :=
  match Keys.asString raw with
  | Some s0 =>
      let s := trim s0 in
      if nonempty s then
        let iso := if dateOnly s
                   then (s +:+ "T" +:+ (match which with To => "23:59:59.999" | From => "00:00:00.000" end) +:+ "Z")%string
                   else s in
        match Date_parse implementation iso with
        | Some d => inr d
        | None => inl ("invalid " +:+ bound_name which +:+ " date")%string
        end
      else inl ("missing " +:+ bound_name which +:+ " date")%string
  | None => inl ("missing " +:+ bound_name which +:+ " date")%string
  end.

Definition parseCurrency (raw : option json) : string + option string :=
  match Keys.asString raw with
  | None => inr None
  | Some s => let c := toUpperCase (trim s) in
              if Currency.CURRENCY_CODE_RE c then inr (Some c) else inl "invalid currency"%string
  end.

Definition parseBool (raw : option json) (def : bool) : string + bool :=
  match Keys.asString raw with
  | None => inr def
  | Some s => if eqb_str s "true" then inr true else if eqb_str s "false" then inr false
              else inl "includeDemo must be true|false"%string
  end.

Definition base (q : raw_query) : string + ReportQuery :=
  let? from := parseInstant (Keys.field q "from") From in
  let? to := parseInstant (Keys.field q "to") To in
  if to <? from then inl "from must be <= to"%string
  else
    let? currency := parseCurrency (Keys.field q "currency") in
    let? includeDemo := parseBool (Keys.field q "includeDemo") false in
    inr (mk_query from to currency includeDemo).

Definition parseReportQuery (q : raw_query) : string + ReportQuery := base q.

(** [(to - from) / 86_400_000 > MAX_DAILY_RANGE_DAYS] *)
Definition parseDailyQuery (q : raw_query) : string + ReportQuery :=
  let? b := base q in
  if MAX_DAILY_RANGE_DAYS * MS_PER_DAY <? q_to b - q_from b then inl "daily range too large (max 366 days)"%string
  else inr b.

(** The [limit] field, clamped. *)
Definition parse_limit (raw : option json) : string + Z :=
  match Keys.asString raw with
  | None => inr DEFAULT_LIMIT
  | Some lr => match js_Number lr with
               | Fin n => if negb (js_isInteger (Fin n)) || js_lt (Fin n) 1 then inl "invalid limit"%string
                          else inr (Z.min (Qfloor_Z n) MAX_LIMIT)
               | _ => inl "invalid limit"%string
               end
  end.

Definition parseBetsQuery (q : raw_query) : string + BetsQuery :=
  let? b := base q in
  let cursor := Keys.trimmed q "cursor" in
  if match cursor with Some c => negb (Keys.isUuid c) | None => false end then inl "invalid cursor"%string
  else let? limit := parse_limit (Keys.field q "limit") in inr (mk_bets_query b cursor limit).

(** [asString(q.k)?.trim()], parsed when it is not empty. *)
Definition optional_instant (q : raw_query) (which : bound) : string + option Z :=
  match Keys.trimmed q (bound_name which) with
  | Some s => let? t := parseInstant (Some (JStr s)) which in inr (Some t)
  | None => inr None
  end.

Definition parseAuditQuery (q : raw_query) : string + AuditQuery :=
  let action := Keys.trimmed q "action" in
  if match action with Some a => negb (ACTION_RE a) | None => false end then inl "invalid action"%string
  else
    let? from := optional_instant q From in
    let? to := optional_instant q To in
    if match from, to with Some f, Some t => t <? f | _, _ => false end then inl "from must be <= to"%string
    else let? limit := parse_limit (Keys.field q "limit") in inr (mk_audit_query action from to limit).
End parsers.

(** ** Well-formed queries *)

Definition query_ok (q : ReportQuery) : Prop :=
  q_from q <= q_to q /\ match q_currency q with Some c => Currency.CURRENCY_CODE_RE c = true | None => True end.

Lemma and_then_inr {A B} (x : string + A) (f : A -> string + B) b : and_then x f = inr b -> exists a, x = inr a /\ f a = inr b.
Proof. destruct x as [e|a]; [done|]. by exists a. Qed.

Ltac parsed H := let a := fresh "v" in let E := fresh "E" in apply and_then_inr in H as (a & E & H).

Lemma base_ok impl q b : base impl q = inr b -> query_ok b.
Proof.
  unfold base. intros H. parsed H. parsed H. destruct (Z.ltb_spec v0 v); [done|]. parsed H. parsed H.
  injection H as <-. split; [done|]. cbn. unfold parseCurrency in E1. repeat case_hyp E1; by simplify_eq.
Qed.

Lemma parse_limit_ok raw n : parse_limit raw = inr n -> 1 <= n <= MAX_LIMIT.
Proof.
  unfold parse_limit, MAX_LIMIT. destruct (Keys.asString raw); [|intros H; injection H as <-; by vm_compute].
  destruct (js_Number _) as [| |r]; [done..|]. destruct (js_isInteger (Fin r)) eqn:Hi; [|done]. cbn [negb orb].
  destruct (js_lt (Fin r) 1) eqn:Hlt; [done|]. intros H; injection H as <-.
  pose proof (js_lt_int r 1 Hi) as Hl. rewrite Hlt in Hl. symmetry in Hl. apply Z.ltb_ge in Hl. lia.
Qed.

Lemma trimmed_uuid q c : match Keys.trimmed q c with Some s => negb (Keys.isUuid s) | None => false end = false ->
  match Keys.trimmed q c with Some s => Keys.isUuid s = true | None => True end.
Proof. destruct (Keys.trimmed q c); [|done]. apply negb_false_iff. Qed.

(** C40: Whatever the query string, an accepted query is well formed: the range is
    ordered, the currency is in canonical form, a daily range is at most 366
    days, a page has between 1 and 200 rows and continues from a UUID; and an
    audit query is ordered, limited, and filters on an action of the dotted shape. *)
Theorem accepted_queries_well_formed (implementation : string -> option Z) (q : raw_query) :
  (forall b, parseReportQuery implementation q = inr b -> query_ok b) /\
  (forall b, parseDailyQuery implementation q = inr b ->
     query_ok b /\ q_to b - q_from b <= MAX_DAILY_RANGE_DAYS * MS_PER_DAY) /\
  (forall b, parseBetsQuery implementation q = inr b ->
     query_ok (bq_base b) /\ 1 <= bq_limit b <= MAX_LIMIT /\
     match bq_cursor b with Some c => Keys.isUuid c = true | None => True end) /\
  (forall a, parseAuditQuery implementation q = inr a ->
     1 <= aq_limit a <= MAX_LIMIT /\
     match aq_action a with Some s => ACTION_RE s = true | None => True end /\
     match aq_from a, aq_to a with Some f, Some t => f <= t | _, _ => True end).
Proof.
  split_and!.
  - apply base_ok.
  - unfold parseDailyQuery. intros b H. parsed H. destruct (Z.ltb_spec (MAX_DAILY_RANGE_DAYS * MS_PER_DAY) (q_to v - q_from v)); [done|].
    injection H as <-. split; [by eapply base_ok|done].
  - unfold parseBetsQuery. intros b H. parsed H. case_match eqn:Hc; [done|]. parsed H. injection H as <-.
    split; [by eapply base_ok|]. split; [by eapply parse_limit_ok|]. by apply trimmed_uuid.
  - unfold parseAuditQuery. intros a H. case_match eqn:Hc; [done|]. parsed H. parsed H.
    destruct (match v with Some f => _ | None => _ end) eqn:Hord; [done|]. parsed H. injection H as <-.
    split; [by eapply parse_limit_ok|]. split; [by destruct (Keys.trimmed q "action"); [apply negb_false_iff in Hc|]|].
    destruct v as [f|], v0 as [t|]; try done. by apply Z.ltb_ge in Hord.
Qed.

(** ** Date-only bounds *)

Lemma dateOnly_day day : four_digit_year day = true -> dateOnly (day_string day) = true.
Proof.
  unfold four_digit_year, day_string, dateOnly. destruct (civil_from_days day) as [[y m] d]. intros Hy.
  unfold date_string, year_string. rewrite Hy.
  change (decw 4 y +:+ String "-" (decw 2 m +:+ String "-" (decw 2 d)))%string
    with (join_with "-" [decw 4 y; decw 2 m; decw 2 d]).
  assert (Hl : forall w n, lacks "-"%char (decw w n)).
  { intros w n. apply (all_chars_lacks is_digit); [done|]. apply decw_digits. }
  rewrite split_join; [|done|by repeat (apply Forall_cons_2; [apply Hl|]); apply Forall_nil_2]. unfold digit_group. by rewrite !decw_length, !decw_digits.
Qed.

Lemma digit_visible s : all_chars is_digit s = true -> all_chars Keys.visible s = true.
Proof.
  induction s as [|a s IH]; [done|]. cbn [all_chars]. rewrite !andb_true_iff. intros [Ha Hs]. split; [|by apply IH].
  unfold Keys.visible. by destruct (is_digit_facts a Ha) as (-> & _).
Qed.

Lemma decw_visible w n : all_chars Keys.visible (decw w n) = true.
Proof. apply digit_visible, decw_digits. Qed.

Lemma day_visible day : four_digit_year day = true -> all_chars Keys.visible (day_string day) = true.
Proof.
  unfold four_digit_year, day_string. destruct (civil_from_days day) as [[y m] d]. intros Hy.
  unfold date_string, year_string. rewrite Hy. by repeat (rewrite all_chars_app; cbn [all_chars]; rewrite ?decw_visible).
Qed.

Lemma iso_visible t : four_digit_year (t / MS_PER_DAY) = true -> all_chars Keys.visible (toISOString t) = true.
Proof.
  intros Hy. unfold toISOString, time_string.
  repeat (rewrite all_chars_app; cbn [all_chars]; rewrite ?decw_visible). by rewrite day_visible.
Qed.

Lemma instant_text implementation s b : all_chars Keys.visible s = true -> nonempty s = true ->
  parseInstant implementation (Some (JStr s)) b =
  match Date_parse implementation
          (if dateOnly s then (s +:+ "T" +:+ (match b with To => "23:59:59.999" | From => "00:00:00.000" end) +:+ "Z")%string else s) with
  | Some d => inr d
  | None => inl ("invalid " +:+ bound_name b +:+ " date")%string
  end.
Proof. intros Hv Hn. unfold parseInstant. cbn [Keys.asString]. by rewrite (Keys.trim_nospace s Hv), Hn. Qed.

Lemma parse_day implementation day b : four_digit_year day = true ->
  parseInstant implementation (Some (JStr (day_string day))) b =
  inr (day * MS_PER_DAY + match b with To => MS_PER_DAY - 1 | From => 0 end).
Proof.
  intros Hy. rewrite instant_text, dateOnly_day; [|done|by apply day_visible|].
  2: { pose proof (day_string_length day Hy). by destruct (day_string day). }
  unfold Date_parse. rewrite day_string_parse by done. by destruct b.
Qed.

Lemma parse_printed implementation t b : four_digit_year (t / MS_PER_DAY) = true ->
  parseInstant implementation (Some (JStr (toISOString t))) b = inr t.
Proof.
  intros Hy. rewrite instant_text; [|by apply iso_visible|].
  2: { unfold toISOString. pose proof (day_string_length _ Hy). by destruct (day_string _). }
  assert (Hd : dateOnly (toISOString t) = false).
  { destruct (dateOnly (toISOString t)) eqn:Hd; [|done]. unfold dateOnly in Hd.
    pose proof (split_parts (toISOString t) "-") as [_ Hj].
    destruct (split_on "-" (toISOString t)) as [|y [|m [|d [|]]]]; try done.
    unfold digit_group in Hd. rewrite !andb_true_iff, !Nat.eqb_eq in Hd. destruct Hd as [[[Ly _] [Lm _]] [Ld _]].
    apply (f_equal String.length) in Hj. unfold toISOString in Hj. cbn [join_with] in Hj.
    repeat (rewrite string_length_app in Hj; cbn [String.length] in Hj).
    rewrite (day_string_length _ Hy), Ly, Lm, Ld in Hj. lia. }
  rewrite Hd. unfold Date_parse. by rewrite toISOString_parses.
Qed.

(** A range of two days, printed as YYYY-MM-DD, selects exactly the instants of
    those days, the last millisecond of the last one included, and nothing else;
    a range whose days are out of order is refused; a range of two printed
    instants is read to the millisecond. *)
Theorem date_range_covers_days (implementation : string -> option Z) (a b : Z) (t1 t2 : Z)
    (Ha : four_digit_year a = true) (Hb : four_digit_year b = true)
    (H1 : four_digit_year (t1 / MS_PER_DAY) = true) (H2 : four_digit_year (t2 / MS_PER_DAY) = true) :
  let query f t := parseReportQuery implementation [("from", JStr f); ("to", JStr t)]%string in
  (a <= b -> exists q, query (day_string a) (day_string b) = inr q /\
     (forall t, q_from q <= t <= q_to q <-> a <= t / MS_PER_DAY <= b) /\ q_currency q = None /\ q_includeDemo q = false) /\
  (b < a -> query (day_string a) (day_string b) = inl "from must be <= to"%string) /\
  (t1 <= t2 -> query (toISOString t1) (toISOString t2) = inr (mk_query t1 t2 None false)).
Proof.
  cbv zeta. unfold parseReportQuery, base.
  change (Keys.field [("from", JStr ?f); ("to", JStr ?t)]%string "from") with (Some (JStr f)).
  change (Keys.field [("from", JStr ?f); ("to", JStr ?t)]%string "to") with (Some (JStr t)).
  change (Keys.field [("from", JStr ?f); ("to", JStr ?t)]%string "currency") with (@None json).
  change (Keys.field [("from", JStr ?f); ("to", JStr ?t)]%string "includeDemo") with (@None json).
  rewrite !parse_day, !parse_printed by done. cbn [and_then]. unfold MS_PER_DAY.
  split_and!.
  - intros Hab. destruct (Z.ltb_spec (b * 86400000 + (86400000 - 1)) (a * 86400000 + 0)); [lia|].
    eexists. split; [reflexivity|]. cbn. split; [|done]. intros t. Z.div_mod_to_equations; lia.
  - intros Hba. destruct (Z.ltb_spec (b * 86400000 + (86400000 - 1)) (a * 86400000 + 0)); [done|lia].
  - intros Ht. by destruct (Z.ltb_spec t2 t1); [lia|].
Qed.

Lemma date_range_covers_days_witness :
  let query f t := parseReportQuery (fun _ => None) [("from", JStr f); ("to", JStr t)]%string in
  day_string 20608 = "2026-06-04"%string /\
  exists q, query "2026-06-01"%string "2026-06-04"%string = inr q /\ (forall t, q_from q <= t <= q_to q <-> 20605 <= t / MS_PER_DAY <= 20608).
Proof.
  cbv zeta. split; [reflexivity|].
  destruct (date_range_covers_days (fun _ => None) 20605 20608 0 0 eq_refl eq_refl eq_refl eq_refl) as [H _].
  destruct (H ltac:(lia)) as (q & Hq & Ht & _). exists q. split; [exact Hq|exact Ht].
Defined.
End ReportQuery.
