(* ===== verification/OperatorWallet.v ===== *)
(** * The operator's seamless wallet and the rollback ledger

    [wallet/wallet-rollback.service.ts] (module [Rollbacks]) and
    [wallet/seamless-operator-wallet.ts] (module [Seamless]), the second
    provider behind the interface of Wallet.v.  The operator's answers, an
    arbitrary sequence, come from the world; every call is recorded in it.
    Proved: a win is never rolled back and is reported paid only if the operator
    accepted it; a debit that fails without a clean refusal leaves its reversal
    recorded; a confirmed reversal is never emitted again; the drain confirms
    everything a working operator owes. *)

From S2P Require Import Prelude Effects Js Money Schema Wallet Keys.

Open Scope Z_scope.

#[local] Set Warnings "-clear-no-such-hyp".

Record OperatorSession := mk_opsession { os_operatorId : uuid; os_playerId : string; os_currency : string }.

(** ** The durable rollback ledger *)

Module Rollbacks.

Record RollbackClaim := mk_claim {
  cl_operatorId : uuid; cl_playerId : string; cl_currency : string; cl_transactionId : idem_key;
  cl_reason : string; cl_betId : option uuid; cl_amount : option Z
}.

Definition dedupeKeyOf (betId : option uuid) (transactionId : idem_key) (reason : string) : dedupe_key :=
  (match betId with Some b => inl b | None => inr transactionId end, reason).

Definition RollbackRef : Type := uuid * dedupe_key.

Definition ref_of (c : RollbackClaim) : RollbackRef :=
  (cl_operatorId c, dedupeKeyOf (cl_betId c) (cl_transactionId c) (cl_reason c)).

Definition ROLLBACK_ATTEMPT_ALERT : Z := 10.
Definition DRAIN_LEASE_MS : Z := 60000.

(** The unique ([operatorId], [dedupeKey]). *)
Definition has_ref (ref : RollbackRef) (r : rollback_row) : bool :=
  bool_decide ((rb_operatorId r, rb_dedupeKey r) = ref).

Definition find_rollback (ref : RollbackRef) (w : world) : option rollback_row :=
  List.find (has_ref ref) (w_rollbacks w).

Definition rb_with (r : rollback_row) (st : rb_status) (lease : option Z) (err : option exn)
    (attempts : Z) (resolved : option Z) : rollback_row :=
  mk_rollback (rb_id r) (rb_operatorId r) (rb_playerId r) (rb_currency r) (rb_transactionId r)
    (rb_dedupeKey r) (rb_reason r) (rb_betId r) (rb_amount r) st attempts err lease resolved.

Definition rb_draining (lease : Z) (r : rollback_row) : rollback_row :=
  rb_with r RbDraining (Some lease) (rb_lastError r) (rb_attempts r) (rb_resolvedAt r).
Definition rb_confirmed (now : Z) (r : rollback_row) : rollback_row :=
  rb_with r RbConfirmed None None (rb_attempts r) (Some now).
Definition rb_failed (err : exn) (attempts : Z) (r : rollback_row) : rollback_row :=
  rb_with r RbPending None (Some err) attempts (rb_resolvedAt r).
Definition rb_bumped (r : rollback_row) : rollback_row :=
  rb_with r (rb_status_ r) (rb_leaseUntil r) (rb_lastError r) (rb_attempts r + 1) (rb_resolvedAt r).

Definition update_where (P : rollback_row -> bool) (f : rollback_row -> rollback_row)
    (l : list rollback_row) : list rollback_row :=
  List.map (fun r => if P r then f r else r) l.

Definition count_where (P : rollback_row -> bool) (l : list rollback_row) : Z :=
  Z.of_nat (length (List.filter P l)).

(** [walletRollback.updateMany({ where: P, data: f })]: the rows changed. *)
Definition rollback_updateMany (P : rollback_row -> bool) (f : rollback_row -> rollback_row) : prog world Z :=
  db (fun w => (Ok (count_where P (w_rollbacks w)), set_rollbacks (update_where P f (w_rollbacks w)) w)).

(** [walletRollback.update({ where: { id }, data: f })] *)
Definition rollback_update (id : uuid) (f : rollback_row -> rollback_row) : prog world unit :=
  db (fun w => if List.existsb (fun r => N.eqb (rb_id r) id) (w_rollbacks w)
               then (Ok tt, set_rollbacks (update_where (fun r => N.eqb (rb_id r) id) f (w_rollbacks w)) w)
               else (Raise RecordNotFound, w)).

(** Rows are appended, so the list is in [createdAt] order. *)
Definition rollback_create (mk : uuid -> rollback_row) : prog world unit :=
  db (fun w => let r := mk (w_uuid w) in
               match find_rollback (rb_operatorId r, rb_dedupeKey r) w with
               | Some _ => (Raise UniqueViolation, w)
               | None => (Ok tt, bump_uuid (set_rollbacks (w_rollbacks w ++ [r]) w))
               end).

(** [p.catch(() => {})] *)
Definition ignore (p : prog world unit) : prog world unit := try_catch p (fun _ => mret tt).

Definition hasLiveLease (status : rb_status) (leaseUntil : option Z) (now : Z) : bool :=
  bool_decide (status = RbDraining) && match leaseUntil with Some t => now <? t | None => false end.

Definition acquireLease (id : uuid) (status : rb_status) (leaseUntil : option Z) : prog world bool :=
  now ← Date_now;
  n ← rollback_updateMany
        (fun r => N.eqb (rb_id r) id && bool_decide (rb_status_ r = status) &&
                  (if bool_decide (status = RbDraining) then opt_eqb (rb_leaseUntil r) leaseUntil else true))
        (rb_draining (now + DRAIN_LEASE_MS));
  mret (n =? 1).

Definition bumpAttempts (id : uuid) : prog world unit := ignore (rollback_update id rb_bumped).

Record ClaimResult := mk_claimed { alreadyConfirmed : bool; inFlight : bool }.

Definition is_confirmed (r : option rollback_row) : bool :=
  match r with Some r => bool_decide (rb_status_ r = RbConfirmed) | None => false end.

Definition claim_existing (ref : RollbackRef) (existing : rollback_row) : prog world ClaimResult :=
  if bool_decide (rb_status_ existing = RbConfirmed) then mret (mk_claimed true false)
  else
    now ← Date_now;
    if hasLiveLease (rb_status_ existing) (rb_leaseUntil existing) now then
      _ ← bumpAttempts (rb_id existing); mret (mk_claimed false true)
    else
      got ← acquireLease (rb_id existing) (rb_status_ existing) (rb_leaseUntil existing);
      if got : bool then mret (mk_claimed false false)
      else
        after ← db_get (find_rollback ref);
        _ ← bumpAttempts (rb_id existing);
        mret (mk_claimed (is_confirmed after) (negb (is_confirmed after))).

Definition claim_new (c : RollbackClaim) : prog world ClaimResult :=
  try_catch
    (now ← Date_now;
     _ ← rollback_create (fun id =>
           mk_rollback id (cl_operatorId c) (cl_playerId c) (cl_currency c) (cl_transactionId c)
             (ref_of c).2 (cl_reason c) (cl_betId c) (cl_amount c) RbDraining 0 None
             (Some (now + DRAIN_LEASE_MS)) None);
     mret (mk_claimed false false))
    (fun e => match e with
              | UniqueViolation =>
                  row ← db_get (find_rollback (ref_of c));
                  mret (mk_claimed (is_confirmed row) (negb (is_confirmed row)))
              | _ => raise e
              end).

Definition claim (c : RollbackClaim) : prog world ClaimResult :=
  try_catch
    (existing ← db_get (find_rollback (ref_of c));
     match existing with
     | Some r => claim_existing (ref_of c) r
     | None => claim_new c
     end)
    (fun _ => mret (mk_claimed false false)).

Definition confirm (ref : RollbackRef) : prog world unit :=
  ignore (now ← Date_now; _ ← rollback_updateMany (has_ref ref) (rb_confirmed now); mret tt).

Definition recordEmitFailure (ref : RollbackRef) (err : exn) : prog world unit :=
  ignore (_ ← rollback_updateMany (has_ref ref) (fun r => rb_failed err (rb_attempts r) r); mret tt).

(** The rows the drain still owes: pending, or draining past their lease. *)
Definition drainable (now : Z) (r : rollback_row) : bool :=
  match rb_status_ r with
  | RbPending => true
  | RbDraining => match rb_leaseUntil r with Some t => t <? now | None => true end
  | RbConfirmed => false
  end.

(** One row of the sweep; the count of rows confirmed so far. *)
Definition drain_row (confirmed : Z) (r : rollback_row) : prog world Z :=
  acquired ← try_catch (acquireLease (rb_id r) (rb_status_ r) (rb_leaseUntil r)) (fun _ => mret false);
  if acquired : bool then
    try_catch
      (_ ← op_invoke (OpRollback (rb_operatorId r) (rb_playerId r) (rb_currency r) (rb_transactionId r) (rb_betId r));
       _ ← confirm (rb_operatorId r, rb_dedupeKey r);
       mret (confirmed + 1))
      (fun err =>
         let attempts := rb_attempts r + 1 in
         _ ← ignore (rollback_update (rb_id r) (rb_failed err attempts));
         _ ← when (ROLLBACK_ATTEMPT_ALERT <=? attempts) (emit (EvLog "STUCK operator rollback"));
         mret confirmed)
  else mret confirmed.

Definition drainPending (operator : bool) (limit : nat) : prog world Z :=
  if negb operator then mret 0
  else
    rows ← try_catch
             (now ← Date_now;
              rs ← db_get (fun w => take limit (List.filter (drainable now) (w_rollbacks w)));
              mret (Some rs))
             (fun _ => mret None);
    match rows with
    | None => mret 0
    | Some rows => fold_each rows drain_row 0
    end.

Definition countPending : prog world Z :=
  db_get (fun w => count_where (fun r => bool_decide (rb_status_ r <> RbConfirmed)) (w_rollbacks w)).

(** ** Frames: the rollback ledger touches its own table and the calls only. *)
Section frame.
Context (R : world -> world -> Prop) `{!TableRel R}.
Context (Hrb : forall l w, R w (set_rollbacks l w)).

Lemma steps_rollback_updateMany P f : steps_in R (rollback_updateMany P f).
Proof using All. apply steps_db; [done|]. intros w. apply Hrb. Qed.
Lemma steps_rollback_update id f : steps_in R (rollback_update id f).
Proof using All. apply steps_db; [done|]. intros w. destruct (List.existsb _ _); cbn; [apply Hrb|reflexivity]. Qed.
Lemma steps_rollback_create mk : steps_in R (rollback_create mk).
Proof using All.
  apply steps_db; [done|]. intros w. cbv zeta. destruct (find_rollback _ w); cbn; [reflexivity|].
  etrans; [apply Hrb|]. apply table_env. frame.
Qed.
Lemma steps_ignore p : steps_in R p -> steps_in R (ignore p).
Proof using Type. intros Hp. apply steps_try; [done|]. intros; apply steps_ret. Qed.
#[local] Hint Resolve steps_rollback_updateMany steps_rollback_update steps_rollback_create : vr_steps.

Lemma steps_acquireLease id st lease : steps_in R (acquireLease id st lease).
Proof using All. unfold acquireLease. steps. Qed.
#[local] Hint Resolve steps_acquireLease : vr_steps.
Lemma steps_bumpAttempts id : steps_in R (bumpAttempts id).
Proof using All. apply steps_ignore. steps. Qed.
#[local] Hint Resolve steps_bumpAttempts : vr_steps.
Lemma steps_claim c : steps_in R (claim c).
Proof using All. unfold claim, claim_existing, claim_new. steps. Qed.
Lemma steps_confirm ref : steps_in R (confirm ref).
Proof using All. apply steps_ignore. steps. Qed.
Lemma steps_recordEmitFailure ref e : steps_in R (recordEmitFailure ref e).
Proof using All. apply steps_ignore. steps. Qed.
#[local] Hint Resolve steps_claim steps_confirm steps_recordEmitFailure : vr_steps.
Lemma steps_drainPending op limit : steps_in R (drainPending op limit).
Proof using All.
  unfold drainPending, drain_row. steps.
Qed.
End frame.
End Rollbacks.

(** ** The provider *)

Module Seamless.
Section wallet.
Context (resolveSession : uuid -> prog world OperatorSession).
Context (maxRetries : nat) (rollbackStore : bool).

Inductive move_kind := MoveBet | MoveWin.

Definition call_of (kind : move_kind) (s : OperatorSession) (amount : Z) (k : idem_key) (ref : option uuid) : op_call :=
  match kind with
  | MoveBet => OpBet (os_operatorId s) (os_playerId s) (os_currency s) amount k ref
  | MoveWin => OpWin (os_operatorId s) (os_playerId s) (os_currency s) amount k ref
  end.

Definition emit_rollback (s : OperatorSession) (k : idem_key) (ref : option uuid) : prog world op_answer :=
  op_invoke (OpRollback (os_operatorId s) (os_playerId s) (os_currency s) k ref).

Definition assertTxIdLength (k : idem_key) : prog world unit :=
  if Keys.txIdTooLong k then raise (JsError "operator transactionId too long") else mret tt.

Definition rollbackOnce (s : OperatorSession) (k : idem_key) (ref : option uuid) (reason : string)
    (propagate : bool) (amount : option Z) : prog world unit :=
  _ ← assertTxIdLength k;
  if negb rollbackStore then
    try_catch (_ ← emit_rollback s k ref; mret tt) (fun e => if propagate then raise e else mret tt)
  else
    let c := Rollbacks.mk_claim (os_operatorId s) (os_playerId s) (os_currency s) k reason ref amount in
    r ← Rollbacks.claim c;
    if Rollbacks.alreadyConfirmed r || Rollbacks.inFlight r then mret tt
    else
      try_catch
        (_ ← emit_rollback s k ref; Rollbacks.confirm (Rollbacks.ref_of c))
        (fun e => _ ← Rollbacks.recordEmitFailure (Rollbacks.ref_of c) e;
                  if propagate then raise e else mret tt).

Definition safeRollback (s : OperatorSession) (k : idem_key) (ref : option uuid) (reason : string) : prog world unit :=
  rollbackOnce s k ref reason false None.

(** The attempts left of [move]'s loop. *)
Fixpoint attempts (n : nat) (kind : move_kind) (s : OperatorSession) (amount : Z) (k : idem_key)
    (ref : option uuid) (lastErr : exn) : prog world WalletTxResult :=
  match n with
  | O => raise lastErr
  | S n =>
      try_catch
        (a ← op_invoke (call_of kind s amount k ref);
         mret {| tx_txId := TxOperator (oa_txId a); tx_balanceAfter := oa_balance a |})
        (fun e =>
           match kind with
           | MoveWin =>
               match n with
               | O => raise (BadRequest "payout_pending")
               | _ => attempts n kind s amount k ref e
               end
           | MoveBet =>
               match e with
               | OperatorInsufficientFunds => raise (BadRequest "insufficient_balance")
               | OperatorTimeout =>
                   _ ← safeRollback s k ref "ambiguous_debit"; raise (BadRequest "wallet_unavailable")
               | _ =>
                   match n with
                   | O => _ ← safeRollback s k ref "transient_debit"; raise (BadRequest "wallet_error")
                   | _ => attempts n kind s amount k ref e
                   end
               end
           end)
  end.

Definition move (kind : move_kind) (s : OperatorSession) (amount : Z) (k : idem_key) (ref : option uuid)
  : prog world WalletTxResult :=
  _ ← assertTxIdLength k;
  attempts maxRetries kind s amount k ref (JsError "undefined").

Definition debit (walletId : uuid) (amount : Z) (_ : ledger_type) (k : idem_key) (ref : option uuid)
  : prog world WalletTxResult :=
  s ← resolveSession walletId; move MoveBet s amount k ref.

Definition credit (walletId : uuid) (amount : Z) (_ : ledger_type) (k : idem_key) (ref : option uuid)
  : prog world WalletTxResult :=
  s ← resolveSession walletId; move MoveWin s amount k ref.

Definition rollback (walletId : uuid) (k : idem_key) (ref : option uuid) : prog world unit :=
  s ← resolveSession walletId; rollbackOnce s k ref "ambiguous_debit" false None.

Definition reverse (walletId : uuid) (p : ReverseParams) : prog world unit :=
  s ← resolveSession walletId;
  let reason := nullish (rp_intent p)
    (match rp_originalDirection p with OrigCredit => "void_reclaim" | OrigDebit => "void_refund" end%string) in
  rollbackOnce s (rp_originalKey p) (rp_ref p) reason true (Some (rp_amount p)).

Definition getBalance (walletId : uuid) : prog world Z :=
  s ← resolveSession walletId;
  a ← op_invoke (OpBalance (os_operatorId s) (os_playerId s) (os_currency s));
  mret (oa_balance a).

Definition SeamlessOperatorWallet : WalletProvider := {|
  wp_debit := debit; wp_credit := credit; wp_rollback := rollback;
  wp_reverse := reverse; wp_getBalance := getBalance
|}.

(** The laws of the interface. *)
Section laws.
Context (Hsess : forall id, steps_in still (resolveSession id)).

Lemma money_rollbacks l w : still w (set_rollbacks l w).
Proof using Type. by repeat split. Qed.

Lemma steps_rollbackOnce s k ref reason prop amount :
  steps_in still (rollbackOnce s k ref reason prop amount).
Proof using Type.
  pose proof (Rollbacks.steps_claim still money_rollbacks).
  pose proof (Rollbacks.steps_confirm still money_rollbacks).
  pose proof (Rollbacks.steps_recordEmitFailure still money_rollbacks).
  unfold rollbackOnce, assertTxIdLength, emit_rollback. steps.
Qed.

Lemma steps_attempts n kind s amount k ref e : steps_in still (attempts n kind s amount k ref e).
Proof using Type.
  pose proof steps_rollbackOnce. revert e; induction n as [|n IH]; intros e; cbn [attempts]; [apply steps_raise|].
  unfold safeRollback. steps.
Qed.

Lemma SeamlessOperatorWallet_laws : WalletLaws SeamlessOperatorWallet.
Proof using Hsess.
  pose proof steps_attempts. pose proof steps_rollbackOnce.
  split; intros; [apply (steps_mono _ still); [apply still_key_step|]..| |apply (steps_mono _ still); [apply still_key_step|]|]; cbn [wp_debit wp_credit wp_rollback wp_reverse wp_getBalance SeamlessOperatorWallet];
    unfold debit, credit, rollback, reverse, getBalance, move, assertTxIdLength; steps.
Qed.
End laws.

(** *** A win is paid or pending, never reversed *)

Definition win_call (s : OperatorSession) (amount : Z) (k : idem_key) (ref : option uuid) (b : bool) : op_call * bool :=
  (call_of MoveWin s amount k ref, b).

Lemma run_op_invoke c w :
  exists r, run (op_invoke c) w = (r, set_calls (tail (w_answers w)) ((c, op_accepted r) :: w_calls w) w).
Proof.
  unfold op_invoke. rewrite run_atom_res. destruct (w_answers w) as [|r rs]; [by exists (Raise OperatorTimeout)|by exists r].
Qed.

(** What [n] attempts at a win do. *)
Lemma attempts_win n s amount k ref e0 w :
  exists j r, (j <= n)%nat /\
    w_calls (run (attempts n MoveWin s amount k ref e0) w).2 =
      match r with Ok _ => [win_call s amount k ref true] | Raise _ => [] end ++
      replicate j (win_call s amount k ref false) ++ w_calls w /\
    tables_eq w (run (attempts n MoveWin s amount k ref e0) w).2 /\
    (run (attempts n MoveWin s amount k ref e0) w).1 = r /\
    (n <> O -> match r with Ok _ => (j < n)%nat | Raise e => e = BadRequest "payout_pending" /\ j = n end).
Proof.
  revert e0 w; induction n as [|n IH]; intros e0 w; cbn [attempts].
  { exists O, (Raise e0). by split_and!. }
  rewrite run_try, run_bind. destruct (run_op_invoke (call_of MoveWin s amount k ref) w) as [[a|e] ->]; cbn [op_accepted].
  - eexists O, (Ok _). cbn. split_and!; try done; intros; lia.
  - destruct n as [|n].
    { exists 1%nat, (Raise (BadRequest "payout_pending")). cbn. by split_and!. }
    destruct (IH e (set_calls (tail (w_answers w)) ((call_of MoveWin s amount k ref, false) :: w_calls w) w))
      as (j & r & Hj & Hc & Ht & Hr & Hn).
    exists (S j), r. split; [lia|]. split; [|split; [etrans; [|exact Ht]; by repeat split|split; [done|]]].
    + rewrite Hc. cbn [w_calls set_calls]. f_equal. cbn [replicate].
      change ((call_of MoveWin s amount k ref, false) :: w_calls w) with
        ([win_call s amount k ref false] ++ w_calls w).
      rewrite app_assoc, <- replicate_S_end. done.
    + intros _. specialize (Hn ltac:(done)). destruct r; [lia|]. destruct Hn as [-> ->]. done.
Qed.
End wallet.


Definition known_session (_ : uuid) : prog world OperatorSession := mret (mk_opsession 1%N "alice" "EUR").

(** Two timeouts, then the win is accepted. *)
Definition flaky_world : world :=
  set_calls [Raise OperatorTimeout; Raise OperatorTimeout; Ok (mk_answer "op-1" 1500)] [] empty_world.


(** *** One reversal, however many callers

    The callers of one logical reversal, live or the drain, under any
    interleaving; the clock stands still, so no lease expires, and the database
    answers. *)
Section once.
Context (T0 : Z) (ID : uuid).   (* the clock, and the identifier of the row *)
Context (s : OperatorSession) (k : idem_key) (ref : option uuid) (reason : string) (amount : option Z).
Context (Hlen : Keys.txIdTooLong k = false).

Definition the_call : op_call := OpRollback (os_operatorId s) (os_playerId s) (os_currency s) k ref.
Definition the_claim : Rollbacks.RollbackClaim :=
  Rollbacks.mk_claim (os_operatorId s) (os_playerId s) (os_currency s) k reason ref amount.
Definition the_ref : Rollbacks.RollbackRef := Rollbacks.ref_of the_claim.

(** How often the operator accepted the reversal. *)
Definition accepted (w : world) : nat :=
  length (List.filter (fun c => bool_decide (c = (the_call, true))) (w_calls w)).

(** Tokens of the owner of the lease: before and after the operator accepted. *)
Definition Emitting : gset bool := {[ true ]}.
Definition Accepted : gset bool := {[ false ]}.

Definition row_identity (r : rollback_row) : Prop :=
  rb_id r = ID /\ (rb_operatorId r, rb_dedupeKey r) = the_ref /\ rb_playerId r = os_playerId s /\
  rb_currency r = os_currency s /\ rb_transactionId r = k /\ rb_betId r = ref.

Definition live_lease (r : rollback_row) : Prop := exists t, rb_leaseUntil r = Some t /\ T0 < t.

Definition row_state (r : rollback_row) (own : gset bool) (n : nat) : Prop :=
  match rb_status_ r with
  | RbPending => own = ∅ /\ n = 0%nat
  | RbConfirmed => own = ∅ /\ n = 1%nat
  | RbDraining => live_lease r /\ (own = Emitting /\ n = 0%nat \/ own = Accepted /\ n = 1%nat)
  end.

Definition I (w : world) (own : gset bool) : Prop :=
  w_now w = T0 /\ w_faults w = [] /\
  (w_rollbacks w = [] /\ w_uuid w = ID /\ own = ∅ /\ accepted w = 0%nat \/
   exists r, w_rollbacks w = [r] /\ row_identity r /\ row_state r own (accepted w)).

Lemma safe_db {A} o (f : world -> res A * world) Q :
  (forall w F, o ## F -> I w (o ∪ F) ->
     exists o', o' ## F /\ I (f w).2 (o' ∪ F) /\ Q o' (f w).1) -> safe I o (db f) Q.
Proof.
  intros H w F Hd HI. unfold db_step. destruct HI as (Hn & Hf & HI). rewrite Hf. by apply H.
Qed.

Lemma safe_db_get {A} o (f : world -> A) Q :
  (forall w F, I w (o ∪ F) -> Q o (Ok (f w))) -> safe I o (db_get f) Q.
Proof. intros H. apply safe_db. intros w F Hd HI. exists o. split; [done|]. split; [done|]. by eapply H. Qed.

Lemma safe_now o Q : Q o (Ok T0) -> safe I o Date_now Q.
Proof. intros H. apply safe_gets. by intros w F (-> & _). Qed.

Lemma identity_with r st lease err n res :
  row_identity r -> row_identity (Rollbacks.rb_with r st lease err n res).
Proof. done. Qed.

Lemma has_the_ref r : row_identity r -> Rollbacks.has_ref the_ref r = true.
Proof. intros (_ & H & _). unfold Rollbacks.has_ref. by apply bool_decide_eq_true. Qed.

(** Replacing the row by another state of it. *)
Lemma I_row w r own n :
  w_now w = T0 -> w_faults w = [] -> row_identity r -> row_state r own n -> accepted w = n ->
  I (set_rollbacks [r] w) own.
Proof. intros ? ? ? Hs <-. split; [done|]. split; [done|]. right. exists r. by split_and!. Qed.

(** A bookkeeping write on the row keeps the invariant. *)
Lemma safe_bump o id (Q : gset bool -> res unit -> Prop) :
  Q o (Ok tt) -> safe I o (Rollbacks.bumpAttempts id) Q.
Proof.
  intros HQ. apply safe_try, safe_db. intros w F Hd HI. exists o. split; [done|].
  pose proof HI as (Hn & Hf & [(Hr & _)|(r & Hr & Hi & Hs)]); rewrite Hr; cbn; [by split|].
  destruct (N.eqb (rb_id r) id) eqn:E; cbn; [|by split].
  split; [|done]. by apply (I_row w (Rollbacks.rb_bumped r) (o ∪ F) (accepted w)).
Qed.

Lemma safe_acquire lease :
  safe I ∅ (Rollbacks.acquireLease ID RbPending lease)
    (fun o r => match r with Ok true => o = Emitting | Ok false => o = ∅ | Raise _ => False end).
Proof.
  apply safe_bind, safe_now, safe_bind, safe_db. intros w F Hd HI.
  pose proof HI as (Hn & Hf & [(Hr & _)|(r & Hr & Hi & Hs)]); rewrite Hr.
  { exists ∅. cbn. split; [done|]. split; [|done]. destruct w; cbn in *; by subst. }
  pose proof Hi as (Hid & _). unfold Rollbacks.count_where, Rollbacks.update_where.
  cbn [List.filter List.map]. rewrite !Hid, !N.eqb_refl. cbn [andb].
  rewrite (bool_decide_eq_false_2 (RbPending = RbDraining)) by done. rewrite !andb_true_r.
  destruct (bool_decide_reflect (rb_status_ r = RbPending)) as [Hst|Hst].
  - unfold row_state in Hs. rewrite Hst in Hs. destruct Hs as [Ho Ha].
    assert (F = ∅) as -> by set_solver. exists Emitting. split; [set_solver|]. split; [|done].
    apply (I_row w (Rollbacks.rb_draining (T0 + Rollbacks.DRAIN_LEASE_MS) r) _ 0%nat); try done.
    split; [eexists; split; [done|unfold Rollbacks.DRAIN_LEASE_MS; lia]|]. left. split; [set_solver|done].
  - exists ∅. split; [done|]. split; [|done]. rewrite <- Hr. by destruct w.
Qed.

(** What a claim leaves its caller owning. *)
Definition claimed (o : gset bool) (r : res Rollbacks.ClaimResult) : Prop :=
  match r with
  | Ok c => o = if Rollbacks.alreadyConfirmed c || Rollbacks.inFlight c then ∅ else Emitting
  | Raise _ => False
  end.

Lemma claimed_flags b : claimed ∅ (Ok (Rollbacks.mk_claimed b (negb b))).
Proof. by destruct b. Qed.

(** A row as some thread read it: of this reversal, and leased if draining. *)
Definition snapshot (r : rollback_row) : Prop :=
  row_identity r /\ (rb_status_ r = RbDraining -> live_lease r).

Lemma I_find w own : I w own ->
  match Rollbacks.find_rollback the_ref w with Some r => w_rollbacks w = [r] /\ snapshot r | None => w_rollbacks w = [] end.
Proof.
  intros (_ & _ & [(Hr & _)|(r & Hr & Hi & Hs)]); unfold Rollbacks.find_rollback; rewrite Hr; [done|].
  cbn. rewrite (has_the_ref r Hi). split; [done|]. split; [done|]. intros Hst. unfold row_state in Hs.
  rewrite Hst in Hs. apply Hs.
Qed.

Lemma safe_claim_existing r : snapshot r -> safe I ∅ (Rollbacks.claim_existing the_ref r) claimed.
Proof.
  intros [(Hid & _) Hl]. unfold Rollbacks.claim_existing.
  destruct (rb_status_ r) eqn:Hst; rewrite ?bool_decide_eq_true_2 by done; rewrite ?bool_decide_eq_false_2 by done; [| |done].
  - apply safe_bind, safe_now. unfold Rollbacks.hasLiveLease. rewrite bool_decide_eq_false_2 by done. cbn [andb].
    apply safe_bind. rewrite Hid. eapply safe_weaken; [apply safe_acquire|].
    intros o [[|]|e]; [by intros ->|intros ->|done].
    apply safe_bind, safe_db_get. intros w F HI. apply safe_bind, safe_bump. apply claimed_flags.
  - apply safe_bind, safe_now. destruct (Hl eq_refl) as (t & -> & Ht).
    unfold Rollbacks.hasLiveLease. rewrite bool_decide_eq_true_2 by done.
    destruct (Z.ltb_spec T0 t); [|lia]. cbn [andb]. apply safe_bind, safe_bump. done.
Qed.

Lemma safe_claim_new : safe I ∅ (Rollbacks.claim_new the_claim) claimed.
Proof.
  apply safe_try, safe_bind, safe_now, safe_bind, safe_db. intros w F Hd HI.
  pose proof (I_find _ _ HI) as Hfind. cbv zeta.
  change (rb_operatorId _, rb_dedupeKey _) with the_ref.
  destruct (Rollbacks.find_rollback the_ref w) as [r|].
  - exists ∅. split; [done|]. split; [done|].
    change (safe I ∅ (row ← db_get (Rollbacks.find_rollback the_ref);
      mret (Rollbacks.mk_claimed (Rollbacks.is_confirmed row) (negb (Rollbacks.is_confirmed row)))) claimed).
    apply safe_bind, safe_db_get. intros w' F' HI'.
    apply claimed_flags.
  - pose proof HI as (Hn & Hf & [(Hr & Hu & Ho & Ha)|(r & Hr & _)]); [|congruence].
    assert (F = ∅) as -> by set_solver. exists Emitting. split; [set_solver|]. rewrite Hr. cbn.
    split; [|done]. split; [done|]. split; [done|]. right. eexists. split; [reflexivity|].
    split; [by rewrite Hu|]. split; [eexists; split; [done|unfold Rollbacks.DRAIN_LEASE_MS; lia]|].
    left. split; [set_solver|done].
Qed.

Lemma safe_claim : safe I ∅ (Rollbacks.claim the_claim) claimed.
Proof.
  apply safe_try, safe_bind, safe_db_get. intros w F HI. pose proof (I_find _ _ HI) as Hf.
  fold the_ref. destruct (Rollbacks.find_rollback the_ref w) as [r|]; eapply safe_weaken;
    [apply safe_claim_existing, Hf| |apply safe_claim_new|]; by intros o [c|e].
Qed.

Lemma token_alone (own F : gset bool) : own ## F -> own ∪ F = own -> F = ∅.
Proof. set_solver. Qed.
Lemma token_ne (b b' : bool) (F : gset bool) : b <> b' -> ({[ b ]} : gset bool) ∪ F <> {[ b' ]}.
Proof. intros Hb H. assert (b ∈ ({[ b' ]} : gset bool)) by (rewrite <- H; set_solver). set_solver. Qed.

Lemma owner_state w F own : own <> ∅ -> I w (own ∪ F) ->
  exists r, w_rollbacks w = [r] /\ row_identity r /\ rb_status_ r = RbDraining /\ live_lease r /\
    (own ∪ F = Emitting /\ accepted w = 0%nat \/ own ∪ F = Accepted /\ accepted w = 1%nat).
Proof.
  intros Hne (_ & _ & [(_ & _ & Ho & _)|(r & Hr & Hi & Hs)]); [set_solver|].
  exists r. unfold row_state in Hs. destruct (rb_status_ r); [set_solver|by destruct Hs|set_solver].
Qed.

Lemma safe_emit :
  safe I Emitting (op_invoke the_call)
    (fun o r => match r with Ok _ => o = Accepted | Raise _ => o = Emitting end).
Proof.
  intros w F Hd HI. pose proof HI as (Hn & Hf & _).
  destruct (owner_state w F Emitting) as (r & Hr & Hi & Hst & Hl & [[Ho Ha]|[Ho _]]);
    [done|done| |by apply token_ne in Ho].
  apply token_alone in Ho as ->; [|done].
  assert (Hacc : forall rs c b, accepted (set_calls rs ((c, b) :: w_calls w) w) =
    ((if bool_decide ((c, b) = (the_call, true)) then 1 else 0) + accepted w)%nat).
  { intros rs c b. unfold accepted. cbn. by destruct (bool_decide _). }
  assert (HI' : forall rs b, I (set_calls rs ((the_call, b) :: w_calls w) w)
                              ((if b then Accepted else Emitting) ∪ ∅)).
  { intros rs b. split; [done|]. split; [done|]. right. exists r. split; [done|]. split; [done|].
    rewrite Hacc, Ha. unfold row_state. rewrite Hst. split; [done|]. destruct b.
    - right. rewrite bool_decide_eq_true_2 by done. split; [set_solver|done].
    - left. rewrite bool_decide_eq_false_2 by done. split; [set_solver|done]. }
  destruct (w_answers w) as [|[a|e] rs]; cbn; [exists Emitting|exists Accepted|exists Emitting];
    (split; [set_solver|]); (split; [|done]); [apply (HI' _ false)|apply (HI' _ true)|apply (HI' _ false)].
Qed.

(** The owner's last write gives the lease up. *)
Lemma safe_release own (P : rollback_row -> bool) f n :
  own = Emitting /\ n = 0%nat \/ own = Accepted /\ n = 1%nat ->
  (forall r, row_identity r -> P r = true) ->
  (forall r, row_identity r -> row_identity (f r) /\ row_state (f r) ∅ n) ->
  safe I own (Rollbacks.rollback_updateMany P f) (fun o r => o = ∅ /\ exists c, r = Ok c).
Proof.
  intros Hown HP Hf. apply safe_db. intros w F Hd HI. pose proof HI as (Hn & Hfl & _).
  destruct (owner_state w F own) as (r & Hr & Hi & Hst & Hl & Ho);
    [by destruct Hown as [[-> _]|[-> _]]|done|].
  assert (F = ∅ /\ accepted w = n) as [-> Ha].
  { destruct Hown as [[-> ->]|[-> ->]], Ho as [[Ho ->]|[Ho ->]]; try (by apply token_ne in Ho);
      apply token_alone in Ho; done. }
  exists ∅. split; [set_solver|]. rewrite Hr. cbn. rewrite (HP r Hi).
  split; [|split; [done|by eexists]]. rewrite (left_id_L ∅ (∪)). destruct (Hf r Hi). by apply (I_row w (f r) ∅ n).
Qed.

Lemma safe_confirm : safe I Accepted (Rollbacks.confirm the_ref) (fun o r => o = ∅ /\ r = Ok tt).
Proof.
  apply safe_try, safe_bind, safe_now, safe_bind. eapply safe_weaken.
  - apply (safe_release Accepted _ _ 1%nat); [by right|apply has_the_ref|]. intros r Hi. by split.
  - by intros o r [-> [c ->]].
Qed.

Lemma safe_emitFailure err :
  safe I Emitting (Rollbacks.recordEmitFailure the_ref err) (fun o r => o = ∅ /\ r = Ok tt).
Proof.
  apply safe_try, safe_bind. eapply safe_weaken.
  - apply (safe_release Emitting _ _ 0%nat); [by left|apply has_the_ref|]. intros r Hi. by split.
  - by intros o r [-> [c ->]].
Qed.

Lemma safe_rollbackOnce propagate :
  safe I ∅ (rollbackOnce true s k ref reason propagate amount) (fun o _ => o = ∅).
Proof.
  unfold rollbackOnce, assertTxIdLength. rewrite Hlen. cbn [negb]. apply safe_bind.
  change (mret tt) with (Done (S := world) (Ok tt)). cbn [safe]. cbv zeta. fold the_claim. apply safe_bind.
  eapply safe_weaken; [apply safe_claim|]. intros o [c|e]; [|done]. cbn [claimed]. intros ->.
  destruct (_ || _); [done|]. apply safe_try, safe_bind. eapply safe_weaken; [apply safe_emit|].
  intros o [a|e] ->.
  - eapply safe_weaken; [apply safe_confirm|]. by intros o r [-> ->].
  - apply safe_bind. eapply safe_weaken; [apply safe_emitFailure|]. intros o r [-> ->].
    by destruct propagate.
Qed.

Lemma safe_drain_row n r :
  snapshot r -> rb_status_ r = RbPending ->
  safe I ∅ (Rollbacks.drain_row n r) (fun o r => o = ∅ /\ exists c, r = Ok c).
Proof.
  intros [(Hid & Href & Hp & Hc & Ht & Hb) _] Hst. unfold Rollbacks.drain_row.
  apply safe_bind, safe_try. rewrite Hid, Hst. eapply safe_weaken; [apply safe_acquire|].
  intros o [[|]|e]; [|intros ->; split; [done|by eexists]|done]. intros ->. apply safe_try.
  assert (Hcall : OpRollback (rb_operatorId r) (rb_playerId r) (rb_currency r) (rb_transactionId r) (rb_betId r)
    = the_call) by (unfold the_call, the_ref, Rollbacks.ref_of in *; cbn in *; congruence).
  rewrite Hcall, Href. apply safe_bind. eapply safe_weaken; [apply safe_emit|]. intros o [a|e] ->.
  - apply safe_bind. eapply safe_weaken; [apply safe_confirm|]. intros o r' [-> ->]. split; [done|by eexists].
  - cbv zeta. apply safe_bind, safe_try. unfold Rollbacks.rollback_update.
    eapply (safe_weaken _ _ _ (fun o r => o = ∅ /\ exists c, r = Ok c)).
    + apply safe_db. intros w F Hd HI. pose proof HI as (Hn & Hfl & _).
      destruct (owner_state w F Emitting) as (r' & Hr & Hi & _ & _ & [[Ho Ha]|[Ho _]]);
        [done|done| |by apply token_ne in Ho]. apply token_alone in Ho as ->; [|done].
      pose proof Hi as (Hid' & _). exists ∅. split; [done|]. rewrite Hr. unfold Rollbacks.update_where.
      cbn [List.existsb List.map]. rewrite Hid', N.eqb_refl. cbn [orb fst snd].
      split; [|split; [done|by eexists]]. by apply (I_row w (Rollbacks.rb_failed e (rb_attempts r + 1) r') _ 0%nat).
    + intros o r' [-> [[] ->]]. apply safe_bind. destruct (_ <=? _); cbn [when]; [|split; [done|by eexists]].
      intros w F Hd HI. exists ∅. split; [done|]. split; [|split; [done|by eexists]].
      destruct HI as (? & ? & HI). split; [done|]. split; [done|]. exact HI.
Qed.

Lemma safe_drain limit : safe I ∅ (Rollbacks.drainPending true limit) (fun o _ => o = ∅).
Proof.
  unfold Rollbacks.drainPending. cbn [negb]. apply safe_bind, safe_try, safe_bind, safe_now, safe_bind, safe_db_get.
  intros w F HI. cbn.
  assert (Hrows : forall r, r ∈ take limit (List.filter (Rollbacks.drainable T0) (w_rollbacks w)) ->
    snapshot r /\ rb_status_ r = RbPending).
  { intros r Hr%take_subset. rewrite list_elem_of_In, filter_In, <- list_elem_of_In in Hr.
    destruct Hr as [Hin Hd]. destruct HI as (_ & _ & [(Hr & _)|(r' & Hr & Hi & Hs)]); rewrite Hr in Hin.
    { by apply elem_of_nil in Hin. } apply list_elem_of_singleton in Hin as ->.
    unfold row_state, Rollbacks.drainable in *. destruct (rb_status_ r') eqn:Hst; [|exfalso|done].
    - split; [|done]. split; [done|]. by rewrite Hst.
    - destruct Hs as [(t & Hl & Ht) _]. rewrite Hl in Hd. lia. }
  apply safe_fold_each; [done|]. intros r n Hr. destruct (Hrows r Hr) as [Hsn Hst].
  eapply safe_weaken; [by apply safe_drain_row|]. by intros o r' [-> [c ->]].
Qed.
End once.

(** The callers of one reversal: live ones, propagating or not, and drain passes. *)
Definition reversal_pool s k ref reason amount (props : list bool) (drains limit : nat) : list (prog world unit) :=
  ((fun p => rollbackOnce true s k ref reason p amount) <$> props) ++
  replicate drains (forget (Rollbacks.drainPending true limit)).

(** C7: One reversal, at most once.  Any number of live callers of the same
    logical reversal and any number of drain passes, interleaved at every await:
    as long as no lease expires and the database answers, the operator accepts
    the reversal at most once, whatever it answers and in whatever order, and
    once it has, the row is never offered to the drain again. *)
Theorem reversal_accepted_once s k ref reason amount (props : list bool) (drains limit : nat) w w' ps'
  (Hk : Keys.txIdTooLong k = false) (Hf : w_faults w = []) (Hrb : w_rollbacks w = [])
  (Hacc : accepted s k ref w = 0%nat) :
  pool_steps w (reversal_pool s k ref reason amount props drains limit) w' ps' ->
  (accepted s k ref w' <= 1)%nat /\
  (accepted s k ref w' = 1%nat -> forall r, r ∈ w_rollbacks w' -> rb_status_ r <> RbPending).
Proof.
  intros Hsteps. set (J := I (w_now w) (w_uuid w) s k ref reason amount).
  assert (Hok : Forall (fun p => safe J ∅ p (fun _ _ => True)) (reversal_pool s k ref reason amount props drains limit)).
  { unfold reversal_pool.
    apply Forall_app. split.
    - apply Forall_fmap, Forall_true. intros p. eapply safe_weaken; [by apply safe_rollbackOnce|done].
    - apply Forall_replicate, safe_forget. eapply safe_weaken; [by apply safe_drain|done].
  }
  destruct (pool_safe J _ _ _ _ Hsteps Hok) as (own & HJ).
  { split; [done|]. split; [done|]. left. by split_and!. }
  destruct HJ as (_ & _ & [(Hr & _ & _ & Ha)|(r & Hr & _ & Hs)]).
  - rewrite Ha, Hr. split; [lia|done].
  - unfold row_state in Hs. rewrite Hr.
    destruct (rb_status_ r) eqn:Hst; destruct_and?; destruct_or?; destruct_and?;
      (split; [lia|]); try lia; intros _ x ->%list_elem_of_singleton; congruence.
Qed.

Definition alice : OperatorSession := mk_opsession 1%N "alice" "EUR".
Definition two_answers : world := set_calls [Ok (mk_answer "r1" 0); Ok (mk_answer "r2" 0)] [] empty_world.
Definition alice_pool : list (prog world unit) :=
  reversal_pool alice (KPayout 9%N) (Some 9%N) "void_reclaim" (Some 500) [true; true] 1 50.
Definition alice_schedule : list nat := [0; 1; 2; 0; 1; 1; 0; 1; 1; 2; 2; 0; 0; 1; 2; 2; 0; 0; 1; 1; 2; 0; 2]%nat.

Lemma reversal_accepted_once_witness :
  exists w' ps', pool_steps two_answers alice_pool w' ps' /\
    accepted alice (KPayout 9%N) (Some 9%N) w' = 1%nat /\
    (accepted alice (KPayout 9%N) (Some 9%N) w' <= 1)%nat /\
    (accepted alice (KPayout 9%N) (Some 9%N) w' = 1%nat ->
       forall r, r ∈ w_rollbacks w' -> rb_status_ r <> RbPending).
Proof.
  pose (r := schedule_pool alice_schedule two_answers alice_pool). exists r.1, r.2.
  pose proof (schedule_pool_steps alice_schedule two_answers alice_pool
    : pool_steps two_answers alice_pool r.1 r.2) as H.
  split; [exact H|]. split; [vm_compute; reflexivity|].
  apply (reversal_accepted_once alice (KPayout 9%N) (Some 9%N) "void_reclaim" (Some 500) [true; true] 1 50
    two_answers r.1 r.2); [vm_compute; reflexivity|reflexivity|reflexivity|vm_compute; reflexivity|exact H].
Defined.

(** The passing of time, as one more thread. *)
Definition clock (t : Z) : prog world unit := atom (fun w => (tt, set_now t w)).

(** Past its lease a reversal can be applied twice.  [recordEmitFailure] (and
    the failure branch of the drain) write `pending` without checking who owns
    the row: a live caller that stalls between its claim and its answer for
    longer than the lease lets a drain pass reclaim, emit and confirm the
    reversal, then its own late timeout moves the confirmed row back to pending,
    and the next pass emits the reversal a second time. *)
Theorem stale_failure_reopens_confirmed :
  exists sched w' ps',
    pool_steps (set_calls [Ok (mk_answer "r1" 0); Raise OperatorTimeout; Ok (mk_answer "r2" 0)] [] empty_world)
      [rollbackOnce true alice (KPayout 9%N) (Some 9%N) "void_reclaim" true (Some 500);
       clock 60001; forget (Rollbacks.drainPending true 50); forget (Rollbacks.drainPending true 50)] w' ps' /\
    (w', ps') = schedule_pool sched
      (set_calls [Ok (mk_answer "r1" 0); Raise OperatorTimeout; Ok (mk_answer "r2" 0)] [] empty_world)
      [rollbackOnce true alice (KPayout 9%N) (Some 9%N) "void_reclaim" true (Some 500);
       clock 60001; forget (Rollbacks.drainPending true 50); forget (Rollbacks.drainPending true 50)] /\
    accepted alice (KPayout 9%N) (Some 9%N) w' = 2%nat.
Proof.
  set (w := set_calls _ _ _). set (ps := [_; _; _; _]).
  pose (sched := ([0; 0; 0; 1] ++ replicate 8 2 ++ replicate 4 0 ++ replicate 8 3)%nat).
  pose (r := schedule_pool sched w ps). exists sched, r.1, r.2.
  split; [exact (schedule_pool_steps sched w ps)|].
  split; [unfold r; by destruct (schedule_pool sched w ps)|]. vm_compute. reflexivity.
Qed.
End Seamless.
