(* ===== verification/HttpWallet.v ===== *)
(** * The operator wallet over HTTP

    [wallet/http-operator-wallet.ts], the transport behind the calls the
    seamless wallet makes, with the endpoint lookup of [wallet/wallet.module.ts]
    and the request shapes of [wallet/operator-wallet.types.ts].  What the
    network does with a request is an element of a stream ([wire]): how long the
    headers take, how long the body takes, and what they say.
    Proved: each outcome of a request raises exactly its error of the contract;
    a call over the wire is one step of the abstract operator the wallet is
    proved against; the cached endpoint is at most its lifetime old. *)

From Stdlib Require Import QArith.
From S2P Require Import Prelude Effects Js Money Schema Wallet Keys OperatorWallet.

Open Scope Z_scope.

Record OperatorEndpoint := mk_endpoint { walletApiUrl : string; walletApiKey : option string }.

(** What comes back for one request: the headers, or an error of the network,
    after [wi_headersMs]; the body, [None] when it cannot be read as JSON, after
    [wi_bodyMs] more. *)
Inductive outcome := NetworkError | Response (status : Z) (body : option json).
Record wire := mk_wire { wi_headersMs : Z; wi_bodyMs : Z; wi_outcome : outcome }.

(** A request as it leaves: its address, its bearer and its body. *)
Record request := mk_request { rq_url : string; rq_authorization : option string; rq_body : json }.

(** The client's surroundings and its cache of endpoints. *)
Record hnode := mk_hnode {
  hn_world : world;
  hn_cache : list (string * (OperatorEndpoint * Z));
  hn_wires : list wire;
  hn_requests : list request;
  hn_waited : list Z
}.

Module Http.

(** The programs of a service, run where the client runs. *)
Fixpoint hserve {A} (p : prog world A) : prog hnode A :=
  match p with
  | Done r => Done r
  | Act f k => Act (fun n => let xw := f (hn_world n) in
      (fst xw, mk_hnode (snd xw) (hn_cache n) (hn_wires n) (hn_requests n) (hn_waited n))) (fun x => hserve (k x))
  end.

Lemma run_hserve {A} (p : prog world A) n :
  run (hserve p) n = ((run p (hn_world n)).1, mk_hnode (run p (hn_world n)).2 (hn_cache n) (hn_wires n) (hn_requests n) (hn_waited n)).
Proof.
  destruct n as [w c ws rq wt]. cbn [hn_world hn_cache hn_wires hn_requests hn_waited]. revert w.
  induction p as [r|X f k IH]; intros w; [done|]. cbn. apply IH.
Qed.

(** ** Addresses *)

Definition is_slash (a : ascii) : bool := code a =? 47.

Definition joinUrl (base path : string) : string :=
  (drop_end is_slash base +:+ "/" +:+ drop_while is_slash path)%string.

(** ** The timeout *)

(** [opts.timeoutMs ?? Number(process.env.OPERATOR_WALLET_TIMEOUT_MS ?? 3000)] *)
Definition timeoutMs (opts_timeoutMs : option jsnum) (env : option string) : jsnum :=
  match opts_timeoutMs with
  | Some t => t
  | None => match env with Some s => js_Number s | None => js_int 3000 end
  end.

(** The delay of [setTimeout]: a whole number of 1 to 2^31 - 1 milliseconds; any
    other is 1. *)
Definition timer_delay (t : jsnum) : Z :=
  match t with
  | Fin q => if js_ge t 1 && js_le t 2147483647 then Qfloor_Z q else 1
  | _ => 1
  end.

(** ** Errors *)

(** The [error] of a body, when it is a text. *)
Definition safeErrorCode (body : option json) : option string :=
  match body with
  | Some (JObj o) => match assoc_last "error" o with Some (JStr s) => Some s | _ => None end
  | _ => None
  end.

(** What [fetch] gives: our abort, its exception, or a response. *)
Inductive fetched := Aborted | Threw | Got (status : Z) (body : option json).

Definition fetch_result (delay : Z) (w : wire) : fetched :=
  if delay <=? wi_headersMs w then Aborted
  else match wi_outcome w with NetworkError => Threw | Response st b => Got st b end.

(** The timer is cleared once the headers are in. *)
Definition waited (delay : Z) (w : wire) : Z :=
  if delay <=? wi_headersMs w then delay
  else match wi_outcome w with NetworkError => wi_headersMs w | Response _ _ => wi_headersMs w + wi_bodyMs w end.

(** From the fetch to the parsed body, or to the error of the contract. *)
Definition read_response (f : fetched) : res json :=
  match f with
  | Aborted => Raise OperatorTimeout
  | Threw => Raise (OperatorError "operator_network_error")
  | Got st body =>
      if (200 <=? st) && (st <=? 299)
      then match body with Some j => Ok j | None => Raise (OperatorError "operator_bad_response") end
      else if (st =? 402) || (st =? 409) || opt_eqb (safeErrorCode body) (Some "insufficient_funds"%string)
      then Raise OperatorInsufficientFunds
      else if (st =? 408) || (st =? 504) then Raise OperatorTimeout
      else Raise (OperatorError ("operator_http_" +:+ BigInt_toString st))
  end.

Section client.
Context (timeout : jsnum).

(** ** The endpoint of an operator *)

Definition fetch_endpoint (operatorId : uuid) : prog world OperatorEndpoint :=
  db (fun w => match w_operators w !! operatorId with
               | Some op => (Ok (mk_endpoint (nullish (o_walletApiUrl op) EmptyString) (o_walletApiKey op)), w)
               | None => (Raise RecordNotFound, w)
               end).

Definition TTL_MS : Z := 30000.

Definition cached (key : string) (n : hnode) : option OperatorEndpoint :=
  match amap_get key (hn_cache n) with
  | Some (ep, exp) => if w_now (hn_world n) <? exp then Some ep else None
  | None => None
  end.

Definition set_cache (c : list (string * (OperatorEndpoint * Z))) (n : hnode) : hnode :=
  mk_hnode (hn_world n) c (hn_wires n) (hn_requests n) (hn_waited n).

(** The clock is read before the lookup, and the entry lives from then. *)
Definition resolveEndpoint (operatorId : uuid) : prog hnode OperatorEndpoint :=
  let key := Keys.uuid_string operatorId in
  hit ← gets (fun n => (w_now (hn_world n), cached key n));
  match hit with
  | (_, Some ep) => mret ep
  | (now, None) =>
      ep ← hserve (fetch_endpoint operatorId);
      _ ← atom (fun n => (tt, set_cache (amap_set key (ep, now + TTL_MS) (hn_cache n)) n));
      mret ep
  end.

(** ** One request *)

(** Send it; the next outcome of the network, or none, which is our timeout. *)
Definition fetch (r : request) : prog hnode fetched :=
  let delay := timer_delay timeout in
  atom (fun n => match hn_wires n with
    | w :: ws => (fetch_result delay w, mk_hnode (hn_world n) (hn_cache n) ws (r :: hn_requests n) (waited delay w :: hn_waited n))
    | [] => (Aborted, mk_hnode (hn_world n) (hn_cache n) [] (r :: hn_requests n) (delay :: hn_waited n))
    end).

Definition authorization (key : option string) : option string :=
  match key with Some k => if nonempty k then Some ("Bearer " +:+ k)%string else None | None => None end.

Definition post (operatorId : uuid) (path : string) (body : json) : prog hnode json :=
  ep ← resolveEndpoint operatorId;
  if negb (nonempty (walletApiUrl ep)) then raise (OperatorError "operator_wallet_not_configured")
  else
    f ← fetch (mk_request (joinUrl (walletApiUrl ep) path) (authorization (walletApiKey ep)) body);
    Done (read_response f).

(** ** The calls *)

(** [res.k]; null has no properties. *)
Definition property (res : json) (k : string) : prog hnode (option json) :=
  match res with
  | JNull => raise (JsError "TypeError")
  | JObj o => mret (assoc_last k o)
  | _ => mret None
  end.

Record OperatorWalletResponse := mk_response { or_operatorTxId : option json; or_balance : option json }.

Definition move (operatorId : uuid) (path : string) (body : json) : prog hnode OperatorWalletResponse :=
  res ← post operatorId path body;
  txId ← property res "operatorTxId";
  balance ← property res "balance";
  mret (mk_response txId balance).

Definition balance (operatorId : uuid) (playerId currency : string) : prog hnode (option json) :=
  res ← post operatorId "balance" (JObj [("playerId", JStr playerId); ("currency", JStr currency)]%string);
  property res "balance".

Definition bet_ref (betId : option uuid) : string :=
  match betId with Some b => Keys.uuid_string b | None => EmptyString end.

(** [OperatorBetRequest] and [OperatorWinRequest]. *)
Definition move_body (player ccy : string) (amount : Z) (tx : idem_key) (betId : option uuid) : json :=
  JObj [("playerId", JStr player); ("currency", JStr ccy); ("amount", JStr (BigInt_toString amount));
        ("transactionId", JStr (Keys.render tx)); ("roundId", JStr ""); ("betId", JStr (bet_ref betId))]%string.

(** [OperatorRollbackRequest] *)
Definition rollback_body (player ccy : string) (tx : idem_key) (betId : option uuid) : json :=
  JObj [("playerId", JStr player); ("currency", JStr ccy); ("transactionId", JStr (Keys.render tx));
        ("roundId", JStr ""); ("betId", JStr (bet_ref betId))]%string.

(** [BigInt(res.balance)], as the wallet reads it. *)
Definition read_balance (b : option json) : prog hnode Z :=
  match b ≫= json_BigInt with Some z => mret z | None => raise (JsError "BigInt") end.

(** A call of the seamless wallet, over the wire; the answer to a rollback is
    not looked at. *)
Definition invoke (c : op_call) : prog hnode op_answer :=
  let text v := match v with Some (JStr s) => s | _ => EmptyString end in
  match c with
  | OpBalance op player ccy => b ← balance op player ccy; z ← read_balance b; mret (mk_answer EmptyString z)
  | OpBet op player ccy amount tx betId =>
      r ← move op "bet" (move_body player ccy amount tx betId); z ← read_balance (or_balance r);
      mret (mk_answer (text (or_operatorTxId r)) z)
  | OpWin op player ccy amount tx betId =>
      r ← move op "win" (move_body player ccy amount tx betId); z ← read_balance (or_balance r);
      mret (mk_answer (text (or_operatorTxId r)) z)
  | OpRollback op player ccy tx betId =>
      r ← move op "rollback" (rollback_body player ccy tx betId);
      mret (mk_answer (text (or_operatorTxId r)) (nullish (or_balance r ≫= json_BigInt) 0))
  end.
End client.

(** ** What the transport guarantees *)

Section safety.
Context (timeout : jsnum).

(** The operator's endpoint is in the cache, alive, with an address. *)
Definition ready (op : uuid) (n : hnode) : Prop :=
  exists ep, cached (Keys.uuid_string op) n = Some ep /\ nonempty (walletApiUrl ep) = true.

(** The next outcome of the network; with none left, nothing ever comes. *)
Definition next_fetched (n : hnode) : fetched :=
  match hn_wires n with w :: _ => fetch_result (timer_delay timeout) w | [] => Aborted end.

Definition after_request (r : request) (n : hnode) : hnode :=
  mk_hnode (hn_world n) (hn_cache n) (tail (hn_wires n)) (r :: hn_requests n)
    (match hn_wires n with w :: _ => waited (timer_delay timeout) w | [] => timer_delay timeout end :: hn_waited n).

Lemma run_post op path body n ep : cached (Keys.uuid_string op) n = Some ep -> nonempty (walletApiUrl ep) = true ->
  run (post timeout op path body) n =
    (read_response (next_fetched n),
     after_request (mk_request (joinUrl (walletApiUrl ep) path) (authorization (walletApiKey ep)) body) n).
Proof.
  intros Hc Hu. unfold post, resolveEndpoint. rewrite !run_bind. unfold gets. rewrite run_atom. cbn [fst snd]. rewrite Hc, run_ret, Hu.
  cbn [negb]. rewrite run_bind. unfold fetch. rewrite run_atom. cbn [fst snd]. unfold next_fetched, after_request.
  by destruct (hn_wires n).
Qed.

(** Every outcome of a request raises exactly its error of the operator
    contract: it succeeds on a readable 2xx answer only; it is a timeout, whose
    effect is unknown, exactly when our timer fires before the headers or the
    operator says 408 or 504; it is a refusal for lack of funds exactly on 402,
    409 or the body that says so; everything else is a generic error; and each
    request is sent once, with the bearer when a key is configured. *)
Theorem post_exact op path body n :
  ready op n -> let r := run (post timeout op path body) n in
  (exists url key, hn_requests r.2 = mk_request (joinUrl url path) (authorization key) body :: hn_requests n) /\
  match next_fetched n, r.1 with
  | Aborted, Raise OperatorTimeout => True
  | Got st b, Ok j => 200 <= st <= 299 /\ b = Some j
  | Got st b, Raise OperatorTimeout => st = 408 \/ st = 504
  | Got st b, Raise OperatorInsufficientFunds =>
      ~ 200 <= st <= 299 /\ (st = 402 \/ st = 409 \/ safeErrorCode b = Some "insufficient_funds"%string)
  | Got st b, Raise (OperatorError _) =>
      (200 <= st <= 299 -> b = None) /\ st <> 402 /\ st <> 409 /\ st <> 408 /\ st <> 504
  | Threw, Raise (OperatorError _) => True
  | _, _ => False
  end.
Proof.
  intros (ep & Hc & Hu). rewrite (run_post _ _ _ _ _ Hc Hu). cbv zeta. cbn [fst snd].
  split; [by exists (walletApiUrl ep), (walletApiKey ep)|].
  destruct (next_fetched n) as [| |st b]; [done..|]. cbn [read_response].
  destruct ((200 <=? st) && (st <=? 299)) eqn:E1; z_bool; [destruct b; [done|split_and!; [done|lia..]]|].
  apply andb_false_iff in E1. assert (Hn : ~ 200 <= st <= 299) by (destruct E1; z_bool; lia).
  destruct (Z.eqb_spec st 402); [split; [done|by left]|]. destruct (Z.eqb_spec st 409); [split; [done|by right; left]|]. cbn [orb].
  unfold opt_eqb. case_bool_decide; [split; [done|by right; right]|].
  destruct (Z.eqb_spec st 408); [by left|]. destruct (Z.eqb_spec st 504); [by right|]. cbn [orb]. by split_and!.
Qed.

(** ** The abstract operator *)

Definition text (v : option json) : string := match v with Some (JStr s) => s | _ => EmptyString end.

(** What one outcome answers, whatever the call. *)
Definition classify (w : wire) : res op_answer :=
  match read_response (fetch_result (timer_delay timeout) w) with
  | Ok (JObj o) => Ok (mk_answer (text (assoc_last "operatorTxId" o)) (nullish (assoc_last "balance" o ≫= json_BigInt) 0))
  | Ok _ => Raise (JsError "TypeError")
  | Raise e => Raise e
  end.

(** The contract's answer: an object with a balance that is an integer. *)
Definition honours (w : wire) : Prop :=
  forall j, read_response (fetch_result (timer_delay timeout) w) = Ok j ->
    exists o z, j = JObj o /\ assoc_last "balance" o ≫= json_BigInt = Some z.

Definition caller (c : op_call) : uuid :=
  match c with OpBalance op _ _ | OpBet op _ _ _ _ _ | OpWin op _ _ _ _ _ | OpRollback op _ _ _ _ => op end.

(** The world of the abstract operator that this network makes. *)
Definition abstraction (n : hnode) : world := set_calls (classify <$> hn_wires n) (w_calls (hn_world n)) (hn_world n).

(** A balance query answers no reference. *)
Definition same_answer (c : op_call) (r r' : res op_answer) : Prop :=
  match c, r, r' with
  | OpBalance _ _ _, Ok a, Ok a' => oa_balance a = oa_balance a'
  | _, _, _ => r = r'
  end.

Lemma run_property_obj o k n : run (property (JObj o) k) n = (Ok (assoc_last k o), n).
Proof. reflexivity. Qed.

Lemma run_invoke_ok c n o z : ready (caller c) n -> read_response (next_fetched n) = Ok (JObj o) ->
  assoc_last "balance" o ≫= json_BigInt = Some z ->
  exists rq, run (invoke timeout c) n =
    (Ok (mk_answer (match c with OpBalance _ _ _ => EmptyString | _ => text (assoc_last "operatorTxId" o) end) z), after_request rq n).
Proof.
  intros (ep & Hc & Hu) Hr Hb.
  destruct c; cbn [invoke caller] in *; unfold balance, move, read_balance; rewrite !run_bind, (run_post _ _ _ _ _ Hc Hu), Hr;
    repeat (first [rewrite run_bind|rewrite run_property_obj|rewrite run_ret|rewrite Hb]; cbn [or_balance or_operatorTxId]);
    cbn [nullish]; eauto.
Qed.

Lemma run_invoke_err c n e : ready (caller c) n -> read_response (next_fetched n) = Raise e ->
  exists rq, run (invoke timeout c) n = (Raise e, after_request rq n).
Proof.
  intros (ep & Hc & Hu) Hr.
  destruct c; cbn [invoke caller] in *; unfold balance, move; rewrite !run_bind, (run_post _ _ _ _ _ Hc Hu), Hr; eauto.
Qed.

End safety.

(** ** The cache of endpoints *)

(** The database at an instant. *)
Definition snapshot : Type := Z * gmap N operator.

Definition at_snapshot (s : snapshot) (n : hnode) : hnode :=
  mk_hnode (set_now s.1 (set_operators s.2 (hn_world n))) (hn_cache n) (hn_wires n) (hn_requests n) (hn_waited n).

Section cache.

(** Lookups one after the other, each at its instant of the database. *)
Fixpoint lookups (l : list (snapshot * uuid)) (n : hnode) : list (res OperatorEndpoint) * hnode :=
  match l with
  | [] => ([], n)
  | (s, op) :: l => let r := run (resolveEndpoint op) (at_snapshot s n) in
                    let rest := lookups l r.2 in (r.1 :: rest.1, rest.2)
  end.

(** The endpoint of an operator in a state of the database. *)
Definition endpoint_at (ops : gmap N operator) (op : uuid) (ep : OperatorEndpoint) : Prop :=
  exists o, ops !! op = Some o /\ ep = mk_endpoint (nullish (o_walletApiUrl o) EmptyString) (o_walletApiKey o).

(** Every entry is what the database held when its life began. *)
Definition cache_ok (past : list (snapshot * uuid)) (n : hnode) : Prop :=
  forall op ep exp, Keys.uuid_ok op -> amap_get (Keys.uuid_string op) (hn_cache n) = Some (ep, exp) ->
    exists s o, (s, o) ∈ past /\ exp = s.1 + TTL_MS /\ endpoint_at s.2 op ep.

Lemma cache_ok_more past past' n : past ⊆ past' -> cache_ok past n -> cache_ok past' n.
Proof. intros Hs H op ep exp Hu E. destruct (H op ep exp Hu E) as (s & o & Hin & ? & ?). exists s, o. split_and!; [by apply Hs|done..]. Qed.

Lemma run_fetch_endpoint op w r w' : run (fetch_endpoint op) w = (r, w') ->
  w_now w' = w_now w /\ forall ep, r = Ok ep -> endpoint_at (w_operators w) op ep.
Proof.
  unfold fetch_endpoint, db. rewrite run_atom_res. unfold db_step.
  assert (Hgo : forall w0, w_operators w0 = w_operators w -> w_now w0 = w_now w ->
    let x := match w_operators w0 !! op with
      | Some o => (Ok (mk_endpoint (nullish (o_walletApiUrl o) EmptyString) (o_walletApiKey o)), w0)
      | None => (Raise RecordNotFound, w0) end in
    w_now x.2 = w_now w /\ forall ep, x.1 = Ok ep -> endpoint_at (w_operators w) op ep).
  { intros w0 Ho Hn. cbv zeta. rewrite Ho. destruct (w_operators w !! op) as [o|] eqn:E; cbn; (split; [done|]); [|done].
    intros ep [= <-]. by exists o. }
  destruct (w_faults w) as [|[] fs].
  - destruct (Hgo w eq_refl eq_refl) as [H1 H2]. intros E. rewrite E in H1, H2. by split.
  - destruct (Hgo (set_faults fs w) eq_refl eq_refl) as [H1 H2]. intros E. rewrite E in H1, H2. by split.
  - by intros [= <- <-].
  - destruct (Hgo (set_faults fs w) eq_refl eq_refl) as [H1 H2]. intros [= <- <-]. by split.
Qed.

(** One lookup: what it answers, and what it leaves. *)
Lemma run_resolveEndpoint past s op n r n' : Keys.uuid_ok op -> cache_ok past n -> run (resolveEndpoint op) (at_snapshot s n) = (r, n') ->
  cache_ok (past ++ [(s, op)]) n' /\
  forall ep, r = Ok ep -> exists s' o, (s', o) ∈ past ++ [(s, op)] /\ s.1 < s'.1 + TTL_MS /\ endpoint_at s'.2 op ep.
Proof.
  intros Hu Hok. unfold resolveEndpoint. rewrite run_bind. unfold gets. rewrite run_atom. cbn [fst snd]. unfold cached. cbn [hn_cache at_snapshot hn_world].
  assert (Hmore : cache_ok (past ++ [(s, op)]) n) by (eapply cache_ok_more; [|exact Hok]; intros x Hx; set_solver).
  change (w_now (set_now s.1 (set_operators s.2 (hn_world n)))) with s.1.
  assert (Hmiss : run (ep ← hserve (fetch_endpoint op);
      _ ← atom (fun n => (tt, set_cache (amap_set (Keys.uuid_string op) (ep, s.1 + TTL_MS) (hn_cache n)) n)); mret ep) (at_snapshot s n) = (r, n') ->
    cache_ok (past ++ [(s, op)]) n' /\
    forall ep, r = Ok ep -> exists s' o, (s', o) ∈ past ++ [(s, op)] /\ s.1 < s'.1 + TTL_MS /\ endpoint_at s'.2 op ep).
  { rewrite run_bind, run_hserve. cbn [hn_world at_snapshot].
    destruct (run (fetch_endpoint op) (set_now s.1 (set_operators s.2 (hn_world n)))) as [[ep|e] w'] eqn:E; cbn [fst snd];
      (destruct (run_fetch_endpoint _ _ _ _ E) as [_ Hep]); [|intros [= <- <-]; by split].
    rewrite run_bind, run_atom. cbn [fst snd]. rewrite run_ret. intros [= <- <-].
    assert (Hnew : exists s' o, (s', o) ∈ past ++ [(s, op)] /\ s.1 + TTL_MS = s'.1 + TTL_MS /\ endpoint_at s'.2 op ep)
      by (exists s, op; split; [set_solver|split; [done|by apply Hep]]).
    split.
    - intros op' ep' exp' Hu'. cbn. rewrite amap_get_set. destruct (decide _) as [Heq|]; [|by apply Hmore].
      apply Keys.uuid_inj in Heq as <-; [|done..]. intros [= <- <-]. exact Hnew.
    - intros ep0 [= <-]. destruct Hnew as (s' & o & H1 & H2 & H3). exists s', o. split_and!; [done|unfold TTL_MS in *; lia|done]. }
  destruct (amap_get (Keys.uuid_string op) (hn_cache n)) as [[ep exp]|] eqn:Eg; [|exact Hmiss].
  destruct (Z.ltb_spec s.1 exp) as [Hlt|]; [|exact Hmiss]. rewrite run_ret. intros [= <- <-]. split; [exact Hmore|].
  intros ep0 [= <-]. destruct (Hmore op ep exp Hu Eg) as (s' & o & Hin & -> & Hep). by exists s', o.
Qed.

(** A cached endpoint is never older than its lifetime: over any sequence of
    lookups and any changes of the database between them, the address and key a
    call uses are those the operator had at some lookup less than thirty seconds
    before, in particular never those of another operator. *)
Theorem endpoint_fresh l l1 s op l2 r n :
  hn_cache n = [] -> Forall (fun x => Keys.uuid_ok x.2) l -> l = l1 ++ (s, op) :: l2 -> (lookups l n).1 !! length l1 = Some r ->
  forall ep, r = Ok ep -> exists s' o, (s', o) ∈ l1 ++ [(s, op)] /\ s.1 < s'.1 + TTL_MS /\ endpoint_at s'.2 op ep.
Proof.
  intros Hn Hids -> Hr. assert (Hok : cache_ok [] n) by (intros ? ? ? ?; by rewrite Hn).
  enough (Hgen : forall past, cache_ok past n -> forall ep, r = Ok ep ->
    exists s' o, (s', o) ∈ past ++ l1 ++ [(s, op)] /\ s.1 < s'.1 + TTL_MS /\ endpoint_at s'.2 op ep) by exact (Hgen [] Hok).
  clear Hn Hok. revert n Hr. induction l1 as [|[s1 op1] l1 IH]; intros n Hr past Hok; cbn [app lookups length] in Hr;
    inversion Hids as [|? ? Hid Hids']; subst.
  - destruct (run (resolveEndpoint op) (at_snapshot s n)) as [r0 n0] eqn:E. cbn in Hr. injection Hr as <-.
    exact (proj2 (run_resolveEndpoint past s op n r0 n0 Hid Hok E)).

  - destruct (run (resolveEndpoint op1) (at_snapshot s1 n)) as [r0 n0] eqn:E. cbn in Hr.
    destruct (run_resolveEndpoint past s1 op1 n r0 n0 Hid Hok E) as [Hok' _].
    replace (past ++ ((s1, op1) :: l1) ++ [(s, op)]) with ((past ++ [(s1, op1)]) ++ l1 ++ [(s, op)]) by (by rewrite <- !app_assoc).
    by apply (IH Hids' n0).
Qed.
End cache.

(** ** Examples *)

Definition sample_endpoint : OperatorEndpoint := mk_endpoint "https://op.example/wallet//" (Some "key"%string).
Definition accepted : json := JObj [("operatorTxId", JStr "t1"); ("balance", JStr "9007199254740993")]%string.
Definition with_wires (ws : list wire) : hnode :=
  mk_hnode empty_world [(Keys.uuid_string 7, (sample_endpoint, 30000))] ws [] [].
Definition sample_bet : op_call := OpBet 7 "alice" "EUR" 120 (KDebit 1 7 PanelA) (Some 5%N).

Lemma post_exact_witness :
  rq_url <$> hn_requests (run (post (js_int 3000) 7 "/bet" JNull) (with_wires [mk_wire 20 5 (Response 409 None)])).2 =
    ["https://op.example/wallet/bet"%string] /\
  exists url key, hn_requests (run (post (js_int 3000) 7 "/bet" JNull) (with_wires [mk_wire 20 5 (Response 409 None)])).2 =
    [mk_request (joinUrl url "/bet") (authorization key) JNull].
Proof.
  split; [vm_compute; reflexivity|].
  refine (proj1 (post_exact (js_int 3000) 7 "/bet" JNull (with_wires [mk_wire 20 5 (Response 409 None)]) _)).
  exists sample_endpoint. by split.
Defined.


Definition db_with (url : string) : gmap N operator :=
  {[ 7%N := mk_operator true true "launch" [] None [] None None None None "casino" "Casino" (Some url) None ]}.
Definition moving : list (snapshot * uuid) :=
  [((1000, db_with "a"), 7%N); ((20000, db_with "b"), 7%N); ((31000, db_with "c"), 7%N)].

Lemma endpoint_fresh_witness :
  (lookups moving (with_wires [])).1 !! 1%nat = Some (Ok sample_endpoint) /\
  (lookups moving (mk_hnode empty_world [] [] [] [])).1 !! 1%nat = Some (Ok (mk_endpoint "a" None)) /\
  exists s' o, (s', o) ∈ [((1000, db_with "a"), 7%N); ((20000, db_with "b"), 7%N)] /\
    20000 < s'.1 + TTL_MS /\ endpoint_at s'.2 7 (mk_endpoint "a" None).
Proof.
  split; [vm_compute; reflexivity|]. split; [vm_compute; reflexivity|].
  refine (endpoint_fresh moving [((1000, db_with "a"), 7%N)] (20000, db_with "b") 7
    [((31000, db_with "c"), 7%N)] (Ok (mk_endpoint "a" None)) (mk_hnode empty_world [] [] [] []) eq_refl _ eq_refl _ _ eq_refl).
  - repeat constructor; unfold Keys.uuid_ok; cbn; reflexivity.
  - vm_compute. reflexivity.
Defined.

(** The timer guards the headers only: whatever the timeout, a successful call
    may wait longer than any bound for its body. *)
Theorem body_outlives_timeout (timeout : jsnum) (bound : Z) :
  exists w, read_response (fetch_result (timer_delay timeout) w) = Ok accepted /\ bound < waited (timer_delay timeout) w.
Proof.
  exists (mk_wire 0 (Z.max 0 bound + 1) (Response 200 (Some accepted))).
  assert (H : (timer_delay timeout <=? 0) = false).
  { apply Z.leb_gt. unfold timer_delay. destruct timeout as [| |q]; [done..|]. destruct (js_ge (Fin q) 1) eqn:E; [|done]. cbn [andb].
    destruct (js_le (Fin q) 2147483647); [|done]. unfold js_ge in E. apply Z.leb_le in E. unfold Qfloor_Z.
    enough (1 <= Qnum q / Zpos (Qden q)) by lia. apply Z.div_le_lower_bound; lia. }
  unfold fetch_result, waited. cbn [wi_headersMs wi_outcome wi_bodyMs]. rewrite H. split; [reflexivity|lia].
Qed.

(** A blank or unreadable OPERATOR_WALLET_TIMEOUT_MS is not the default: the
    timer fires after one millisecond and every call is an ambiguous timeout. *)
Theorem blank_timeout_fires_at_once :
  timer_delay (timeoutMs None None) = 3000 /\ timer_delay (timeoutMs None (Some EmptyString)) = 1 /\
  timer_delay (timeoutMs None (Some "3s"%string)) = 1 /\
  forall w, 1 <= wi_headersMs w ->
    read_response (fetch_result (timer_delay (timeoutMs None (Some EmptyString))) w) = Raise OperatorTimeout.
Proof.
  split_and!; [reflexivity..|]. intros w Hw. unfold fetch_result.
  change (timer_delay (timeoutMs None (Some EmptyString))) with 1. by rewrite (proj2 (Z.leb_le _ _) Hw).
Qed.
End Http.
