(* ===== verification/OperatorBook.v ===== *)
(** * The operator's book

    [load/operator-wallet-stub.ts], the reference implementation of an operator's
    wallet that the integration document points to, and
    [scripts/operator-recon-check.ts], the gate that compares its book with the
    bets.  A request of the stub runs from its last await to its answer in one
    step, so concurrent requests are a sequence of them in the order the operator
    takes them up.  A field of a request is a text or missing; other JSON values
    in its place are not modelled, nor is what the scripts print.
    Proved: the book accounts for every balance, whatever is repeated, refused or
    rolled back; the wallet's client and the stub understand each other at every
    amount; when exactly the gate passes and what that says of the money; and
    two losses it does not see. *)

From S2P Require Import Prelude Effects Js Money Schema Wallet Keys OperatorWallet HttpWallet.

Open Scope Z_scope.

#[local] Set Warnings "-clear-no-such-hyp".

(** ** The stub *)

Module Stub.

Record BookEntry := mk_entry { e_bet : Z; e_win : Z; e_rollback : Z; e_player : option string; e_currency : option string }.
Record op_result := mk_result { re_operatorTxId : string; re_balance : string }.
Record counters := mk_counters {
  c_bet : Z; c_win : Z; c_rollback : Z; c_balance : Z; c_dup : Z; c_insufficient : Z; c_unauthorized : Z
}.

(** The process's memory; a transaction identifier may be undefined. *)
Record stub := mk_stub {
  balances : gmap string Z;
  applied : gmap (option string) op_result;
  deltas : gmap (option string) Z;
  book : gmap string BookEntry;
  opSeq : Z;
  counts : counters
}.
Definition started : stub := mk_stub ∅ ∅ ∅ ∅ 0 (mk_counters 0 0 0 0 0 0 0).

Inductive tick := TBet | TWin | TRollback | TBalance | TDup | TInsufficient | TUnauthorized.
Definition count (t : tick) (s : stub) : stub :=
  let '(mk_counters b w r l d i u) := counts s in
  mk_stub (balances s) (applied s) (deltas s) (book s) (opSeq s)
    (match t with
     | TBet => mk_counters (b + 1) w r l d i u
     | TWin => mk_counters b (w + 1) r l d i u
     | TRollback => mk_counters b w (r + 1) l d i u
     | TBalance => mk_counters b w r (l + 1) d i u
     | TDup => mk_counters b w r l (d + 1) i u
     | TInsufficient => mk_counters b w r l d (i + 1) u
     | TUnauthorized => mk_counters b w r l d i (u + 1)
     end).

(** The body of a request. *)
Record move := mk_move {
  m_playerId : option string; m_currency : option string; m_transactionId : option string;
  m_amount : option json; m_betId : option string
}.
Record request := mk_req { q_method : string; q_pathname : string; q_authorization : option string; q_body : move }.

(** [`${v}`] *)
Definition template (v : option string) : string := nullish v "undefined"%string.
Definition key (playerId currency : option string) : string := (template playerId +:+ ":" +:+ template currency)%string.
Definition truthy (v : option string) : option string := match v with Some s => if nonempty s then Some s else None | None => None end.

(** [process.env.WALLET_KEY ?? "stub-key"]; a START_BALANCE that is no BigInt
    fails the start. *)
Definition WALLET_KEY (process_env : Risk.env) : string := nullish (process_env "WALLET_KEY"%string) "stub-key"%string.
Definition START_BALANCE (process_env : Risk.env) : option Z :=
  match process_env "START_BALANCE"%string with Some v => js_BigInt v | None => Some 100000000 end.

Section stub.
Context (wallet_key : string) (start : Z).

Definition bookEntry (betId : string) (player currency : option string) (s : stub) : BookEntry :=
  nullish (book s !! betId) (mk_entry 0 0 0 player currency).

Definition balance_of (k : string) (s : stub) : Z := nullish (balances s !! k) start.

Definition next_txId (s : stub) : string := ("op-" +:+ BigInt_toString (opSeq s + 1))%string.

Definition apply (txId playerId currency : option string) (delta : Z) (s : stub) : option op_result * stub :=
  match applied s !! txId with
  | Some dup => (Some dup, count TDup s)
  | None =>
      let k := key playerId currency in
      let before := balance_of k s in
      let after := before + delta in
      if after <? 0 then (None, count TInsufficient s)
      else
        let r := mk_result (next_txId s) (BigInt_toString after) in
        (Some r, mk_stub (<[k := after]> (balances s)) (<[txId := r]> (applied s)) (<[txId := delta]> (deltas s))
                   (book s) (opSeq s + 1) (counts s))
  end.

Definition set_book (betId : string) (e : BookEntry) (s : stub) : stub :=
  mk_stub (balances s) (applied s) (deltas s) (<[betId := e]> (book s)) (opSeq s) (counts s).

Definition json_of (r : op_result) : json :=
  JObj [("operatorTxId", JStr (re_operatorTxId r)); ("balance", JStr (re_balance r))]%string.
Definition error_body (e : string) : json := JObj [("error", JStr e)]%string.

(** The bet and win handlers; [BigInt(body.amount)] that throws is a 500. *)
Definition bet_or_win (is_win : bool) (m : move) (s0 : stub) : (Z * json) * stub :=
  let s := count (if is_win then TWin else TBet) s0 in
  match m_amount m ≫= json_BigInt with
  | None => ((500, JNull), s)
  | Some amount =>
      let fresh := negb (is_Some_b (applied s !! m_transactionId m)) in
      match apply (m_transactionId m) (m_playerId m) (m_currency m) (if is_win then amount else - amount) s with
      | (Some r, s1) =>
          ((200, json_of r),
           match truthy (m_betId m) with
           | Some id =>
               if fresh then
                 let e := bookEntry id (m_playerId m) (m_currency m) s1 in
                 set_book id (if is_win then mk_entry (e_bet e) (e_win e + amount) (e_rollback e) (e_player e) (e_currency e)
                              else mk_entry (e_bet e + amount) (e_win e) (e_rollback e) (e_player e) (e_currency e)) s1
               else s1
           | None => s1
           end)
      | (None, s1) => ((402, error_body "insufficient_funds"), s1)
      end
  end.

(** The undo of an applied transaction. *)
Definition undo (m : move) (delta : Z) (s : stub) : stub :=
  let k := key (m_playerId m) (m_currency m) in
  let s1 := mk_stub (<[k := balance_of k s - delta]> (balances s)) (delete (m_transactionId m) (applied s))
              (delete (m_transactionId m) (deltas s)) (book s) (opSeq s) (counts s) in
  match truthy (m_betId m) with
  | Some id =>
      match book s1 !! id with
      | Some e => set_book id (mk_entry (e_bet e) (e_win e) (e_rollback e + - delta) (e_player e) (e_currency e)) s1
      | None => s1
      end
  | None => s1
  end.

Definition rollback (m : move) (s0 : stub) : (Z * json) * stub :=
  let s := count TRollback s0 in
  let s1 := match deltas s !! m_transactionId m with
            | Some delta => if is_Some_b (applied s !! m_transactionId m) then undo m delta s else s
            | None => s
            end in
  ((200, json_of (mk_result (next_txId s1) (BigInt_toString (balance_of (key (m_playerId m) (m_currency m)) s1)))),
   mk_stub (balances s1) (applied s1) (deltas s1) (book s1) (opSeq s1 + 1) (counts s1)).

(** The dump of one entry: [player] and [currency] are left out when undefined. *)
Definition dump_entry (e : BookEntry) : json :=
  let optional k v := match v with Some s => [(k, JStr s)] | None => [] end in
  JObj ([("bet", JStr (BigInt_toString (e_bet e))); ("win", JStr (BigInt_toString (e_win e)));
         ("rollback", JStr (BigInt_toString (e_rollback e)))]%string
        ++ optional "player"%string (e_player e) ++ optional "currency"%string (e_currency e))%list.
Definition num (z : Z) : json := JNum (QArith_base.inject_Z z).
Definition debug_book (s : stub) : json :=
  let c := counts s in
  JObj [("counts", JObj [("bet", num (c_bet c)); ("win", num (c_win c)); ("rollback", num (c_rollback c)); ("balance", num (c_balance c));
                         ("dup", num (c_dup c)); ("insufficient", num (c_insufficient c)); ("unauthorized", num (c_unauthorized c))]);
        ("players", num (Z.of_nat (size (balances s))));
        ("book", JObj (prod_map id dump_entry <$> map_to_list (book s)))]%string.

(** One request, from its last await to its answer. *)
Definition fetch (q : request) (s : stub) : (Z * json) * stub :=
  if negb (opt_eqb (q_authorization q) (Some ("Bearer " +:+ wallet_key)%string)) then ((401, error_body "unauthorized"), count TUnauthorized s)
  else
    let path := drop_while Http.is_slash (q_pathname q) in
    if eqb_str (q_method q) "GET" && eqb_str path "debug/book" then ((200, debug_book s), s)
    else if eqb_str path "balance" then
      ((200, JObj [("balance", JStr (BigInt_toString (balance_of (key (m_playerId (q_body q)) (m_currency (q_body q))) s)))]%string), count TBalance s)
    else if eqb_str path "bet" then bet_or_win false (q_body q) s
    else if eqb_str path "win" then bet_or_win true (q_body q) s
    else if eqb_str path "rollback" then rollback (q_body q) s
    else ((404, error_body ("unknown_path_" +:+ path)), s).

Definition serve (l : list request) (s : stub) : stub := fold_left (fun s q => (fetch q s).2) l s.
End stub.

(** ** The book accounts for the balances *)

Section book.
Context (wallet_key : string) (start : Z).
#[local] Abbreviation reply := (fetch wallet_key start).
#[local] Abbreviation after_all := (serve wallet_key start).

Definition entry_key (e : BookEntry) : string := key (e_player e) (e_currency e).
(** What a bet took from its player. *)
Definition net (e : BookEntry) : Z := e_bet e - e_win e - e_rollback e.
Definition net_of (k : string) (s : stub) : Z := sum_map (fun e => if eqb_str (entry_key e) k then net e else 0) (book s).

(** What the players lost together, and on the book. *)
Definition taken (s : stub) : Z := sum_map (fun b => start - b) (balances s).
Definition net_total (s : stub) : Z := sum_map net (book s).

(** What every player lost is what the book says of it, and so is the total. *)
Record accounted (s : stub) : Prop := {
  ac_net k : start - balance_of start k s = net_of k s;
  ac_total : taken s = net_total s
}.
(** A transaction that counts has its amount. *)
Definition keys_ok (s : stub) : Prop := forall t, is_Some (applied s !! t) <-> is_Some (deltas s !! t).

(** Requests that name the bet they belong to, and its player: what the client
    sends.  An undone transaction names the bet it was booked under. *)
Definition names_bet (s : stub) (m : move) : Prop :=
  exists id, truthy (m_betId m) = Some id /\
    forall e, book s !! id = Some e -> entry_key e = key (m_playerId m) (m_currency m).
Definition path_of (q : request) : string := drop_while Http.is_slash (q_pathname q).
Definition moves (q : request) : bool := existsb (eqb_str (path_of q)) ["bet"; "win"; "rollback"]%string.
Definition honest (s : stub) (q : request) : bool :=
  negb (moves q) ||
  match truthy (m_betId (q_body q)) with
  | Some id => match book s !! id with
               | Some e => eqb_str (entry_key e) (key (m_playerId (q_body q)) (m_currency (q_body q)))
               | None => negb (is_Some_b (deltas s !! m_transactionId (q_body q)))
               end
  | None => false
  end.
Fixpoint all_honest (l : list request) (s : stub) : bool :=
  match l with [] => true | q :: l => honest s q && all_honest l (reply q s).2 end.

Lemma honest_spec s q : honest s q = true -> moves q = true -> names_bet s (q_body q) /\
  (is_Some (deltas s !! m_transactionId (q_body q)) -> forall id, truthy (m_betId (q_body q)) = Some id -> is_Some (book s !! id)).
Proof using Type.
  unfold honest, names_bet. intros Hh Hm. rewrite Hm in Hh. destruct (truthy _) as [id|]; [|done]. cbn [negb orb] in Hh. split.
  - exists id. split; [done|]. intros e He. rewrite He in Hh. by apply eqb_str_eq.
  - intros [d Hd] id' [= <-]. destruct (book s !! id); [by eexists|]. by rewrite Hd in Hh.
Qed.

Lemma net_of_set k id e s : net_of k (set_book id e s) =
  net_of k s - match book s !! id with Some e0 => if eqb_str (entry_key e0) k then net e0 else 0 | None => 0 end
  + if eqb_str (entry_key e) k then net e else 0.
Proof.
  unfold net_of. cbn [book set_book]. destruct (book s !! id) as [e0|] eqn:E.
  - by rewrite (sum_map_update _ _ _ _ _ E).
  - rewrite sum_map_insert by done. lia.
Qed.

Lemma count_frame t s : balances (count t s) = balances s /\ applied (count t s) = applied s /\ deltas (count t s) = deltas s /\
  book (count t s) = book s /\ opSeq (count t s) = opSeq s.
Proof. unfold count. by destruct (counts s). Qed.

Lemma accounted_count t s : accounted s -> accounted (count t s).
Proof.
  intros [Hn Ht]. destruct (count_frame t s) as (Eb & _ & _ & Eo & _).
  split; [intros k; specialize (Hn k); unfold balance_of, net_of in *|unfold taken, net_total in *]; by rewrite Eb, Eo.
Qed.

Lemma taken_set k v (m : gmap string Z) :
  sum_map (fun b => start - b) (<[k := v]> m) = sum_map (fun b => start - b) m + (nullish (m !! k) start - v).
Proof using Type.
  destruct (m !! k) as [b|] eqn:E; cbn [nullish]; [rewrite (sum_map_update _ _ _ _ _ E)|rewrite sum_map_insert by done]; lia.
Qed.

(** One move of [delta] at a player, booked under one of its bets. *)
Lemma accounted_move s s' m id e delta :
  accounted s ->
  balances s' = <[key (m_playerId m) (m_currency m) := balance_of start (key (m_playerId m) (m_currency m)) s + delta]> (balances s) ->
  book s' = <[id := e]> (book s) -> (forall e0, book s !! id = Some e0 -> entry_key e0 = key (m_playerId m) (m_currency m)) ->
  entry_key e = key (m_playerId m) (m_currency m) ->
  net e = match book s !! id with Some e0 => net e0 | None => 0 end - delta -> accounted s'.
Proof using Type.
  intros [Hn Ht] Hb Hbook He0 He Hnet. split.
  2: { unfold taken, net_total in *. rewrite Hb, Hbook, taken_set. unfold balance_of. destruct (book s !! id) as [e0|] eqn:E0.
       - rewrite (sum_map_update _ _ _ _ _ E0). lia.
       - rewrite sum_map_insert by done. lia. }
  intros k. specialize (Hn k).
  assert (Hs : net_of k s' = net_of k (set_book id e s)) by (unfold net_of; by rewrite Hbook). rewrite Hs, net_of_set, He, Hnet. clear Hs.
  unfold balance_of. rewrite Hb, lookup_insert. unfold balance_of in Hn |- *.
  assert (Hsame : forall e0, book s !! id = Some e0 -> eqb_str (entry_key e0) k = eqb_str (key (m_playerId m) (m_currency m)) k)
    by (intros e0 E0; by rewrite (He0 e0 E0)).
  case_decide as Hkk.
  - subst k. rewrite eqb_str_refl in *. cbn [nullish]. destruct (book s !! id) as [e0|]; [rewrite (Hsame e0 eq_refl)|]; lia.
  - assert (eqb_str (key (m_playerId m) (m_currency m)) k = false) as Hf by (destruct (eqb_str _ _) eqn:E; [by apply eqb_str_eq in E|done]).
    rewrite Hf in *. destruct (book s !! id) as [e0|]; [rewrite (Hsame e0 eq_refl)|]; lia.
Qed.

Lemma accounted_bet_or_win w m s : names_bet s m -> accounted s -> accounted (bet_or_win start w m s).2.
Proof using Type.
  intros (id & Hid & Hown) Hs. unfold bet_or_win. set (s0 := count _ s).
  assert (Hs0 : accounted s0) by (by apply accounted_count).
  assert (Hbook : book s0 = book s) by apply count_frame.
  destruct (m_amount m ≫= json_BigInt) as [amount|]; [|done].
  unfold apply.
  destruct (applied s0 !! m_transactionId m) as [r|] eqn:Et; cbn [is_Some_b negb].
  { rewrite Hid. by apply accounted_count. }
  destruct (_ <? 0); [by apply accounted_count|]. rewrite Hid. cbn [snd].
  rewrite <- Hbook in Hown.
  eapply (accounted_move s0 _ m id _ (if w then amount else - amount)); [done|by destruct w|reflexivity|done| |];
    unfold bookEntry; cbn [book]; destruct (book s0 !! id) as [e0|] eqn:E0; destruct w; cbn [nullish];
    unfold entry_key, net; cbn [e_player e_currency e_bet e_win e_rollback]; try done; try (by apply (Hown e0)); lia.
Qed.

Lemma accounted_rollback m s : names_bet s m ->
  (is_Some (deltas s !! m_transactionId m) -> forall id, truthy (m_betId m) = Some id -> is_Some (book s !! id)) ->
  accounted s -> accounted (rollback start m s).2.
Proof using Type.
  intros (id & Hid & Hown) Hhas Hs. unfold rollback. set (s0 := count _ s).
  assert (Hs0 : accounted s0) by (by apply accounted_count). destruct (count_frame TRollback s) as (_ & _ & Ed & Eo & _). fold s0 in Ed, Eo.
  rewrite <- Ed, <- Eo in *. cbn [snd].
  match goal with |- accounted (mk_stub _ _ _ _ _ (counts ?x)) => assert (H : accounted x) end.
  2: { destruct H as [H1 H2]. by split. }
  destruct (deltas s0 !! m_transactionId m) as [d|] eqn:Et; [|done]. destruct (is_Some_b _); [|done].
  unfold undo. rewrite Hid. cbn [book]. specialize (Hhas ltac:(by eexists) id Hid) as [e Ee]. rewrite Ee.
  eapply (accounted_move s0 _ m id _ (- d)); [done|cbn; by rewrite Z.add_opp_r|reflexivity|done|by apply (Hown e)|rewrite Ee; unfold net; cbn; lia].
Qed.

Lemma accounted_fetch q s : honest s q = true -> accounted s -> accounted (reply q s).2.
Proof using Type.
  intros Hh Hs. pose proof (honest_spec s q Hh) as Hq. clear Hh. unfold moves, path_of in Hq. unfold Stub.fetch. destruct (negb _); [by apply accounted_count|].
  destruct (_ && _); [done|]. destruct (eqb_str _ "balance"); [by apply accounted_count|]. revert Hq. cbn [existsb].
  destruct (eqb_str _ "bet"); [intros []; [done|]; by apply accounted_bet_or_win|].
  destruct (eqb_str _ "win"); [intros []; [done|]; by apply accounted_bet_or_win|].
  destruct (eqb_str _ "rollback"); [intros []; [done|]; by apply accounted_rollback|done].
Qed.

Lemma accounted_serve l s : all_honest l s = true -> accounted s -> accounted (after_all l s).
Proof using Type.
  revert s. induction l as [|q l IH]; intros s Hl Hs; [done|]. apply andb_true_iff in Hl as [Hq Hl].
  apply IH; [exact Hl|by apply accounted_fetch].
Qed.

Lemma accounted_started : accounted started.
Proof using Type. split; [|done]. intros k. unfold balance_of, net_of. cbn. rewrite lookup_empty, sum_map_empty. cbn. lia. Qed.

(** ** Retries *)

(** The same money, whatever the counters. *)
Definition same_money (s s' : stub) : Prop :=
  balances s' = balances s /\ applied s' = applied s /\ deltas s' = deltas s /\ book s' = book s.

Definition applies (t : option string) (q : request) : Prop :=
  path_of q ∈ ["bet"; "win"]%string /\ m_transactionId (q_body q) = t.
Definition undoes (t : option string) (q : request) : Prop := path_of q = "rollback"%string /\ m_transactionId (q_body q) = t.

Lemma apply_other w m s t : m_transactionId m <> t ->
  applied (bet_or_win start w m s).2 !! t = applied s !! t /\ deltas (bet_or_win start w m s).2 !! t = deltas s !! t.
Proof using Type.
  intros Hne. unfold bet_or_win. destruct (count_frame (if w then TWin else TBet) s) as (_ & <- & <- & _). set (s0 := count _ s).
  destruct (m_amount m ≫= json_BigInt) as [a|]; [|done]. unfold apply. pose proof (count_frame TDup s0) as (_ & E1 & E2 & _).
  pose proof (count_frame TInsufficient s0) as (_ & E3 & E4 & _).
  destruct (applied s0 !! m_transactionId m) eqn:Et; cbn [is_Some_b negb].
  { destruct (truthy _); cbn [snd]; by rewrite E1, E2. }
  destruct (_ <? 0); [cbn [snd]; by rewrite E3, E4|]. destruct (truthy _); cbn; by rewrite !lookup_insert_ne.
Qed.

Lemma apply_again w m s r : applied s !! m_transactionId m = Some r ->
  same_money s (bet_or_win start w m s).2 /\
  (is_Some (m_amount m ≫= json_BigInt) -> (bet_or_win start w m s).1 = (200, json_of r)).
Proof using Type.
  intros Hr. unfold bet_or_win, same_money. destruct (count_frame (if w then TWin else TBet) s) as (E1 & E2 & E3 & E4 & _).
  set (s0 := count _ s) in *. destruct (m_amount m ≫= json_BigInt) as [a|]; [|split; [done|by intros []]].
  unfold apply. rewrite E2, Hr. cbn [is_Some_b negb].
  destruct (count_frame TDup s0) as (F1 & F2 & F3 & F4 & _). destruct (truthy _); cbn [fst snd]; by rewrite F1, F2, F3, F4, E1, E2, E3, E4.
Qed.

(** An answer of 200 is that of an applied transaction. *)
Lemma apply_answer w m s : (bet_or_win start w m s).1.1 = 200 ->
  is_Some (m_amount m ≫= json_BigInt) /\
  exists r, applied (bet_or_win start w m s).2 !! m_transactionId m = Some r /\ (bet_or_win start w m s).1 = (200, json_of r).
Proof using Type.
  unfold bet_or_win. destruct (count_frame (if w then TWin else TBet) s) as (E1 & E2 & E3 & E4 & _). set (s0 := count _ s) in *.
  destruct (m_amount m ≫= json_BigInt) as [a|]; [|done]. unfold apply. destruct (count_frame TDup s0) as (_ & F2 & _).
  destruct (applied s0 !! m_transactionId m) as [r|] eqn:Et; cbn [is_Some_b negb].
  { intros _. split; [by eexists|]. exists r. split; [|done]. destruct (truthy _); cbn [snd]; by rewrite F2. }
  destruct (_ <? 0); [done|]. intros _. split; [by eexists|]. eexists. split; [|done]. destruct (truthy _); cbn; apply lookup_insert_eq.
Qed.

Lemma keys_bet_or_win w m s : keys_ok s -> keys_ok (bet_or_win start w m s).2.
Proof using Type.
  intros Hk t. unfold bet_or_win. specialize (Hk t). destruct (count_frame (if w then TWin else TBet) s) as (_ & E1 & E2 & _). set (s0 := count _ s) in *.
  rewrite <- E1, <- E2 in Hk. destruct (m_amount m ≫= json_BigInt) as [a|]; [|done]. unfold apply.
  pose proof (count_frame TDup s0) as (_ & F1 & F2 & _). pose proof (count_frame TInsufficient s0) as (_ & F3 & F4 & _).
  destruct (applied s0 !! m_transactionId m) eqn:Et; cbn [is_Some_b negb].
  { destruct (truthy _); cbn [snd]; by rewrite F1, F2. }
  destruct (_ <? 0); [cbn [snd]; by rewrite F3, F4|].
  destruct (truthy _); cbn; rewrite !lookup_insert; (case_decide; [split; by eexists|done]).
Qed.

(** What a rollback leaves of each transaction. *)
Lemma rollback_keys m s t : keys_ok s ->
  applied (rollback start m s).2 !! t = (if decide (m_transactionId m = t) then None else applied s !! t) /\
  deltas (rollback start m s).2 !! t = (if decide (m_transactionId m = t) then None else deltas s !! t).
Proof using Type.
  intros Hk. unfold rollback. destruct (count_frame TRollback s) as (_ & E1 & E2 & _). set (s0 := count _ s) in *. rewrite <- E1, <- E2.
  specialize (Hk (m_transactionId m)). rewrite <- E1, <- E2 in Hk. cbn [snd applied deltas].
  destruct (deltas s0 !! m_transactionId m) as [d|] eqn:Ed.
  - destruct (proj2 Hk ltac:(by eexists)) as [r Er]. rewrite Er. cbn [is_Some_b]. unfold undo.
    destruct (truthy _) as [id|]; [cbn [book]; destruct (book s0 !! id)|]; cbn; by rewrite !lookup_delete.
  - destruct (applied s0 !! m_transactionId m) as [r|] eqn:Er; [by destruct (proj1 Hk ltac:(by eexists))|].
    destruct (decide _) as [<-|]; [by rewrite Ed, Er|done].
Qed.

(** A rollback of what is not applied moves nothing, and tells the balance. *)
Lemma rollback_nothing m s : deltas s !! m_transactionId m = None ->
  same_money s (rollback start m s).2 /\
  exists tx, (rollback start m s).1 = (200, json_of (mk_result tx (BigInt_toString (balance_of start (key (m_playerId m) (m_currency m)) s)))).
Proof using Type.
  intros Hd. unfold rollback, same_money, balance_of. destruct (count_frame TRollback s) as (E1 & E2 & E3 & E4 & _).
  rewrite E3, Hd. cbn. rewrite E1, E2, E3, E4. split; [done|by eexists].
Qed.

Lemma keys_fetch q s : keys_ok s -> keys_ok (reply q s).2.
Proof using Type.
  intros Hk. assert (Hc : forall t, keys_ok (count t s)) by (intros t x; destruct (count_frame t s) as (_ & -> & -> & _); apply Hk).
  unfold Stub.fetch. destruct (negb _); [apply Hc|]. destruct (_ && _); [done|]. destruct (eqb_str _ "balance"); [apply Hc|].
  destruct (eqb_str _ "bet"); [by apply keys_bet_or_win|]. destruct (eqb_str _ "win"); [by apply keys_bet_or_win|].
  destruct (eqb_str _ "rollback"); [|done]. intros t. destruct (rollback_keys (q_body q) s t Hk) as [-> ->].
  case_decide; [split; by intros []|apply Hk].
Qed.

Lemma keys_serve l s : keys_ok s -> keys_ok (after_all l s).
Proof using Type. revert s. induction l as [|q l IH]; intros s Hs; [done|]. by apply IH, keys_fetch. Qed.

(** *** By route *)

Lemma fetch_applies t q s : applies t q -> (reply q s).1.1 = 200 -> exists w, forall s', reply q s' = bet_or_win start w (q_body q) s'.
Proof using Type.
  intros [Hp _] Hs. unfold path_of in Hp. unfold Stub.fetch in *. destruct (negb _) eqn:E; [done|].
  apply elem_of_cons in Hp as [Hp|Hp%list_elem_of_singleton]; [exists false|exists true]; intros s'; rewrite Hp; by rewrite andb_false_r.
Qed.
Lemma fetch_undoes t q s : undoes t q -> (reply q s).1.1 = 200 -> forall s', reply q s' = rollback start (q_body q) s'.
Proof using Type.
  intros [Hp _] Hs s'. unfold path_of in Hp. unfold Stub.fetch in *. destruct (negb _) eqn:E; [done|]. rewrite Hp. by rewrite andb_false_r.
Qed.

(** Every route, to the transaction [t] it may touch. *)
Lemma fetch_cases q s : same_money s (reply q s).2 \/
  (exists w, applies (m_transactionId (q_body q)) q /\ reply q s = bet_or_win start w (q_body q) s) \/
  (undoes (m_transactionId (q_body q)) q /\ reply q s = rollback start (q_body q) s).
Proof using Type.
  assert (Hc : forall t, same_money s (count t s)) by (intros t; pose proof (count_frame t s); by unfold same_money; naive_solver).
  unfold Stub.fetch, applies, undoes, path_of. destruct (negb _); [left; apply Hc|]. destruct (_ && _); [by left|].
  destruct (eqb_str _ "balance"); [left; apply Hc|].
  destruct (eqb_str _ "bet") eqn:E1; [right; left; exists false; apply eqb_str_eq in E1; rewrite E1; split_and!; [by left|done|done]|].
  destruct (eqb_str _ "win") eqn:E2; [right; left; exists true; apply eqb_str_eq in E2; rewrite E2; split_and!; [by right; left|done|done]|].
  destruct (eqb_str _ "rollback") eqn:E3; [right; right; apply eqb_str_eq in E3; by rewrite E3|by left].
Qed.

Lemma applied_stays t r l s : keys_ok s -> (forall q, q ∈ l -> ~ undoes t q) -> applied s !! t = Some r -> applied (after_all l s) !! t = Some r.
Proof using Type.
  revert s. induction l as [|q l IH]; intros s Hk Hl Hr; [done|]. cbn. apply IH; [by apply keys_fetch|intros x Hx; apply Hl; by right|].
  destruct (fetch_cases q s) as [(_ & -> & _)|[(w & [_ _] & ->)|[Hu ->]]]; [done| |].
  - destruct (decide (m_transactionId (q_body q) = t)) as [Et|Hne].
    + rewrite <- Et in Hr. destruct (apply_again w _ _ _ Hr) as [(_ & E & _) _]. rewrite E, <- Et. exact Hr.
    + destruct (apply_other w (q_body q) s t Hne) as [-> _]. exact Hr.
  - destruct (rollback_keys (q_body q) s t Hk) as [-> _]. case_decide as Ht; [|done]. destruct (Hl q ltac:(by left)). by rewrite <- Ht.
Qed.

Lemma undone_stays t l s : keys_ok s -> (forall q, q ∈ l -> ~ applies t q) -> deltas s !! t = None -> deltas (after_all l s) !! t = None.
Proof using Type.
  revert s. induction l as [|q l IH]; intros s Hk Hl Hr; [done|]. cbn. apply IH; [by apply keys_fetch|intros x Hx; apply Hl; by right|].
  destruct (fetch_cases q s) as [(_ & _ & -> & _)|[(w & Ha & ->)|[Hu ->]]]; [done| |].
  - destruct (decide (m_transactionId (q_body q) = t)) as [Et|Hne]; [destruct (Hl q ltac:(by left)); by rewrite <- Et|].
    destruct (apply_other w (q_body q) s t Hne) as [_ ->]. exact Hr.
  - destruct (rollback_keys (q_body q) s t Hk) as [_ ->]. by case_decide.
Qed.

(** The operator's book accounts for every balance.  Whatever requests the
    stub received, in any order, authorised or not, refused for lack of funds,
    repeated or rolled back, as long as each names the bet it belongs to: what
    each player lost is what the book says of its bets, stakes less winnings less
    reversals, and so is the total over all players. *)
Theorem book_conserves (l : list request) (Hl : all_honest l started = true) :
  let s := after_all l started in
  (forall player currency, start - balance_of start (key player currency) s = net_of (key player currency) s) /\
  taken s = net_total s.
Proof using Type. cbv zeta. destruct (accounted_serve l started Hl accounted_started) as [H1 H2]. by split. Qed.

(** A bet or a win that succeeded gives the same answer whenever it is repeated,
    and moves nothing again, unless it was rolled back in between; a rollback
    that is repeated, or of what was never applied, moves nothing and tells the
    balance. *)
Theorem retries_apply_once (l l' : list request) (q : request) (t : option string) :
  let s := after_all l started in let r := reply q s in let s' := after_all l' r.2 in
  r.1.1 = 200 ->
  (applies t q -> (forall x, x ∈ l' -> ~ undoes t x) -> (reply q s').1 = r.1 /\ same_money s' (reply q s').2) /\
  (undoes t q -> (forall x, x ∈ l' -> ~ applies t x) -> same_money s' (reply q s').2 /\
     exists tx, (reply q s').1 = (200, json_of (mk_result tx (BigInt_toString (balance_of start (key (m_playerId (q_body q)) (m_currency (q_body q))) s'))))).
Proof using Type.
  cbv zeta. intros Hok. assert (Hk : keys_ok (after_all l started)) by (apply keys_serve; intros x; cbn; rewrite !lookup_empty; split; by intros []).
  pose proof (keys_fetch q _ Hk) as Hk'. split; intros Hq Hl'.
  - destruct (fetch_applies t q _ Hq Hok) as [w Hw]. rewrite !Hw in *. destruct Hq as [_ Ht].
    destruct (apply_answer w _ _ Hok) as (Ha & r & Hr & ->). rewrite Ht in Hr.
    pose proof (applied_stays t r l' _ Hk' Hl' Hr) as Hr'. rewrite <- Ht in Hr'.
    destruct (apply_again w _ _ _ Hr') as [Hs H1]. split; [by apply H1|exact Hs].
  - pose proof (fetch_undoes t q _ Hq Hok) as Hw. rewrite !Hw in *. destruct Hq as [_ Ht]. apply rollback_nothing. rewrite Ht.
    apply undone_stays; [done|done|]. destruct (rollback_keys (q_body q) (after_all l started) t Hk) as [_ ->]. by case_decide.
Qed.
End book.

(** ** The client and the stub *)

(** The fields of a body; [None] when one of them is neither missing nor a text. *)
Definition text_field (o : list (string * json)) (k : string) : option (option string) :=
  match assoc_last k o with None => Some None | Some (JStr s) => Some (Some s) | Some _ => None end.
Definition decode (body : json) : option move :=
  match body with
  | JObj o =>
      p ← text_field o "playerId"; c ← text_field o "currency"; t ← text_field o "transactionId"; b ← text_field o "betId";
      Some (mk_move p c t (assoc_last "amount" o) b)
  | _ => None
  end%string.

(** What the wallet's client posts for a call. *)
Definition sent (c : op_call) : string * json :=
  match c with
  | OpBalance _ player ccy => ("balance", JObj [("playerId", JStr player); ("currency", JStr ccy)])
  | OpBet _ player ccy amount tx betId => ("bet", Http.move_body player ccy amount tx betId)
  | OpWin _ player ccy amount tx betId => ("win", Http.move_body player ccy amount tx betId)
  | OpRollback _ player ccy tx betId => ("rollback", Http.rollback_body player ccy tx betId)
  end%string.
(** What the stub makes of it. *)
Definition received (c : op_call) : move :=
  match c with
  | OpBalance _ player ccy => mk_move (Some player) (Some ccy) None None None
  | OpBet _ player ccy amount tx betId | OpWin _ player ccy amount tx betId =>
      mk_move (Some player) (Some ccy) (Some (Keys.render tx)) (Some (JStr (BigInt_toString amount))) (Some (Http.bet_ref betId))
  | OpRollback _ player ccy tx betId => mk_move (Some player) (Some ccy) (Some (Keys.render tx)) None (Some (Http.bet_ref betId))
  end.
Definition request_of (wallet_key : string) (c : op_call) : request :=
  mk_req "POST" ("/" +:+ (sent c).1) (Http.authorization (Some wallet_key)) (received c).

Lemma decode_sent c : decode (sent c).2 = Some (received c).
Proof. by destruct c. Qed.

Section wire.
Context (timeout : jsnum) (wallet_key : string) (start : Z).
#[local] Abbreviation call := (Http.invoke timeout).
#[local] Abbreviation reply := (fetch wallet_key start).

Lemma run_invoke_sends c n ep : Http.cached (Keys.uuid_string (Http.caller c)) n = Some ep -> nonempty (walletApiUrl ep) = true ->
  (run (call c) n).2 = Http.after_request timeout
    (mk_request (Http.joinUrl (walletApiUrl ep) (sent c).1) (Http.authorization (walletApiKey ep)) (sent c).2) n.
Proof using Type.
  intros Hc Hu.
  assert (Hread : forall b m, (run (Http.read_balance b) m).2 = m) by (intros b m; unfold Http.read_balance; by case_match).
  assert (Hprop : forall j k m, exists r, run (Http.property j k) m = (r, m)) by (intros j k m; destruct j; by eexists).
  destruct c; cbn [Http.invoke Http.caller sent fst snd] in *; unfold Http.balance, Http.move;
    rewrite !run_bind, (Http.run_post _ _ _ _ _ _ Hc Hu); cbv beta iota;
    (destruct (Http.read_response _) as [j|e]; [|done]); cbv beta iota;
    repeat match goal with
      | |- context [run (Http.property ?j ?k) ?m] => destruct (Hprop j k m) as [[?|?] ->]; cbv beta iota
      | |- context [run (Http.read_balance ?b) ?m] =>
          specialize (Hread b m); destruct (run (Http.read_balance b) m) as [[?|?] ?]; cbn [snd] in Hread; subst; cbv beta iota
      | _ => rewrite run_bind
      | _ => rewrite run_ret
      end; done.
Qed.

(** What a call does to the balance of its player, seen for the first time. *)
Definition delta_of (c : op_call) (s : stub) : Z :=
  match c with
  | OpBalance _ _ _ => 0
  | OpBet _ _ _ a _ _ => - a
  | OpWin _ _ _ a _ _ => a
  | OpRollback _ _ _ tx _ => match deltas s !! Some (Keys.render tx) with Some d => - d | None => 0 end
  end.
Definition player_key (c : op_call) : string := key (m_playerId (received c)) (m_currency (received c)).
Definition after (c : op_call) (s : stub) : Z := balance_of start (player_key c) s + delta_of c s.
Definition fresh (c : op_call) (s : stub) : Prop :=
  match c with OpBet _ _ _ _ tx _ | OpWin _ _ _ _ tx _ => applied s !! Some (Keys.render tx) = None | _ => True end.
Definition refused (c : op_call) (s : stub) : bool :=
  match c with OpBet _ _ _ _ _ _ | OpWin _ _ _ _ _ _ => after c s <? 0 | _ => false end.

Lemma balance_count k t s : balance_of start k (count t s) = balance_of start k s.
Proof using Type. destruct (count_frame t s) as (E & _). unfold balance_of. by rewrite E. Qed.

(** The answer carries the balance it leaves. *)
Definition tells (r : (Z * json) * stub) (k : string) (z : Z) : Prop :=
  exists o, r.1 = (200, JObj o) /\ assoc_last "balance" o ≫= json_BigInt = Some z /\ balance_of start k r.2 = z.

Lemma bet_or_win_sent (w : bool) (m : move) (s : stub) (amount : Z) : applied s !! m_transactionId m = None -> m_amount m = Some (JStr (BigInt_toString amount)) ->
  let z := balance_of start (key (m_playerId m) (m_currency m)) s + (if w then amount else - amount) in
  if z <? 0 then (bet_or_win start w m s).1 = (402, error_body "insufficient_funds") /\ same_money s (bet_or_win start w m s).2
  else tells (bet_or_win start w m s) (key (m_playerId m) (m_currency m)) z.
Proof using Type.
  intros Hf Ha. cbv zeta. unfold bet_or_win. rewrite Ha. cbn [mbind option_bind]. rewrite json_BigInt_toString.
  destruct (count_frame (if w then TWin else TBet) s) as (E1 & E2 & E3 & E4 & _). set (s0 := count _ s) in *. unfold apply.
  rewrite E2, Hf. cbn [is_Some_b negb].
  replace (balance_of start _ s0) with (balance_of start (key (m_playerId m) (m_currency m)) s) by (unfold balance_of; by rewrite E1).
  destruct (_ <? 0) eqn:Ez.
  - split; [done|]. destruct (count_frame TInsufficient s0) as (F1 & F2 & F3 & F4 & _). unfold same_money. cbn [snd]. by rewrite F1, F2, F3, F4, E1, E2, E3, E4.
  - eexists. split; [reflexivity|]. split; [apply json_BigInt_toString|]. unfold balance_of. destruct (truthy _); cbn; by rewrite lookup_insert_eq.
Qed.

Lemma rollback_sent (m : move) (s : stub) : keys_ok s ->
  tells (rollback start m s) (key (m_playerId m) (m_currency m))
    (balance_of start (key (m_playerId m) (m_currency m)) s + match deltas s !! m_transactionId m with Some d => - d | None => 0 end).
Proof using Type.
  intros Hk. unfold rollback. destruct (count_frame TRollback s) as (E1 & E2 & E3 & E4 & _). set (s0 := count _ s) in *. rewrite E3.
  specialize (Hk (m_transactionId m)). rewrite <- E2, <- E3 in Hk. rewrite <- E3. set (k := key _ _).
  match goal with |- tells (_, mk_stub (balances ?x) _ _ _ _ _) _ _ => set (s1 := x) end.
  assert (Hbal : balance_of start k s1 = balance_of start k s + match deltas s0 !! m_transactionId m with Some d => - d | None => 0 end).
  { subst s1. destruct (deltas s0 !! m_transactionId m) as [d|] eqn:Ed.
    - destruct (proj2 Hk ltac:(by eexists)) as [x ->]. cbn [is_Some_b]. unfold undo, balance_of. rewrite E1.
      destruct (truthy _) as [i|]; [cbn [book]; destruct (book s0 !! i)|]; cbn; rewrite lookup_insert_eq; cbn; subst k; lia.
    - unfold balance_of. rewrite E1. lia. }
  eexists. split; [reflexivity|]. split; [rewrite Hbal; apply json_BigInt_toString|exact Hbal].
Qed.

Lemma fetch_sent c s : nonempty wallet_key = true -> keys_ok s -> fresh c s ->
  if refused c s
  then (reply (request_of wallet_key c) s).1 = (402, error_body "insufficient_funds") /\ same_money s (reply (request_of wallet_key c) s).2
  else tells (reply (request_of wallet_key c) s) (player_key c) (after c s).
Proof using Type.
  intros Hw Hk Hf.
  assert (Hgo : reply (request_of wallet_key c) s = match c with
    | OpBalance _ _ _ => ((200, JObj [("balance", JStr (BigInt_toString (balance_of start (player_key c) s)))]%string), count TBalance s)
    | OpBet _ _ _ _ _ _ => bet_or_win start false (received c) s
    | OpWin _ _ _ _ _ _ => bet_or_win start true (received c) s
    | OpRollback _ _ _ _ _ => rollback start (received c) s
    end).
  { unfold Stub.fetch, request_of. cbn [q_authorization q_pathname q_method q_body]. unfold Http.authorization. rewrite Hw.
    unfold opt_eqb. rewrite bool_decide_eq_true_2 by done. by destruct c. }
  rewrite Hgo. destruct c as [op p ccy|op p ccy a tx b|op p ccy a tx b|op p ccy tx b].
  - eexists. split; [reflexivity|]. unfold after. cbn [delta_of]. rewrite Z.add_0_r. split; [apply json_BigInt_toString|apply balance_count].
  - exact (bet_or_win_sent false (received (OpBet op p ccy a tx b)) s a Hf eq_refl).
  - exact (bet_or_win_sent true (received (OpWin op p ccy a tx b)) s a Hf eq_refl).
  - exact (rollback_sent (received (OpRollback op p ccy tx b)) s Hk).
Qed.

(** The wallet's client and the stub understand each other: what the client
    posts is what the stub reads, at every amount; when the answer is in time the
    client has the balance the call leaves, to the unit, or the refusal exactly
    when the funds are short, and then nothing moved. *)
Theorem client_and_stub_agree (c : op_call) (n : hnode) (s : stub) (url : string) (headersMs bodyMs : Z) (ws : list wire)
    (Hkey : nonempty wallet_key = true) (Hok : keys_ok s) (Hfresh : fresh c s)
    (Hc : Http.cached (Keys.uuid_string (Http.caller c)) n = Some (mk_endpoint url (Some wallet_key))) (Hu : nonempty url = true)
    (Hms : headersMs < Http.timer_delay timeout)
    (Hwires : let r := reply (request_of wallet_key c) s in hn_wires n = mk_wire headersMs bodyMs (Response r.1.1 (Some r.1.2)) :: ws) :
  let q := request_of wallet_key c in let r := reply q s in let a := run (call c) n in
  hn_requests a.2 = mk_request (Http.joinUrl url (sent c).1) (q_authorization q) (sent c).2 :: hn_requests n /\
  decode (sent c).2 = Some (q_body q) /\
  if refused c s then a.1 = Raise OperatorInsufficientFunds /\ same_money s r.2
  else exists tx, a.1 = Ok (mk_answer tx (after c s)) /\ balance_of start (player_key c) r.2 = after c s.
Proof using Type.
  cbv zeta in *. split; [by rewrite (run_invoke_sends c n _ Hc Hu)|]. split; [apply decode_sent|].
  assert (Hready : Http.ready (Http.caller c) n) by (by eexists).
  pose proof (fetch_sent c s Hkey Hok Hfresh) as Hs.
  assert (Hnext : Http.next_fetched timeout n = Http.Got (reply (request_of wallet_key c) s).1.1 (Some (reply (request_of wallet_key c) s).1.2)).
  { unfold Http.next_fetched. rewrite Hwires. unfold Http.fetch_result. cbn [wi_headersMs wi_outcome]. by rewrite (proj2 (Z.leb_gt _ _) Hms). }
  destruct (refused c s).
  - destruct Hs as [E Hm]. rewrite E in Hnext. split; [|done].
    destruct (Http.run_invoke_err timeout c n OperatorInsufficientFunds Hready) as (rq & ->); [by rewrite Hnext|done].
  - destruct Hs as (o & E & Hz & Hb). rewrite E in Hnext.
    destruct (Http.run_invoke_ok timeout c n o _ Hready ltac:(by rewrite Hnext) Hz) as (rq & ->). by eexists.
Qed.
End wire.

(** ** A run *)

(** Alice's stake in a slot, and the reversal of it. *)
Definition stake (bet : uuid) (amount : Z) : op_call := OpBet 7 "alice" "EUR" amount (KDebit 1 7 PanelA) (Some bet).
Definition reversal (bet : uuid) : op_call := OpRollback 7 "alice" "EUR" (KDebit 1 7 PanelA) (Some bet).
Definition win (bet : uuid) (amount : Z) : op_call := OpWin 7 "alice" "EUR" amount (KPayout bet) (Some bet).
Definition requests (l : list op_call) : list request := request_of "stub-key" <$> l.
Definition served (l : list op_call) : stub := serve "stub-key" 1000 (requests l) started.
Definition alice_key : string := "alice:EUR".
Definition booked (s : stub) (bet : uuid) : option (Z * Z * Z) :=
  option_map (fun e => (e_bet e, e_win e, e_rollback e)) (book s !! Keys.uuid_string bet).

(** A bet rolled back and its slot taken again, won, with every call repeated,
    and a stake that is refused. *)
Definition a_run : list op_call :=
  [stake 5 300; stake 5 300; reversal 5; reversal 5; stake 6 400; stake 6 400; win 6 900; win 6 900;
   OpBet 7 "alice" "EUR" 2000 (KDebit 1 7 PanelB) (Some 8%N)].

Lemma book_conserves_witness :
  balances (served a_run) !! alice_key = Some 1500 /\ booked (served a_run) 5 = Some (300, 0, 300) /\
  booked (served a_run) 6 = Some (400, 900, 0) /\ booked (served a_run) 8 = None /\
  taken 1000 (served a_run) = net_total (served a_run).
Proof.
  do 4 (split; [vm_compute; reflexivity|]). refine (proj2 (book_conserves "stub-key" 1000 (requests a_run) _)). vm_compute. reflexivity.
Defined.

Lemma retries_apply_once_witness :
  let again := serve "stub-key" 1000 (requests [win 6 900; stake 6 400]) (served [stake 5 300; reversal 5; stake 6 400]) in
  (fetch "stub-key" 1000 (request_of "stub-key" (stake 6 400)) again).1 =
    (200, json_of (mk_result "op-3" "600")) /\
  same_money again (fetch "stub-key" 1000 (request_of "stub-key" (stake 6 400)) again).2.
Proof.
  refine (proj1 (retries_apply_once "stub-key" 1000 (requests [stake 5 300; reversal 5]) (requests [win 6 900; stake 6 400])
    (request_of "stub-key" (stake 6 400)) (Some (Keys.render (KDebit 1 7 PanelA))) _) _ _).
  - vm_compute. reflexivity.
  - split; [by left|reflexivity].
  - intros x Hx [Hp _]. unfold requests in Hx. cbn [fmap list_fmap] in Hx.
    repeat (apply elem_of_cons in Hx as [->|Hx]; [by vm_compute in Hp|]). by apply not_elem_of_nil in Hx.
Defined.

(** The integration document says of a debit that times out and is rolled back
    that the player's balance is correct either way.  The stub forgets a rollback
    it has nothing to undo: when the debit is taken up after it, the stake of a
    bet that does not exist is gone, and the wallet, whose rollback is confirmed,
    never asks again. *)
Definition a_session (_ : uuid) : prog world OperatorSession := mret (mk_opsession 7 "alice" "EUR").
Definition timed_out : world := set_calls [Raise OperatorTimeout; Ok (mk_answer "op-1" 1000)] [] empty_world.

Theorem late_debit_charged :
  let r := run (Seamless.debit a_session 3 false 1 300 BetDebit (KDebit 1 7 PanelA) (Some 5%N)) timed_out in
  rev (w_calls r.2) = [(stake 5 300, false); (reversal 5, true)] /\
  match r.1 with Ok _ => False | Raise _ => True end /\
  balances (served [stake 5 300; reversal 5]) !! alice_key = Some 1000 /\
  balances (served [reversal 5; stake 5 300]) !! alice_key = Some 700 /\ booked (served [reversal 5; stake 5 300]) 5 = Some (300, 0, 0).
Proof. vm_compute. by split_and!. Qed.
End Stub.

(** ** The gate *)

Module Recon.

(** An entry of the operator's statement, in the texts it carries. *)
Record BookEntry := mk_entry { k_bet : string; k_win : string; k_rollback : string }.
(** [fetch] of the book: what it throws, an answer that is not ok, or the book. *)
Inductive pulled := Unreachable | NotOk (status : Z) | Pulled (book : gmap string BookEntry).
Record Check := mk_check { ck_name : string; ck_ok : bool }.

Definition BigInt (s : string) : prog world Z :=
  match js_BigInt s with Some z => mret z | None => raise (JsError "SyntaxError") end.
Definition entry (book : gmap string BookEntry) (b : bet) : option BookEntry := book !! Keys.uuid_string (b_id b).
Definition is_status (t : bet_status) (b : bet) : bool := bool_decide (b_status b = t).

(** The loops keep how many they found; the identifiers are only printed. *)
Definition o1 (book : gmap string BookEntry) (cashed : list bet) : prog world Check :=
  n ← fold_each cashed (fun '(miss, mismatch) b =>
        match entry book b with
        | None => mret (miss + 1, mismatch)
        | Some e =>
            win ← BigInt (k_win e);
            mret (if win <=? 0 then (miss + 1, mismatch) else if negb (win =? b_payout b) then (miss, mismatch + 1) else (miss, mismatch))
        end) (0, 0);
  mret (mk_check "O1" ((n.1 =? 0) && (n.2 =? 0))).

Definition o2 (book : gmap string BookEntry) (busted_ : list bet) : prog world Check :=
  paid ← fold_each busted_ (fun n b =>
        match entry book b with
        | None => mret n
        | Some e => win ← BigInt (k_win e); mret (if 0 <? win then n + 1 else n)
        end) 0;
  mret (mk_check "O2" (paid =? 0)).

Definition o3 (book : gmap string BookEntry) (wagered : list bet) : prog world Check :=
  n ← fold_each wagered (fun '(miss, mismatch) b =>
        match entry book b with
        | None => mret (miss + 1, mismatch)
        | Some e =>
            stake ← BigInt (k_bet e);
            undone ← BigInt (k_rollback e);
            let net := stake - undone in
            mret (if net <=? 0 then (miss + 1, mismatch) else if negb (net =? b_amount b) then (miss, mismatch + 1) else (miss, mismatch))
        end) (0, 0);
  mret (mk_check "O3" ((n.1 =? 0) && (n.2 =? 0))).

Definition in_backlog (b : bet) : bool := bool_decide (b_status b ∈ [reserving; cancelling; payout_pending; voiding]).
Definition o4 (opBets : list bet) : Check := mk_check "O4" (bool_decide (length (List.filter in_backlog opBets) = 0%nat)).

Definition o5 (book : gmap string BookEntry) (opBets wagered cashed : list bet) : prog world Check :=
  n ← fold_each opBets (fun '(sumBet, sumWin, sumRollback) b =>
        match entry book b with
        | None => mret (sumBet, sumWin, sumRollback)
        | Some e =>
            s ← BigInt (k_bet e); w ← BigInt (k_win e); r ← BigInt (k_rollback e);
            mret (sumBet + s, sumWin + w, sumRollback + r)
        end) (0, 0, 0);
  let '(sumBet, sumWin, sumRollback) := n in
  let wageredStake := fold_left (fun a b => a + b_amount b) wagered 0 in
  let cashedPayout := fold_left (fun a b => a + b_payout b) cashed 0 in
  let netDrop := sumBet - sumWin - sumRollback in
  let expectedDrop := wageredStake - cashedPayout in
  mret (mk_check "O5" (netDrop =? expectedDrop)).

(** [process.env.OPERATOR_CODE ?? "load-stub"] *)
Definition OPERATOR_CODE (process_env : Risk.env) : string := nullish (process_env "OPERATOR_CODE"%string) "load-stub"%string.

(** The exit code of the process. *)
Definition main (process_env : Risk.env) (stub : pulled) : prog world Z :=
  try_catch
    match stub with
    | Unreachable | NotOk _ => mret 2
    | Pulled book =>
        op ← db_get (fun w => operator_with_code w (OPERATOR_CODE process_env));
        match op with
        | None => mret 2
        | Some op =>
            opBets ← db_get (bets_where (fun b => bool_decide (b_operatorId b = Some op)));
            let cashed := List.filter (is_status cashed_out) opBets in
            let busted_ := List.filter (is_status busted) opBets in
            let wagered := List.filter (fun b => BetStatus.isWageredStatus (b_status b)) opBets in
            c1 ← o1 book cashed;
            c2 ← o2 book busted_;
            c3 ← o3 book wagered;
            c5 ← o5 book opBets wagered cashed;
            mret (if forallb ck_ok [c1; c2; c3; o4 opBets; c5] then 0 else 1)
        end
    end
    (fun _ => mret 2).

(** *** What it checks *)

Lemma run_fold_each_pure {S A B} (body : B -> A -> prog S B) (f : B -> A -> B) l b s :
  (forall b x, x ∈ l -> run (body b x) s = (Ok (f b x), s)) -> run (fold_each l body b) s = (Ok (fold_left f l b), s).
Proof.
  revert b. induction l as [|x l IH]; intros b H; [done|]. cbn [fold_each fold_left]. rewrite run_bind, H by by left.
  apply IH. intros b' y Hy. apply H. by right.
Qed.

(** Two tallies of which both are zero. *)
Lemma tally2 {A} (bad1 bad2 : A -> bool) l a b : 0 <= a -> 0 <= b ->
  let n := fold_left (fun '(a, b) x => if bad1 x then (a + 1, b) else if bad2 x then (a, b + 1) else (a, b)) l (a, b) in
  (n.1 =? 0) && (n.2 =? 0) = (a =? 0) && (b =? 0) && forallb (fun x => negb (bad1 x) && negb (bad2 x)) l.
Proof.
  revert a b. induction l as [|x l IH]; intros a b Ha Hb; cbn [fold_left forallb]; [cbn; by rewrite andb_true_r|].
  cbv zeta in IH |- *.
  destruct (bad1 x); [|destruct (bad2 x)]; rewrite IH by lia; cbn [negb andb].
  - destruct (Z.eqb_spec (a + 1) 0); [lia|]. by rewrite !andb_false_r.
  - destruct (Z.eqb_spec (b + 1) 0); [lia|]. by rewrite !andb_false_r.
  - done.
Qed.

(** The sum over a map, by keys that cover it. *)
Lemma sum_map_keys {A} (f : A -> Z) (m : gmap string A) ks : NoDup ks -> (forall k, is_Some (m !! k) -> k ∈ ks) ->
  sum_map f m = sumZ (fun k => match m !! k with Some x => f x | None => 0 end) ks.
Proof.
  intros Hnd. revert m. induction Hnd as [|k ks Hk Hnd IH]; intros m Hm.
  - replace m with (∅ : gmap string A); [apply sum_map_empty|]. symmetry. apply map_empty. intros k.
    destruct (m !! k) eqn:E; [|done]. destruct (not_elem_of_nil k). apply Hm. by eexists.
  - cbn [sumZ]. assert (sum_map f (delete k m) = sumZ (fun k => match m !! k with Some x => f x | None => 0 end) ks) as Hd.
    { rewrite IH.
      - assert (forall l, k ∉ l -> sumZ (fun j => match delete k m !! j with Some x => f x | None => 0 end) l =
          sumZ (fun j => match m !! j with Some x => f x | None => 0 end) l) as Hl; [|by apply Hl].
        induction l as [|j l IHl]; intros Hj; [done|]. apply not_elem_of_cons in Hj as [Hj Hl]. cbn [sumZ]. rewrite IHl by done. by rewrite lookup_delete_ne.
      - intros j Hj. destruct (decide (j = k)) as [->|Hne]; [rewrite lookup_delete_eq in Hj; by destruct Hj|].
        rewrite lookup_delete_ne in Hj by done. apply Hm in Hj. by apply elem_of_cons in Hj as [|]. }
    rewrite <- Hd. destruct (m !! k) as [x|] eqn:E; [by apply sum_map_lookup|]. by rewrite (sum_map_delete_None f m k E).
Qed.

(** The statement the stub prints. *)
Definition statement (s : Stub.stub) : gmap string BookEntry :=
  (fun e => mk_entry (BigInt_toString (Stub.e_bet e)) (BigInt_toString (Stub.e_win e)) (BigInt_toString (Stub.e_rollback e))) <$> Stub.book s.

Section exact.
Context (s : Stub.stub).

Definition booked (b : bet) : option Stub.BookEntry := Stub.book s !! Keys.uuid_string (b_id b).
Definition win_short (b : bet) : bool := match booked b with Some e => Stub.e_win e <=? 0 | None => true end.
Definition win_differs (b : bet) : bool := match booked b with Some e => negb (Stub.e_win e =? b_payout b) | None => false end.
Definition stake_short (b : bet) : bool := match booked b with Some e => Stub.e_bet e - Stub.e_rollback e <=? 0 | None => true end.
Definition stake_differs (b : bet) : bool := match booked b with Some e => negb (Stub.e_bet e - Stub.e_rollback e =? b_amount b) | None => false end.
Definition net_booked (b : bet) : Z := match booked b with Some e => Stub.net e | None => 0 end.

Lemma entry_statement b : entry (statement s) b =
  option_map (fun e => mk_entry (BigInt_toString (Stub.e_bet e)) (BigInt_toString (Stub.e_win e)) (BigInt_toString (Stub.e_rollback e))) (booked b).
Proof. unfold entry, statement, booked. rewrite lookup_fmap. by destruct (Stub.book s !! _). Qed.

Lemma run_BigInt z (w : world) : run (BigInt (BigInt_toString z)) w = (Ok z, w).
Proof. unfold BigInt. by rewrite js_BigInt_toString. Qed.

#[local] Ltac entries := intros; rewrite entry_statement; unfold win_short, win_differs, stake_short, stake_differs;
  match goal with |- context [booked ?x] => destruct (booked x) as [e|]; cbn [option_map k_bet k_win k_rollback] end;
  [repeat (rewrite run_bind, run_BigInt; cbv beta iota); rewrite run_ret; do 2 f_equal; by repeat case_match|done].

Lemma run_o1 l w : run (o1 (statement s) l) w = (Ok (mk_check "O1" (forallb (fun b => negb (win_short b) && negb (win_differs b)) l)), w).
Proof.
  unfold o1. rewrite run_bind.
  rewrite (run_fold_each_pure _ (fun '(a, b) x => if win_short x then (a + 1, b) else if win_differs x then (a, b + 1) else (a, b))); [|intros [? ?]; entries].
  rewrite run_ret. by rewrite tally2.
Qed.
Lemma run_o3 l w : run (o3 (statement s) l) w = (Ok (mk_check "O3" (forallb (fun b => negb (stake_short b) && negb (stake_differs b)) l)), w).
Proof.
  unfold o3. rewrite run_bind.
  rewrite (run_fold_each_pure _ (fun '(a, b) x => if stake_short x then (a + 1, b) else if stake_differs x then (a, b + 1) else (a, b))); [|intros [? ?]; entries].
  rewrite run_ret. by rewrite tally2.
Qed.
Lemma tally1 {A} (bad : A -> bool) l a : 0 <= a ->
  (fold_left (fun a x => if bad x then a + 1 else a) l a =? 0) = (a =? 0) && forallb (fun x => negb (bad x)) l.
Proof.
  revert a. induction l as [|x l IH]; intros a Ha; cbn [fold_left forallb]; [by rewrite andb_true_r|].
  destruct (bad x); rewrite IH by lia; [|done]. destruct (Z.eqb_spec (a + 1) 0); [lia|]. by rewrite !andb_false_r.
Qed.

Definition won (b : bet) : bool := match booked b with Some e => 0 <? Stub.e_win e | None => false end.
Lemma run_o2 l w : run (o2 (statement s) l) w = (Ok (mk_check "O2" (forallb (fun b => negb (won b)) l)), w).
Proof.
  unfold o2. rewrite run_bind.
  rewrite (run_fold_each_pure _ (fun a x => if won x then a + 1 else a)); [|intros ?; unfold won; entries].
  rewrite run_ret. by rewrite tally1.
Qed.

Lemma run_o5 all wagered cashed w : run (o5 (statement s) all wagered cashed) w =
  (Ok (mk_check "O5" (sumZ net_booked all =? sumZ b_amount wagered - sumZ b_payout cashed)), w).
Proof.
  unfold o5. rewrite run_bind.
  rewrite (run_fold_each_pure _ (fun '(x, y, z) b => match booked b with
    | Some e => (x + Stub.e_bet e, y + Stub.e_win e, z + Stub.e_rollback e) | None => (x, y, z) end)); [|intros [[? ?] ?]; entries].
  assert (forall l x y z, let n := fold_left (fun '(x, y, z) b => match booked b with
    | Some e => (x + Stub.e_bet e, y + Stub.e_win e, z + Stub.e_rollback e) | None => (x, y, z) end) l (x, y, z) in
    n.1.1 - n.1.2 - n.2 = x - y - z + sumZ net_booked l) as Hsum.
  { induction l as [|b l IH]; intros x y z; cbn [fold_left sumZ]; [cbn; lia|]. cbv zeta in IH |- *. unfold net_booked at 1.
    destruct (booked b); rewrite IH; [unfold Stub.net|]; lia. }
  specialize (Hsum all 0 0 0). cbv zeta in Hsum. destruct (fold_left _ all _) as [[x y] z]. cbn [fst snd] in Hsum.
  rewrite run_ret, !fold_left_sumZ. do 4 f_equal; lia.
Qed.

(** The bets and the book agree: what every check asks, on every bet. *)
Record reconciled (bets : list bet) : Prop := {
  rc_won b : b ∈ bets -> b_status b = cashed_out -> exists e, booked b = Some e /\ Stub.e_win e = b_payout b /\ 0 < b_payout b;
  rc_lost b e : b ∈ bets -> b_status b = busted -> booked b = Some e -> Stub.e_win e <= 0;
  rc_staked b : b ∈ bets -> BetStatus.isWageredStatus (b_status b) = true ->
    exists e, booked b = Some e /\ Stub.e_bet e - Stub.e_rollback e = b_amount b /\ 0 < b_amount b;
  rc_settled b : b ∈ bets -> b_status b ∉ [reserving; cancelling; payout_pending; voiding];
  rc_total : sumZ net_booked bets =
    sumZ b_amount (List.filter (fun b => BetStatus.isWageredStatus (b_status b)) bets) - sumZ b_payout (List.filter (is_status cashed_out) bets)
}.

Definition all_checks (bets : list bet) : bool :=
  forallb (fun b => negb (win_short b) && negb (win_differs b)) (List.filter (is_status cashed_out) bets) &&
  (forallb (fun b => negb (won b)) (List.filter (is_status busted) bets) &&
  (forallb (fun b => negb (stake_short b) && negb (stake_differs b)) (List.filter (fun b => BetStatus.isWageredStatus (b_status b)) bets) &&
  (bool_decide (length (List.filter in_backlog bets) = 0%nat) &&
  ((sumZ net_booked bets =? sumZ b_amount (List.filter (fun b => BetStatus.isWageredStatus (b_status b)) bets)
     - sumZ b_payout (List.filter (is_status cashed_out) bets)) && true)))).

Lemma forallb_filter {A} (p q : A -> bool) l : forallb p (List.filter q l) = true <-> forall x, x ∈ l -> q x = true -> p x = true.
Proof.
  rewrite forallb_forall. setoid_rewrite List.filter_In. setoid_rewrite <- list_elem_of_In. naive_solver.
Qed.

Lemma is_status_iff t b : is_status t b = true <-> b_status b = t.
Proof. apply bool_decide_eq_true. Qed.

Lemma all_checks_spec bets : all_checks bets = true <-> reconciled bets.
Proof.
  unfold all_checks. rewrite !andb_true_iff, !forallb_filter, bool_decide_eq_true, Z.eqb_eq.
  assert (H4 : length (List.filter in_backlog bets) = 0%nat <-> forall b, b ∈ bets -> b_status b ∉ [reserving; cancelling; payout_pending; voiding]).
  { rewrite length_zero_iff_nil. split.
    - intros Hn b Hb Hs. assert (b ∈ List.filter in_backlog bets) as Hin by (apply list_elem_of_In, List.filter_In; split; [by apply list_elem_of_In|by apply bool_decide_eq_true]).
      rewrite Hn in Hin. by apply not_elem_of_nil in Hin.
    - intros Hn. destruct (List.filter in_backlog bets) as [|b l] eqn:E; [done|].
      assert (b ∈ List.filter in_backlog bets) as [Hb%list_elem_of_In Hs%bool_decide_eq_true]%list_elem_of_In%List.filter_In by (rewrite E; by left).
      by destruct (Hn b Hb). }
  rewrite H4. clear H4.
  assert (H1 : forall b, negb (win_short b) && negb (win_differs b) = true <-> exists e, booked b = Some e /\ Stub.e_win e = b_payout b /\ 0 < b_payout b).
  { intros b. unfold win_short, win_differs. destruct (booked b) as [e|]; [|split; [done|by intros (? & ? & _)]].
    rewrite andb_true_iff, negb_true_iff, negb_involutive, Z.leb_gt, Z.eqb_eq. split; [intros [? E]; exists e; by rewrite <- E|].
    intros (? & [= <-] & -> & ?). by split. }
  assert (H2 : forall b, negb (won b) = true <-> forall e, booked b = Some e -> Stub.e_win e <= 0).
  { intros b. unfold won. rewrite negb_true_iff. destruct (booked b) as [e|]; [rewrite Z.ltb_ge; naive_solver|done]. }
  assert (H3 : forall b, negb (stake_short b) && negb (stake_differs b) = true <->
    exists e, booked b = Some e /\ Stub.e_bet e - Stub.e_rollback e = b_amount b /\ 0 < b_amount b).
  { intros b. unfold stake_short, stake_differs. destruct (booked b) as [e|]; [|split; [done|by intros (? & ? & _)]].
    rewrite andb_true_iff, negb_true_iff, negb_involutive, Z.leb_gt, Z.eqb_eq. split; [intros [? E]; exists e; by rewrite <- E|].
    intros (? & [= <-] & -> & ?). by split. }
  setoid_rewrite H1. setoid_rewrite H2. setoid_rewrite H3. setoid_rewrite is_status_iff.
  split.
  - intros (Hw & Hl & Hs & Hb & Ht & _). split; [exact Hw|intros b e Hin Hst; by apply (Hl b)|exact Hs|exact Hb|exact Ht].
  - intros [Hw Hl Hs Hb Ht]. split_and!; [exact Hw|intros b Hin Hst e; by apply Hl|exact Hs|exact Hb|exact Ht|done].
Qed.
End exact.

Section gate.
Context (process_env : Risk.env).

Definition their_bets (op : uuid) (w : world) : list bet := bets_where (fun b => bool_decide (b_operatorId b = Some op)) w.

Lemma run_main s op w : w_faults w = [] -> operator_with_code w (OPERATOR_CODE process_env) = Some op ->
  run (main process_env (Pulled (statement s))) w = (Ok (if all_checks s (their_bets op w) then 0 else 1), w).
Proof using Type.
  intros Hf Hop. unfold main. rewrite run_try, run_bind, run_db_get by done. rewrite Hop. cbv beta iota.
  rewrite run_bind, run_db_get by done. cbv beta iota. fold (their_bets op w).
  rewrite run_bind, run_o1. cbv beta iota. rewrite run_bind, run_o2. cbv beta iota. rewrite run_bind, run_o3. cbv beta iota.
  rewrite run_bind, run_o5. cbv beta iota. by rewrite run_ret.
Qed.

(** The total of the book, by bets that cover it. *)
Lemma net_by_bets s bets : NoDup (b_id <$> bets) -> (forall b, b ∈ bets -> Keys.uuid_ok (b_id b)) ->
  (forall id, is_Some (Stub.book s !! id) -> exists b, b ∈ bets /\ Keys.uuid_string (b_id b) = id) ->
  Stub.net_total s = sumZ (net_booked s) bets.
Proof using Type.
  intros Hnd Hok Hcov. unfold Stub.net_total. rewrite (sum_map_keys _ _ ((fun b => Keys.uuid_string (b_id b)) <$> bets)).
  - clear. induction bets as [|b bets IH]; [done|]. cbn [fmap list_fmap sumZ]. by rewrite <- IH.
  - clear Hcov. induction bets as [|b bets IH]; [constructor|]. cbn [fmap list_fmap] in Hnd |- *. apply NoDup_cons in Hnd as [Hb Hnd].
    apply NoDup_cons. split; [|apply IH; [done|intros x Hx; apply Hok; by right]].
    intros (x & E & Hx)%list_elem_of_fmap. apply Hb. apply Keys.uuid_inj in E as ->; [by apply list_elem_of_fmap_2|by apply Hok; left|by apply Hok; right].
  - intros k Hk. destruct (Hcov k Hk) as (b & Hb & <-). apply list_elem_of_fmap. by exists b.
Qed.

Lemma their_bets_nodup op w : (forall i b, w_bets w !! i = Some b -> b_id b = i) -> NoDup (b_id <$> their_bets op w).
Proof using Type.
  intros Hkeyed. unfold their_bets, bets_where.
  assert (forall m : list (uuid * bet), NoDup m.*1 -> (forall i b, (i, b) ∈ m -> b_id b = i) ->
    NoDup (b_id <$> List.filter (fun b => bool_decide (b_operatorId b = Some op)) m.*2)) as Hm.
  2: { apply Hm; [apply NoDup_fst_map_to_list|]. intros i b Hib%elem_of_map_to_list. by apply Hkeyed. }
  induction m as [|[i b] m IH]; intros Hnd Hid; [constructor|]. cbn in Hnd |- *. apply NoDup_cons in Hnd as [Hi Hnd].
  assert (Hrest : NoDup (b_id <$> List.filter (fun b => bool_decide (b_operatorId b = Some op)) m.*2)) by (apply IH; [done|]; intros j x Hx; apply Hid; by right).
  destruct (bool_decide _); [|done]. rewrite fmap_cons. apply NoDup_cons. split; [|done].
  intros (x & E & [Hx _]%list_elem_of_In%List.filter_In)%list_elem_of_fmap. apply list_elem_of_In, list_elem_of_fmap in Hx as ([j y] & -> & Hx). cbn in E.
  rewrite (Hid i b) in E by by left. rewrite (Hid j y) in E by by right. subst. apply Hi. apply list_elem_of_fmap. by exists (j, y).
Qed.

End gate.

(** ** Examples *)

Definition a_bet (id : uuid) (amount : Z) (st : bet_status) (payout : Z) : bet :=
  mk_bet id 1 7 1 PanelA amount None st None payout false (Some 7%N) "EUR" None None None 0 None.
Definition load_world : world :=
  set_operators {[ 7%N := mk_operator true false "launch" ["EUR"]%string None [] None None None None "load-stub" "Load stub" None None ]} empty_world.
Definition no_env (_ : string) : option string := None.
(** The bets of [Stub.a_run] as the service ends with: one withdrawn, one won. *)
Definition settled_world : world := set_bets {[ 5%N := a_bet 5 300 cancelled 0; 6%N := a_bet 6 400 cashed_out 900 ]} load_world.
Definition gate_of (l : list op_call) (w : world) : res Z := (run (main no_env (Pulled (statement (Stub.served l)))) w).1.


(** What the operator booked under a bet that is not in the table is never looked
    at: the stake of [Stub.late_debit_charged], whose bet was deleted when its
    debit timed out, is missing from the player and the gate passes. *)
Theorem unknown_bet_never_seen :
  let l := [Stub.reversal 5; Stub.stake 5 300] in
  gate_of l load_world = Ok 0 /\ Stub.taken 1000 (Stub.served l) = 300 /\ Stub.booked (Stub.served l) 5 = Some (300, 0, 0).
Proof. vm_compute. by split_and!. Qed.

(** The conservation check adds up the bets that are not wagered: a withdrawn bet
    whose reversal never came is hidden by one that was given back twice. *)
Theorem opposite_errors_pass :
  let l := [Stub.stake 5 300; OpBet 7 "alice" "EUR" 300 (KDebit 1 7 PanelB) (Some 6%N);
            OpRollback 7 "alice" "EUR" (KDebit 1 7 PanelB) (Some 6%N); OpWin 7 "alice" "EUR" 300 (KRefund 6) (Some 6%N)] in
  gate_of l (set_bets {[ 5%N := a_bet 5 300 cancelled 0; 6%N := a_bet 6 300 cancelled 0 ]} load_world) = Ok 0 /\
  Stub.booked (Stub.served l) 5 = Some (300, 0, 0) /\ Stub.booked (Stub.served l) 6 = Some (300, 300, 300).
Proof. vm_compute. by split_and!. Qed.
End Recon.
