(* ===== verification/AuditLog.v ===== *)
(** * The audit log

    [audit/audit-event.service.ts]: the append-only writer and the scrubber its
    fields pass through.  The length [JSON.stringify] gives a value is the
    parameter [stringify_length] (V8's printing of numbers is not modelled).
    Proved: the scrubber leaves no secret-looking key with its value, at any
    depth, and changes nothing else; a failed write never reaches the caller. *)

From S2P Require Import Prelude Effects Js Money Schema.

Open Scope Z_scope.

Module Audit.

Definition REDACT_KEY_SUBSTRINGS : list string :=
  ["secret"; "password"; "passwd"; "token"; "apikey"; "api_key"; "walletapikey"; "privatekey";
   "private_key"; "launchsecret"]%string.

Definition MAX_AUDIT_FIELD_BYTES : Z := 16384.

Definition isSecretKey (key : string) : bool :=
  let k := toLowerCase key in List.existsb (fun s => includes s k) REDACT_KEY_SUBSTRINGS.

(** JSON values are trees, so the cycle guard never fires on them. *)
Fixpoint scrub (value : json) : json :=
  match value with
  | JArr l => JArr (List.map scrub l)
  | JObj fields =>
      JObj (List.map (fun kv => (kv.1, if isSecretKey kv.1 then JStr "[redacted]" else scrub kv.2)) fields)
  | v => v
  end.

(** No secret key keeps a value, at any depth. *)
Fixpoint redacted (v : json) : bool :=
  match v with
  | JArr l => List.forallb redacted l
  | JObj fields =>
      List.forallb (fun kv => if isSecretKey kv.1
                              then match kv.2 with JStr s => eqb_str s "[redacted]" | _ => false end
                              else redacted kv.2) fields
  | _ => true
  end.

(** The fields of [v] that are not under a secret key are those of [v']. *)
Fixpoint same_public (v v' : json) {struct v} : Prop :=
  match v, v' with
  | JArr l, JArr l' =>
      (fix go l l' := match l, l' with
                      | [], [] => True
                      | x :: l, x' :: l' => same_public x x' /\ go l l'
                      | _, _ => False
                      end) l l'
  | JObj f, JObj f' =>
      (fix go f f' := match f, f' with
                      | [], [] => True
                      | (k, x) :: f, (k', x') :: f' =>
                          k = k' /\ (isSecretKey k = false -> same_public x x') /\ go f f'
                      | _, _ => False
                      end) f f'
  | JArr _, _ | JObj _, _ => False
  | v, v' => v = v'
  end.

(** Induction on JSON trees. *)
Section json_ind.
Context (P : json -> Prop).
Context (Hleaf : forall v, match v with JArr _ | JObj _ => True | _ => P v end).
Context (Harr : forall l, Forall P l -> P (JArr l)).
Context (Hobj : forall f, Forall (fun kv => P kv.2) f -> P (JObj f)).

Fixpoint json_tree_ind (v : json) : P v :=
  match v with
  | JArr l => Harr l ((fix go l : Forall P l :=
      match l with [] => Forall_nil_2 _ | x :: l => Forall_cons_2 _ _ _ (json_tree_ind x) (go l) end) l)
  | JObj f => Hobj f ((fix go f : Forall (fun kv => P kv.2) f :=
      match f with [] => Forall_nil_2 _ | x :: f => Forall_cons_2 _ _ _ (json_tree_ind x.2) (go f) end) f)
  | v => Hleaf v
  end.
End json_ind.

(** The scrubber is complete and exact: in its result every value under a
    secret-looking key, at any depth of objects and arrays, is the redaction
    marker; every key stays, and every value not under such a key is unchanged;
    and scrubbing twice is scrubbing once. *)
Theorem scrub_exact (v : json) :
  redacted (scrub v) = true /\ same_public v (scrub v) /\ scrub (scrub v) = scrub v.
Proof.
  pattern v. apply json_tree_ind; clear v; [by intros []|intros l Hl|intros f Hf].
  - induction Hl as [|x l (H1 & H2 & H3) _ (IH1 & IH2 & IH3)]; [done|].
    cbn in *. injection IH3 as IH3. rewrite H1, H3, IH1, IH3. by split_and!.
  - induction Hf as [|[k x] f (H1 & H2 & H3) _ (IH1 & IH2 & IH3)]; [done|].
    cbn -[isSecretKey] in *. injection IH3 as IH3. rewrite IH1, IH3.
    destruct (isSecretKey k); cbn -[isSecretKey]; rewrite ?H1, ?H3; by split_and!.
Qed.

Section writer.
Context (stringify_length : json -> Z).

Definition sanitizeAuditPayload (v : json) : json :=
  let scrubbed := scrub v in
  let len := stringify_length scrubbed in
  if len >? MAX_AUDIT_FIELD_BYTES
  then JObj [("truncated", JBool true); ("bytes", JNum (QArith_base.inject_Z len))]%string
  else scrubbed.

Definition sanitize_field (v : option json) : option json :=
  match v with Some JNull | None => None | Some v => Some (sanitizeAuditPayload v) end.

Definition record (e : audit_event) : prog world unit :=
  try_catch
    (db_set (fun w => set_audit (w_audit w ++
       [mk_audit_row (w_now w)
          (mk_audit (a_actor e) (a_action e) (a_targetType e) (a_targetId e) (a_operatorId e) (a_ip e)
             (sanitize_field (a_before e)) (sanitize_field (a_after e)) (sanitize_field (a_meta e)))]) w))
    (fun err => _ ← emit (EvMetric "errors" "audit_event_write");
                emit (EvMetric "audit_event_write_failures" "")).

(** Only the audit table may change. *)
Definition audit_frame (w w' : world) : Prop :=
  w_bets w' = w_bets w /\ w_rounds w' = w_rounds w /\ w_wallets w' = w_wallets w /\
  w_ledger w' = w_ledger w /\ w_profiles w' = w_profiles w /\ w_sessions w' = w_sessions w /\
  w_chains w' = w_chains w /\ w_seeds w' = w_seeds w /\ w_rollbacks w' = w_rollbacks w /\
  w_operators w' = w_operators w /\ w_users w' = w_users w /\
  exists new, w_audit w' = w_audit w ++ new.

#[export] Instance audit_frame_rel : TableRel audit_frame.
Proof.
  split; [split|].
  - intros w. unfold audit_frame. split_and!; try done. exists []. by rewrite app_nil_r.
  - unfold audit_frame. intros x y z ??; destruct_and!; split_and!; try congruence.
    all: repeat match goal with H : exists _, _ |- _ => destruct H end.
    eexists. match goal with H : w_audit z = _, H' : w_audit y = _ |- _ => rewrite H, H' end.
    by rewrite <- app_assoc.
  - unfold tables_eq, audit_frame. intros; destruct_and!; split_and!; try done.
    exists []. by rewrite app_nil_r.
Qed.

Lemma steps_audit_record e : steps_in audit_frame (record e).
Proof.
  unfold record. apply steps_try; [|intros; steps]. apply steps_db_set; [apply _|].
  intros w. unfold audit_frame. split_and!; try done. by eexists.
Qed.

Lemma run_audit_record e w : w_faults w = [] -> exists l, run (record e) w = (Ok tt, set_audit l w).
Proof. intros Hf. unfold record. rewrite run_try. unfold db_set. rewrite run_db_nofault by done. eauto. Qed.

(** The writer never throws, whatever fails. *)
Lemma audit_record_total e w : exists w', run (record e) w = (Ok tt, w').
Proof.
  unfold record. rewrite run_try. unfold db_set, db. rewrite run_atom_res. unfold db_step.
  destruct (w_faults w) as [|[] fs]; eexists; reflexivity.
Qed.
End writer.
End Audit.
