(* ===== verification/OperatorConfig.v ===== *)
(** * Per-operator limits and responsible gambling

    [operator/bet-limits.ts] and [operator/rg-config.ts]: the two untyped JSON
    columns of an operator, from the database to the claims of a play token.
    A schema of the validation library is the predicate it declares, giving the
    parsed value; a JSON [undefined] is [None].
    Proved: what is resolved for a currency is well formed, is the first entry
    of that currency whatever the case of its key, and is found whenever there
    is one; the claims a token carries read back as what was resolved. *)

From Stdlib Require Import QArith.
From S2P Require Import Prelude Js Money.

Open Scope Z_scope.

(** Effective per-session responsible-gambling controls. *)
Record EffectiveRg := mk_rg {
  realityCheckIntervalSec : option Z; maxSessionSec : option Z; enforceRealityCheck : bool;
  maxSessionLoss : option Z; maxSessionWager : option Z
}.

(** ** Schemas *)

Module Schemas.
(** [z.number().int()] with a lower and an optional upper bound. *)
Definition z_int (lo : Z) (hi : option Z) (v : json) : option Z :=
  match v with
  | JNum q => if js_isInteger (Fin q) && js_ge (Fin q) lo
                 && match hi with Some h => js_le (Fin q) h | None => true end
              then Some (Qfloor_Z q) else None
  | _ => None
  end.

Definition z_boolean (v : json) : option bool := match v with JBool b => Some b | _ => None end.

(** [.optional()]: absent is accepted, null is not. *)
Definition z_optional {A} (parse : json -> option A) (v : option json) : option (option A) :=
  match v with None => Some None | Some v => Some <$> parse v end.

(** [z.record(z.string().min(1), parse)]; a [__proto__] entry is left out of the result. *)
Definition z_record {A} (parse : json -> option A) (v : json) : option (list (string * A)) :=
  match v with
  | JObj f =>
      if forallb nonempty (js_keys f) then
        entries ← mapM (fun k => x ← (assoc_last k f ≫= parse); Some (k, x)) (js_keys f);
        Some (List.filter (fun e => negb (eqb_str e.1 "__proto__")) entries)
      else None
  | _ => None
  end.

Lemma z_int_bounds lo hi v n : z_int lo hi v = Some n ->
  lo <= n /\ match hi with Some h => n <= h | None => True end.
Proof.
  destruct v; try done. unfold z_int. destruct (js_isInteger (Fin q)) eqn:Hq; [|done].
  rewrite (js_ge_int _ _ Hq). destruct hi as [h|]; rewrite ?(js_le_int _ _ Hq);
    destruct (lo <=? Qfloor_Z q) eqn:E1; try done; [destruct (Qfloor_Z q <=? h) eqn:E2; [|done]|];
    cbn; intros [= <-]; lia.
Qed.

Lemma z_record_entry {A} (parse : json -> option A) v l k x :
  z_record parse v = Some l -> (k, x) ∈ l -> exists v', parse v' = Some x.
Proof.
  destruct v as [| | | | |f]; try done. unfold z_record. destruct (forallb _ _); [|done].
  intros (entries & Hm & Hl)%bind_Some Hin. injection Hl as <-.
  apply list_elem_of_In, List.filter_In in Hin as [Hin%list_elem_of_In _].
  apply mapM_Some_1 in Hm. apply list_elem_of_lookup in Hin as [i Hi].
  apply (Forall2_lookup_r _ _ _ _ _ Hm) in Hi as (k' & _ & Hk).
  apply bind_Some in Hk as (y & Hy & [= <- <-]). apply bind_Some in Hy as (v' & _ & Hv'). eauto.
Qed.
End Schemas.

Section lookup.
(** [for (const k of Object.keys(cfg)) if (k.toUpperCase() === want) return cfg[k]] *)
Context {A : Type}.

Definition find_currency (currency : string) (cfg : list (string * A)) : option A :=
  snd <$> List.find (fun e => eqb_str (toUpperCase e.1) (toUpperCase currency)) cfg.

(** The first entry of that currency, and none only when there is none. *)
Definition first_entry (currency : string) (cfg : list (string * A)) (x : A) : Prop :=
  exists pre k post, cfg = pre ++ (k, x) :: post /\ toUpperCase k = toUpperCase currency /\
    Forall (fun e => toUpperCase e.1 <> toUpperCase currency) pre.

Lemma find_currency_spec c cfg :
  match find_currency c cfg with
  | Some x => first_entry c cfg x
  | None => Forall (fun e => toUpperCase e.1 <> toUpperCase c) cfg
  end.
Proof.
  unfold find_currency. induction cfg as [|[k x] cfg IH]; cbn; [constructor|].
  destruct (eqb_str (toUpperCase k) (toUpperCase c)) eqn:E; cbn.
  - apply eqb_str_eq in E. exists [], k, cfg. by split_and!.
  - apply eqb_str_false in E. destruct (snd <$> _).
    + destruct IH as (pre & k' & post & -> & Hk & Hpre). exists ((k, x) :: pre), k', post. split_and!; [done..|].
      by constructor.
    + by constructor.
Qed.

Lemma first_entry_in c cfg x : first_entry c cfg x -> exists k, (k, x) ∈ cfg.
Proof. intros (pre & k & post & -> & _). exists k. set_solver. Qed.
End lookup.

(** ** Bet limits *)

Module BetLimits.
Import Schemas.

Definition PerCurrencyLimitSchema (v : json) : option Risk.PerBetLimits :=
  match v with
  | JObj f =>
      minBet ← (assoc_last "minBet" f ≫= z_int 0 None);
      maxBet ← (assoc_last "maxBet" f ≫= z_int 1 None);
      maxWinPerBet ← (assoc_last "maxWinPerBet" f ≫= z_int 1 None);
      if (minBet <=? maxBet) && (maxBet <=? maxWinPerBet)
      then Some (Risk.Build_PerBetLimits minBet maxBet maxWinPerBet) else None
  | _ => None
  end.

Definition BetLimitsSchema : json -> option (list (string * Risk.PerBetLimits)) :=
  z_record PerCurrencyLimitSchema.

(** [None] is the ZodError it throws. *)
Definition validateBetLimits (v : json) : option (list (string * Risk.PerBetLimits)) := BetLimitsSchema v.

Definition parseBetLimits (v : option json) : option (list (string * Risk.PerBetLimits)) :=
  match v with None | Some JNull => None | Some v => BetLimitsSchema v end.

Definition effectiveLimitsFor (v : option json) (currency : string) : option Risk.PerBetLimits :=
  parseBetLimits v ≫= find_currency currency.

Definition serializeBetLimits (l : Risk.PerBetLimits) : json :=
  JObj [("minBet", JStr (BigInt_toString (Risk.pl_minBet l)));
        ("maxBet", JStr (BigInt_toString (Risk.pl_maxBet l)));
        ("maxWinPerBet", JStr (BigInt_toString (Risk.pl_maxWinPerBet l)))]%string.

Definition deserializeBetLimits (v : option json) : option Risk.PerBetLimits :=
  match v with
  | Some (JObj o) =>
      minBet ← (assoc_last "minBet" o ≫= json_BigInt);
      maxBet ← (assoc_last "maxBet" o ≫= json_BigInt);
      maxWinPerBet ← (assoc_last "maxWinPerBet" o ≫= json_BigInt);
      if (minBet <? 0) || (maxBet <? minBet) || (maxWinPerBet <? maxBet) then None
      else Some (Risk.Build_PerBetLimits minBet maxBet maxWinPerBet)
  | _ => None
  end.

(** What the bet path may rely on. *)
Definition limits_ok (l : Risk.PerBetLimits) : Prop :=
  0 <= Risk.pl_minBet l <= Risk.pl_maxBet l /\ Risk.pl_maxBet l <= Risk.pl_maxWinPerBet l.

Lemma schema_ok v l : PerCurrencyLimitSchema v = Some l -> limits_ok l /\ 0 < Risk.pl_maxBet l.
Proof.
  destruct v as [| | | | |f]; try done. cbn.
  intros (lo & Hlo & H)%bind_Some. apply bind_Some in H as (hi & Hhi & H). apply bind_Some in H as (win & Hwin & H).
  apply bind_Some in Hlo as (? & _ & Hlo%z_int_bounds). apply bind_Some in Hhi as (? & _ & Hhi%z_int_bounds).
  destruct (lo <=? hi) eqn:E1, (hi <=? win) eqn:E2; try done. injection H as <-. unfold limits_ok. cbn. lia.
Qed.

Lemma parse_ok v cfg k l : parseBetLimits v = Some cfg -> (k, l) ∈ cfg -> limits_ok l /\ 0 < Risk.pl_maxBet l.
Proof.
  intros Hp Hin. assert (exists v', BetLimitsSchema v' = Some cfg) as [v' Hv] by (destruct v as [[]|]; cbn [parseBetLimits] in Hp; first [done|eauto]).
  destruct (z_record_entry _ _ _ _ _ Hv Hin) as [x Hx]. by apply (schema_ok x).
Qed.

Lemma deserialize_serialize l : limits_ok l -> deserializeBetLimits (Some (serializeBetLimits l)) = Some l.
Proof.
  intros [[H1 H2] H3]. destruct l as [lo hi win]. cbn -[json_BigInt BigInt_toString] in *.
  str_literals. cbn [mbind option_bind]. rewrite !json_BigInt_toString. cbn.
  by rewrite (proj2 (Z.ltb_ge lo 0)), (proj2 (Z.ltb_ge hi lo)), (proj2 (Z.ltb_ge win hi)).
Qed.

Lemma deserialize_ok v l : deserializeBetLimits v = Some l -> limits_ok l.
Proof.
  destruct v as [[| | | | |o]|]; try done. cbn -[json_BigInt].
  intros (lo & _ & H)%bind_Some. apply bind_Some in H as (hi & _ & H). apply bind_Some in H as (win & _ & H).
  destruct (lo <? 0) eqn:?, (hi <? lo) eqn:?, (win <? hi) eqn:?; try done. injection H as <-. unfold limits_ok. cbn. lia.
Qed.

Lemma effectiveLimitsFor_ok v c l : effectiveLimitsFor v c = Some l -> limits_ok l.
Proof.
  intros (cfg & Hp & Hf)%bind_Some. pose proof (find_currency_spec c cfg) as Hs. rewrite Hf in Hs.
  destruct (first_entry_in _ _ _ Hs) as [k Hk]. by destruct (parse_ok _ _ _ _ Hp Hk).
Qed.

(** The limits resolved for a currency are those of the first entry of the
    operator's configuration for that currency, whatever the case of its key,
    and they are well formed: a non-negative minimum, at most the maximum, at
    most the win cap.  Nothing is resolved only when the configuration is
    absent or invalid as a whole, or has no such entry. *)
Theorem effectiveLimitsFor_first (v : option json) (currency : string) :
  match effectiveLimitsFor v currency with
  | Some l => limits_ok l /\ 0 < Risk.pl_maxBet l /\
              exists cfg, parseBetLimits v = Some cfg /\ first_entry currency cfg l
  | None => forall cfg, parseBetLimits v = Some cfg ->
              Forall (fun e => toUpperCase e.1 <> toUpperCase currency) cfg
  end.
Proof.
  unfold effectiveLimitsFor. destruct (parseBetLimits v) as [cfg|] eqn:Hp; cbn; [|done].
  pose proof (find_currency_spec currency cfg) as Hf. destruct (find_currency currency cfg) as [l|].
  - destruct (first_entry_in _ _ _ Hf) as [k Hk]. destruct (parse_ok _ _ _ _ Hp Hk). eauto.
  - by intros cfg' [= <-].
Qed.
End BetLimits.

(** ** Responsible gambling *)

Module Rg.
Import Schemas.

Definition MIN_TIME_SEC : Z := 60.
Definition MAX_REALITY_CHECK_INTERVAL_SEC : Z := 86400.
Definition MAX_SESSION_SEC : Z := 2592000.

Definition PerCurrencyRgLimitSchema (v : json) : option (option Z * option Z) :=
  match v with
  | JObj f => loss ← z_optional (z_int 1 None) (assoc_last "maxSessionLoss" f);
              wager ← z_optional (z_int 1 None) (assoc_last "maxSessionWager" f);
              Some (loss, wager)
  | _ => None
  end.

Record RgConfig := mk_rg_config {
  g_realityCheckIntervalSec : option Z; g_maxSessionSec : option Z; g_enforceRealityCheck : option bool;
  g_limits : option (list (string * (option Z * option Z)))
}.

(** [.strict()]: no other key. *)
Definition RgConfigSchema (v : json) : option RgConfig :=
  match v with
  | JObj f =>
      interval ← z_optional (z_int MIN_TIME_SEC (Some MAX_REALITY_CHECK_INTERVAL_SEC)) (assoc_last "realityCheckIntervalSec" f);
      maxSession ← z_optional (z_int MIN_TIME_SEC (Some MAX_SESSION_SEC)) (assoc_last "maxSessionSec" f);
      enforce ← z_optional z_boolean (assoc_last "enforceRealityCheck" f);
      limits ← z_optional (z_record PerCurrencyRgLimitSchema) (assoc_last "limits" f);
      if forallb (fun k => bool_decide (k ∈ ["realityCheckIntervalSec"; "maxSessionSec"; "enforceRealityCheck"; "limits"]%string)) f.*1
      then Some (mk_rg_config interval maxSession enforce limits) else None
  | _ => None
  end.

Definition validateRgConfig (v : json) : option RgConfig := RgConfigSchema v.

Definition parseRgConfig (v : option json) : option RgConfig :=
  match v with None | Some JNull => None | Some v => RgConfigSchema v end.

(** No control at all. *)
Definition inactive (e : EffectiveRg) : bool :=
  negb (is_Some_b (realityCheckIntervalSec e)) && negb (is_Some_b (maxSessionSec e))
  && negb (is_Some_b (maxSessionLoss e)) && negb (is_Some_b (maxSessionWager e)).

Definition effectiveRgFor (v : option json) (currency : string) : option EffectiveRg :=
  cfg ← parseRgConfig v;
  let '(loss, wager) := match g_limits cfg ≫= find_currency currency with Some l => l | None => (None, None) end in
  let eff := mk_rg (g_realityCheckIntervalSec cfg) (g_maxSessionSec cfg)
               (nullish (g_enforceRealityCheck cfg) true) loss wager in
  if inactive eff then None else Some eff.

Definition field_if {A} (k : string) (f : A -> json) (v : option A) : list (string * json) :=
  match v with Some x => [(k, f x)] | None => [] end.

Definition serializeRg (e : EffectiveRg) : json :=
  JObj (("enforceRealityCheck"%string, JBool (enforceRealityCheck e)) ::
        field_if "realityCheckIntervalSec" (fun n => JNum (inject_Z n)) (realityCheckIntervalSec e) ++
        field_if "maxSessionSec" (fun n => JNum (inject_Z n)) (maxSessionSec e) ++
        field_if "maxSessionLoss" (fun n => JStr (BigInt_toString n)) (maxSessionLoss e) ++
        field_if "maxSessionWager" (fun n => JStr (BigInt_toString n)) (maxSessionWager e)).

(** [Number(v)], an integer in 1..hi. *)
Definition read_time (hi : Z) (v : json) : option Z :=
  match json_Number v with
  | Fin q => if negb (js_isInteger (Fin q)) || js_le (Fin q) 0 || js_gt (Fin q) hi then None else Some (Qfloor_Z q)
  | _ => None
  end.

(** [BigInt(v)], positive. *)
Definition read_money (v : json) : option Z :=
  b ← json_BigInt v; if b <=? 0 then None else Some b.

Definition deserializeRg (v : option json) : option EffectiveRg :=
  match v with
  | Some (JObj o) =>
      interval ← z_optional (read_time MAX_REALITY_CHECK_INTERVAL_SEC) (assoc_last "realityCheckIntervalSec" o);
      maxSession ← z_optional (read_time MAX_SESSION_SEC) (assoc_last "maxSessionSec" o);
      loss ← z_optional read_money (assoc_last "maxSessionLoss" o);
      wager ← z_optional read_money (assoc_last "maxSessionWager" o);
      let eff := mk_rg interval maxSession
                   (match assoc_last "enforceRealityCheck" o with Some (JBool false) => false | _ => true end) loss wager in
      if inactive eff then None else Some eff
  | _ => None
  end.

(** The bounds of what a session may carry. *)
Definition time_ok (lo hi : Z) (t : option Z) : Prop := match t with Some n => lo <= n <= hi | None => True end.
Definition money_ok (m : option Z) : Prop := match m with Some b => 0 < b | None => True end.
Definition rg_ok (lo : Z) (e : EffectiveRg) : Prop :=
  time_ok lo MAX_REALITY_CHECK_INTERVAL_SEC (realityCheckIntervalSec e) /\
  time_ok lo MAX_SESSION_SEC (maxSessionSec e) /\
  money_ok (maxSessionLoss e) /\ money_ok (maxSessionWager e) /\ inactive e = false.

Lemma time_ok_weaken lo hi t : time_ok 60 hi t -> lo <= 60 -> time_ok lo hi t.
Proof. destruct t; cbn; lia. Qed.

Lemma z_optional_int lo hi v o : z_optional (z_int lo (Some hi)) v = Some o -> time_ok lo hi o.
Proof.
  destruct v as [v|]; cbn; [|by intros [= <-]]. intros (n & Hn & Ho)%fmap_Some. rewrite Ho.
  destruct (z_int_bounds _ _ _ _ Hn) as [H1 H2]. split; [done|exact H2].
Qed.

Lemma z_optional_money v o : z_optional (z_int 1 None) v = Some o -> money_ok o.
Proof.
  destruct v as [v|]; cbn; [|by intros [= <-]]. intros (n & Hn & Ho)%fmap_Some. rewrite Ho.
  destruct (z_int_bounds _ _ _ _ Hn) as [H1 _]. cbn. lia.
Qed.

Lemma caps_ok v p : PerCurrencyRgLimitSchema v = Some p -> money_ok p.1 /\ money_ok p.2.
Proof.
  destruct v as [| | | | |f]; try done. cbn.
  intros (loss & Hl%z_optional_money & H)%bind_Some. by apply bind_Some in H as (wager & Hw%z_optional_money & [= <-]).
Qed.

Lemma rg_schema_ok v c : RgConfigSchema v = Some c ->
  time_ok MIN_TIME_SEC MAX_REALITY_CHECK_INTERVAL_SEC (g_realityCheckIntervalSec c) /\
  time_ok MIN_TIME_SEC MAX_SESSION_SEC (g_maxSessionSec c) /\
  forall cfg k p, g_limits c = Some cfg -> (k, p) ∈ cfg -> money_ok p.1 /\ money_ok p.2.
Proof.
  destruct v as [| | | | |f]; try done. unfold RgConfigSchema.
  intros (i & Hi%z_optional_int & H)%bind_Some. apply bind_Some in H as (m & Hm%z_optional_int & H).
  apply bind_Some in H as (e & _ & H). apply bind_Some in H as (l & Hl & H).
  destruct (forallb _ _); [|done]. injection H as <-. split_and!; [done..|].
  intros cfg k p Hc Hin. cbn [g_limits] in Hc. subst l.
  destruct (assoc_last "limits" f) as [v|]; cbn in Hl; [|done].
  apply fmap_Some in Hl as (cfg' & Hr & [= <-]).
  destruct (z_record_entry _ _ _ _ _ Hr Hin) as [v' Hv]. by apply (caps_ok v').
Qed.

Lemma effectiveRgFor_ok v c e : effectiveRgFor v c = Some e -> rg_ok MIN_TIME_SEC e.
Proof.
  unfold effectiveRgFor. intros (cfg & Hp & H)%bind_Some.
  assert (exists v', RgConfigSchema v' = Some cfg) as [v' Hv]
    by (destruct v as [[]|]; cbn [parseRgConfig] in Hp; first [done|eauto]).
  destruct (rg_schema_ok _ _ Hv) as (H1 & H2 & H3).
  assert (Hcaps : forall p, g_limits cfg ≫= find_currency c = Some p -> money_ok p.1 /\ money_ok p.2).
  { intros p (l & Hl & Hf)%bind_Some. pose proof (find_currency_spec c l) as Hs. rewrite Hf in Hs.
    destruct (first_entry_in _ _ _ Hs) as [k Hk]. by apply (H3 l k). }
  destruct (g_limits cfg ≫= find_currency c) as [[loss wager]|].
  - destruct (Hcaps _ eq_refl). destruct (inactive _) eqn:Hi in H; [done|]. injection H as <-. by split_and!.
  - destruct (inactive _) eqn:Hi in H; [done|]. injection H as <-. by split_and!.
Qed.

Lemma read_time_ok hi v n : read_time hi v = Some n -> 1 <= n <= hi.
Proof.
  unfold read_time. destruct (json_Number v) as [| |q]; try done.
  destruct (js_isInteger (Fin q)) eqn:Hq; [|done]. rewrite (js_le_int _ _ Hq), (js_gt_int _ _ Hq). cbn [negb orb].
  destruct (Qfloor_Z q <=? 0) eqn:?, (hi <? Qfloor_Z q) eqn:?; try done. intros [= <-]. lia.
Qed.

Lemma deserializeRg_ok v e : deserializeRg v = Some e -> rg_ok 1 e.
Proof.
  destruct v as [[| | | | |o]|]; try done. unfold deserializeRg.
  intros (i & Hi & H)%bind_Some. apply bind_Some in H as (m & Hm & H).
  apply bind_Some in H as (l & Hl & H). apply bind_Some in H as (w & Hw & H).
  destruct (inactive _) eqn:Hact in H; [done|]. injection H as <-.
  assert (Ht : forall hi v' t, z_optional (read_time hi) v' = Some t -> time_ok 1 hi t).
  { intros hi [v'|] t; cbn; [|by intros [= <-]]. intros (n & Hn & Ho)%fmap_Some. rewrite Ho. by apply (read_time_ok _ v'). }
  assert (Hc : forall v' b, z_optional read_money v' = Some b -> money_ok b).
  { intros [v'|] b; cbn; [|by intros [= <-]]. intros (n & Hn & Ho)%fmap_Some. rewrite Ho.
    apply bind_Some in Hn as (b' & _ & Hb). destruct (b' <=? 0) eqn:?; [done|]. injection Hb as <-. cbn. lia. }
  split_and!; cbn; eauto.
Qed.

Lemma read_time_int lo hi n : 1 <= lo -> lo <= n <= hi -> read_time hi (JNum (inject_Z n)) = Some n.
Proof.
  intros Hlo Hn. unfold read_time. cbn [json_Number].
  rewrite js_isInteger_int, (js_le_int _ _ (js_isInteger_int n)), (js_gt_int _ _ (js_isInteger_int n)), Qfloor_int.
  cbn [negb orb]. by rewrite (proj2 (Z.leb_gt n 0)), (proj2 (Z.ltb_ge hi n)) by lia.
Qed.

Lemma read_money_string b : 0 < b -> read_money (JStr (BigInt_toString b)) = Some b.
Proof. intros Hb. unfold read_money. rewrite json_BigInt_toString. cbn. by rewrite (proj2 (Z.leb_gt b 0)). Qed.

Lemma rg_deserialize_serialize lo e : 1 <= lo -> rg_ok lo e -> deserializeRg (Some (serializeRg e)) = Some e.
Proof.
  intros Hlo (Hi & Hm & Hl & Hw & Hact). destruct e as [i m enf l w].
  cbn [realityCheckIntervalSec maxSessionSec maxSessionLoss maxSessionWager] in *.
  unfold deserializeRg, serializeRg. cbn [realityCheckIntervalSec maxSessionSec maxSessionLoss maxSessionWager enforceRealityCheck].
  destruct i as [i|], m as [m|], l as [l|], w as [w|]; try done;
    cbn [field_if app assoc_last z_optional];
    str_literals;
    cbn [z_optional fmap option_fmap option_map mbind option_bind];
    rewrite ?(read_time_int lo) by done; rewrite ?read_money_string by done;
    cbn [fmap option_fmap option_map mbind option_bind]; rewrite ?Hact; by destruct enf.
Qed.

(** The responsible-gambling controls of a session, resolved from the
    operator's configuration or read back from a play token, always carry at
    least one control, keep the reality check within a day and the session
    within thirty days, and every money cap is positive: no accepted value
    switches a control off. *)
Theorem rg_controls_bounded (v : option json) (currency : string) (e : EffectiveRg)
    (He : effectiveRgFor v currency = Some e \/ deserializeRg v = Some e) :
  rg_ok 1 e.
Proof.
  destruct He as [(H1 & H2 & H3)%effectiveRgFor_ok|He]; [|by eapply deserializeRg_ok].
  unfold MIN_TIME_SEC in *.
  split; [by eapply time_ok_weaken|]. split; [by eapply time_ok_weaken|done].
Qed.

Definition sample_config : json :=
  JObj [("realityCheckIntervalSec", JNum 3600); ("enforceRealityCheck", JBool true);
        ("limits", JObj [("eur", JObj [("maxSessionLoss", JNum 50000)])])]%string.

Lemma rg_controls_bounded_witness :
  effectiveRgFor (Some sample_config) "EUR" = Some (mk_rg (Some 3600) None true (Some 50000) None) /\
  rg_ok 1 (mk_rg (Some 3600) None true (Some 50000) None).
Proof.
  split; [vm_compute; reflexivity|].
  apply (rg_controls_bounded (Some sample_config) "EUR"). left. vm_compute. reflexivity.
Defined.
End Rg.

(** What an operator configured survives the play token: the bet limits and
    the responsible-gambling controls resolved at launch, printed into the
    token's claims, are read back by the gateway exactly, and an absent claim
    reads as no limit only when none was resolved. *)
Theorem config_survives_token (betLimits rgConfig : option json) (currency : string) :
  let limits := BetLimits.effectiveLimitsFor betLimits currency in
  let rg := Rg.effectiveRgFor rgConfig currency in
  BetLimits.deserializeBetLimits (BetLimits.serializeBetLimits <$> limits) = limits /\
  Rg.deserializeRg (Rg.serializeRg <$> rg) = rg.
Proof.
  cbv zeta. split.
  - pose proof (BetLimits.effectiveLimitsFor_ok betLimits currency) as H.
    destruct (BetLimits.effectiveLimitsFor _ _) as [l|]; [|done]. by apply BetLimits.deserialize_serialize, H.
  - destruct (Rg.effectiveRgFor rgConfig currency) as [e|] eqn:He; [|done].
    apply Rg.effectiveRgFor_ok in He. by apply (Rg.rg_deserialize_serialize Rg.MIN_TIME_SEC).
Qed.
