(* ===== verification/Launch.v ===== *)
(** * Launch tokens

    [operator/launch-token.service.ts] and [common/locale.ts]: the signed ticket
    an operator's lobby opens the game with.  The token library is the class
    [Jwt] (decode, verify against a secret at a time, sign with a lifetime), its
    documented behaviour the class [JwtLaws]; what a UUID column accepts as text
    is [UuidColumn].
    Proved: a token issued for an enabled operator verifies, within its two
    minutes, to the claims it was issued for, and is refused once a session
    holds its identifier. *)

From Stdlib Require Import QArith.
From S2P Require Import Prelude Effects Js Money Schema Keys.

Open Scope Z_scope.

#[local] Set Warnings "-clear-no-such-hyp".

(** ** Third-party interfaces *)

Class Jwt (Token : Type) := {
  (** the payload, unverified; [None] when it is no token *)
  decode : Token -> option json;
  (** at this time, against this secret; [None] is its exception *)
  verifyAsync : Z -> Token -> string -> option json;
  (** at this time, these claims, this secret, a lifetime in seconds, an
      optional [jti]; [None] is its exception *)
  signAsync : Z -> list (string * json) -> string -> Q -> option string -> option Token
}.

(** Times are milliseconds; the library counts whole seconds. *)
Class JwtLaws (Token : Type) `{Jwt Token} : Prop := {
  verify_decode now t secret p : verifyAsync now t secret = Some p -> decode t = Some p;
  sign_verify now claims secret ttl jti t :
    signAsync now claims secret (inject_Z ttl) jti = Some t ->
    exists extra, Forall (fun e => e.1 ∈ ["jti"; "iat"; "exp"]%string) extra /\
      assoc_last "jti" extra = JStr <$> jti /\
      decode t = Some (JObj (claims ++ extra)) /\
      forall now', verifyAsync now' t secret =
        if now' / 1000 <? now / 1000 + ttl then Some (JObj (claims ++ extra)) else None
}.

(** The identifier a text denotes in a UUID column; [None] is a query error.
    No accepted text is another one followed by a colon. *)
Class UuidColumn := uuid_column : string -> option uuid.
Class UuidColumnLaws `{UuidColumn} : Prop := {
  uuid_column_prefix s1 s2 n1 n2 a b :
    uuid_column s1 = Some n1 -> uuid_column s2 = Some n2 ->
    (s1 +:+ String ":" a = s2 +:+ String ":" b)%string -> s1 = s2
}.

(** A concrete token library: the ticket is its own content. *)
Record Ticket := mk_ticket { tk_payload : list (string * json); tk_secret : string; tk_exp : Z }.

Definition ticket_extra (jti : option string) (now exp : Z) : list (string * json) :=
  match jti with Some j => [("jti", JStr j)] | None => [] end
  ++ [("iat", JNum (inject_Z (now / 1000))); ("exp", JNum (inject_Z exp))]%string.

Definition TicketJwt : Jwt Ticket := {|
  decode t := Some (JObj (tk_payload t));
  verifyAsync now t secret :=
    if eqb_str secret (tk_secret t) && (now / 1000 <? tk_exp t) then Some (JObj (tk_payload t)) else None;
  signAsync now claims secret ttl jti :=
    let exp := now / 1000 + Qfloor_Z ttl in
    Some (mk_ticket (claims ++ ticket_extra jti now exp) secret exp)
|}.

Lemma TicketJwt_laws : @JwtLaws Ticket TicketJwt.
Proof.
  split; cbn.
  - intros now t secret p. by destruct (_ && _).
  - intros now claims secret ttl jti t [= <-]. eexists. split_and!; [| |done|].
    + unfold ticket_extra. apply Forall_app; split; [destruct jti|]; repeat constructor; set_solver.
    + by destruct jti.
    + intros now'. cbn. by rewrite eqb_str_refl, Qfloor_int.
Qed.

(** A concrete column that knows two operators. *)
Definition two_operators : UuidColumn := fun s =>
  if eqb_str s (Keys.uuid_string 7) then Some 7%N
  else if eqb_str s (Keys.uuid_string 8) then Some 8%N else None.

Lemma two_operators_laws : @UuidColumnLaws two_operators.
Proof.
  split. unfold uuid_column, two_operators. intros s1 s2 n1 n2 a b.
  destruct (eqb_str s1 _) eqn:E1; [|destruct (eqb_str s1 (Keys.uuid_string 8)) eqn:E1'; [|done]];
  (destruct (eqb_str s2 (Keys.uuid_string 7)) eqn:E2; [|destruct (eqb_str s2 (Keys.uuid_string 8)) eqn:E2'; [|done]]);
  repeat match goal with H : eqb_str _ _ = true |- _ => apply eqb_str_eq in H end; subst; try done;
  intros _ _ Heq; vm_compute in Heq; congruence.
Qed.

(** ** Locales *)

Module Locale.
Definition length_in (lo hi : nat) (s : string) : bool :=
  (lo <=? String.length s)%nat && (String.length s <=? hi)%nat.

(** [/^[A-Za-z]{2,3}(-[A-Za-z0-9]{2,8}){0,2}$/] *)
Definition LOCALE_RE (s : string) : bool :=
  match split_on "-" s with
  | lang :: subs => all_chars is_alpha lang && length_in 2 3 lang
      && forallb (fun sub => all_chars is_alnum sub && length_in 2 8 sub) subs && (length subs <=? 2)%nat
  | [] => false
  end.

Definition normalizeLocale (raw : option json) : string :=
  match raw with
  | Some (JStr raw) =>
      let s := trim raw in
      if negb (LOCALE_RE s) then "en"%string
      else match split_on "-" s with
           | lang :: subs => join_with "-" (toLowerCase lang ::
               List.map (fun sub => if all_chars is_alpha sub && length_in 2 2 sub then toUpperCase sub else sub) subs)
           | [] => "en"%string
           end
  | _ => "en"%string
  end.
End Locale.

(** ** The launch token service *)

(** [payload.k] *)
Definition claim (payload : option json) (k : string) : option json :=
  match payload with Some (JObj o) => assoc_last k o | _ => None end.

(** A value is truthy unless it is undefined, null, false, zero or empty. *)
Definition truthy (v : option json) : bool :=
  match v with
  | None | Some JNull => false
  | Some (JBool b) => b
  | Some (JNum q) => negb (Qeq_bool q 0)
  | Some (JStr s) => nonempty s
  | Some _ => true
  end.

Record LaunchClaims := mk_claims {
  lc_operatorId : string; lc_playerId : string; lc_currency : string;
  lc_locale : option string; lc_demo : option bool; lc_ctx : option json
}.

Record VerifiedLaunch := mk_launch {
  v_operatorId : string; v_playerId : string; v_currency : option string;
  v_locale : string; v_demo : bool; v_ctx : json; v_jti : string
}.

Module LaunchToken.
Definition TTL_SECONDS : Z := 120.
Definition MAX_PLAYER_ID_LEN : nat := 200.

Definition unauthorized {A} (m : string) : prog world A := raise (Unauthorized m).

Section service.
Context {Token : Type} `{Jwt Token} `{UuidColumn}.

(** [operator.findUnique({ where: { id } })]: the row with its identifier. *)
Definition operator_findUnique (id : json) : prog world (option (uuid * operator)) :=
  match id with
  | JStr s => db (fun w => match uuid_column s with
                           | Some n => (Ok (option_map (fun o => (n, o)) (w_operators w !! n)), w)
                           | None => (Raise (JsError "Inconsistent column data"), w)
                           end)
  | _ => raise (JsError "PrismaClientValidationError")
  end.

Definition launch_payload (c : LaunchClaims) : list (string * json) :=
  [("operatorId", JStr (lc_operatorId c)); ("playerId", JStr (lc_playerId c)); ("currency", JStr (lc_currency c));
   ("locale", JStr (Locale.normalizeLocale (option_map JStr (lc_locale c))));
   ("demo", JBool (nullish (lc_demo c) false));
   ("ctx", match lc_ctx c with None | Some JNull => JObj [] | Some x => x end)]%string.

Definition issue (c : LaunchClaims) : prog world Token :=
  found ← operator_findUnique (JStr (lc_operatorId c));
  match found with
  | None => raise RecordNotFound
  | Some (_, op) =>
      if negb (o_enabled op) then unauthorized "operator_disabled"
      else
        now ← Date_now;
        id ← randomUUID;
        match signAsync now (launch_payload c) (o_launchSecret op) (inject_Z TTL_SECONDS)
                (Some (Keys.uuid_string id)) with
        | Some t => mret t
        | None => raise (JsError "sign")
        end
  end.

Definition session_by_jti (jti : string) (w : world) : option session :=
  List.find (fun s => eqb_str (s_launchJti s) jti) (map_to_list (w_sessions w)).*2.

(** [(payload.currency ?? "").toUpperCase()] *)
Definition currency_upper (v : option json) : prog world string :=
  match v with
  | None | Some JNull => mret EmptyString
  | Some (JStr s) => mret (toUpperCase s)
  | Some _ => raise (JsError "toUpperCase is not a function")
  end.

(** What the signed payload must say, given the operator. *)
Definition check_claims (op : operator) (operatorId : string) (payload : json) : prog world VerifiedLaunch :=
  ccy ← currency_upper (claim (Some payload) "currency");
  if negb (existsb (fun c => eqb_str (toUpperCase c) ccy) (o_currencies op))
  then unauthorized "currency_not_allowed"
  else
    let demo := match claim (Some payload) "demo" with Some (JBool true) => true | _ => false end in
    if demo && negb (o_demoEnabled op) then unauthorized "demo_not_allowed"
    else match claim (Some payload) "playerId" with
         | Some (JStr playerId) =>
             if negb (Locale.length_in 1 MAX_PLAYER_ID_LEN playerId) then unauthorized "invalid_launch_token"
             else if negb (truthy (claim (Some payload) "jti")) then unauthorized "invalid_launch_token"
             else match claim (Some payload) "jti" with
                  | Some (JStr jti) =>
                      used ← db_get (session_by_jti jti);
                      match used with
                      | Some _ => unauthorized "launch_token_already_used"
                      | None => mret (mk_launch operatorId playerId
                                  (match claim (Some payload) "currency" with Some (JStr s) => Some s | _ => None end)
                                  (Locale.normalizeLocale (claim (Some payload) "locale")) demo
                                  (match claim (Some payload) "ctx" with None | Some JNull => JObj [] | Some c => c end) jti)
                      end
                  | _ => raise (JsError "PrismaClientValidationError")
                  end
         | _ => unauthorized "invalid_launch_token"
         end.

Definition verify (token : Token) : prog world VerifiedLaunch :=
  match claim (decode token) "operatorId" with
  | Some operatorId =>
      if negb (truthy (Some operatorId)) then unauthorized "invalid_launch_token"
      else
        found ← operator_findUnique operatorId;
        match found, operatorId with
        | Some (_, op), JStr opId =>
            if negb (o_enabled op) then unauthorized "unknown_operator"
            else
              now ← Date_now;
              match verifyAsync now token (o_launchSecret op) with
              | None => unauthorized "invalid_launch_token"
              | Some payload => check_claims op opId payload
              end
        | _, _ => unauthorized "unknown_operator"
        end
  | None => unauthorized "invalid_launch_token"
  end.

(** ** Issue, then verify *)

Lemma run_operator_findUnique s n w :
  w_faults w = [] -> uuid_column s = Some n ->
  run (operator_findUnique (JStr s)) w = (Ok (option_map (fun o => (n, o)) (w_operators w !! n)), w).
Proof. intros Hw Hn. unfold operator_findUnique. rewrite run_db_nofault by done. by rewrite Hn. Qed.

Lemma assoc_last_app k l1 l2 :
  assoc_last k (l1 ++ l2) = match assoc_last k l2 with Some v => Some v | None => assoc_last k l1 end.
Proof.
  induction l1 as [|[k' v] l1 IH]; cbn; [by destruct (assoc_last k l2)|].
  rewrite IH. by destruct (assoc_last k l2).
Qed.

Lemma assoc_last_none k l : k ∉ l.*1 -> assoc_last k l = None.
Proof.
  induction l as [|[k' v] l IH]; cbn; [done|]. intros Hk. rewrite IH by set_solver.
  by rewrite eqb_str_neq by set_solver.
Qed.

(** The library's own claims hide none of the others. *)
Lemma claim_signed k l extra :
  Forall (fun e => e.1 ∈ ["jti"; "iat"; "exp"]%string) extra ->
  bool_decide (k ∈ ["jti"; "iat"; "exp"]%string) = false ->
  claim (Some (JObj (l ++ extra))) k = assoc_last k l.
Proof.
  intros He Hk. cbn. rewrite assoc_last_app, assoc_last_none; [done|].
  intros ([k' v] & -> & Hin)%list_elem_of_fmap. rewrite Forall_forall in He.
  by apply bool_decide_eq_false in Hk as []; apply He in Hin.
Qed.
End service.

(** The claims a launch was requested with, as [verify] returns them. *)
Definition launch_of (c : LaunchClaims) (jti : string) : VerifiedLaunch :=
  mk_launch (lc_operatorId c) (lc_playerId c) (Some (lc_currency c))
    (Locale.normalizeLocale (Some (JStr (Locale.normalizeLocale (option_map JStr (lc_locale c))))))
    (nullish (lc_demo c) false)
    (match lc_ctx c with None | Some JNull => JObj [] | Some x => x end) jti.

(** The operator may launch this. *)
Definition launchable (op : operator) (c : LaunchClaims) : bool :=
  o_enabled op && existsb (fun x => eqb_str (toUpperCase x) (toUpperCase (lc_currency c))) (o_currencies op)
  && (negb (nullish (lc_demo c) false) || o_demoEnabled op)
  && Locale.length_in 1 MAX_PLAYER_ID_LEN (lc_playerId c).

Lemma payload_claims c :
  assoc_last "operatorId" (launch_payload c) = Some (JStr (lc_operatorId c)) /\
  assoc_last "playerId" (launch_payload c) = Some (JStr (lc_playerId c)) /\
  assoc_last "currency" (launch_payload c) = Some (JStr (lc_currency c)) /\
  assoc_last "locale" (launch_payload c) = Some (JStr (Locale.normalizeLocale (option_map JStr (lc_locale c)))) /\
  assoc_last "demo" (launch_payload c) = Some (JBool (nullish (lc_demo c) false)) /\
  assoc_last "ctx" (launch_payload c) = Some (match lc_ctx c with None | Some JNull => JObj [] | Some x => x end).
Proof. by split_and!. Qed.

Lemma uuid_nonempty n : nonempty (Keys.uuid_string n) = true.
Proof. pose proof (Keys.uuid_length n). by destruct (Keys.uuid_string n). Qed.

(** What a payload must hold to be this launch under this identifier. *)
Definition says (c : LaunchClaims) (jti : string) (p : list (string * json)) : Prop :=
  assoc_last "operatorId" p = Some (JStr (lc_operatorId c)) /\ assoc_last "playerId" p = Some (JStr (lc_playerId c)) /\
  assoc_last "currency" p = Some (JStr (lc_currency c)) /\
  assoc_last "locale" p = Some (JStr (Locale.normalizeLocale (option_map JStr (lc_locale c)))) /\
  assoc_last "demo" p = Some (JBool (nullish (lc_demo c) false)) /\
  assoc_last "ctx" p = Some (match lc_ctx c with None | Some JNull => JObj [] | Some x => x end) /\
  assoc_last "jti" p = Some (JStr jti).

(** Verifying a token with such a payload: everything hangs on the library's
    verdict and on whether the identifier was consumed. *)
Lemma run_verify {Token} `{Jwt Token} `{UuidColumn} (c : LaunchClaims) (jti : string) (p : list (string * json))
    (n : uuid) (op : operator) (t : Token) (live : bool) (w : world)
    (Hdec : decode t = Some (JObj p)) (Hsays : says c jti p) (Hjti : nonempty jti = true)
    (Hid : uuid_column (lc_operatorId c) = Some n) (Hne : nonempty (lc_operatorId c) = true)
    (Hw : w_faults w = []) (Hop : w_operators w !! n = Some op) (Hok : launchable op c = true)
    (Hver : verifyAsync (w_now w) t (o_launchSecret op) = if live then Some (JObj p) else None) :
  run (verify t) w =
    (if negb live then Raise (Unauthorized "invalid_launch_token")
     else match session_by_jti jti w with
          | Some _ => Raise (Unauthorized "launch_token_already_used")
          | None => Ok (launch_of c jti)
          end, w).
Proof.
  apply andb_true_iff in Hok as [Hok Hlen]. apply andb_true_iff in Hok as [Hok Hdemo]. apply andb_true_iff in Hok as [Hen Hccy].
  destruct Hsays as (Pop & Ppl & Pccy & Plo & Pdemo & Pctx & Pjti).
  unfold verify. rewrite Hdec. cbn [claim]. rewrite Pop. cbn [truthy]. rewrite Hne. cbn [negb].
  rewrite run_bind, (run_operator_findUnique _ n), Hop by done. cbn [option_map]. rewrite Hen. cbn [negb].
  unfold Date_now, gets. rewrite run_bind, run_atom. cbn [fst snd]. rewrite Hver. destruct live; [|done]. cbn [negb].
  unfold check_claims. cbn [claim]. rewrite Pjti, Pccy, Ppl, Plo, Pdemo, Pctx. cbn [currency_upper].
  rewrite run_bind, run_ret, Hccy. cbn [negb]. cbv zeta.
  replace (match nullish (lc_demo c) false with true => true | false => false end)
    with (nullish (lc_demo c) false) by (by destruct (nullish (lc_demo c) false)).
  replace (nullish (lc_demo c) false && negb (o_demoEnabled op)) with false
    by (destruct (nullish (lc_demo c) false), (o_demoEnabled op); done).
  rewrite Hlen. cbn [negb truthy]. rewrite Hjti. cbn [negb]. rewrite run_bind, run_db_get by done.
  destruct (session_by_jti _ w); [done|]. unfold launch_of. by destruct (lc_ctx c) as [[]|].
Qed.

(** C26: A launch token issued for an operator is, once decoded and verified with
    that operator's secret, exactly the launch it was issued for: during its two
    minutes and until a session has consumed its identifier, provided the
    operator may launch it; after two minutes, or once consumed, it is refused. *)
Theorem issued_token_verifies {Token} `{Jwt Token} `{UuidColumn} (HJ : JwtLaws Token)
    (c : LaunchClaims) (n : uuid) (op : operator) (t : Token) (w w1 w2 : world)
    (Hid : uuid_column (lc_operatorId c) = Some n) (Hne : nonempty (lc_operatorId c) = true)
    (Hw : w_faults w = []) (Hop : w_operators w !! n = Some op)
    (Hissue : run (issue c) w = (Ok t, w1))
    (Hw2 : w_faults w2 = []) (Hop2 : w_operators w2 !! n = Some op) (Hok : launchable op c = true) :
  let jti := Keys.uuid_string (w_uuid w) in
  run (verify t) w2 =
    (if negb (w_now w2 / 1000 <? w_now w / 1000 + 120) then Raise (Unauthorized "invalid_launch_token")
     else match session_by_jti jti w2 with
          | Some _ => Raise (Unauthorized "launch_token_already_used")
          | None => Ok (launch_of c jti)
          end, w2).
Proof.
  cbv zeta. assert (Hen : o_enabled op = true) by (unfold launchable in Hok; by destruct (o_enabled op)).
  unfold issue in Hissue. rewrite run_bind, (run_operator_findUnique _ n), Hop in Hissue by done.
  cbn [option_map] in Hissue. rewrite Hen in Hissue. cbn [negb] in Hissue.
  unfold Date_now, gets, randomUUID in Hissue. rewrite run_bind, run_atom, run_bind, run_atom in Hissue. cbn [fst snd] in Hissue.
  destruct (signAsync _ _ _ _ _) as [t'|] eqn:Hs; [|done]. rewrite run_ret in Hissue. injection Hissue as -> _.
  apply sign_verify in Hs as (extra & Hextra & Hjti & Hdec & Hver).
  eapply (run_verify c _ (launch_payload c ++ extra) n op); try done; [|apply uuid_nonempty..].
  assert (Hc := fun k => claim_signed k (launch_payload c) extra Hextra). cbn [claim] in Hc.
  unfold says. rewrite !Hc by done. destruct (payload_claims c) as (? & ? & ? & ? & ? & ?). split_and!; try done.
  by rewrite assoc_last_app, Hjti.
Qed.

Definition demo_operator : operator :=
  mk_operator true true "s3cret" ["EUR"; "usd"]%string None [] None None None None "casino" "Casino" None None.
Definition demo_claims : LaunchClaims :=
  mk_claims (Keys.uuid_string 7) "alice" "eur" (Some "pt-br"%string) None None.
Definition launch_world : world := set_operators {[7%N := demo_operator]} (set_now 5000 empty_world).

Lemma issued_token_verifies_witness :
  let J := TicketJwt in let U := two_operators in
  let t := mk_ticket (launch_payload demo_claims ++ ticket_extra (Some (Keys.uuid_string 0)) 5000 125) "s3cret" 125 in
  launchable demo_operator demo_claims = true /\
  run (verify t) (set_now 100000 launch_world) =
    (Ok (mk_launch (Keys.uuid_string 7) "alice" (Some "eur"%string) "pt-BR" false (JObj []) (Keys.uuid_string 0)),
     set_now 100000 launch_world).
Proof.
  split; [vm_compute; reflexivity|].
  etrans; [apply (@issued_token_verifies Ticket TicketJwt two_operators TicketJwt_laws demo_claims 7%N demo_operator _
    launch_world (bump_uuid launch_world) (set_now 100000 launch_world))|]; vm_compute; reflexivity.
Defined.
End LaunchToken.
