(* ===== verification/Sandbox.v ===== *)
(** * The sandbox scripts

    [scripts/sandbox-seed.ts], which mints launch tickets by hand and lets players
    bet against the sandbox, and [scripts/sandbox-verify.ts], which drives one bet
    to its end.  The JSON printer, the base64url encoding and the keyed hash are
    arguments; what a socket delivers is a sequence of events.  The random
    choices, the HTTP calls and the progress lines are not modelled. *)

From Stdlib Require Import QArith.
From S2P Require Import Prelude Effects Js Money Schema Keys Launch.

Open Scope Z_scope.

#[local] Set Warnings "-clear-no-such-hyp".

Module Seed.

(** ** The ticket *)

Section mint.
Context (JSON_stringify : json -> string) (b64url : string -> string) (hmac_sha256 : string -> string -> string).
Context (OPERATOR_ID LAUNCH_SECRET CURRENCY : string).

Definition seed_payload (now : Z) (uuid : string) (playerId : string) : list (string * json) :=
  [("operatorId", JStr OPERATOR_ID); ("playerId", JStr playerId); ("currency", JStr CURRENCY); ("locale", JStr "en");
   ("demo", JBool false); ("ctx", JObj []); ("jti", JStr uuid); ("iat", JNum (inject_Z (now / 1000)));
   ("exp", JNum (inject_Z (now / 1000 + 120)))]%string.

Definition mintLaunchToken (now : Z) (uuid : string) (playerId : string) : string :=
  let header := b64url (JSON_stringify (JObj [("alg", JStr "HS256"); ("typ", JStr "JWT")]%string)) in
  let payload := b64url (JSON_stringify (JObj (seed_payload now uuid playerId))) in
  let sig := hmac_sha256 LAUNCH_SECRET (header +:+ "." +:+ payload)%string in
  (header +:+ "." +:+ payload +:+ "." +:+ sig)%string.

(** The launch a ticket asks for. *)
Definition seed_claims (playerId : string) : LaunchClaims :=
  mk_claims OPERATOR_ID playerId CURRENCY (Some "en"%string) (Some false) (Some (JObj [])).

(** A ticket minted by hand opens the game as one the service issues: if the
    library reads the compact form and accepts it until it expires, as it
    documents, the service's verification answers the launch that was asked for,
    during two minutes and until a session consumed it. *)
Theorem seed_token_launches `{Jwt string} `{UuidColumn} (now : Z) (jti playerId : string) (n : uuid) (op : operator) (w : world)
    (Hread : decode (mintLaunchToken now jti playerId) = Some (JObj (seed_payload now jti playerId)))
    (Haccept : verifyAsync (w_now w) (mintLaunchToken now jti playerId) LAUNCH_SECRET =
      if w_now w / 1000 <? now / 1000 + 120 then Some (JObj (seed_payload now jti playerId)) else None)
    (Hid : uuid_column OPERATOR_ID = Some n) (Hne : nonempty OPERATOR_ID = true) (Hjti : nonempty jti = true)
    (Hw : w_faults w = []) (Hop : w_operators w !! n = Some op) (Hsecret : o_launchSecret op = LAUNCH_SECRET)
    (Hok : LaunchToken.launchable op (seed_claims playerId) = true) :
  run (LaunchToken.verify (mintLaunchToken now jti playerId)) w =
    (if negb (w_now w / 1000 <? now / 1000 + 120) then Raise (Unauthorized "invalid_launch_token")
     else match LaunchToken.session_by_jti jti w with
          | Some _ => Raise (Unauthorized "launch_token_already_used")
          | None => Ok (mk_launch OPERATOR_ID playerId (Some CURRENCY) "en" false (JObj []) jti)
          end, w).
Proof.
  rewrite (LaunchToken.run_verify (seed_claims playerId) jti (seed_payload now jti playerId) n op _
    (w_now w / 1000 <? now / 1000 + 120)); try done; by rewrite Hsecret.
Qed.
End mint.

(** ** The arguments *)

(** [parseInt(v, 10)]: the digits it starts with, after blanks and a sign. *)
Fixpoint leading_digits (s : string) : string :=
  match s with String a rest => if is_digit a then String a (leading_digits rest) else EmptyString | EmptyString => EmptyString end.
Definition parseInt (s : string) : option Z :=
  let s := drop_while is_space s in
  let '(sign, digits) := match s with
    | String "-" rest => (-1, rest) | String "+" rest => (1, rest) | _ => (1, s) end%char in
  z ← parse_digits 10 (leading_digits digits); Some (sign * z).

(** [argNum]: the word after the first [--name]. *)
Fixpoint argNum (argv : list string) (name : string) (def : Z) : Z :=
  match argv with
  | [] => def
  | a :: rest =>
    if eqb_str a ("--" +:+ name) then
      match rest with (String _ _ as v) :: _ => default def (parseInt v) | _ => def end
    else argNum rest name def
  end.

(** ** The players *)

Record PlayerState := mk_ps { ps_placed : Z; ps_pending : bool; ps_attempted : bool; ps_done : bool }.
Definition ps_start : PlayerState := mk_ps 0 false false false.
Record tallies := mk_tallies { t_accepted : Z; t_cashed : Z; t_busted : Z; t_rejected : Z }.

Inductive seen := SeenRound (ph : phase) | SeenAccepted | SeenRejected | SeenCashout | SeenBust.

Section play.
Context (BETS : Z).

(** A settled bet; the player who has them all leaves. *)
Definition settle (st : PlayerState) : PlayerState :=
  mk_ps (ps_placed st + 1) false (ps_attempted st) (ps_done st || (BETS <=? ps_placed st + 1)).

(** The handlers of [attachPlay]; the last component: whether a bet is placed. *)
Definition attachPlay (e : seen) (st : PlayerState) (t : tallies) : PlayerState * tallies * bool :=
  match e with
  | SeenRound ph =>
    if ps_done st then (st, t, false)
    else if negb (phase_eqb ph Betting) then (mk_ps (ps_placed st) (ps_pending st) false false, t, false)
    else if negb (ps_attempted st) && negb (ps_pending st) && (ps_placed st <? BETS)
    then (mk_ps (ps_placed st) true true false, t, true)
    else (st, t, false)
  | SeenAccepted => (st, mk_tallies (t_accepted t + 1) (t_cashed t) (t_busted t) (t_rejected t), false)
  | SeenRejected => (mk_ps (ps_placed st) false (ps_attempted st) (ps_done st),
      mk_tallies (t_accepted t) (t_cashed t) (t_busted t) (t_rejected t + 1), false)
  | SeenCashout => (settle st, mk_tallies (t_accepted t) (t_cashed t + 1) (t_busted t) (t_rejected t), false)
  | SeenBust => (settle st, mk_tallies (t_accepted t) (t_cashed t) (t_busted t + 1) (t_rejected t), false)
  end.

(** One player's run, and how many bets it asked for. *)
Definition seen_by (es : list seen) : PlayerState * tallies * Z :=
  fold_left (fun '(st, t, sent) e => let '(st, t, bet) := attachPlay e st t in (st, t, sent + if bet then 1 else 0)) es
    (ps_start, mk_tallies 0 0 0 0, 0).

(** Whatever the sandbox sends: a player has one bet open at a time, asks for no
    more than it was told plus one for each refusal, and leaves exactly when that
    many have settled. *)
Theorem seeder_bounded es (HB : 0 < BETS) :
  let '(st, t, sent) := seen_by es in
  sent <= t_cashed t + t_busted t + t_rejected t + (if ps_pending st then 1 else 0) /\
  sent <= BETS + t_rejected t /\
  ps_placed st = t_cashed t + t_busted t /\ (ps_done st = true <-> BETS <= ps_placed st).
Proof.
  unfold seen_by. enough (H : let '(st, t, sent) := fold_left (fun '(st, t, sent) e =>
      let '(st, t, bet) := attachPlay e st t in (st, t, sent + if bet then 1 else 0)) es (ps_start, mk_tallies 0 0 0 0, 0) in
    sent <= t_cashed t + t_busted t + t_rejected t + (if ps_pending st then 1 else 0) /\ sent <= BETS + t_rejected t /\
    ps_placed st = t_cashed t + t_busted t /\ (ps_done st = true <-> BETS <= ps_placed st) /\ 0 <= t_rejected t).
  { destruct (fold_left _ es _) as [[st t] sent]. tauto. }
  induction es as [|e es IH] using rev_ind; [cbn; split_and!; try lia; try (split; done || lia)|].
  rewrite fold_left_app. destruct (fold_left _ es _) as [[[placed pending attempted done_] [acc cashed bust rej]] sent].
  cbn [fold_left ps_placed ps_pending ps_done t_cashed t_busted t_rejected] in *. destruct IH as (H1 & H2 & H3 & H4 & H5).
  assert (Hd : forall n, done_ || (BETS <=? n + 1) = true <-> done_ = true \/ BETS <= n + 1) by (intros n; rewrite orb_true_iff, Z.leb_le; done).
  destruct e as [ph| | | |]; cbn [attachPlay settle ps_done ps_attempted ps_pending ps_placed].
  - destruct done_; [cbn; split_and!; by try lia|]. destruct (phase_eqb ph Betting); cbn [negb]; [|cbn; split_and!; by try lia].
    destruct (negb attempted && negb pending && (placed <? BETS)) eqn:E; cbn; [|split_and!; by try lia].
    rewrite !andb_true_iff, Z.ltb_lt, !negb_true_iff in E. destruct E as [[_ ->] ?]. split_and!; by try lia.
  - cbn. split_and!; by try lia.
  - cbn. split_and!; try done; destruct pending; lia.
  - cbn. rewrite Hd. split_and!; try (destruct pending; lia). rewrite H4. split; lia.
  - cbn. rewrite Hd. split_and!; try (destruct pending; lia). rewrite H4. split; lia.
Qed.
End play.

(** *** A ticket that opens the game *)

Definition toy_seal (secret data : string) : string := ("sig" +:+ secret)%string.
Definition toy_print (j : json) : string := match j with JObj l => BigInt_toString (Z.of_nat (length l)) | _ => "" end.
Definition toy_token : string :=
  mintLaunchToken toy_print id toy_seal (Keys.uuid_string 7) "s3cret" "EUR" 5000 "one-time" "seed-p-0".
Definition toy_payload : list (string * json) := seed_payload (Keys.uuid_string 7) "EUR" 5000 "one-time" "seed-p-0".
(** A library that knows this token. *)
Definition toy_jwt : Jwt string := {|
  decode t := if eqb_str t toy_token then Some (JObj toy_payload) else None;
  verifyAsync now t secret := if eqb_str t toy_token && eqb_str secret "s3cret" && (now / 1000 <? 125) then Some (JObj toy_payload) else None;
  signAsync _ _ _ _ _ := None
|}.

Lemma seed_token_launches_witness :
  let w := set_now 60000 LaunchToken.launch_world in
  run (@LaunchToken.verify string toy_jwt two_operators toy_token) w =
    (Ok (mk_launch (Keys.uuid_string 7) "seed-p-0" (Some "EUR"%string) "en" false (JObj []) "one-time"), w).
Proof.
  etrans; [apply (@seed_token_launches toy_print id toy_seal (Keys.uuid_string 7) "s3cret" "EUR" toy_jwt two_operators 5000 "one-time"
    "seed-p-0" 7%N LaunchToken.demo_operator)|]; vm_compute; reflexivity.
Defined.

Lemma seeder_bounded_witness : 0 < 1 /\
  let '(st, t, sent) := seen_by 1 [SeenRound Betting; SeenRejected; SeenRound Running; SeenRound Betting; SeenAccepted; SeenBust; SeenRound Betting] in
  sent = 2 /\ ps_done st = true /\ sent <= 1 + t_rejected t.
Proof.
  split; [reflexivity|]. split; [reflexivity|]. split; [reflexivity|].
  exact (proj1 (proj2 (seeder_bounded 1 [SeenRound Betting; SeenRejected; SeenRound Running; SeenRound Betting; SeenAccepted; SeenBust; SeenRound Betting] ltac:(lia)))).
Defined.

(** The script's numbers: a word that is no number, or a flag at the end, is the default. *)
Example args_read : argNum ["bun"; "seed"; "--players"; "12x"; "--bets"]%string "players" 100 = 12 /\
  argNum ["bun"; "seed"; "--players"; "12x"; "--bets"]%string "bets" 10 = 10 /\ argNum ["--bets"; "many"]%string "bets" 10 = 10.
Proof. by vm_compute. Qed.
End Seed.

Module Verify.

(** The script's variables, and the two lines it prints. *)
Record vstate := mk_v { vs_betId : option string; vs_placed : bool; vs_done : bool; vs_result : option (option string * string) }.
Definition vs_start : vstate := mk_v None false false None.

Inductive heard := HRound (ph : phase) | HAccepted (betId : string) | HRejected | HCashout | HBust | HTimeout.

Definition finish (outcome : string) (s : vstate) : vstate :=
  if vs_done s then s else mk_v (vs_betId s) (vs_placed s) true (Some (vs_betId s, outcome)).

(** The handlers; whether the bet is placed. *)
Definition hear (e : heard) (s : vstate) : vstate * bool :=
  match e with
  | HRound ph => if phase_eqb ph Betting && negb (vs_placed s) && negb (vs_done s)
      then (mk_v (vs_betId s) true false (vs_result s), true) else (s, false)
  | HAccepted id => (mk_v (Some id) (vs_placed s) (vs_done s) (vs_result s), false)
  | HRejected => (finish "rejected" s, false)
  | HCashout => (finish "cashed_out" s, false)
  | HBust => (finish "busted" s, false)
  | HTimeout => (finish "timeout" s, false)
  end.
Definition heard_all (es : list heard) : vstate * Z :=
  fold_left (fun '(s, n) e => let '(s, bet) := hear e s in (s, n + if bet then 1 else 0)) es (vs_start, 0).

(** [setTimeout(() => process.exit(betId ? 0 : 1), 1200)], read when it fires. *)
Definition exit_code (s : vstate) : Z := match vs_betId s with Some (String _ _) => 0 | _ => 1 end.

(** It places one bet, and the first outcome it hears is the one it prints. *)
Theorem verifies_once es : let '(s, n) := heard_all es in
  0 <= n <= 1 /\ (vs_done s = true <-> is_Some (vs_result s)) /\
  forall e, vs_done s = true -> vs_result (hear e s).1 = vs_result s /\ (hear e s).2 = false.
Proof.
  enough (H : let '(s, n) := heard_all es in n = (if vs_placed s then 1 else 0) /\ (vs_done s = true <-> is_Some (vs_result s))).
  { destruct (heard_all es) as [s n]. destruct H as [-> Hd]. split; [by destruct (vs_placed s)|]. split; [done|].
    intros e Hs. destruct e; cbn; unfold finish; rewrite ?Hs, ?andb_false_r; done. }
  unfold heard_all. induction es as [|e es IH] using rev_ind; [cbn; split; [done|]; split; [done|by intros []]|].
  rewrite fold_left_app. destruct (fold_left _ es _) as [[id placed dn res] n]. cbn [fold_left vs_placed vs_done vs_result] in *.
  destruct IH as [-> Hd]. destruct e as [ph|i| | | |]; cbn [hear finish vs_placed vs_done vs_result vs_betId].
  1: destruct (phase_eqb ph Betting && negb placed && negb dn) eqn:E; cbn; [|split; [lia|done]].
  1: rewrite !andb_true_iff, !negb_true_iff in E; destruct E as [[_ ->] ->]; split; [done|by rewrite <- Hd].
  all: try (destruct dn; cbn); split; try lia; try done; split; try done; by eexists.
Qed.

(** The code tells only that a bet was accepted: a bet whose end was never seen
    is a timeout and leaves with 0. *)
Theorem timeout_exits_zero : let s := (heard_all [HRound Betting; HAccepted "b1"; HTimeout]).1 in
  vs_result s = Some (Some "b1", "timeout")%string /\ exit_code s = 0.
Proof. by vm_compute. Qed.
End Verify.
