(* ===== verification/Sessions.v ===== *)
(** * Operator game sessions

    [operator/game-session.service.ts]: opening a session from a launch token,
    its revocation, the persisted reality check, and the two lookups the wallet
    layer routes money by.  The token library, the UUID column, the length of a
    printed JSON value and the printing of a date are parameters. *)

From Stdlib Require Import QArith.
From S2P Require Import Prelude Effects Js Money Schema Wallet Ledger Keys OperatorWallet AuditLog OperatorConfig Launch.

Open Scope Z_scope.

Record LaunchResult (Token : Type) := mk_result {
  lr_token : Token; lr_sessionId : uuid; lr_walletId : uuid; lr_currency : string;
  lr_decimals : Z; lr_locale : string; lr_callbackUrl : option string
}.
Arguments mk_result {Token}.

Module GameSession.

(** ** The tables *)

(** [{ user: { username } }] of a wallet. *)
Definition username_of (w : world) (wl : wallet) : option string := u_username <$> w_users w !! w_userId wl.

Definition user_by_name (name : string) (w : world) : option uuid :=
  fst <$> List.find (fun e => eqb_str (u_username e.2) name) (map_to_list (w_users w)).

Definition wallets_where (P : uuid * wallet -> bool) (w : world) : list (uuid * wallet) :=
  List.filter P (map_to_list (w_wallets w)).

Definition sessions_where (P : session -> bool) (w : world) : list session :=
  List.filter P (map_to_list (w_sessions w)).*2.

(** [updateMany({ where: P, data: f })]: the count. *)
Definition sessions_updateMany (P : session -> bool) (f : session -> session) : prog world Z :=
  db (fun w => (Ok (Z.of_nat (length (sessions_where P w))),
                set_sessions ((fun s => if P s then f s else s) <$> w_sessions w) w)).

(** [{ realityCheckDueAt, realityCheckPendingAt, realityCheckLastAckAt, revokedAt }]. *)
Definition session_with (s : session) (revokedAt due pending ack : option Z) : session :=
  mk_session (s_id s) (s_operatorId s) (s_playerId s) (s_currency s) (s_locale s) (s_walletId s) (s_demo s)
    (s_launchJti s) (s_createdAt s) revokedAt due pending ack.

Definition is_null (v : option Z) : bool := negb (is_Some_b v).

(** [{ walletId, revokedAt: null }] and [{ id, revokedAt: null }] *)
Definition live_on (walletId : uuid) (s : session) : bool :=
  bool_decide (s_walletId s = walletId) && is_null (s_revokedAt s).
Definition live_id (id : uuid) (s : session) : bool := bool_decide (s_id s = id) && is_null (s_revokedAt s).

Section service.
Context {Token : Type} `{Jwt Token} `{UuidColumn}.
Context (stringify_length : json -> Z) (toISOString : Z -> string).
Context (process_env : Risk.env) (JWT_SECRET : string).

Definition SESSION_TOKEN_TTL_SEC : Q :=
  match js_Number_opt (process_env "SESSION_TOKEN_TTL_SEC") with
  | Fin q => if js_ge (Fin q) 60 && js_le (Fin q) 86400 then q else inject_Z 14400
  | _ => inject_Z 14400
  end.

Definition DEMO_STARTING_BALANCE : Z :=
  match js_Number_opt (process_env "DEMO_STARTING_BALANCE") with
  | Fin q => if js_isInteger (Fin q) && js_ge (Fin q) 0 then Qfloor_Z q else 10000
  | _ => 10000
  end.

(** ** Opening a session *)

(** [op:{operatorId}:{playerId}:{currency}[:demo]] *)
Definition player_prefix (operatorId playerId : string) : string :=
  ("op:" +:+ operatorId +:+ String ":" (playerId +:+ ":"))%string.
Definition tag_of (operatorId playerId currency : string) (demo : bool) : string :=
  (player_prefix operatorId playerId +:+ currency +:+ if demo then ":demo" else "")%string.

(** [wallet.findFirst({ where: { currency, user: { username: tag } } })] *)
Definition tagged (currency tag : string) (w : world) (e : uuid * wallet) : bool :=
  eqb_str (w_currency e.2) currency && bool_decide (username_of w e.2 = Some tag).
Definition find_wallet (currency tag : string) (w : world) : option (uuid * wallet) :=
  head (wallets_where (tagged currency tag w) w).

(** [user.create] with its wallet and its profile, one statement. *)
Definition user_create (id : uuid) (tag currency displayName : string) : prog world (uuid * wallet) :=
  db (fun w =>
    match user_by_name tag w, w_users w !! id, w_wallets w !! w_uuid w, w_profiles w !! id with
    | None, None, None, None =>
        let wl := mk_wallet id currency 0 in
        (Ok (w_uuid w, wl),
         bump_uuid (set_profiles (<[id := mk_profile displayName 0 100]> (w_profiles w))
           (set_wallets (<[w_uuid w := wl]> (w_wallets w))
             (set_users (<[id := mk_user tag false None]> (w_users w)) w))))
    | _, _, _, _ => (Raise UniqueViolation, w)
    end).

Definition wallet_for (currency tag playerId : string) : prog world (uuid * wallet) :=
  found ← db_get (find_wallet currency tag);
  match found with
  | Some e => mret e
  | None =>
      try_catch
        (id ← randomUUID;
         user_create id tag currency ("Player " +:+ slice_to 6 playerId)%string)
        (fun e => match e with
                  | UniqueViolation =>
                      db (fun w => match find_wallet currency tag w with
                                   | Some e => (Ok e, w)
                                   | None => (Raise RecordNotFound, w)
                                   end)
                  | e => raise e
                  end)
  end.

(** [gameSession.create]: the unique [launchJti] is what consumes the token. *)
Definition session_create (operatorId : uuid) (v : VerifiedLaunch) (currency : string) (walletId : uuid) : prog world session :=
  db (fun w =>
    match LaunchToken.session_by_jti (v_jti v) w, w_sessions w !! w_uuid w with
    | None, None =>
        let s := mk_session (w_uuid w) operatorId (v_playerId v) currency (v_locale v) walletId (v_demo v)
                   (v_jti v) (w_now w) None None None None in
        (Ok s, bump_uuid (set_sessions (<[w_uuid w := s]> (w_sessions w)) w))
    | _, _ => (Raise UniqueViolation, w)
    end).

(** The claims of the play token. *)
Definition play_claims (v : VerifiedLaunch) (s : session) (wl : wallet) (limits : option Risk.PerBetLimits)
    (rg : option EffectiveRg) : list (string * json) :=
  [("sub", JStr (Keys.uuid_string (w_userId wl))); ("walletId", JStr (Keys.uuid_string (s_walletId s)));
   ("currency", JStr (s_currency s)); ("operatorId", JStr (v_operatorId v)); ("playerId", JStr (v_playerId v));
   ("sessionId", JStr (Keys.uuid_string (s_id s))); ("kind", JStr "operator");
   ("sessionStartedAt", JNum (inject_Z (s_createdAt s)))]%string
  ++ match limits with Some l => [("limits"%string, BetLimits.serializeBetLimits l)] | None => [] end
  ++ (if v_demo v then [("demo"%string, JBool true)] else [])
  ++ match rg with Some g => [("rg"%string, Rg.serializeRg g)] | None => [] end.

Definition openFromToken (token : Token) : prog world (LaunchResult Token) :=
  v ← LaunchToken.verify token;
  let currency := toUpperCase (nullish (v_currency v) EmptyString) in
  let demo := v_demo v in
  found ← LaunchToken.operator_findUnique (JStr (v_operatorId v));
  let op := option_map snd found in
  let limits := match op with Some o => BetLimits.effectiveLimitsFor (o_betLimits o) currency | None => None end in
  let rg := if demo then None
            else match op with Some o => Rg.effectiveRgFor (o_rgConfig o) currency | None => None end in
  let tag := tag_of (v_operatorId v) (v_playerId v) currency demo in
  wl ← wallet_for currency tag (v_playerId v);
  session ← try_catch
    match uuid_column (v_operatorId v) with
    | Some operatorId => session_create operatorId v currency wl.1
    | None => raise (JsError "Inconsistent column data")
    end
    (fun e => match e with
              | UniqueViolation => LaunchToken.unauthorized "launch_token_already_used"
              | e => raise e
              end);
  _ ← when demo
    (_ ← Ledger.resetTo wl.1 DEMO_STARTING_BALANCE
           (KDemoReset ("demo:reset:" +:+ Keys.uuid_string (s_id session))%string) None; mret tt);
  now ← Date_now;
  match signAsync now (play_claims v session wl.2 limits rg) JWT_SECRET SESSION_TOKEN_TTL_SEC None with
  | None => raise (JsError "sign")
  | Some playToken =>
      mret (mk_result playToken (s_id session) wl.1 currency
              (Currency.cm_decimals (Currency.cr_meta (Currency.currencyMeta (Some currency)))) (v_locale v)
              (match op with Some o => o_callbackUrl o | None => None end))
  end.

(** ** Liveness *)

Definition isLive (sessionId : uuid) : prog world bool :=
  n ← db_get (fun w => Z.of_nat (length (sessions_where (live_id sessionId) w)));
  mret (n >? 0).

Definition findNotLive (sessionIds : list uuid) : prog world (gset uuid) :=
  match sessionIds with
  | [] => mret ∅
  | _ =>
      live ← db_get (sessions_where (fun s => bool_decide (s_id s ∈ sessionIds) && is_null (s_revokedAt s)));
      let liveSet : gset uuid := list_to_set (s_id <$> live) in
      mret (list_to_set (List.filter (fun id => negb (bool_decide (id ∈ liveSet))) sessionIds))
  end.

(** ** The persisted reality check *)

Definition markRealityCheckPending (sessionId : uuid) (nextDueAt : option Z) : prog world unit :=
  now ← Date_now;
  _ ← sessions_updateMany (live_id sessionId)
    (fun s => session_with s (s_revokedAt s)
       (match nextDueAt with Some t => Some t | None => s_rcDueAt s end) (Some now) (s_rcLastAckAt s));
  mret tt.

Definition ackRealityCheck (sessionId : uuid) (nextDueAt : option Z) : prog world unit :=
  now ← Date_now;
  _ ← sessions_updateMany (live_id sessionId)
    (fun s => session_with s (s_revokedAt s)
       (match nextDueAt with Some t => Some t | None => s_rcDueAt s end) None (Some now));
  mret tt.

(** [{ pending, dueAt }] *)
Definition loadRealityCheckState (sessionId : uuid) : prog world (bool * option Z) :=
  s ← db_get (fun w => w_sessions w !! sessionId);
  match s with
  | None => mret (false, None)
  | Some s => mret (is_Some_b (s_rcPendingAt s), s_rcDueAt s)
  end.

(** ** Revocation *)

Definition revokeForWallet (walletId : uuid) : prog world Z :=
  targets ← db_get (sessions_where (live_on walletId));
  now ← Date_now;
  count ← sessions_updateMany (live_on walletId)
    (fun s => session_with s (Some now) (s_rcDueAt s) (s_rcPendingAt s) (s_rcLastAckAt s));
  _ ← when (count >? 0)
    (now ← Date_now;
     Audit.record stringify_length (mk_audit "system" "session.revoke" (Some "game_session"%string)
       (Some (Keys.uuid_string walletId)) (s_operatorId <$> head targets) None
       None (Some (JObj [("revokedAt"%string, JStr (toISOString now))]))
       (Some (JObj [("walletId", JStr (Keys.uuid_string walletId)); ("revokedCount", JNum (inject_Z count));
                    ("sessionIds", JArr (List.map (fun s => JStr (Keys.uuid_string (s_id s))) targets))]%string))));
  mret count.

(** [/^[^:]+(:demo)?$/] *)
Definition SUFFIX_RE (s : string) : bool :=
  match split_on ":" s with
  | [c] => nonempty c
  | [c; d] => nonempty c && eqb_str d "demo"
  | _ => false
  end.

Definition revoke_candidate (base : string) (currency : option string) (w : world) (e : uuid * wallet) : bool :=
  match username_of w e.2 with
  | None => false
  | Some name =>
      match currency with
      | Some c => if nonempty c
                  then eqb_str name (base +:+ toUpperCase c)%string || eqb_str name (base +:+ toUpperCase c +:+ ":demo")%string
                  else startsWith base name
      | None => startsWith base name
      end
  end.

(** [{ revoked, wallets }] *)
Definition revokeForOperatorPlayer (operatorId playerId : string) (currency : option string) : prog world (Z * Z) :=
  let base := player_prefix operatorId playerId in
  candidates ← db_get (fun w => List.map (fun e => (e.1, nullish (username_of w e.2) EmptyString))
                                  (wallets_where (revoke_candidate base currency w) w));
  let wallets := List.filter (fun c => SUFFIX_RE (slice_from (String.length base) c.2)) candidates in
  revoked ← fold_each wallets (fun n c => m ← revokeForWallet c.1; mret (n + m)) 0;
  mret (revoked, Z.of_nat (length wallets)).

(** ** Routing *)

Definition isDemoWallet (walletId : uuid) : prog world bool :=
  s ← db_get (fun w => head (sessions_where (fun s => bool_decide (s_walletId s = walletId)) w));
  match s with
  | Some s => mret (s_demo s)
  | None =>
      name ← db_get (fun w => match w_wallets w !! walletId with
                              | Some wl => nullish (username_of w wl) EmptyString
                              | None => EmptyString
                              end);
      let isRealOperatorWallet := startsWith "op:" name && negb (endsWith ":demo" name) in
      mret (negb isRealOperatorWallet)
  end.

(** The newest by [createdAt]. *)
Definition newest (l : list session) : option session :=
  fold_left (fun best s => match best with
                           | Some b => if s_createdAt b <? s_createdAt s then Some s else best
                           | None => Some s
                           end) l None.

Definition resolver (walletId : uuid) : prog world OperatorSession :=
  s ← db_get (fun w => newest (sessions_where (fun s => bool_decide (s_walletId s = walletId)) w));
  match s with
  | Some s => mret (mk_opsession (s_operatorId s) (s_playerId s) (s_currency s))
  | None => raise RecordNotFound
  end.
End service.
End GameSession.
