(* ===== verification/Reporting.v ===== *)
(** * Operator reports

    [operator/reporting.service.ts]: the summary and the daily series of a
    period, the pages of its bets, the status of one transaction and the audit
    log of one operator.  Read-only.  The comparison of [localeCompare] is the
    class [Collation]; the printing of a decimal column is the parameter
    [Decimal_toString].
    A page of the database client that starts at a cursor is the rows from the
    cursor's place on, in the order of the query.  A bet without a currency has
    the empty one; the generated identifier of an audit event is not modelled. *)

From S2P Require Import Prelude Effects Js Dates Money Schema Keys ReportQuery Launch Sessions.
Import ReportQuery.

Open Scope Z_scope.

(** [a.localeCompare(b)]: negative, zero or positive. *)
Class Collation := localeCompare : string -> string -> Z.

(** Every collation of the language is a total preorder; on currency codes (upper
    case letters and digits of ASCII) different strings are told apart. *)
Class CollationLaws `{Collation} : Prop := {
  collation_total a b : localeCompare a b <= 0 \/ localeCompare b a <= 0;
  collation_trans a b c : localeCompare a b <= 0 -> localeCompare b c <= 0 -> localeCompare a c <= 0;
  collation_codes a b : Currency.CURRENCY_CODE_RE a = true -> Currency.CURRENCY_CODE_RE b = true ->
    localeCompare a b <= 0 -> localeCompare b a <= 0 -> a = b
}.

Module Reporting.

(** ** Responses *)

Record CurrencyStat := mk_stat {
  cs_currency : string; cs_decimals : Z; cs_betCount : Z; cs_wagered : string; cs_won : string;
  cs_ggr : string; cs_uniquePlayers : Z; cs_rtp : string
}.
Record SummaryResponse := mk_summary {
  sr_operatorId : uuid; sr_from : string; sr_to : string; sr_includeDemo : bool; sr_currencies : list CurrencyStat
}.
Record DailyBucket := mk_bucket { db_date : string; db_stat : CurrencyStat }.
Record DailyResponse := mk_daily {
  dr_operatorId : uuid; dr_from : string; dr_to : string; dr_includeDemo : bool; dr_days : list DailyBucket
}.
Record BetRow := mk_row {
  br_id : string; br_roundId : string; br_playerId : option string; br_currency : string; br_decimals : Z;
  br_panel : panel; br_amount : string; br_status : bet_status; br_cashoutMult : option string; br_payout : string;
  br_demo : bool; br_createdAt : string; br_settledAt : option string
}.
Record BetsResponse := mk_bets {
  bs_operatorId : uuid; bs_from : string; bs_to : string; bs_includeDemo : bool;
  bs_bets : list BetRow; bs_nextCursor : option string
}.

(** ** Dispositions *)

Inductive DebitState := DebitPending | DebitApplied | DebitReversed.
Inductive RefundState := RefundNone | RefundPending | RefundApplied.
Inductive PayoutState := PayoutNone | PayoutPending | PayoutPaid.

Definition debitStateOf (status : bet_status) : DebitState :=
  match status with
  | reserving | voiding => DebitPending
  | cancelled | voided => DebitReversed
  | _ => DebitApplied
  end.
Definition refundStateOf (status : bet_status) : RefundState :=
  match status with
  | cancelling | voiding => RefundPending
  | cancelled | voided => RefundApplied
  | _ => RefundNone
  end.
Definition payoutStateOf (status : bet_status) : PayoutState :=
  match status with
  | cashed_out => PayoutPaid
  | payout_pending | voiding => PayoutPending
  | _ => PayoutNone
  end.

Record TransactionStatusResponse := mk_tx_status {
  ts_operatorId : uuid; ts_betId : string; ts_roundId : string; ts_playerId : option string; ts_currency : string;
  ts_decimals : Z; ts_panel : panel; ts_status : bet_status; ts_stake : string; ts_payout : string;
  ts_cashoutMult : option string; ts_debitState : DebitState; ts_refundState : RefundState; ts_payoutState : PayoutState;
  ts_debitTxId : option tx_id; ts_payoutTxId : option tx_id; ts_demo : bool; ts_createdAt : string;
  ts_settledAt : option string; ts_query : Keys.TransactionQuery
}.

Section service.
Context `{UuidColumn} `{Collation} (Decimal_toString : Z -> string).

(** ** The scope of a query *)

(** [if (!currency)] is false on a currency that is not empty. *)
Definition where_ (operatorId : uuid) (q : ReportQuery) (b : bet) : bool :=
  opt_eqb (b_operatorId b) (Some operatorId)
  && (q_from q <=? b_createdAt b) && (b_createdAt b <=? q_to q)
  && match q_currency q with Some c => if nonempty c then eqb_str (b_currency b) c else true | None => true end
  && (if q_includeDemo q then true else negb (b_demo b)).

Definition toCurrencyStat (currency : string) (betCount wagered won uniquePlayers : Z) : CurrencyStat :=
  mk_stat currency (Currency.cm_decimals (Currency.cr_meta (Currency.currencyMeta (Some currency))))
    betCount (Money.minorUnitsToString wagered) (Money.minorUnitsToString won)
    (Money.minorUnitsToString (wagered - won)) uniquePlayers (Money.rtpRatioString won wagered).

(** ** Summary *)

(** A group of [groupBy({ by: ["currency", "status"], _sum, _count })]. *)
Record stat_group := mk_group {
  g_currency : string; g_status : bet_status; g_amount : Z; g_payout : Z; g_count : Z
}.
Definition groupBy_status (rows : list bet) : list stat_group :=
  (fun g : string * bet_status * list bet =>
     mk_group g.1.1 g.1.2 (sumZ b_amount g.2) (sumZ b_payout g.2) (Z.of_nat (length g.2)))
  <$> group_by (fun b => (b_currency b, b_status b)) rows.

(** [groupBy({ by: ["currency", "walletId"] })], the currency of each group. *)
Definition groupBy_wallet (rows : list bet) : list string :=
  (fun g : string * uuid * list bet => g.1.1) <$> group_by (fun b => (b_currency b, b_walletId b)) rows.

Record ccy_acc := mk_acc { a_betCount : Z; a_wagered : Z; a_won : Z }.
Definition acc_group (e : ccy_acc) (g : stat_group) : ccy_acc :=
  let e1 := if BetStatus.isWageredStatus (g_status g)
            then mk_acc (a_betCount e + g_count g) (a_wagered e + g_amount g) (a_won e) else e in
  if BetStatus.isWonStatus (g_status g) then mk_acc (a_betCount e1) (a_wagered e1) (a_won e1 + g_payout g) else e1.

Definition stat_le (a b : CurrencyStat) : Prop := localeCompare (cs_currency a) (cs_currency b) <= 0.
#[export] Instance stat_le_dec a b : Decision (stat_le a b).
Proof. unfold stat_le. apply _. Defined.

Definition foldCurrencies (grouped : list stat_group) (playerRows : list string) : list CurrencyStat :=
  let acc := fold_left (fun m g => if nonempty (g_currency g)
                                   then amap_set (g_currency g) (acc_group (nullish (amap_get (g_currency g) m) (mk_acc 0 0 0)) g) m
                                   else m) grouped [] in
  let playerCounts := fold_left (fun m p => if nonempty p then amap_set p (nullish (amap_get p m) 0 + 1) m else m)
                        playerRows [] in
  merge_sort stat_le
    (List.map (fun e : string * ccy_acc => toCurrencyStat e.1 (a_betCount e.2) (a_wagered e.2) (a_won e.2)
                          (nullish (amap_get e.1 playerCounts) 0))
       (List.filter (fun e : string * ccy_acc => 0 <? a_betCount e.2) acc)).

Definition summary (operatorId : uuid) (q : ReportQuery) : prog world SummaryResponse :=
  grouped ← db_get (fun w => groupBy_status (bets_where (where_ operatorId q) w));
  playerRows ← db_get (fun w => groupBy_wallet
                 (bets_where (fun b => where_ operatorId q b && BetStatus.isWageredStatus (b_status b)) w));
  mret (mk_summary operatorId (Dates.toISOString (q_from q)) (Dates.toISOString (q_to q)) (q_includeDemo q)
          (foldCurrencies grouped playerRows)).

(** ** Daily series *)

Record bucket := mk_bkt {
  k_date : string; k_currency : string; k_betCount : Z; k_wagered : Z; k_won : Z; k_players : gset uuid
}.
Definition bucket_add (k : bucket) (r : bet) : bucket :=
  let k1 := if BetStatus.isWageredStatus (b_status r)
            then mk_bkt (k_date k) (k_currency k) (k_betCount k + 1) (k_wagered k + b_amount r) (k_won k)
                   ({[b_walletId r]} ∪ k_players k)
            else k in
  if BetStatus.isWonStatus (b_status r)
  then mk_bkt (k_date k1) (k_currency k1) (k_betCount k1) (k_wagered k1) (k_won k1 + b_payout r) (k_players k1)
  else k1.

Definition bucket_key (date ccy : string) : string := (date +:+ String " " ccy)%string.

(** [a.date < b.date ? -1 : a.date > b.date ? 1 : localeCompare]: string
    comparison is by code units. *)
Definition bucket_le (a b : DailyBucket) : Prop :=
  match String.compare (db_date a) (db_date b) with
  | Lt => True
  | Gt => False
  | Eq => stat_le (db_stat a) (db_stat b)
  end.
#[export] Instance bucket_le_dec a b : Decision (bucket_le a b).
Proof. unfold bucket_le. destruct (String.compare _ _); apply _. Defined.

Definition date_of (r : bet) : string := slice_to 10 (Dates.toISOString (b_createdAt r)).

Definition bucket_rows (rows : list bet) : list (string * bucket) :=
  fold_left (fun m r =>
    if nonempty (b_currency r) then
      let date := date_of r in
      let key := bucket_key date (b_currency r) in
      let b := nullish (amap_get key m) (mk_bkt date (b_currency r) 0 0 0 ∅) in
      amap_set key (bucket_add b r) m
    else m) rows [].

Definition daily_buckets (rows : list bet) : list DailyBucket :=
  merge_sort bucket_le
    (List.map (fun e : string * bucket => mk_bucket (k_date e.2)
                 (toCurrencyStat (k_currency e.2) (k_betCount e.2) (k_wagered e.2) (k_won e.2) (Z.of_nat (size (k_players e.2)))))
       (List.filter (fun e : string * bucket => 0 <? k_betCount e.2) (bucket_rows rows))).

Definition daily (operatorId : uuid) (q : ReportQuery) : prog world DailyResponse :=
  rows ← db_get (bets_where (where_ operatorId q));
  mret (mk_daily operatorId (Dates.toISOString (q_from q)) (Dates.toISOString (q_to q)) (q_includeDemo q)
          (daily_buckets rows)).

(** ** Pages of bets *)

(** [orderBy: [{ createdAt: "desc" }, { id: "desc" }]] *)
Definition listed_before (a b : bet) : Prop :=
  b_createdAt b < b_createdAt a \/ (b_createdAt a = b_createdAt b /\ (b_id b <= b_id a)%N).
#[export] Instance listed_before_dec a b : Decision (listed_before a b).
Proof. unfold listed_before. apply _. Defined.

(** [findMany({ where, orderBy, take, cursor: { id }, skip: 1 })] *)
Definition page_from (P : bet -> bool) (cursor : option uuid) (take_ : Z) (w : world) : list bet :=
  let rows := merge_sort listed_before (bets_where P w) in
  let start := match cursor with
               | None => rows
               | Some c => match w_bets w !! c with
                           | Some r => drop 1 (List.filter (fun b => bool_decide (listed_before r b)) rows)
                           | None => []
                           end
               end in
  take (Z.to_nat take_) start.

(** [bet.findUnique({ where: { id } })] of a text. *)
Definition bet_findUnique_text (id : string) : prog world (option bet) :=
  db (fun w => match uuid_column id with
               | Some n => (Ok (w_bets w !! n), w)
               | None => (Raise (JsError "Inconsistent column data"), w)
               end).

Definition playerByWallet (sessions : list session) : list (uuid * string) :=
  fold_left (fun m s => match amap_get (s_walletId s) m with
                        | Some _ => m
                        | None => amap_set (s_walletId s) (s_playerId s) m
                        end) sessions [].

Definition bet_row (players : list (uuid * string)) (r : bet) : BetRow :=
  mk_row (Keys.uuid_string (b_id r)) (Keys.uuid_string (b_roundId r)) (amap_get (b_walletId r) players) (b_currency r)
    (Currency.cm_decimals (Currency.cr_meta (Currency.currencyMeta (Some (b_currency r))))) (b_panel r)
    (Money.minorUnitsToString (b_amount r)) (b_status r) (Decimal_toString <$> b_cashoutMult r)
    (Money.minorUnitsToString (b_payout r)) (b_demo r) (Dates.toISOString (b_createdAt r))
    (Dates.toISOString <$> b_settledAt r).

(** The cursor must be a bet of this operator. *)
Definition check_cursor (operatorId : uuid) (cursor : option string) : prog world unit :=
  match cursor with
  | None => mret tt
  | Some id =>
      c ← bet_findUnique_text id;
      match c with
      | Some c => if opt_eqb (b_operatorId c) (Some operatorId) then mret tt else raise (BadRequest "invalid cursor")
      | None => raise (BadRequest "invalid cursor")
      end
  end.

Definition bets (operatorId : uuid) (q : BetsQuery) : prog world BetsResponse :=
  let cursor := match bq_cursor q with Some c => if nonempty c then Some c else None | None => None end in
  _ ← check_cursor operatorId cursor;
  rows ← db_get (page_from (where_ operatorId (bq_base q))
                   (match cursor with Some c => uuid_column c | None => None end) (bq_limit q + 1));
  let hasMore := bq_limit q <? Z.of_nat (length rows) in
  let page := if hasMore then take (Z.to_nat (bq_limit q)) rows else rows in
  let walletIds := remove_dups (b_walletId <$> page) in
  sessions ← match walletIds with
             | [] => mret []
             | _ => db_get (GameSession.sessions_where (fun s => bool_decide (s_walletId s ∈ walletIds)))
             end;
  let players := playerByWallet sessions in
  mret (mk_bets operatorId (Dates.toISOString (q_from (bq_base q))) (Dates.toISOString (q_to (bq_base q)))
          (q_includeDemo (bq_base q)) (bet_row players <$> page)
          (if hasMore then (fun b => Keys.uuid_string (b_id b)) <$> last page else None)).

(** ** One transaction *)

Definition find_transaction (q : Keys.TransactionQuery) : prog world (option bet) :=
  match q with
  | Keys.ByDebit roundId userId p _ =>
      db (fun w => match uuid_column roundId, uuid_column userId with
                   | Some r, Some u => (Ok (bet_findUnique_slot r u p w), w)
                   | _, _ => (Raise (JsError "Inconsistent column data"), w)
                   end)
  | Keys.ByBetId id | Keys.ByPayout id _ | Keys.ByRefund id _ => bet_findUnique_text id
  end.

Definition transactionStatus (operatorId : uuid) (q : Keys.TransactionQuery) : prog world TransactionStatusResponse :=
  found ← find_transaction q;
  match found with
  | None => raise (NotFound "transaction_not_found")
  | Some bet =>
      if negb (opt_eqb (b_operatorId bet) (Some operatorId)) then raise (NotFound "transaction_not_found")
      else
        session ← db_get (fun w => head (GameSession.sessions_where (fun s => bool_decide (s_walletId s = b_walletId bet)) w));
        mret (mk_tx_status operatorId (Keys.uuid_string (b_id bet)) (Keys.uuid_string (b_roundId bet))
                (s_playerId <$> session) (b_currency bet)
                (Currency.cm_decimals (Currency.cr_meta (Currency.currencyMeta (Some (b_currency bet))))) (b_panel bet)
                (b_status bet) (Money.minorUnitsToString (b_amount bet)) (Money.minorUnitsToString (b_payout bet))
                (Decimal_toString <$> b_cashoutMult bet) (debitStateOf (b_status bet)) (refundStateOf (b_status bet))
                (payoutStateOf (b_status bet)) (b_debitTxId bet) (b_payoutTxId bet) (b_demo bet)
                (Dates.toISOString (b_createdAt bet)) (Dates.toISOString <$> b_settledAt bet) q)
  end.

(** ** The audit log *)

Definition audit_scope (operatorId : uuid) (q : AuditQuery) (r : audit_row) : bool :=
  opt_eqb (a_operatorId (ar_event r)) (Some operatorId)
  && match aq_action q with Some a => if nonempty a then eqb_str (a_action (ar_event r)) a else true | None => true end
  && match aq_from q with Some f => f <=? ar_createdAt r | None => true end
  && match aq_to q with Some t => ar_createdAt r <=? t | None => true end.

Definition newer_event (a b : audit_row) : Prop := ar_createdAt b <= ar_createdAt a.
#[export] Instance newer_event_dec a b : Decision (newer_event a b).
Proof. unfold newer_event. apply _. Defined.

Record EventRow := mk_event_row {
  er_createdAt : string; er_actor : string; er_action : string; er_targetType : option string;
  er_targetId : option string; er_ip : option string; er_before : option json; er_after : option json; er_meta : option json
}.
Definition event_row (r : audit_row) : EventRow :=
  let e := ar_event r in
  mk_event_row (Dates.toISOString (ar_createdAt r)) (a_actor e) (a_action e) (a_targetType e) (a_targetId e) (a_ip e)
    (a_before e) (a_after e) (a_meta e).

(** The count and the events, newest first. *)
Definition auditEvents (operatorId : uuid) (q : AuditQuery) : prog world (Z * list EventRow) :=
  rows ← db_get (fun w => take (Z.to_nat (aq_limit q))
           (merge_sort newer_event (List.filter (audit_scope operatorId q) (w_audit w))));
  mret (Z.of_nat (length rows), event_row <$> rows).
End service.
End Reporting.
