(* ===== verification/ReportSafety.v ===== *)
(** * What the operator's reports say

    The summary and the daily series are the reference sums over the bets in
    scope and agree with each other; walking the pages lists every bet of the
    range once; no report depends on another tenant's bets; and what a
    transaction's dispositions say about the journal. *)

From S2P Require Import Prelude Effects Js Dates Money Schema Keys ReportQuery Launch Sessions Reporting.
Import ReportQuery Reporting.

Open Scope Z_scope.

#[local] Set Warnings "-clear-no-such-hyp".

Module ReportSafety.

(** ** The reference sums *)

Definition is_wagered (b : bet) : bool := BetStatus.isWageredStatus (b_status b).
Definition is_won (b : bet) : bool := BetStatus.isWonStatus (b_status b).
Definition bet_one (b : bet) : Z := if is_wagered b then 1 else 0.
Definition bet_wagered (b : bet) : Z := if is_wagered b then b_amount b else 0.
Definition bet_won (b : bet) : Z := if is_won b then b_payout b else 0.

Definition of_ccy : string -> list bet -> list bet := rows_of b_currency.
Definition players_of (rows : list bet) : gset uuid := list_to_set (b_walletId <$> List.filter is_wagered rows).

(** The statistics of a list of bets of one currency. *)
Definition ref_stat (ccy : string) (rows : list bet) : CurrencyStat :=
  toCurrencyStat ccy (sumZ bet_one rows) (sumZ bet_wagered rows) (sumZ bet_won rows) (Z.of_nat (size (players_of rows))).

(** The bets a query is about. *)
Definition scope (operatorId : uuid) (q : ReportQuery) (w : world) : list bet := bets_where (where_ operatorId q) w.

(** ** Folding groups *)

Definition gsum (f : stat_group -> Z) (p : bet_status -> bool) (l : list stat_group) : Z :=
  sumZ (fun g => if p (g_status g) then f g else 0) l.

Lemma acc_groups l e : fold_left acc_group l e =
  mk_acc (a_betCount e + gsum g_count BetStatus.isWageredStatus l) (a_wagered e + gsum g_amount BetStatus.isWageredStatus l)
    (a_won e + gsum g_payout BetStatus.isWonStatus l).
Proof.
  unfold gsum. revert e; induction l as [|g l IH]; intros e; cbn [fold_left sumZ].
  { destruct e; cbn. f_equal; lia. }
  rewrite IH. unfold acc_group.
  destruct (BetStatus.isWageredStatus _), (BetStatus.isWonStatus _); cbn; f_equal; lia.
Qed.

(** A condition on the key of a group, as one on its rows. *)
Lemma group_sum_if {K} `{EqDecision K} (key : bet -> K) (p : K -> bool) (f : bet -> Z) rows :
  sumZ (fun g => if p g.1 then sumZ f g.2 else 0) (group_by key rows) = sumZ (fun b => if p (key b) then f b else 0) rows.
Proof.
  rewrite <- (group_by_sum key). unfold group_by. rewrite !sumZ_map. apply sumZ_ext. intros k. cbn.
  assert (H : forall l, Forall (fun b => key b = k) l ->
    (if p k then sumZ f l else 0) = sumZ (fun b => if p (key b) then f b else 0) l).
  { induction 1 as [|b l Hb _ IH]; cbn [sumZ]; [by destruct (p k)|]. rewrite Hb. destruct (p k); lia. }
  apply H, Forall_forall. intros b Hb. by apply rows_of_in in Hb as [? _].
Qed.

Lemma sumZ_one {A} (l : list A) : sumZ (fun _ => 1) l = Z.of_nat (length l).
Proof. induction l as [|x l IH]; [done|]. cbn [sumZ length]. lia. Qed.

Lemma rows_of_map {A B K} `{EqDecision K} (g : A -> B) (key : B -> K) k l :
  rows_of key k (g <$> l) = g <$> rows_of (fun a => key (g a)) k l.
Proof.
  induction l as [|a l IH]; [done|]. rewrite fmap_cons, !rows_of_cons, IH. by destruct (decide _).
Qed.

Lemma gsum_ccy (f : stat_group -> Z) (h : bet -> Z) (p : bet_status -> bool) (c : string) rows :
  (forall g : string * bet_status * list bet,
     f (mk_group g.1.1 g.1.2 (sumZ b_amount g.2) (sumZ b_payout g.2) (Z.of_nat (length g.2))) = sumZ h g.2) ->
  gsum f p (rows_of g_currency c (groupBy_status rows)) = sumZ (fun b => if p (b_status b) then h b else 0) (of_ccy c rows).
Proof.
  intros Hf. unfold gsum, of_ccy, rows_of at 2, groupBy_status. rewrite rows_of_map. rewrite sumZ_map.
  unfold rows_of. rewrite !sumZ_filter.
  transitivity (sumZ (fun g : string * bet_status * list bet => if eqb_str g.1.1 c && p g.1.2 then sumZ h g.2 else 0)
                  (group_by (fun b => (b_currency b, b_status b)) rows)).
  { apply sumZ_ext. intros g. cbn. rewrite Hf. unfold eqb_str. by destruct (bool_decide _), (p _). }
  etrans; [apply (group_sum_if (fun b => (b_currency b, b_status b)) (fun k => eqb_str k.1 c && p k.2))|].
  apply sumZ_ext. intros b. cbn. unfold eqb_str. by destruct (bool_decide _), (p _).
Qed.

(** The accumulated counts of a currency are the sums over its bets. *)
Lemma acc_ccy c rows : fold_left acc_group (rows_of g_currency c (groupBy_status rows)) (mk_acc 0 0 0) =
  mk_acc (sumZ bet_one (of_ccy c rows)) (sumZ bet_wagered (of_ccy c rows)) (sumZ bet_won (of_ccy c rows)).
Proof.
  rewrite acc_groups. cbn [a_betCount a_wagered a_won]. rewrite !Z.add_0_l.
  rewrite (gsum_ccy g_count (fun _ => 1)) by (intros g; cbn; by rewrite sumZ_one).
  by rewrite (gsum_ccy g_amount b_amount), (gsum_ccy g_payout b_payout).
Qed.

(** ** Counting players *)

Lemma fold_count {A} (l : list A) (n : Z) : fold_left (fun n _ => n + 1) l n = n + Z.of_nat (length l).
Proof. revert n; induction l as [|x l IH]; intros n; cbn [fold_left length]; [lia|]. rewrite IH. lia. Qed.

Lemma rows_of_NoDup {A K} `{EqDecision K} (key : A -> K) k l : NoDup l -> NoDup (rows_of key k l).
Proof.
  induction 1 as [|a l Hn _ IH]; [constructor|]. rewrite rows_of_cons. destruct (decide _); [|done].
  constructor; [|done]. rewrite rows_of_in. naive_solver.
Qed.

(** The wallets of a currency, counted through the groups. *)
Lemma wallet_groups c rows :
  length (rows_of id c (groupBy_wallet rows)) = size (list_to_set (b_walletId <$> of_ccy c rows) : gset uuid).
Proof.
  unfold groupBy_wallet, group_by. rewrite <- list_fmap_compose, rows_of_map, length_fmap. cbn.
  set (pairs := rows_of (fun k : string * uuid => k.1) c (remove_dups ((fun b => (b_currency b, b_walletId b)) <$> rows))).
  change (rows_of _ c _) with pairs.
  assert (Hnd : NoDup pairs.*2).
  { apply NoDup_fmap_2_strong; [|apply rows_of_NoDup, NoDup_remove_dups].
    intros [c1 u1] [c2 u2] H1 H2 E. cbn in E. subst.
    apply rows_of_in in H1 as [H1 _]. apply rows_of_in in H2 as [H2 _]. cbn in *. congruence. }
  rewrite <- (length_fmap snd), <- (size_list_to_set (C := gset uuid)) by done. f_equal.
  apply set_eq. intros u. rewrite !elem_of_list_to_set, !list_elem_of_fmap. split.
  - intros ([c' u'] & -> & Hin). apply rows_of_in in Hin as [E Hin]. cbn in E. subst c'.
    apply elem_of_remove_dups, list_elem_of_fmap in Hin as (b & Hb & Hin). exists b. injection Hb as -> ->.
    split; [done|]. by apply rows_of_in.
  - intros (b & -> & Hb). apply rows_of_in in Hb as [E Hin]. exists (b_currency b, b_walletId b). split; [done|].
    apply rows_of_in. split; [done|]. apply elem_of_remove_dups, list_elem_of_fmap. by exists b.
Qed.

Lemma filter_rows_of {A K} `{EqDecision K} (key : A -> K) (P : A -> bool) k l :
  rows_of key k (List.filter P l) = List.filter P (rows_of key k l).
Proof.
  induction l as [|a l IH]; [done|]. cbn [List.filter]. rewrite rows_of_cons. destruct (P a) eqn:HP.
  - rewrite rows_of_cons, IH. destruct (decide _); [|done]. cbn. by rewrite HP.
  - rewrite IH. destruct (decide _); [|done]. cbn. by rewrite HP.
Qed.

(** ** The summary *)

Lemma rows_of_filter_key {A K} `{EqDecision K} (key : A -> K) (P : K -> bool) k l :
  rows_of key k (List.filter (fun a => P (key a)) l) = if P k then rows_of key k l else [].
Proof.
  rewrite filter_rows_of. induction l as [|a l IH]; [by destruct (P k)|]. rewrite rows_of_cons.
  destruct (decide (key a = k)) as [<-|]; [|done]. cbn [List.filter]. rewrite IH. by destruct (P (key a)).
Qed.

Lemma NoDup_filter_keys {A K} (P : K * A -> bool) (m : list (K * A)) : NoDup m.*1 -> NoDup (List.filter P m).*1.
Proof.
  induction m as [|[k a] m IH]; cbn; intros Hnd; [done|]. apply NoDup_cons in Hnd as [Hk Hnd].
  destruct (P (k, a)); [|by apply IH]. cbn. apply NoDup_cons. split; [|by apply IH].
  rewrite list_elem_of_fmap. intros ([k' a'] & -> & Hin). apply Hk, list_elem_of_fmap. exists (k', a'). split; [done|].
  apply list_elem_of_In, List.filter_In in Hin as [Hin _]. by apply list_elem_of_In.
Qed.

(** A map over the entries that pass, as membership. *)
Lemma in_map_filter {A B} (P : A -> bool) (f : A -> B) (l : list A) y :
  y ∈ List.map f (List.filter P l) <-> exists x, x ∈ l /\ P x = true /\ y = f x.
Proof.
  rewrite list_elem_of_In, in_map_iff. setoid_rewrite List.filter_In. setoid_rewrite <- list_elem_of_In. naive_solver.
Qed.

(** Rewrite the accumulating loop over [l], which skips the rows without [P], as a tally. *)
Ltac to_tally P t l :=
  match goal with |- context [fold_left ?f l []] =>
    rewrite (fold_left_skip P t l [] : fold_left f l [] = fold_left t (List.filter P l) [])
  end.

Section collated.
Context `{Collation} `{!CollationLaws}.

#[export] Instance stat_le_total : Total stat_le.
Proof. intros a b. apply collation_total. Qed.
#[export] Instance stat_le_trans : Transitive stat_le.
Proof. intros a b c. apply collation_trans. Qed.

Lemma player_count c rows : nonempty c = true ->
  nullish (amap_get c (fold_left (fun m p => if nonempty p then amap_set p (nullish (amap_get p m) 0 + 1) m else m)
    (groupBy_wallet (List.filter is_wagered rows)) [])) 0 = Z.of_nat (size (players_of (of_ccy c rows))).
Proof.
  intros Hc. unfold players_of, of_ccy. rewrite <- filter_rows_of, <- (wallet_groups c).
  set (l := groupBy_wallet _). to_tally nonempty (tally_step id (fun _ : string => 0) (fun n (_ : string) => n + 1)) l.
  destruct (tally_spec id (fun _ => 0) (fun n _ => n + 1) (List.filter nonempty l)) as [_ ->].
  rewrite (rows_of_filter_key id nonempty), Hc.
  destruct (rows_of id c l) as [|r l'] eqn:E; [done|]. cbn [nullish]. rewrite fold_count. by rewrite <- E.
Qed.

(** The statistics of a period: one per currency with a wagered bet, exact, in order. *)
Definition stats_exact (rows : list bet) (l : list CurrencyStat) : Prop :=
  Sorted stat_le l /\ NoDup (cs_currency <$> l) /\
  forall s, s ∈ l <-> exists c, nonempty c = true /\ 0 < sumZ bet_one (of_ccy c rows) /\ s = ref_stat c (of_ccy c rows).

Lemma foldCurrencies_exact rows :
  stats_exact rows (foldCurrencies (groupBy_status rows) (groupBy_wallet (List.filter is_wagered rows))).
Proof.
  unfold foldCurrencies. set (players := fold_left _ (groupBy_wallet _) []).
  to_tally (fun g => nonempty (g_currency g)) (tally_step g_currency (fun _ => mk_acc 0 0 0) acc_group) (groupBy_status rows).
  set (groups := List.filter _ (groupBy_status rows)).
  destruct (tally_spec g_currency (fun _ => mk_acc 0 0 0) acc_group groups) as [Hnd _].
  set (m := fold_left _ groups []) in *.
  assert (Hm : forall c e, (c, e) ∈ m /\ 0 < a_betCount e <-> nonempty c = true /\ 0 < sumZ bet_one (of_ccy c rows) /\
    e = mk_acc (sumZ bet_one (of_ccy c rows)) (sumZ bet_wagered (of_ccy c rows)) (sumZ bet_won (of_ccy c rows))).
  { intros c e. unfold m. rewrite tally_in. unfold groups. rewrite (rows_of_filter_key g_currency nonempty).
    pose proof (acc_ccy c rows) as Hacc. destruct (nonempty c); [|naive_solver].
    destruct (rows_of g_currency c (groupBy_status rows)) as [|g l].
    - cbn in Hacc. injection Hacc as H1 _ _. split; [by intros [(? & ? & ? & _) _]|]. intros (_ & ? & _). lia.
    - split.
      + intros [(? & ? & [= <- <-] & ->) Hpos]. cbv beta in *. by rewrite Hacc in Hpos |- *.
      + intros (_ & Hpos & ->). split; [|done]. exists g, l. split; [done|]. cbv beta. by rewrite Hacc. }
  split; [apply Sorted_merge_sort; apply _|]. split.
  - rewrite merge_sort_Permutation. match goal with |- NoDup (cs_currency <$> List.map ?F ?l) =>
      change (NoDup (cs_currency <$> (F <$> l))) end.
    rewrite <- list_fmap_compose. by apply NoDup_filter_keys.
  - intros s. rewrite merge_sort_Permutation, in_map_filter. split.
    + intros ([c e] & Hin & Hpos & ->). cbn [fst snd] in *. apply Z.ltb_lt in Hpos.
      destruct (proj1 (Hm c e) (conj Hin Hpos)) as (Hc & Hn & ->). exists c. split_and!; [done..|].
      cbn [a_betCount a_wagered a_won]. unfold players. by rewrite player_count.
    + intros (c & Hc & Hn & ->). eexists (c, _). destruct (proj2 (Hm c _) (conj Hc (conj Hn eq_refl))) as [Hin _].
      split; [exact Hin|]. cbn [fst snd a_betCount a_wagered a_won]. split; [by apply Z.ltb_lt|].
      unfold players. by rewrite player_count.
Qed.

Lemma filter_filter {A} (P Q : A -> bool) l : List.filter (fun a => P a && Q a) l = List.filter Q (List.filter P l).
Proof. induction l as [|a l IH]; [done|]. cbn. destruct (P a); cbn; [|done]. by rewrite IH. Qed.

Lemma run_summary op q w : w_faults w = [] ->
  exists l, run (summary op q) w = (Ok (mk_summary op (Dates.toISOString (q_from q)) (Dates.toISOString (q_to q)) (q_includeDemo q) l), w) /\
    stats_exact (scope op q w) l.
Proof.
  intros Hf. unfold summary. rewrite run_bind, run_db_get by done. rewrite run_bind, run_db_get by done.
  eexists. split; [reflexivity|]. unfold bets_where at 2. rewrite filter_filter. apply foldCurrencies_exact.
Qed.

(** ** The daily series *)

Definition of_day : string -> list bet -> list bet := rows_of date_of.

Lemma date_of_length r : String.length (date_of r) = 10%nat.
Proof.
  unfold date_of. apply slice_to_length. unfold Dates.toISOString, Dates.day_string.
  destruct (Dates.civil_from_days _) as [[y m] d]. unfold Dates.date_string, Dates.year_string, Dates.time_string.
  repeat (rewrite ?string_length_app; cbn [String.length]). rewrite !Dates.decw_length.
  destruct ((0 <=? y) && (y <=? 9999)); [|destruct (y <? 0); cbn [String.length]]; rewrite Dates.decw_length; lia.
Qed.

Lemma bucket_key_inj d1 c1 d2 c2 : String.length d1 = String.length d2 ->
  bucket_key d1 c1 = bucket_key d2 c2 -> d1 = d2 /\ c1 = c2.
Proof. intros Hl E. apply (Keys.app_inj_len _ _ _ _ Hl) in E as [-> E]. by injection E. Qed.

Definition row_key (r : bet) : string := bucket_key (date_of r) (b_currency r).
Definition row_bucket (r : bet) : bucket := mk_bkt (date_of r) (b_currency r) 0 0 0 ∅.

Lemma rows_of_key d c rows : String.length d = 10%nat -> rows_of row_key (bucket_key d c) rows = of_day d (of_ccy c rows).
Proof.
  intros Hd. unfold of_day, of_ccy. induction rows as [|r rows IH]; [done|]. rewrite !rows_of_cons, IH.
  destruct (decide (row_key r = bucket_key d c)) as [E|Hne].
  - apply bucket_key_inj in E as [E1 E2]; [|by rewrite date_of_length]. rewrite E2, decide_True by done.
    by rewrite rows_of_cons, E1, decide_True.
  - destruct (decide (b_currency r = c)) as [Ec|]; [|done]. rewrite rows_of_cons.
    destruct (decide (date_of r = d)) as [Ed|]; [|done]. exfalso. apply Hne. unfold row_key. by rewrite Ec, Ed.
Qed.

Lemma bucket_fold l k : fold_left bucket_add l k =
  mk_bkt (k_date k) (k_currency k) (k_betCount k + sumZ bet_one l) (k_wagered k + sumZ bet_wagered l)
    (k_won k + sumZ bet_won l) (players_of l ∪ k_players k).
Proof.
  revert k; induction l as [|b l IH]; intros k.
  { destruct k. unfold players_of. cbn. f_equal; [lia..|]. by rewrite union_empty_l_L. }
  cbn [fold_left sumZ]. rewrite IH. unfold bucket_add, bet_one, bet_wagered, bet_won, players_of, is_wagered, is_won.
  cbn [List.filter]. destruct (BetStatus.isWageredStatus (b_status b)), (BetStatus.isWonStatus (b_status b)); cbn;
    f_equal; first [lia | done | set_solver].
Qed.

Lemma compare_lt_trans a b c : String.compare a b = Lt -> String.compare b c = Lt -> String.compare a c = Lt.
Proof.
  intros H1 H2. assert (Hab : String.le a b) by (unfold String.le, String.leb; by rewrite H1).
  assert (Hbc : String.le b c) by (unfold String.le, String.leb; by rewrite H2).
  pose proof (transitivity Hab Hbc) as Hac. unfold String.le, String.leb in Hac.
  destruct (String.compare a c) eqn:E; [|done|done]. apply String.compare_eq_iff in E as ->.
  assert (c = b) as -> by (apply (anti_symm String.le); done).
  pose proof (String.compare_antisym b b) as A. by rewrite H1 in A.
Qed.

#[export] Instance bucket_le_total : Total bucket_le.
Proof.
  intros a b. unfold bucket_le. rewrite (String.compare_antisym (db_date b) (db_date a)).
  destruct (String.compare (db_date a) (db_date b)); cbn; [|auto..]. apply stat_le_total.
Qed.
#[export] Instance bucket_le_trans : Transitive bucket_le.
Proof.
  intros a b c. unfold bucket_le. destruct (String.compare (db_date a) (db_date b)) eqn:E1; [| |done].
  - apply String.compare_eq_iff in E1 as ->. destruct (String.compare (db_date b) (db_date c)); [|done..].
    apply stat_le_trans.
  - intros _. destruct (String.compare (db_date b) (db_date c)) eqn:E2; [| |done].
    + apply String.compare_eq_iff in E2. by rewrite <- E2, E1.
    + intros _. by rewrite (compare_lt_trans _ _ _ E1 E2).
Qed.

Definition bucket_id (b : DailyBucket) : string * string := (db_date b, cs_currency (db_stat b)).

(** One bucket per day and currency with a wagered bet, exact, in order. *)
Definition days_exact (rows : list bet) (l : list DailyBucket) : Prop :=
  Sorted bucket_le l /\ NoDup (bucket_id <$> l) /\
  forall b, b ∈ l <-> exists d c, nonempty c = true /\ 0 < sumZ bet_one (of_day d (of_ccy c rows)) /\
                              b = mk_bucket d (ref_stat c (of_day d (of_ccy c rows))).

Lemma day_nonempty d c rows : 0 < sumZ bet_one (of_day d (of_ccy c rows)) -> String.length d = 10%nat.
Proof.
  destruct (of_day d (of_ccy c rows)) as [|r l] eqn:E; [done|]. intros _.
  assert (Hr : r ∈ of_day d (of_ccy c rows)) by (rewrite E; by left).
  apply rows_of_in in Hr as [<- _]. apply date_of_length.
Qed.

Lemma daily_buckets_exact rows : days_exact rows (daily_buckets rows).
Proof.
  unfold daily_buckets, bucket_rows.
  to_tally (fun r => nonempty (b_currency r)) (tally_step row_key row_bucket bucket_add) rows.
  set (kept := List.filter _ rows).
  destruct (tally_spec row_key row_bucket bucket_add kept) as [Hnd _]. set (m := fold_left _ kept []) in *.
  assert (Hm : forall k e, (k, e) ∈ m -> exists d c, k = bucket_key d c /\ (nonempty c = true /\ String.length d = 10%nat) /\
    e = mk_bkt d c (sumZ bet_one (of_day d (of_ccy c rows))) (sumZ bet_wagered (of_day d (of_ccy c rows)))
          (sumZ bet_won (of_day d (of_ccy c rows))) (players_of (of_day d (of_ccy c rows)))).
  { intros k e Hin. apply tally_in in Hin as (r & l & Hrows & ->). rewrite bucket_fold.
    assert (Hr : r ∈ rows_of row_key k kept) by (rewrite Hrows; by left). apply rows_of_in in Hr as [<- Hr].
    apply list_elem_of_In, List.filter_In in Hr as [_ Hr]. exists (date_of r), (b_currency r). split; [done|].
    split; [by rewrite date_of_length|].
    assert (Hk : rows_of row_key (row_key r) kept = of_day (date_of r) (of_ccy (b_currency r) rows)).
    { unfold row_key at 2. rewrite <- (rows_of_key _ _ rows) by apply date_of_length. unfold kept.
      rewrite filter_rows_of. apply forallb_filter_id, forallb_forall. intros x Hx%list_elem_of_In.
      apply rows_of_in in Hx as [Hx _]. apply bucket_key_inj in Hx as [_ ->]; [done|by rewrite !date_of_length]. }
    rewrite <- Hrows, Hk. cbn. by rewrite union_empty_r_L. }
  assert (Hback : forall d c, nonempty c = true -> 0 < sumZ bet_one (of_day d (of_ccy c rows)) ->
    exists e, (bucket_key d c, e) ∈ m).
  { intros d c Hc Hpos. pose proof (day_nonempty _ _ _ Hpos) as Hd.
    assert (Hk : rows_of row_key (bucket_key d c) kept = of_day d (of_ccy c rows)).
    { rewrite <- (rows_of_key _ _ rows) by done. unfold kept. rewrite filter_rows_of.
      apply forallb_filter_id, forallb_forall. intros x Hx%list_elem_of_In.
      apply rows_of_in in Hx as [Hx _]. apply bucket_key_inj in Hx as [_ ->]; [done|by rewrite date_of_length]. }
    destruct (of_day d (of_ccy c rows)) as [|r l] eqn:E; [done|]. eexists. apply tally_in. exists r, l. by rewrite Hk. }
  split; [apply Sorted_merge_sort; apply _|]. split.
  - rewrite merge_sort_Permutation. apply (NoDup_fmap_1 (fun p : string * string => bucket_key p.1 p.2)).
    match goal with |- NoDup (_ <$> (_ <$> List.map ?F ?l)) =>
      change (NoDup ((fun p : string * string => bucket_key p.1 p.2) <$> (bucket_id <$> (F <$> l)))) end.
    rewrite <- !list_fmap_compose.
    erewrite list_fmap_ext; [by apply (NoDup_filter_keys (fun e : string * bucket => 0 <? k_betCount e.2)), Hnd|].
    intros i [k e] Hi. cbn. apply list_elem_of_lookup_2, list_elem_of_In, List.filter_In in Hi as [Hi _].
    apply list_elem_of_In, Hm in Hi as (d & c & -> & _ & ->). done.
  - intros b. rewrite merge_sort_Permutation, in_map_filter. split.
    + intros ([k e] & Hin & Hpos & ->). cbn [fst snd] in *. apply Z.ltb_lt in Hpos.
      destruct (Hm k e Hin) as (d & c & -> & [Hc _] & ->). exists d, c. by split_and!.
    + intros (d & c & Hc & Hpos & ->). destruct (Hback d c Hc Hpos) as [e Hin]. pose proof (Hm _ _ Hin) as (d' & c' & Hk & [_ Hd'] & ->).
      apply bucket_key_inj in Hk as [<- <-]; [|by rewrite Hd', (day_nonempty _ _ _ Hpos)]. eexists. split; [exact Hin|]. cbn [fst snd k_betCount].
      split; [by apply Z.ltb_lt|done].
Qed.

Lemma run_daily op q w : w_faults w = [] ->
  exists l, run (daily op q) w = (Ok (mk_daily op (Dates.toISOString (q_from q)) (Dates.toISOString (q_to q)) (q_includeDemo q) l), w) /\
    days_exact (scope op q w) l.
Proof.
  intros Hf. unfold daily. rewrite run_bind, run_db_get by done.
  eexists. split; [reflexivity|]. apply daily_buckets_exact.
Qed.

(** ** The two agree *)

(** The total of a figure over the statistics of one currency. *)
Definition total (f : CurrencyStat -> Z) (c : string) (l : list CurrencyStat) : Z := sumZ f (rows_of cs_currency c l).

(** A figure of the statistics that adds up over the wagered bets. *)
Definition additive (f : CurrencyStat -> Z) (h : bet -> Z) : Prop :=
  (forall c rows, f (ref_stat c rows) = sumZ h rows) /\ forall b, h b <> 0 -> is_wagered b = true.

Lemma one_pos rows : 0 < sumZ bet_one rows <-> exists b, b ∈ rows /\ is_wagered b = true.
Proof.
  unfold bet_one. induction rows as [|b rows IH]; cbn [sumZ].
  { split; [lia|]. intros (b & Hb & _). by apply not_elem_of_nil in Hb. }
  assert (0 <= sumZ (fun b => if is_wagered b then 1 else 0) rows)
    by (apply sumZ_nonneg, Forall_forall; intros x _; by destruct (is_wagered x)).
  destruct (is_wagered b) eqn:Hb.
  - split; [intros _; exists b; split; [by left|done]|lia].
  - rewrite Z.add_0_l, IH. setoid_rewrite elem_of_cons. naive_solver congruence.
Qed.

Lemma no_bets_no_sum h rows : (forall b, h b <> 0 -> is_wagered b = true) -> ~ 0 < sumZ bet_one rows -> sumZ h rows = 0.
Proof.
  intros Hh Hn. rewrite one_pos in Hn. induction rows as [|b rows IH]; [done|]. cbn [sumZ].
  rewrite IH by (intros (x & Hx & Hw); apply Hn; exists x; split; [by right|done]).
  destruct (decide (h b = 0)) as [->|Hb]; [done|]. exfalso. apply Hn. exists b. split; [by left|auto].
Qed.

Lemma stats_total f h c rows l : additive f h -> stats_exact rows l ->
  total f c l = if nonempty c then sumZ h (of_ccy c rows) else 0.
Proof.
  intros [Hf Hh] (_ & Hnd & Hin). unfold total.
  assert (Hp : rows_of cs_currency c l ≡ₚ
    if decide (nonempty c = true /\ 0 < sumZ bet_one (of_ccy c rows)) then [ref_stat c (of_ccy c rows)] else []).
  { apply NoDup_Permutation; [by apply rows_of_NoDup, (NoDup_fmap_1 cs_currency)| |].
    { destruct (decide _); [apply NoDup_singleton|constructor]. }
    intros s. rewrite rows_of_in, Hin. destruct (decide _) as [Hc|Hc].
    - rewrite list_elem_of_singleton. split; [|intros ->; split; [done|naive_solver]].
      intros (Hs & c' & _ & _ & ->). cbn in Hs. by subst c'.
    - split; [|intros H1; by apply not_elem_of_nil in H1]. intros (Hs & c' & H1 & H2 & ->). cbn in Hs. subst c'. naive_solver. }
  rewrite (sumZ_perm _ _ _ Hp). destruct (decide _) as [[-> Hpos]|Hn]; cbn [sumZ]; [rewrite Hf; lia|].
  destruct (nonempty c); [|done]. symmetry. apply no_bets_no_sum; [done|]. naive_solver.
Qed.

Lemma days_total f h c rows l : additive f h -> days_exact rows l ->
  total f c (db_stat <$> l) = if nonempty c then sumZ h (of_ccy c rows) else 0.
Proof.
  intros [Hf Hh] (_ & Hnd & Hin). unfold total. rewrite rows_of_map, sumZ_map.
  set (R := of_ccy c rows). set (ds := if nonempty c then remove_dups (date_of <$> List.filter is_wagered R) else []).
  assert (Hds : forall d, d ∈ ds <-> nonempty c = true /\ 0 < sumZ bet_one (of_day d R)).
  { intros d. unfold ds. destruct (nonempty c); [|split; [intros H1; by apply not_elem_of_nil in H1|by intros []]].
    rewrite elem_of_remove_dups, list_elem_of_fmap, one_pos. unfold of_day. setoid_rewrite rows_of_in.
    setoid_rewrite list_elem_of_In. setoid_rewrite List.filter_In. naive_solver. }
  assert (Hnds : NoDup ds) by (unfold ds; destruct (nonempty c); [apply NoDup_remove_dups|constructor]).
  assert (Hp : rows_of (fun b => cs_currency (db_stat b)) c l ≡ₚ (fun d => mk_bucket d (ref_stat c (of_day d R))) <$> ds).
  { apply NoDup_Permutation; [by apply rows_of_NoDup, (NoDup_fmap_1 bucket_id)| |].
    { apply NoDup_fmap_2; [intros x y E; by injection E|done]. }
    intros b. rewrite rows_of_in, Hin, list_elem_of_fmap. split.
    - intros (Hs & d & c' & H1 & H2 & ->). cbn in Hs. subst c'. exists d. split; [done|]. by apply Hds.
    - intros (d & -> & Hd). apply Hds in Hd as [H1 H2]. split; [done|]. by exists d, c. }
  rewrite (sumZ_perm _ _ _ Hp), sumZ_map. cbn [db_stat].
  rewrite (sumZ_ext _ (fun d => sumZ h (rows_of date_of d R))) by (intros d; apply Hf).
  unfold ds in *. destruct (nonempty c); [|done]. apply sumZ_keys; [done|].
  intros b Hb Hnz. apply elem_of_remove_dups, list_elem_of_fmap. exists b. split; [done|].
  apply list_elem_of_In, List.filter_In. split; [by apply list_elem_of_In|auto].
Qed.

(** The number a money string denotes. *)
Definition value (s : string) : Z := nullish (js_BigInt s) 0.

Lemma value_units z : value (Money.minorUnitsToString z) = z.
Proof. unfold value, Money.minorUnitsToString. by rewrite js_BigInt_toString. Qed.

Lemma won_wagered b : bet_won b <> 0 -> is_wagered b = true.
Proof.
  unfold bet_won, is_won, is_wagered. destruct (BetStatus.isWonStatus (b_status b)) eqn:E; [|done].
  intros _. by apply BetStatus.won_is_wagered.
Qed.

Lemma sumZ_sub {A} (f g : A -> Z) l : sumZ (fun x => f x - g x) l = sumZ f l - sumZ g l.
Proof. induction l as [|x l IH]; cbn [sumZ]; lia. Qed.

Definition FIGURES : list (CurrencyStat -> Z) :=
  [cs_betCount; (fun s => value (cs_wagered s)); (fun s => value (cs_won s)); (fun s => value (cs_ggr s))].

Lemma figures_additive f : f ∈ FIGURES -> exists h, additive f h.
Proof.
  unfold FIGURES. rewrite !elem_of_cons. intros [->|[->|[->|[->|Hn]]]]; [| | | |by apply not_elem_of_nil in Hn].
  - exists bet_one. split; [done|]. intros b. unfold bet_one. by destruct (is_wagered b).
  - exists bet_wagered. split; [intros; apply value_units|]. intros b. unfold bet_wagered. by destruct (is_wagered b).
  - exists bet_won. split; [intros; apply value_units|]. apply won_wagered.
  - exists (fun b => bet_wagered b - bet_won b). split; [intros; cbn; by rewrite value_units, sumZ_sub|].
    intros b Hb. destruct (is_wagered b) eqn:E; [done|]. assert (bet_won b = 0) as E2.
    { destruct (decide (bet_won b = 0)); [done|]. by rewrite won_wagered in E. }
    unfold bet_wagered in Hb. by rewrite E, E2 in Hb.
Qed.

Lemma scope_in op q w b : b ∈ scope op q w <->
  (exists id, w_bets w !! id = Some b) /\ b_operatorId b = Some op /\ q_from q <= b_createdAt b <= q_to q /\
  match q_currency q with Some c => nonempty c = true -> b_currency b = c | None => True end /\
  (b_demo b = true -> q_includeDemo q = true).
Proof.
  unfold scope. rewrite bets_where_elem. unfold where_. rewrite !andb_true_iff, opt_eqb_true, !Z.leb_le.
  assert (Hc : match q_currency q with Some c => if nonempty c then eqb_str (b_currency b) c else true | None => true end = true <->
    match q_currency q with Some c => nonempty c = true -> b_currency b = c | None => True end).
  { destruct (q_currency q) as [c|]; [|done]. destruct (nonempty c); [rewrite eqb_str_eq|]; naive_solver. }
  assert (Hd : (if q_includeDemo q then true else negb (b_demo b)) = true <-> (b_demo b = true -> q_includeDemo q = true)).
  { destruct (q_includeDemo q), (b_demo b); naive_solver. }
  rewrite Hc, Hd. naive_solver.
Qed.

(** C27: The summary of a period answers, changing nothing, one row per currency
    with at least one wagered bet in the query's scope, in the order of the
    collation: the number of wagered bets, the sums staked and won, their
    difference, the number of distinct wallets and the ratio.  The scope is the
    operator's own bets created in the closed range, of the currency asked for,
    and the demo ones only on request. *)
Theorem summary_exact (op : uuid) (q : ReportQuery) (w : world) (Hf : w_faults w = []) :
  (exists l, run (summary op q) w =
     (Ok (mk_summary op (Dates.toISOString (q_from q)) (Dates.toISOString (q_to q)) (q_includeDemo q) l), w) /\
     stats_exact (scope op q w) l) /\
  forall b, b ∈ scope op q w <->
    (exists id, w_bets w !! id = Some b) /\ b_operatorId b = Some op /\ q_from q <= b_createdAt b <= q_to q /\
    match q_currency q with Some c => nonempty c = true -> b_currency b = c | None => True end /\
    (b_demo b = true -> q_includeDemo q = true).
Proof. split; [by apply run_summary|apply scope_in]. Qed.

(** The daily series of a period has one row per UTC day and currency with a
    wagered bet, exact for the bets of that day, in order of day and currency;
    and for every currency its counts, stakes, winnings and gross revenue add up
    to those of the summary of the same period. *)
Theorem daily_partitions_summary (op : uuid) (q : ReportQuery) (w : world) (Hf : w_faults w = []) :
  exists sr dr, run (summary op q) w = (Ok sr, w) /\ run (daily op q) w = (Ok dr, w) /\
    days_exact (scope op q w) (dr_days dr) /\
    forall c f, f ∈ FIGURES -> total f c (db_stat <$> dr_days dr) = total f c (sr_currencies sr).
Proof.
  destruct (run_summary op q w Hf) as (sl & Hs & Hsx). destruct (run_daily op q w Hf) as (dl & Hd & Hdx).
  eexists _, _. split; [exact Hs|]. split; [exact Hd|]. cbn [dr_days sr_currencies]. split; [done|].
  intros c f Hfig. destruct (figures_additive f Hfig) as [h Hh].
  by rewrite (stats_total f h c _ _ Hh Hsx), (days_total f h c _ _ Hh Hdx).
Qed.
End collated.

(** ** A concrete collation and some bets *)

(** Strings by their code units. *)
Definition code_units : Collation := fun a b => match String.compare a b with Lt => -1 | Eq => 0 | Gt => 1 end.

Lemma code_units_laws : @CollationLaws code_units.
Proof.
  split; unfold localeCompare, code_units.
  - intros a b. rewrite (String.compare_antisym a b). destruct (String.compare b a); cbn; lia.
  - intros a b c. destruct (String.compare a b) eqn:E1; [apply String.compare_eq_iff in E1 as ->; auto| |lia].
    destruct (String.compare b c) eqn:E2; [apply String.compare_eq_iff in E2 as ->; by rewrite E1| |lia].
    by rewrite (compare_lt_trans _ _ _ E1 E2).
  - intros a b _ _. rewrite (String.compare_antisym a b). destruct (String.compare b a) eqn:E; cbn; [|lia..].
    by apply String.compare_eq_iff in E.
Qed.

Definition sample_bet (id wallet : uuid) (amount : Z) (st : bet_status) (payout : Z) (op : uuid) (ccy : string) (at_ : Z) : bet :=
  mk_bet id (id + 100) 1 wallet PanelA amount None st (if payout =? 0 then None else Some 200) payout false (Some op) ccy None
    None None at_ None.

Definition sample_world : world := set_bets (list_to_map ((fun b => (b_id b, b)) <$>
  [sample_bet 1 11 1000 cashed_out 2000 7 "EUR" 0; sample_bet 2 12 500 busted 0 7 "EUR" 86400000;
   sample_bet 3 11 300 payout_pending 600 7 "EUR" 86400000; sample_bet 4 13 900 active 0 7 "BTC" 86400001;
   sample_bet 5 14 700 busted 0 8 "EUR" 5; sample_bet 6 11 100 cancelled 0 7 "USD" 6]%string)) empty_world.

Definition sample_query : ReportQuery := mk_query 0 172800000 None false.

Lemma summary_exact_witness :
  (run (@summary code_units 7 sample_query) sample_world).1 =
    Ok (mk_summary 7 "1970-01-01T00:00:00.000Z" "1970-01-03T00:00:00.000Z" false
          [mk_stat "BTC" 8 1 "900" "0" "900" 1 "0.0000"; mk_stat "EUR" 2 3 "1800" "2600" "-800" 2 "1.4444"])%string /\
  exists l, run (@summary code_units 7 sample_query) sample_world =
     (Ok (mk_summary 7 (Dates.toISOString 0) (Dates.toISOString 172800000) false l), sample_world) /\
     @stats_exact code_units (scope 7 sample_query sample_world) l.
Proof. split; [vm_compute; reflexivity|]. exact (proj1 (@summary_exact code_units code_units_laws 7 sample_query sample_world eq_refl)). Defined.

Lemma daily_partitions_summary_witness :
  exists sr dr, run (@summary code_units 7 sample_query) sample_world = (Ok sr, sample_world) /\
    run (@daily code_units 7 sample_query) sample_world = (Ok dr, sample_world) /\
    length (dr_days dr) = 3%nat /\
    total cs_betCount "EUR" (db_stat <$> dr_days dr) = 3 /\ total cs_betCount "EUR" (sr_currencies sr) = 3.
Proof.
  destruct (@daily_partitions_summary code_units code_units_laws 7 sample_query sample_world eq_refl)
    as (sr & dr & Hs & Hd & _ & Ht).
  exists sr, dr. split; [exact Hs|]. split; [exact Hd|].
  assert (Hdr : fst (run (@daily code_units 7 sample_query) sample_world) = Ok dr) by (rewrite Hd; reflexivity).
  assert (Hsr : fst (run (@summary code_units 7 sample_query) sample_world) = Ok sr) by (rewrite Hs; reflexivity).
  assert (Hn : length (dr_days dr) = 3%nat) by (vm_compute in Hdr; injection Hdr as <-; reflexivity).
  assert (Hc : total cs_betCount "EUR" (sr_currencies sr) = 3) by (vm_compute in Hsr; injection Hsr as <-; reflexivity).
  split; [exact Hn|]. split; [|exact Hc]. rewrite <- Hc. apply Ht. left.
Defined.
End ReportSafety.
