(* ===== verification/ReportPages.v ===== *)
(** * Paging, and the isolation of tenants

    A client that walks the pages of [bets] of operator/reporting.service.ts
    from cursor to cursor; and the answers of every report as a function of the
    operator's own rows. *)

From S2P Require Import Prelude Effects Js Dates Money Schema Keys ReportQuery Launch Sessions Reporting ReportSafety.
Import ReportQuery Reporting ReportSafety.

Open Scope Z_scope.

#[local] Set Warnings "-clear-no-such-hyp".

Module ReportPages.

(** ** Tables as the database keeps them *)

(** A row under its identifier, and one row per slot. *)
Definition keyed (w : world) : Prop := forall id b, w_bets w !! id = Some b -> b_id b = id.
Definition slots_unique (w : world) : Prop := forall i j a b, w_bets w !! i = Some a -> w_bets w !! j = Some b ->
  b_roundId a = b_roundId b -> b_userId a = b_userId b -> b_panel a = b_panel b -> i = j.

Lemma where_ids P w : keyed w -> NoDup (b_id <$> bets_where P w).
Proof.
  intros Hk. unfold bets_where. pose proof (NoDup_fst_map_to_list (w_bets w)) as Hnd.
  assert (Hall : Forall (fun e => b_id e.2 = e.1) (map_to_list (w_bets w))).
  { apply Forall_forall. intros [id b] Hin%elem_of_map_to_list. cbn. by apply Hk. }
  induction (map_to_list (w_bets w)) as [|[id b] l IH]; [constructor|].
  apply Forall_cons in Hall as [Hb Hall]. cbn in Hb, Hnd |- *. apply NoDup_cons in Hnd as [Hn Hnd].
  destruct (P b); [|by apply IH]. cbn. apply NoDup_cons. split; [|by apply IH].
  rewrite list_elem_of_fmap. intros (b' & Hbb & Hin). apply list_elem_of_In, List.filter_In in Hin as [Hin _].
  apply Hn. rewrite <- Hb, Hbb. apply list_elem_of_In, list_elem_of_fmap in Hin as ([id' x] & -> & Hin).
  rewrite Forall_forall in Hall. pose proof (Hall _ Hin) as Hx. cbn in *. rewrite Hx.
  apply list_elem_of_fmap. by exists (id', x).
Qed.

(** ** The order of a page *)

#[export] Instance listed_before_total : Total listed_before.
Proof. intros a b. unfold listed_before. lia. Qed.
#[export] Instance listed_before_trans : Transitive listed_before.
Proof. intros a b c. unfold listed_before. lia. Qed.

Lemma listed_both a b : listed_before a b -> listed_before b a -> b_id a = b_id b.
Proof. unfold listed_before. lia. Qed.

(** The bets of a query, newest first. *)
Definition listing (op : uuid) (q : ReportQuery) (w : world) : list bet := merge_sort listed_before (scope op q w).

Lemma listing_sorted op q w : StronglySorted listed_before (listing op q w).
Proof. apply Sorted_StronglySorted; [apply _|]. apply Sorted_merge_sort; apply _. Qed.

Lemma listing_ids op q w : keyed w -> NoDup (b_id <$> listing op q w).
Proof. intros Hk. unfold listing. rewrite merge_sort_Permutation. by apply where_ids. Qed.

Lemma listing_in op q w b : b ∈ listing op q w <-> b ∈ scope op q w.
Proof. unfold listing. by rewrite merge_sort_Permutation. Qed.

(** From the cursor on: the rows the cursor is not listed after. *)
Lemma after_cursor pre x post : StronglySorted listed_before (pre ++ x :: post) -> NoDup (b_id <$> pre ++ x :: post) ->
  List.filter (fun b => bool_decide (listed_before x b)) (pre ++ x :: post) = x :: post.
Proof.
  intros Hs Hnd. rewrite List.filter_app. cbn [List.filter].
  apply StronglySorted_app in Hs as (Hcross & _ & Hpost). apply StronglySorted_cons in Hpost as [Hpost _].
  rewrite bool_decide_eq_true_2 by (unfold listed_before; lia).
  assert (Hpre : List.filter (fun b => bool_decide (listed_before x b)) pre = []).
  { assert (H : Forall (fun y => ~ listed_before x y) pre).
    { apply Forall_forall. intros y Hy Hxy. assert (Hyx : listed_before y x) by (apply Hcross; [done|by left]).
      pose proof (listed_both _ _ Hxy Hyx) as Hid. rewrite fmap_app, fmap_cons in Hnd.
      apply NoDup_app in Hnd as (_ & Hdis & _). apply (Hdis (b_id y)).
      - apply list_elem_of_fmap. by exists y.
      - rewrite <- Hid. by left. }
    clear -H. induction H as [|y l Hy _ IH]; [done|]. cbn. by rewrite bool_decide_eq_false_2. }
  rewrite Hpre. cbn. f_equal. clear -Hpost. induction Hpost as [|y l Hy _ IH]; [done|]. cbn.
  rewrite bool_decide_eq_true_2 by done. by f_equal.
Qed.

(** ** The players of a page *)

Definition sessions_of (wid : uuid) (l : list session) : list session := List.filter (fun s => bool_decide (s_walletId s = wid)) l.

Lemma playerByWallet_get l wid : amap_get wid (playerByWallet l) = s_playerId <$> head (sessions_of wid l).
Proof.
  unfold playerByWallet.
  assert (H : forall m, amap_get wid (fold_left (fun m s => match amap_get (s_walletId s) m with
      | Some _ => m | None => amap_set (s_walletId s) (s_playerId s) m end) l m) =
    match amap_get wid m with Some v => Some v | None => s_playerId <$> head (sessions_of wid l) end).
  { induction l as [|s l IH]; intros m; [by cbn; destruct (amap_get wid m)|]. cbn [fold_left]. rewrite IH.
    unfold sessions_of. cbn [List.filter]. destruct (bool_decide_reflect (s_walletId s = wid)) as [<-|Hne].
    - destruct (amap_get (s_walletId s) m) eqn:E; [by rewrite E|]. rewrite amap_get_set, decide_True by done. done.
    - destruct (amap_get (s_walletId s) m) eqn:E; [done|]. by rewrite amap_get_set, decide_False. }
  apply H.
Qed.

Section service.
Context `{UuidColumn} (Decimal_toString : Z -> string).

(** The operator-side player of a wallet, as the reports resolve it. *)
Definition ref_player (w : world) (wid : uuid) : option string :=
  s_playerId <$> head (GameSession.sessions_where (fun s => bool_decide (s_walletId s = wid)) w).

Definition ref_row (w : world) (b : bet) : BetRow :=
  bet_row Decimal_toString (match ref_player w (b_walletId b) with Some p => [(b_walletId b, p)] | None => [] end) b.

Lemma bet_row_ext players players' b : amap_get (b_walletId b) players = amap_get (b_walletId b) players' ->
  bet_row Decimal_toString players b = bet_row Decimal_toString players' b.
Proof. intros E. unfold bet_row. by rewrite E. Qed.

Lemma page_rows (page : list bet) (w : world) :
  bet_row Decimal_toString
    (playerByWallet (GameSession.sessions_where (fun s => bool_decide (s_walletId s ∈ remove_dups (b_walletId <$> page))) w)) <$> page
  = ref_row w <$> page.
Proof.
  apply list_fmap_ext. intros i b Hi. unfold ref_row. apply bet_row_ext. rewrite playerByWallet_get.
  unfold ref_player, GameSession.sessions_where, sessions_of. rewrite <- filter_filter.
  rewrite (filter_ext _ (fun s => bool_decide (s_walletId s = b_walletId b))).
  - destruct (head _); cbn; [by rewrite decide_True|done].
  - intros s. destruct (bool_decide_reflect (s_walletId s = b_walletId b)) as [->|]; [|by rewrite andb_false_r].
    rewrite bool_decide_eq_true_2; [done|]. apply elem_of_remove_dups, list_elem_of_fmap. exists b. split; [done|].
    by eapply list_elem_of_lookup_2.
Qed.

(** ** One page *)

Definition page_response (op : uuid) (q : BetsQuery) (rows : list bet) (w : world) : BetsResponse :=
  let hasMore := bq_limit q <? Z.of_nat (length rows) in
  let page := if hasMore then take (Z.to_nat (bq_limit q)) rows else rows in
  mk_bets op (Dates.toISOString (q_from (bq_base q))) (Dates.toISOString (q_to (bq_base q))) (q_includeDemo (bq_base q))
    (ref_row w <$> page) (if hasMore then (fun b => Keys.uuid_string (b_id b)) <$> last page else None).

Definition page_at (op : uuid) (q : BetsQuery) (c : option uuid) (w : world) : list bet :=
  page_from (where_ op (bq_base q)) c (bq_limit q + 1) w.

Definition given_cursor (q : BetsQuery) : option string :=
  match bq_cursor q with Some c => if nonempty c then Some c else None | None => None end.

Lemma run_bets op q w : w_faults w = [] ->
  run (bets Decimal_toString op q) w =
  (match given_cursor q with
   | None => Ok (page_response op q (page_at op q None w) w)
   | Some t => match uuid_column t with
               | None => Raise (JsError "Inconsistent column data")
               | Some c => match w_bets w !! c with
                           | Some b => if opt_eqb (b_operatorId b) (Some op)
                                       then Ok (page_response op q (page_at op q (Some c) w) w)
                                       else Raise (BadRequest "invalid cursor")
                           | None => Raise (BadRequest "invalid cursor")
                           end
               end
   end, w).
Proof.
  intros Hf.
  assert (Htail : forall c,
    run (rows ← db_get (page_from (where_ op (bq_base q)) c (bq_limit q + 1));
         let hasMore := bq_limit q <? Z.of_nat (length rows) in
         let page := if hasMore then take (Z.to_nat (bq_limit q)) rows else rows in
         let walletIds := remove_dups (b_walletId <$> page) in
         sessions ← match walletIds with
                    | [] => mret []
                    | _ => db_get (GameSession.sessions_where (fun s => bool_decide (s_walletId s ∈ walletIds)))
                    end;
         let players := playerByWallet sessions in
         mret (mk_bets op (Dates.toISOString (q_from (bq_base q))) (Dates.toISOString (q_to (bq_base q)))
                 (q_includeDemo (bq_base q)) (bet_row Decimal_toString players <$> page)
                 (if hasMore then (fun b => Keys.uuid_string (b_id b)) <$> last page else None))) w
    = (Ok (page_response op q (page_at op q c w) w), w)).
  { intros c. rewrite run_bind, run_db_get by done. cbv zeta. fold (page_at op q c w). set (rows := page_at op q c w).
    unfold page_response. set (page := if bq_limit q <? Z.of_nat (length rows) then _ else rows).
    rewrite run_bind. rewrite <- page_rows.
    destruct (remove_dups (b_walletId <$> page)) as [|u us] eqn:E.
    - destruct page as [|b page]; [done|]. exfalso.
      assert (Hin : b_walletId b ∈ remove_dups (b_walletId <$> b :: page)) by (apply elem_of_remove_dups; by left).
      rewrite E in Hin. by apply not_elem_of_nil in Hin.
    - rewrite run_db_get by done. done. }
  unfold bets. fold (given_cursor q). rewrite run_bind. destruct (given_cursor q) as [t|]; [|by rewrite <- Htail].
  unfold check_cursor, bet_findUnique_text. rewrite run_bind, run_db_nofault by done.
  destruct (uuid_column t) as [c|]; [|done]. destruct (w_bets w !! c) as [b|]; [|done].
  destruct (opt_eqb (b_operatorId b) (Some op)); [|done]. by rewrite <- Htail.
Qed.

(** ** Walking the pages *)

(** A client that asks for the next page until there is none. *)
Fixpoint walk (fuel : nat) (op : uuid) (q : BetsQuery) : prog world (list BetRow) :=
  match fuel with
  | O => raise (JsError "unfinished")
  | S n =>
      r ← bets Decimal_toString op q;
      match bs_nextCursor r with
      | None => mret (bs_bets r)
      | Some c => rest ← walk n op (mk_bets_query (bq_base q) (Some c) (bq_limit q)); mret (bs_bets r ++ rest)
      end
  end.

(** [rest] is what is listed after the cursor. *)
Definition left_at (op : uuid) (q : ReportQuery) (w : world) (cursor : option string) (rest : list bet) : Prop :=
  match cursor with
  | None => rest = listing op q w
  | Some t => exists pre x, listing op q w = pre ++ x :: rest /\ t = Keys.uuid_string (b_id x)
  end.

Lemma page_at_left op q lim cursor w rest : keyed w -> 0 < lim -> w_faults w = [] ->
  (forall b, b ∈ scope op q w -> uuid_column (Keys.uuid_string (b_id b)) = Some (b_id b)) ->
  left_at op q w cursor rest ->
  run (bets Decimal_toString op (mk_bets_query q cursor lim)) w =
  (Ok (page_response op (mk_bets_query q cursor lim) (take (Z.to_nat (lim + 1)) rest) w), w).
Proof.
  intros Hk Hlim Hf Hcol Hleft. rewrite run_bets by done. unfold given_cursor, page_at, page_from. cbn [bq_cursor bq_base bq_limit].
  fold (scope op q w). fold (listing op q w).
  destruct cursor as [t|]; cbn [left_at] in Hleft; [|by subst rest].
  destruct Hleft as (pre & x & Hl & ->).
  assert (Hne : nonempty (Keys.uuid_string (b_id x)) = true).
  { pose proof (Keys.uuid_length (b_id x)). by destruct (Keys.uuid_string (b_id x)). }
  assert (Hx : x ∈ scope op q w) by (apply listing_in; rewrite Hl; apply elem_of_app; right; by left).
  rewrite Hne, (Hcol x Hx). apply scope_in in Hx as ([id Hid] & Hop & _). rewrite (Hk _ _ Hid), Hid, Hop.
  unfold opt_eqb. rewrite bool_decide_eq_true_2 by done. rewrite Hl, after_cursor; [done| |].
  - rewrite <- Hl. apply listing_sorted.
  - rewrite <- Hl. by apply listing_ids.
Qed.

Lemma page_full op q cursor lim rest w : 0 < lim -> Z.of_nat (length rest) <= lim ->
  page_response op (mk_bets_query q cursor lim) (take (Z.to_nat (lim + 1)) rest) w =
  mk_bets op (Dates.toISOString (q_from q)) (Dates.toISOString (q_to q)) (q_includeDemo q) (ref_row w <$> rest) None.
Proof.
  intros Hlim Hr. unfold page_response. cbn [bq_limit bq_base]. rewrite take_ge by lia.
  by rewrite (proj2 (Z.ltb_ge lim (Z.of_nat (length rest)))).
Qed.

Lemma page_more op q cursor lim rest w : 0 < lim -> lim < Z.of_nat (length rest) ->
  exists page x tail, rest = page ++ x :: tail /\ length (page ++ [x]) = Z.to_nat lim /\
    page_response op (mk_bets_query q cursor lim) (take (Z.to_nat (lim + 1)) rest) w =
    mk_bets op (Dates.toISOString (q_from q)) (Dates.toISOString (q_to q)) (q_includeDemo q)
      (ref_row w <$> page ++ [x]) (Some (Keys.uuid_string (b_id x))).
Proof.
  intros Hlim Hr. unfold page_response. cbn [bq_limit bq_base].
  rewrite length_take, (proj2 (Z.ltb_lt _ _)) by lia. rewrite take_take.
  replace (Z.to_nat lim `min` Z.to_nat (lim + 1))%nat with (Z.to_nat lim) by lia.
  destruct (exists_last (l := take (Z.to_nat lim) rest)) as (page & x & Hp).
  { intros Hnil. apply (f_equal length) in Hnil. rewrite length_take in Hnil. cbn in Hnil. lia. }
  exists page, x, (drop (Z.to_nat lim) rest). split_and!.
  - rewrite <- (take_drop (Z.to_nat lim) rest) at 1. by rewrite Hp, <- app_assoc.
  - rewrite <- Hp, length_take. lia.
  - rewrite Hp. by rewrite last_snoc.
Qed.

Lemma run_walk fuel op q lim w cursor rest : keyed w -> 0 < lim -> w_faults w = [] ->
  (forall b, b ∈ scope op q w -> uuid_column (Keys.uuid_string (b_id b)) = Some (b_id b)) ->
  left_at op q w cursor rest -> (0 < fuel)%nat -> Z.of_nat (length rest) <= lim * Z.of_nat fuel ->
  run (walk fuel op (mk_bets_query q cursor lim)) w = (Ok (ref_row w <$> rest), w).
Proof.
  intros Hk Hlim Hf Hcol. revert cursor rest. induction fuel as [|fuel IH]; intros cursor rest Hleft Hfuel Hlen; [lia|].
  cbn [walk]. rewrite run_bind, (page_at_left _ _ _ _ _ rest) by done.
  destruct (Z.le_gt_cases (Z.of_nat (length rest)) lim) as [Hle|Hgt]; [by rewrite page_full|].
  destruct (page_more op q cursor lim rest w Hlim ltac:(lia)) as (page & x & tail & -> & Hpl & ->).
  cbn [bs_nextCursor bs_bets bq_base bq_limit].
  assert (Hlt : length (page ++ x :: tail) = (Z.to_nat lim + length tail)%nat).
  { rewrite length_app in *. cbn in *. lia. }
  rewrite run_bind, (IH _ tail); [|..].
  - cbn. do 2 f_equal. rewrite !fmap_app, fmap_cons. cbn. by rewrite <- app_assoc.
  - destruct cursor as [t|]; cbn [left_at] in *.
    + destruct Hleft as (pre & y & Hl & _). exists (pre ++ y :: page), x. split; [|done].
      by rewrite Hl, <- app_assoc.
    + by exists page, x.
  - destruct fuel; [|lia]. rewrite Hlt in Hgt, Hlen. lia.
  - rewrite Hlt in Hlen. lia.
Qed.

(** C28: Walking the pages terminates and is complete: with any page size, a client
    that follows the cursors over tables at rest needs at most one request per
    full page and one more, and receives every bet of the range exactly once,
    newest first, each with the player its wallet's session names. *)
Theorem pages_list_everything (op : uuid) (q : ReportQuery) (lim : Z) (w : world) (fuel : nat)
    (Hf : w_faults w = []) (Hk : keyed w) (Hlim : 0 < lim)
    (Hcol : forall b, b ∈ scope op q w -> uuid_column (Keys.uuid_string (b_id b)) = Some (b_id b))
    (Hfuel : (0 < fuel)%nat) (Henough : Z.of_nat (length (scope op q w)) <= lim * Z.of_nat fuel) :
  exists l, run (walk fuel op (mk_bets_query q None lim)) w = (Ok (ref_row w <$> l), w) /\
    l ≡ₚ scope op q w /\ NoDup (b_id <$> l) /\ Sorted listed_before l.
Proof.
  exists (listing op q w). split_and!.
  - apply run_walk; try done. unfold listing. by rewrite merge_sort_Permutation.
  - apply merge_sort_Permutation.
  - by apply listing_ids.
  - apply StronglySorted_Sorted, listing_sorted.
Qed.
End service.

(** Texts of the identifiers of the sample bets. *)
Definition sample_column : UuidColumn := fun s => List.find (fun n => eqb_str s (Keys.uuid_string n)) [1; 2; 3; 4; 5; 6; 7]%N.

Lemma pages_list_everything_witness :
  exists l, run (@walk sample_column (fun _ => "x"%string) 3 7 (mk_bets_query sample_query None 2)) sample_world =
      (Ok (ref_row (fun _ => "x"%string) sample_world <$> l), sample_world) /\
    l ≡ₚ scope 7 sample_query sample_world /\ NoDup (b_id <$> l) /\ Sorted listed_before l.
Proof.
  apply (@pages_list_everything sample_column (fun _ => "x"%string) 7 sample_query 2 sample_world 3).
  - reflexivity.
  - intros id b Hb. unfold sample_world in Hb. cbn [w_bets set_bets] in Hb.
    apply elem_of_list_to_map_2, list_elem_of_fmap in Hb as (x & Hx & _). by injection Hx as -> ->.
  - reflexivity.
  - intros b Hb. assert (Hid : b_id b ∈ b_id <$> scope 7 sample_query sample_world) by (apply list_elem_of_fmap; by exists b).
    revert Hid. generalize (b_id b). intros n Hn. vm_compute in Hn.
    repeat (apply elem_of_cons in Hn as [->|Hn]; [reflexivity|]). by apply not_elem_of_nil in Hn.
  - lia.
  - vm_compute. discriminate.
Defined.

(** ** Isolation *)

(** Two databases an operator cannot tell apart: its own bets and audit events
    are the same, and so are the sessions; anything else may differ. *)
Definition same_for (op : uuid) (w1 w2 : world) : Prop :=
  (forall id b, b_operatorId b = Some op -> w_bets w1 !! id = Some b <-> w_bets w2 !! id = Some b) /\
  w_sessions w1 = w_sessions w2 /\
  List.filter (fun r => opt_eqb (a_operatorId (ar_event r)) (Some op)) (w_audit w1) =
  List.filter (fun r => opt_eqb (a_operatorId (ar_event r)) (Some op)) (w_audit w2).

(** The operator's bets are in currencies written as codes. *)
Definition codes (op : uuid) (w : world) : Prop := forall id b, w_bets w !! id = Some b -> b_operatorId b = Some op ->
  Currency.CURRENCY_CODE_RE (b_currency b) = true.

Record tables_ok (w : world) : Prop := {
  tables_calm : w_faults w = []; tables_keyed : keyed w; tables_slots : slots_unique w
}.

Lemma same_for_sym op w1 w2 : same_for op w1 w2 -> same_for op w2 w1.
Proof. intros (Hb & Hs & Ha). split; [|by split]. intros id b Hop. by rewrite (Hb id b Hop). Qed.

Lemma same_scope_in op q w1 w2 b : same_for op w1 w2 -> b ∈ scope op q w1 -> b ∈ scope op q w2.
Proof.
  intros (Hb & _) Hin. rewrite scope_in in *. destruct Hin as ([id Hid] & Hop & Hrest).
  split; [|done]. exists id. by apply Hb.
Qed.

Lemma same_scope op q w1 w2 : keyed w1 -> keyed w2 -> same_for op w1 w2 -> scope op q w1 ≡ₚ scope op q w2.
Proof.
  intros K1 K2 Hs. apply NoDup_Permutation; [by apply (NoDup_fmap_1 b_id), where_ids..|].
  intros b. split; apply same_scope_in; [done|by apply same_for_sym].
Qed.

Lemma rows_of_perm {A K} `{EqDecision K} (key : A -> K) k l l' : l ≡ₚ l' -> rows_of key k l ≡ₚ rows_of key k l'.
Proof.
  induction 1 as [|a l l' _ IH|a b l|l1 l2 l3 _ IH1 _ IH2]; [done| | |by etrans].
  - rewrite !rows_of_cons. destruct (decide _); [by constructor|done].
  - rewrite !rows_of_cons. destruct (decide (key a = k)), (decide (key b = k)); try done. constructor.
Qed.

Lemma ref_stat_perm c l l' : l ≡ₚ l' -> ref_stat c l = ref_stat c l'.
Proof.
  intros Hp. unfold ref_stat. rewrite !(sumZ_perm _ _ _ Hp). do 3 f_equal.
  apply set_eq. intros u. unfold players_of. rewrite !elem_of_list_to_set, !list_elem_of_fmap.
  setoid_rewrite list_elem_of_In. setoid_rewrite List.filter_In. setoid_rewrite <- list_elem_of_In. by setoid_rewrite Hp.
Qed.

Definition all_codes (rows : list bet) : Prop := forall b, b ∈ rows -> Currency.CURRENCY_CODE_RE (b_currency b) = true.

Lemma sum_code f c rows : all_codes rows -> 0 < sumZ f (of_ccy c rows) -> Currency.CURRENCY_CODE_RE c = true.
Proof.
  intros Hc. destruct (of_ccy c rows) as [|b l] eqn:E; [done|]. intros _.
  assert (Hb : b ∈ of_ccy c rows) by (rewrite E; by left). apply rows_of_in in Hb as [<- Hb]. by apply Hc.
Qed.

Section collated.
Context `{Collation} `{!CollationLaws}.

Lemma codes_antisym a b : Currency.CURRENCY_CODE_RE (cs_currency a) = true -> Currency.CURRENCY_CODE_RE (cs_currency b) = true ->
  stat_le a b -> stat_le b a -> cs_currency a = cs_currency b.
Proof. intros Ha Hb H1 H2. by apply collation_codes. Qed.

(** The exact statistics are a function of the bets, whatever their order. *)
Lemma stats_exact_unique rows rows' l l' : rows ≡ₚ rows' -> all_codes rows ->
  stats_exact rows l -> stats_exact rows' l' -> l = l'.
Proof.
  intros Hp Hcodes (Hs & Hnd & Hin) (Hs' & Hnd' & Hin').
  assert (Hmem : forall s, s ∈ l <-> s ∈ l').
  { intros s. rewrite Hin, Hin'. unfold of_ccy. setoid_rewrite <- (fun c => sumZ_perm bet_one _ _ (rows_of_perm b_currency c _ _ Hp)).
    by setoid_rewrite <- (fun c => ref_stat_perm c _ _ (rows_of_perm b_currency c _ _ Hp)). }
  assert (Hcode : forall s, s ∈ l -> Currency.CURRENCY_CODE_RE (cs_currency s) = true).
  { intros s Hsl. apply Hin in Hsl as (c & _ & Hpos & ->). by apply (sum_code bet_one c rows). }
  apply (Sorted_unique_strong stat_le); [|done..|].
  - intros x y Hx Hy Hxy Hyx. pose proof (proj2 (Hmem y) Hy) as Hy2.
    pose proof (codes_antisym x y (Hcode _ Hx) (Hcode _ Hy2) Hxy Hyx) as Hc.
    apply Hin in Hx as (c & _ & _ & ->). apply Hin in Hy2 as (c' & _ & _ & ->). cbn in Hc. by subst.
  - apply NoDup_Permutation; [by apply (NoDup_fmap_1 cs_currency)..|done].
Qed.

Lemma days_exact_unique rows rows' l l' : rows ≡ₚ rows' -> all_codes rows ->
  days_exact rows l -> days_exact rows' l' -> l = l'.
Proof.
  intros Hp Hcodes (Hs & Hnd & Hin) (Hs' & Hnd' & Hin').
  assert (Hperm : forall d c, of_day d (of_ccy c rows) ≡ₚ of_day d (of_ccy c rows')) by (intros; by do 2 apply rows_of_perm).
  assert (Hmem : forall s, s ∈ l <-> s ∈ l').
  { intros s. rewrite Hin, Hin'. setoid_rewrite <- (fun d c => sumZ_perm bet_one _ _ (Hperm d c)).
    by setoid_rewrite <- (fun c d => ref_stat_perm c _ _ (Hperm d c)). }
  assert (Hcode : forall s, s ∈ l -> Currency.CURRENCY_CODE_RE (cs_currency (db_stat s)) = true).
  { intros s Hsl. apply Hin in Hsl as (d & c & _ & Hpos & ->). cbn.
    destruct (of_day d (of_ccy c rows)) as [|b bs] eqn:E; [done|].
    assert (Hb : b ∈ of_day d (of_ccy c rows)) by (rewrite E; by left).
    apply rows_of_in in Hb as [_ Hb]. apply rows_of_in in Hb as [<- Hb]. by apply Hcodes. }
  apply (Sorted_unique_strong bucket_le); [|done..|].
  - intros x y Hx Hy Hxy Hyx. pose proof (proj2 (Hmem y) Hy) as Hy2.
    assert (Hid : db_date x = db_date y /\ stat_le (db_stat x) (db_stat y) /\ stat_le (db_stat y) (db_stat x)).
    { unfold bucket_le in *. rewrite (String.compare_antisym (db_date y)) in Hyx.
      destruct (String.compare (db_date x) (db_date y)) eqn:E; [|done..]. apply String.compare_eq_iff in E. done. }
    destruct Hid as (Hd & H1 & H2). pose proof (codes_antisym _ _ (Hcode _ Hx) (Hcode _ Hy2) H1 H2) as Hc.
    apply Hin in Hx as (d & c & _ & _ & ->). apply Hin in Hy2 as (d' & c' & _ & _ & ->). cbn in Hc, Hd. by subst.
  - apply NoDup_Permutation; [by apply (NoDup_fmap_1 bucket_id)..|done].
Qed.
End collated.

Section isolation.
Context `{HC : Collation} `{HL : !CollationLaws} `{HU : UuidColumn} (Decimal_toString : Z -> string).
Context (op : uuid) (w1 w2 : world) (T1 : tables_ok w1) (T2 : tables_ok w2) (Same : same_for op w1 w2).

Lemma listing_same q : listing op q w1 = listing op q w2.
Proof using T1 T2 Same.
  apply (StronglySorted_unique_strong listed_before); [|apply listing_sorted..|].
  - intros x y Hx Hy Hxy Hyx. pose proof (listed_both _ _ Hxy Hyx) as Hid.
    apply listing_in in Hx, Hy. apply (same_scope_in op q w2 w1) in Hy; [|by apply same_for_sym].
    apply scope_in in Hx as ([i Hi] & _), Hy as ([j Hj] & _).
    rewrite (tables_keyed _ T1 _ _ Hi), (tables_keyed _ T1 _ _ Hj) in Hid. congruence.
  - unfold listing. rewrite !merge_sort_Permutation. apply same_scope; [apply T1|apply T2|done].
Qed.

(** A text finds an own bet in both databases or in neither. *)
Lemma found_same c :
  match w_bets w1 !! c, w_bets w2 !! c with
  | Some a, Some b => if opt_eqb (b_operatorId a) (Some op) then a = b else opt_eqb (b_operatorId b) (Some op) = false
  | Some a, None => opt_eqb (b_operatorId a) (Some op) = false
  | None, Some b => opt_eqb (b_operatorId b) (Some op) = false
  | None, None => True
  end.
Proof using Same.
  destruct Same as [Hb _]. unfold opt_eqb.
  destruct (w_bets w1 !! c) as [a|] eqn:E1, (w_bets w2 !! c) as [b|] eqn:E2; [| | |done].
  - destruct (bool_decide_reflect (b_operatorId a = Some op)) as [Ho|Ho].
    + apply (Hb c _ Ho) in E1. congruence.
    + apply bool_decide_eq_false. intros Ho'. apply (Hb c _ Ho') in E2. congruence.
  - apply bool_decide_eq_false. intros Ho. apply (Hb c _ Ho) in E1. congruence.
  - apply bool_decide_eq_false. intros Ho. apply (Hb c _ Ho) in E2. congruence.
Qed.

Lemma ref_row_same b : ref_row Decimal_toString w1 b = ref_row Decimal_toString w2 b.
Proof using Same.
  destruct Same as (_ & Hsess & _). unfold ref_row, ref_player, GameSession.sessions_where. by rewrite Hsess.
Qed.

Lemma page_same q rows : page_response Decimal_toString op q rows w1 = page_response Decimal_toString op q rows w2.
Proof using Same.
  unfold page_response. cbv zeta. f_equal. apply list_fmap_ext. intros i b _. apply ref_row_same.
Qed.

Lemma page_at_same q c : match c with Some i => w_bets w1 !! i = w_bets w2 !! i | None => True end ->
  page_at op q c w1 = page_at op q c w2.
Proof using T1 T2 Same.
  intros Hc. unfold page_at, page_from. fold (scope op (bq_base q) w1) (scope op (bq_base q) w2).
  fold (listing op (bq_base q) w1) (listing op (bq_base q) w2). rewrite listing_same.
  destruct c as [i|]; [|done]. by rewrite Hc.
Qed.

Lemma bets_same q : (run (bets Decimal_toString op q) w1).1 = (run (bets Decimal_toString op q) w2).1.
Proof using T1 T2 Same.
  rewrite !run_bets by apply tables_calm, T1 || apply tables_calm, T2. cbn [fst].
  destruct (given_cursor q) as [t|].
  - destruct (uuid_column t) as [c|]; [|done]. pose proof (found_same c) as Hc.
    destruct (w_bets w1 !! c) as [a|] eqn:E1, (w_bets w2 !! c) as [b|] eqn:E2; try by rewrite ?Hc.
    destruct (opt_eqb (b_operatorId a) (Some op)) eqn:Ho; [|by rewrite Hc]. subst b. rewrite Ho.
    rewrite page_same. by rewrite (page_at_same q (Some c)) by congruence.
  - rewrite page_same. by rewrite (page_at_same q None).
Qed.

Lemma scope_codes q : codes op w1 -> all_codes (scope op q w1).
Proof using Type. intros Hc b Hb. apply scope_in in Hb as ([id Hid] & Ho & _). by eapply Hc. Qed.

Lemma summary_same q : codes op w1 -> (run (summary op q) w1).1 = (run (summary op q) w2).1.
Proof using HL T1 T2 Same.
  intros Hc. destruct (run_summary op q w1 (tables_calm _ T1)) as (l1 & -> & X1).
  destruct (run_summary op q w2 (tables_calm _ T2)) as (l2 & -> & X2). cbn [fst]. do 2 f_equal.
  apply (stats_exact_unique (scope op q w1) (scope op q w2)); [|by apply scope_codes|done..].
  apply same_scope; [apply T1|apply T2|done].
Qed.

Lemma daily_same q : codes op w1 -> (run (daily op q) w1).1 = (run (daily op q) w2).1.
Proof using HL T1 T2 Same.
  intros Hc. destruct (run_daily op q w1 (tables_calm _ T1)) as (l1 & -> & X1).
  destruct (run_daily op q w2 (tables_calm _ T2)) as (l2 & -> & X2). cbn [fst]. do 2 f_equal.
  apply (days_exact_unique (scope op q w1) (scope op q w2)); [|by apply scope_codes|done..].
  apply same_scope; [apply T1|apply T2|done].
Qed.

(** What a lookup finds in the two databases: the same own bet, or no own bet. *)
Definition agree (o1 o2 : option bet) : Prop :=
  match o1, o2 with
  | Some a, Some b => if opt_eqb (b_operatorId a) (Some op) then a = b else opt_eqb (b_operatorId b) (Some op) = false
  | Some a, None | None, Some a => opt_eqb (b_operatorId a) (Some op) = false
  | None, None => True
  end.

Lemma slot_spec r u p w b : slots_unique w ->
  bet_findUnique_slot r u p w = Some b <-> (exists id, w_bets w !! id = Some b) /\ same_slot r u p b = true.
Proof using Type.
  intros Hu. unfold bet_findUnique_slot. assert (Hin : forall x, x ∈ bets_where (same_slot r u p) w <->
    (exists id, w_bets w !! id = Some x) /\ same_slot r u p x = true) by (intros x; rewrite bets_where_elem; tauto).
  assert (Huniq : forall x y, x ∈ bets_where (same_slot r u p) w -> y ∈ bets_where (same_slot r u p) w -> x = y).
  { intros x y [[i Hi] Hx]%Hin [[j Hj] Hy]%Hin. unfold same_slot in *.
    rewrite !andb_true_iff, !bool_decide_eq_true in Hx, Hy. destruct_and!.
    assert (i = j) as -> by (eapply Hu; [exact Hi|exact Hj|congruence..]). congruence. }
  rewrite <- Hin. destruct (bets_where _ w) as [|x l]; cbn [head].
  - split; [done|]. intros Hb. by apply not_elem_of_nil in Hb.
  - split; [intros [= ->]; by left|]. intros Hb. f_equal. apply Huniq; [by left|done].
Qed.

Lemma slot_same r u p : agree (bet_findUnique_slot r u p w1) (bet_findUnique_slot r u p w2).
Proof using T1 T2 Same.
  assert (Hmove : forall b, b_operatorId b = Some op ->
    bet_findUnique_slot r u p w1 = Some b <-> bet_findUnique_slot r u p w2 = Some b).
  { intros b Ho. rewrite (slot_spec r u p w1 b (tables_slots _ T1)), (slot_spec r u p w2 b (tables_slots _ T2)).
    destruct Same as [Hb _]. by setoid_rewrite (fun id => Hb id b Ho). }
  unfold agree, opt_eqb.
  destruct (bet_findUnique_slot r u p w1) as [a|], (bet_findUnique_slot r u p w2) as [b|]; [| | |done].
  - destruct (bool_decide_reflect (b_operatorId a = Some op)) as [Ho|Ho].
    + destruct (Hmove a Ho) as [Hf _]. specialize (Hf eq_refl). congruence.
    + apply bool_decide_eq_false. intros Ho'. destruct (Hmove b Ho') as [_ Hf]. specialize (Hf eq_refl). congruence.
  - apply bool_decide_eq_false. intros Ho. destruct (Hmove a Ho) as [Hf _]. by specialize (Hf eq_refl).
  - apply bool_decide_eq_false. intros Ho. destruct (Hmove b Ho) as [_ Hf]. by specialize (Hf eq_refl).
Qed.

(** The bet a transaction query names, if its identifiers are read by the database. *)
Definition lookup_tx (q : Keys.TransactionQuery) (w : world) : option (option bet) :=
  match q with
  | Keys.ByDebit roundId userId p _ =>
      match uuid_column roundId, uuid_column userId with
      | Some r, Some u => Some (bet_findUnique_slot r u p w)
      | _, _ => None
      end
  | Keys.ByBetId id | Keys.ByPayout id _ | Keys.ByRefund id _ => (fun n => w_bets w !! n) <$> uuid_column id
  end.

Lemma run_find_transaction q w : w_faults w = [] ->
  run (find_transaction q) w = (match lookup_tx q w with Some o => Ok o | None => Raise (JsError "Inconsistent column data") end, w).
Proof using Type.
  intros Hf. unfold find_transaction, bet_findUnique_text.
  destruct q; rewrite run_db_nofault by done; cbn; [|destruct (uuid_column roundId), (uuid_column userId); done|..];
    by destruct (uuid_column betId).
Qed.

Lemma lookup_tx_same q : match lookup_tx q w1, lookup_tx q w2 with
  | Some o1, Some o2 => agree o1 o2
  | None, None => True
  | _, _ => False
  end.
Proof using T1 T2 Same.
  destruct q; cbn; [|destruct (uuid_column roundId), (uuid_column userId); try done; apply slot_same|..];
    (destruct (uuid_column betId) as [c|]; [|done]); cbn; unfold agree; pose proof (found_same c) as Hc;
    destruct (w_bets w1 !! c), (w_bets w2 !! c); done.
Qed.

Lemma status_same q : (run (transactionStatus Decimal_toString op q) w1).1 = (run (transactionStatus Decimal_toString op q) w2).1.
Proof using T1 T2 Same.
  unfold transactionStatus. rewrite !run_bind.
  rewrite !run_find_transaction by apply tables_calm, T1 || apply tables_calm, T2.
  pose proof (lookup_tx_same q) as Hq. destruct (lookup_tx q w1) as [o1|], (lookup_tx q w2) as [o2|]; try done.
  assert (Hsess : w_sessions w1 = w_sessions w2) by apply Same.
  unfold agree in Hq. destruct o1 as [a|], o2 as [b|]; [|by rewrite Hq..|done].
  destruct (opt_eqb (b_operatorId a) (Some op)) eqn:Ho; cbn [negb]; [|by rewrite Hq].
  subst b. rewrite Ho. cbn [negb]. rewrite !run_bind, !run_db_get by apply tables_calm, T1 || apply tables_calm, T2.
  cbn [fst]. unfold GameSession.sessions_where. by rewrite Hsess.
Qed.

Lemma audit_own q (l : list audit_row) : List.filter (audit_scope op q) l =
  List.filter (audit_scope op q) (List.filter (fun r => opt_eqb (a_operatorId (ar_event r)) (Some op)) l).
Proof using Type.
  rewrite <- filter_filter. apply filter_ext. intros r. unfold audit_scope.
  by destruct (opt_eqb (a_operatorId (ar_event r)) (Some op)).
Qed.

Lemma audit_same q : (run (auditEvents op q) w1).1 = (run (auditEvents op q) w2).1.
Proof using T1 T2 Same.
  unfold auditEvents. rewrite !run_bind, !run_db_get by apply tables_calm, T1 || apply tables_calm, T2.
  cbn [fst]. rewrite (audit_own q (w_audit w1)), (audit_own q (w_audit w2)). by rewrite (proj2 (proj2 Same)).
Qed.
End isolation.


(** The sample without the other tenant's bet. *)
Definition lone_world : world := set_bets (delete 5%N (w_bets sample_world)) sample_world.

Lemma sample_rows id b : w_bets sample_world !! id = Some b ->
  b_id b = id /\ b_roundId b = (id + 100)%N /\ Currency.CURRENCY_CODE_RE (b_currency b) = true /\
  (b_operatorId b = Some 7%N -> id <> 5%N).
Proof.
  intros Hb. unfold sample_world in Hb. cbn [w_bets set_bets] in Hb. apply elem_of_list_to_map_2, list_elem_of_fmap in Hb as (x & Hx & Hin).
  injection Hx as -> ->.
  repeat (apply elem_of_cons in Hin as [->|Hin]; [split_and!; try reflexivity; vm_compute; congruence|]). by apply not_elem_of_nil in Hin.
Qed.

Lemma lone_rows id b : w_bets lone_world !! id = Some b <-> id <> 5%N /\ w_bets sample_world !! id = Some b.
Proof. unfold lone_world. cbn [w_bets set_bets]. rewrite lookup_delete_Some. naive_solver. Qed.

Lemma sample_ok w : w_faults w = [] -> (forall id b, w_bets w !! id = Some b -> w_bets sample_world !! id = Some b) -> tables_ok w.
Proof.
  intros Hf Hsub. split; [done| |].
  - intros id b Hb. by apply sample_rows, Hsub.
  - intros i j a b Ha Hb Hr _ _. apply Hsub, sample_rows in Ha as (_ & Ha & _), Hb as (_ & Hb & _). lia.
Qed.

End ReportPages.
