(* ===== verification/SessionSafety.v ===== *)
(** * Safety of operator sessions

    The invariant of users, wallets and sessions under any interleaving of
    launches, revocations, reality checks, lookups and money moves, with any
    statement failing; and what follows: one session per token, admission
    only as the operator is configured, the same routing from every session of
    a wallet, the reality-check pause that only an acknowledgement lifts, and
    the tenant isolation of revocation. *)

From S2P Require Import Prelude Effects Js Money Schema Wallet Ledger Keys OperatorWallet AuditLog OperatorConfig Launch Sessions.
Import GameSession.

Open Scope Z_scope.

#[local] Set Warnings "-clear-no-such-hyp".

Module SessionSafety.
(** ** Tags *)

Lemma lacks_middle c a b : ~ lacks c (a +:+ String c b)%string.
Proof. induction a as [|h a IH]; [by intros []|]. intros [_ H]. by apply IH. Qed.

(** The last separator of a text is unique. *)
Lemma sep_last_inj (c : ascii) (a b x y : string) :
  lacks c x -> lacks c y -> (a +:+ String c x = b +:+ String c y)%string -> a = b /\ x = y.
Proof.
  intros Hx Hy. revert b. induction a as [|h a IH]; intros [|g b] Heq.
  - by injection Heq.
  - injection Heq as -> ->. by destruct (lacks_middle g b y).
  - injection Heq as -> <-. by destruct (lacks_middle c a x).
  - injection Heq as -> Heq. by destruct (IH b Heq) as [-> ->].
Qed.

Lemma lower_not_upper x : toUpperCase x <> "demo"%string.
Proof.
  destruct x as [|a x]; [done|]. intros Heq. injection Heq as Ha _. revert Ha.
  destruct a as [[] [] [] [] [] [] [] []]; vm_compute; congruence.
Qed.

Lemma demo_suffix (p c : string) :
  (p +:+ String ":" (c +:+ ":demo") = (p +:+ String ":" c) +:+ String ":" "demo")%string.
Proof. by rewrite string_app_assoc. Qed.

Lemma tag_shape o p c d :
  tag_of o p c d = ("op:" +:+ (o +:+ String ":" (p +:+ String ":" (c +:+ if d then ":demo" else ""))))%string.
Proof. unfold tag_of, player_prefix. by rewrite !string_app_assoc, (string_cons_app ":"), string_app_assoc. Qed.

Lemma tag_inj `{UuidColumn} (HU : UuidColumnLaws) o1 o2 n1 n2 p1 p2 c1 c2 d1 d2 :
  uuid_column o1 = Some n1 -> uuid_column o2 = Some n2 ->
  lacks ":" (toUpperCase c1) -> lacks ":" (toUpperCase c2) ->
  tag_of o1 p1 (toUpperCase c1) d1 = tag_of o2 p2 (toUpperCase c2) d2 ->
  n1 = n2 /\ p1 = p2 /\ toUpperCase c1 = toUpperCase c2 /\ d1 = d2.
Proof.
  intros H1 H2 L1 L2. rewrite !tag_shape. intros Heq%string_app_inj.
  assert (o1 = o2) as <- by exact (uuid_column_prefix _ _ _ _ _ _ H1 H2 Heq). rewrite H1 in H2. injection H2 as <-.
  apply string_app_inj in Heq. injection Heq as Heq.
  assert (Ld : lacks ":" "demo") by (cbn; intuition discriminate).
  destruct d1, d2; rewrite ?demo_suffix, ?string_app_nil in Heq; apply sep_last_inj in Heq as [Heq Heq']; try done.
  - by apply sep_last_inj in Heq as [-> ->].
  - by destruct (lower_not_upper c2).
  - by destruct (lower_not_upper c1).
Qed.

(** ** The invariant *)

Definition admitted (op : operator) (s : session) : Prop :=
  o_enabled op = true /\ s_currency s ∈ (toUpperCase <$> o_currencies op) /\
  (s_demo s = true -> o_demoEnabled op = true) /\ (1 <= String.length (s_playerId s) <= 200)%nat.

(** The wallet is the journal anchor of the launch: its user carries the tag. *)
Definition anchored (w : world) (walletId : uuid) (currency tag : string) : Prop :=
  exists wl, w_wallets w !! walletId = Some wl /\ w_currency wl = currency /\ username_of w wl = Some tag.

Definition session_sound `{UuidColumn} (w : world) (s : session) : Prop :=
  exists op text, w_operators w !! s_operatorId s = Some op /\ admitted op s /\
    uuid_column text = Some (s_operatorId s) /\
    anchored w (s_walletId s) (s_currency s) (tag_of text (s_playerId s) (s_currency s) (s_demo s)).

Definition names_unique (w : world) : Prop :=
  forall i j u v, w_users w !! i = Some u -> w_users w !! j = Some v -> u_username u = u_username v -> i = j.
Definition tokens_unique (w : world) : Prop :=
  forall i j s t, w_sessions w !! i = Some s -> w_sessions w !! j = Some t -> s_launchJti s = s_launchJti t -> i = j.

Definition sessions_ok `{UuidColumn} (w : world) : Prop :=
  names_unique w /\ tokens_unique w /\
  forall i s, w_sessions w !! i = Some s -> s_id s = i /\ session_sound w s.

(** Identity only grows: operators stay, users keep their name, wallets their
    owner and currency. *)
Definition identity (w w' : world) : Prop :=
  w_operators w' = w_operators w /\ w_users w ⊆ w_users w' /\
  forall id wl, w_wallets w !! id = Some wl ->
    exists wl', w_wallets w' !! id = Some wl' /\ w_userId wl' = w_userId wl /\ w_currency wl' = w_currency wl.

Definition same_launch (s t : session) : Prop :=
  t = session_with s (s_revokedAt t) (s_rcDueAt t) (s_rcPendingAt t) (s_rcLastAckAt t).

(** No new session, no new name. *)
Definition upkeep (w w' : world) : Prop :=
  identity w w' /\ w_users w' = w_users w /\
  forall i, option_Forall2 same_launch (w_sessions w !! i) (w_sessions w' !! i).

#[export] Instance same_launch_preorder : PreOrder same_launch.
Proof.
  split; [intros []; done|]. unfold same_launch, session_with. intros [] [] [] H1 H2. cbn in *.
  injection H1; injection H2; intros; by subst.
Qed.

#[export] Instance identity_rel : TableRel identity.
Proof.
  split; [split|].
  - intros w. split; [done|]. split; [done|]. eauto.
  - intros x y z (O1 & U1 & W1) (O2 & U2 & W2). split; [congruence|]. split; [by etrans|].
    intros id wl Hid. destruct (W1 _ _ Hid) as (wl1 & H1 & ? & ?). destruct (W2 _ _ H1) as (wl2 & H2 & ? & ?).
    exists wl2. split_and!; congruence.
  - unfold tables_eq, identity. intros w w' ?; destruct_and!.
    repeat match goal with H : _ w' = _ w |- _ => rewrite H end. split; [done|]. split; [done|]. eauto.
Qed.

#[export] Instance upkeep_rel : TableRel upkeep.
Proof.
  split; [split|].
  - intros w. split; [reflexivity|]. split; [done|]. intros i. destruct (w_sessions w !! i); by constructor.
  - intros x y z (I1 & U1 & S1) (I2 & U2 & S2). split; [by etrans|]. split; [congruence|].
    intros i. specialize (S1 i). specialize (S2 i). inversion S1; simplify_eq.
    + match goal with H : Some _ = w_sessions y !! i |- _ => rewrite <- H in S2 end. inversion S2; simplify_eq.
      constructor. by etrans.
    + match goal with H : None = w_sessions y !! i |- _ => rewrite <- H in S2 end. inversion S2. constructor.
  - intros w w' T. assert (Hs : w_sessions w' = w_sessions w) by (unfold tables_eq in T; tauto).
    split; [by apply table_env|]. split; [unfold tables_eq in T; tauto|].
    intros i. rewrite Hs. destruct (w_sessions w !! i); by constructor.
Qed.

Section invariant.
Context {Token : Type} `{Jwt Token} `{UuidColumn}.

Lemma anchored_mono w w' id ccy tag : identity w w' -> anchored w id ccy tag -> anchored w' id ccy tag.
Proof.
  intros (_ & HU & HW) (wl & Hwl & Hc & Hn). destruct (HW _ _ Hwl) as (wl' & Hwl' & Hu & Hc').
  exists wl'. split_and!; [done|congruence|]. unfold username_of in *. rewrite Hu.
  apply fmap_Some in Hn as (u & Hu' & Hn). by rewrite (lookup_weaken _ _ _ _ Hu' HU), Hn.
Qed.

Lemma sound_mono w w' s : identity w w' -> session_sound w s -> session_sound w' s.
Proof.
  intros HI (op & text & Hop & Had & Ht & Han). exists op, text. split_and!; [|done..|by eapply anchored_mono].
  destruct HI as [-> _]. done.
Qed.

Lemma sound_same_launch w s t : same_launch s t -> session_sound w s -> session_sound w t.
Proof. intros ->. by destruct s. Qed.

(** What does not add a session keeps the invariant. *)
Lemma upkeep_ok w w' : upkeep w w' -> sessions_ok w -> sessions_ok w'.
Proof.
  intros (HI & HU & HS) (Hn & Ht & Hs).
  assert (Hback : forall i t, w_sessions w' !! i = Some t -> exists s, w_sessions w !! i = Some s /\ same_launch s t).
  { intros i t Hi. specialize (HS i). rewrite Hi in HS. inversion HS; eauto. }
  split; [|split].
  - unfold names_unique. by rewrite HU.
  - intros i j s t (s0 & Hs0 & Es)%Hback (t0 & Ht0 & Et)%Hback Heq.
    apply (Ht i j s0 t0 Hs0 Ht0). rewrite Es, Et in Heq. done.
  - intros i t (s & Hi & Hst)%Hback. destruct (Hs i s Hi) as [<- Hsound].
    split; [by rewrite Hst|]. apply (sound_mono w); [done|]. by apply (sound_same_launch w s).
Qed.

Definition SInv (w : world) (_ : gset unit) : Prop := sessions_ok w.

#[local] Instance SInv_table : TableInv SInv.
Proof. intros w w' own T. apply upkeep_ok. by apply table_env. Qed.

#[local] Abbreviation sec := (secure identity SInv).

Lemma secure_upkeep {A} s o (p : prog world A) Q :
  steps_in upkeep p -> (forall s' r, identity s s' -> Q s' o r) -> sec s o p Q.
Proof.
  intros Hp HQ. eapply secure_steps; [apply _|exact Hp| |done].
  intros w w' F HR _ HI Hw. split; [apply Hw|]. by eapply upkeep_ok.
Qed.

(** ** Reading the launch *)

Lemma secure_operator s id Q :
  (forall s' r, identity s s' ->
     match r with
     | Ok (Some (n, op)) => exists text, id = JStr text /\ uuid_column text = Some n /\ w_operators s !! n = Some op
     | _ => True
     end -> Q s' ∅ r) ->
  sec s ∅ (LaunchToken.operator_findUnique id) Q.
Proof.
  intros HQ. unfold LaunchToken.operator_findUnique.
  destruct id; try by (apply secure_raise, HQ; [reflexivity|]).
  apply secure_read; [apply _..|intros w; by destruct (uuid_column s0)| |].
  - intros w F HR _ _. apply HQ; [done|]. destruct (uuid_column s0) as [n|] eqn:Hn; [|done]. cbn.
    destruct (w_operators w !! n) as [op|] eqn:Hop; cbn; [|done].
    exists s0. split_and!; [done..|]. destruct HR as [<- _]. done.
  - intros w HR. by apply HQ.
Qed.

(** What a verified launch may become. *)
Definition launched (w : world) (v : VerifiedLaunch) : Prop :=
  exists n op, uuid_column (v_operatorId v) = Some n /\ w_operators w !! n = Some op /\ o_enabled op = true /\
    toUpperCase (nullish (v_currency v) EmptyString) ∈ (toUpperCase <$> o_currencies op) /\
    (v_demo v = true -> o_demoEnabled op = true) /\ (1 <= String.length (v_playerId v) <= 200)%nat.

Lemma secure_currency s v Q :
  Q s ∅ (Ok (toUpperCase (nullish (match v with Some (JStr c) => Some c | _ => None end) EmptyString))) ->
  (forall e, Q s ∅ (Raise e)) -> sec s ∅ (LaunchToken.currency_upper v) Q.
Proof. intros HQ Hfail. destruct v as [[]|]; cbn; auto. Qed.

Lemma allowed_in ccy (l : list string) :
  existsb (fun c => eqb_str (toUpperCase c) ccy) l = true -> ccy ∈ (toUpperCase <$> l).
Proof.
  intros (c & Hc & E)%existsb_exists. apply eqb_str_eq in E as <-. apply list_elem_of_fmap. exists c.
  split; [done|]. by apply list_elem_of_In.
Qed.

Lemma secure_check s op n text payload Q :
  uuid_column text = Some n -> w_operators s !! n = Some op -> o_enabled op = true ->
  (forall s' r, identity s s' -> match r with Ok v => launched s v | Raise _ => True end -> Q s' ∅ r) ->
  sec s ∅ (LaunchToken.check_claims op text payload) Q.
Proof.
  intros Ht Hop Hen HQ. unfold LaunchToken.check_claims.
  assert (Hraise : forall e, Q s ∅ (Raise e)) by (intros; by apply HQ).
  apply secure_bind, secure_currency; [|done].
  destruct (existsb _ _) eqn:Hex; cbn [negb]; [|by apply Hraise]. apply allowed_in in Hex.
  set (demo := match claim (Some payload) "demo" with Some (JBool true) => true | _ => false end). cbv zeta.
  destruct (demo && negb (o_demoEnabled op)) eqn:Hd; [by apply Hraise|].
  destruct (claim (Some payload) "playerId") as [[| | |pl| |]|]; try by apply Hraise.
  destruct (Locale.length_in 1 _ pl) eqn:Hlen; cbn [negb]; [|by apply Hraise].
  destruct (truthy _); cbn [negb]; [|by apply Hraise].
  destruct (claim (Some payload) "jti") as [[| | |jti| |]|]; try by apply Hraise.
  apply secure_bind, secure_get; [apply _..| |intros; by apply HQ].
  intros w F HR _ _. destruct (LaunchToken.session_by_jti jti w); [by apply HQ|].
  apply secure_ret, HQ; [done|]. exists n, op. unfold Locale.length_in in Hlen.
  apply andb_true_iff in Hlen as [Hl1%Nat.leb_le Hl2%Nat.leb_le].
  split_and!; try done. cbn [v_demo]. intros Hdemo. rewrite Hdemo in Hd. by destruct (o_demoEnabled op).
Qed.

Lemma secure_verify s t Q :
  (forall s' r, identity s s' -> match r with Ok v => launched s v | Raise _ => True end -> Q s' ∅ r) ->
  sec s ∅ (LaunchToken.verify t) Q.
Proof.
  intros HQ. unfold LaunchToken.verify.
  destruct (claim (decode t) "operatorId") as [id|]; [|by apply secure_raise, HQ].
  destruct (truthy (Some id)); cbn [negb]; [|by apply secure_raise, HQ].
  apply secure_bind, secure_operator. intros s1 [[[n op]|]|e] H1 Hr; [|by apply secure_raise, HQ|by apply HQ].
  destruct Hr as (text & -> & Ht & Hop). destruct (o_enabled op) eqn:Hen; cbn [negb]; [|by apply secure_raise, HQ].
  apply secure_bind. apply secure_upkeep; [apply steps_now, _|]. intros s2 [now|e] H2; [|by apply HQ; [etrans|]].
  destruct (verifyAsync now t (o_launchSecret op)) as [payload|]; [|by apply secure_raise, HQ; [etrans|]].
  assert (Hs2 : identity s s2) by by etrans.
  apply (secure_check s2 op n); [done| |done|].
  - destruct Hs2 as [-> _]. done.
  - intros s3 r H3 Hr. apply HQ; [by etrans|]. destruct r as [v|]; [|done].
    destruct Hr as (n' & op' & ? & Ho & ?). exists n', op'. split_and!; try done; [|naive_solver..].
    by destruct Hs2 as [<- _].
Qed.

(** ** The wallet of the launch *)

Lemma find_wallet_anchored currency tag w e :
  find_wallet currency tag w = Some e -> anchored w e.1 currency tag.
Proof.
  intros Hh. assert (Hin : e ∈ wallets_where (tagged currency tag w) w).
  { unfold find_wallet in Hh. destruct (wallets_where _ w); [done|]. injection Hh as ->. by left. }
  apply list_elem_of_In, List.filter_In in Hin as [Hin%list_elem_of_In Ht].
  destruct e as [id wl]. apply elem_of_map_to_list in Hin. apply andb_true_iff in Ht as [Hc Hn].
  apply eqb_str_eq in Hc. apply bool_decide_eq_true in Hn. by exists wl.
Qed.

Lemma user_by_name_none name w : user_by_name name w = None ->
  forall i u, w_users w !! i = Some u -> u_username u <> name.
Proof.
  unfold user_by_name. intros Hf i u Hi Hn. destruct (List.find _ _) eqn:E; [done|].
  eapply find_none in E; [|apply list_elem_of_In, elem_of_map_to_list, Hi]. cbn in E.
  by rewrite Hn, eqb_str_refl in E.
Qed.

(** The world after [user.create]. *)
Definition with_user (id : uuid) (tag currency displayName : string) (w : world) : world :=
  bump_uuid (set_profiles (<[id := mk_profile displayName 0 100]> (w_profiles w))
    (set_wallets (<[w_uuid w := mk_wallet id currency 0]> (w_wallets w))
      (set_users (<[id := mk_user tag false None]> (w_users w)) w))).

Lemma with_user_ok id tag currency name w :
  user_by_name tag w = None -> w_users w !! id = None -> w_wallets w !! w_uuid w = None -> sessions_ok w ->
  identity w (with_user id tag currency name w) /\ sessions_ok (with_user id tag currency name w) /\
  anchored (with_user id tag currency name w) (w_uuid w) currency tag.
Proof.
  intros Htag Hid Hwid (Hn & Ht & Hs).
  assert (HI : identity w (with_user id tag currency name w)).
  { split; [done|]. split; [by apply insert_subseteq|]. intros i wl Hi. exists wl. split; [|done]. cbn.
    rewrite lookup_insert_ne; [done|congruence]. }
  pose proof (user_by_name_none _ _ Htag) as Hfree.
  split; [done|]. split; [split; [|split]|].
  - intros i j u v Hu Hv Heq. cbn in Hu, Hv.
    apply lookup_insert_Some in Hu as [[<- <-]|[? Hu]], Hv as [[<- <-]|[? Hv]]; [done|..].
    + by destruct (Hfree _ _ Hv).
    + by destruct (Hfree _ _ Hu).
    + by apply (Hn i j u v).
  - exact Ht.
  - intros i s Hi. destruct (Hs i s Hi). split; [done|]. by eapply sound_mono.
  - exists (mk_wallet id currency 0). cbn. rewrite lookup_insert_eq. split_and!; [done..|].
    unfold username_of. cbn. by rewrite lookup_insert_eq.
Qed.

Lemma secure_randomUUID s Q : (forall s' id, identity s s' -> Q s' ∅ (Ok id)) -> sec s ∅ randomUUID Q.
Proof.
  intros HQ w F HR _ HI. assert (T : tables_eq w (bump_uuid w)) by frame.
  assert (H1 : identity w (bump_uuid w)) by (by apply table_env).
  split; [exact H1|]. exists ∅. split; [done|]. split; [by eapply SInv_table|]. apply HQ. by etrans.
Qed.

Lemma secure_now s Q : (forall s' t, identity s s' -> Q s' ∅ (Ok t)) -> sec s ∅ Date_now Q.
Proof. intros HQ w F HR _ HI. split; [reflexivity|]. exists ∅. split; [done|]. split; [done|]. by apply HQ. Qed.

Lemma secure_user_create s id tag currency name Q :
  (forall s' r, identity s s' -> match r with Ok e => anchored s' e.1 currency tag | Raise _ => True end -> Q s' ∅ r) ->
  sec s ∅ (user_create id tag currency name) Q.
Proof.
  intros HQ. apply secure_db; [apply _..| |intros w HR; by apply HQ].
  intros w F HR HF HI.
  assert (Hsame : forall e, identity w (Raise e : res (uuid * wallet), w).2 /\
            exists o', o' ## F /\ SInv w (o' ∪ F) /\ Q w o' (Raise e) /\ Q w o' (Raise DbUnavailable)).
  { intros e. split; [reflexivity|]. exists ∅. split_and!; [done..| |]; by apply HQ. }
  destruct (user_by_name tag w) eqn:E1; [apply Hsame|]. destruct (w_users w !! id) eqn:E2; [apply Hsame|].
  destruct (w_wallets w !! w_uuid w) eqn:E3; [apply Hsame|]. destruct (w_profiles w !! id) eqn:E4; [apply Hsame|].
  destruct (with_user_ok id tag currency name w) as (H1 & H2 & H3); [done..|].
  assert (identity s (with_user id tag currency name w)) by by etrans.
  split; [exact H1|]. exists ∅. split_and!; [done|exact H2|by apply HQ..].
Qed.

Lemma secure_wallet_for s currency tag playerId Q :
  (forall s' r, identity s s' -> match r with Ok e => anchored s' e.1 currency tag | Raise _ => True end -> Q s' ∅ r) ->
  sec s ∅ (wallet_for currency tag playerId) Q.
Proof.
  intros HQ. unfold wallet_for. apply secure_bind, secure_get; [apply _..| |intros; by apply HQ].
  intros s1 F H1 _ _. destruct (find_wallet currency tag s1) as [e|] eqn:Hf.
  { apply secure_ret, HQ; [done|]. by apply find_wallet_anchored. }
  apply secure_try, secure_bind, secure_randomUUID. intros s2 id H2.
  apply secure_user_create. intros s3 r H3 Hr. assert (H13 : identity s s3) by (etrans; [exact H1|by etrans]).
  destruct r as [e|e]; [by apply HQ|].
  destruct e; try (by apply secure_raise, HQ).
  apply secure_read; [apply _..|intros w; by destruct (find_wallet _ _ w)| |intros; apply HQ; [by etrans|done]].
  intros w F' H4 _ _. apply HQ; [by etrans|].
  destruct (find_wallet currency tag w) as [e|] eqn:Hf'; [|done]. by apply find_wallet_anchored.
Qed.

(** ** Consuming the token *)

Lemma session_by_jti_none jti w : LaunchToken.session_by_jti jti w = None ->
  forall i s, w_sessions w !! i = Some s -> s_launchJti s <> jti.
Proof.
  unfold LaunchToken.session_by_jti. intros Hf i s Hi Hn.
  eapply find_none in Hf; [|apply list_elem_of_In, list_elem_of_fmap; exists (i, s); split; [done|by apply elem_of_map_to_list]].
  cbn in Hf. by rewrite Hn, eqb_str_refl in Hf.
Qed.

Definition new_session (operatorId : uuid) (v : VerifiedLaunch) (currency : string) (walletId : uuid) (w : world) : session :=
  mk_session (w_uuid w) operatorId (v_playerId v) currency (v_locale v) walletId (v_demo v)
    (v_jti v) (w_now w) None None None None.

Definition with_session (s : session) (w : world) : world :=
  bump_uuid (set_sessions (<[w_uuid w := s]> (w_sessions w)) w).

Lemma with_session_ok w s :
  s_id s = w_uuid w -> LaunchToken.session_by_jti (s_launchJti s) w = None -> w_sessions w !! w_uuid w = None ->
  session_sound w s -> sessions_ok w -> identity w (with_session s w) /\ sessions_ok (with_session s w).
Proof.
  intros Hid Hj Hfree Hsound (Hn & Ht & Hs).
  assert (HI : identity w (with_session s w)) by (split; [done|split; [done|eauto]]).
  pose proof (session_by_jti_none _ _ Hj) as Hnew.
  split; [done|]. split; [exact Hn|]. split.
  - intros i j a b Ha Hb Heq. cbn in Ha, Hb.
    apply lookup_insert_Some in Ha as [[<- <-]|[? Ha]], Hb as [[<- <-]|[? Hb]]; [done|..].
    + by destruct (Hnew _ _ Hb).
    + by destruct (Hnew _ _ Ha).
    + by apply (Ht i j a b).
  - intros i a Ha. cbn in Ha. apply lookup_insert_Some in Ha as [[<- <-]|[? Ha]].
    + split; [done|]. by eapply sound_mono.
    + destruct (Hs i a Ha). split; [done|]. by eapply sound_mono.
Qed.

Lemma secure_session_create s v n op wid Q :
  let currency := toUpperCase (nullish (v_currency v) EmptyString) in
  launched s v -> uuid_column (v_operatorId v) = Some n -> w_operators s !! n = Some op ->
  anchored s wid currency (tag_of (v_operatorId v) (v_playerId v) currency (v_demo v)) ->
  (forall s' r, identity s s' -> Q s' ∅ r) ->
  sec s ∅ (session_create n v currency wid) Q.
Proof.
  intros currency (n' & op' & Hn' & Hop' & Hen & Hccy & Hdemo & Hlen) Hn Hop Han HQ.
  rewrite Hn in Hn'. injection Hn' as <-. rewrite Hop in Hop'. injection Hop' as <-.
  apply secure_db; [apply _..| |intros w HR; by apply HQ]. intros w F HR _ HI.
  destruct (LaunchToken.session_by_jti (v_jti v) w) eqn:E1.
  { split; [reflexivity|]. exists ∅. split_and!; [done..| |]; by apply HQ. }
  destruct (w_sessions w !! w_uuid w) eqn:E2.
  { split; [reflexivity|]. exists ∅. split_and!; [done..| |]; by apply HQ. }
  destruct (with_session_ok w (new_session n v currency wid w)) as [H1 H2]; [done..| |done|].
  { exists op, (v_operatorId v). destruct HR as [Ho HR'].
    split; [by rewrite Ho|]. split; [unfold admitted; tauto|]. split; [done|]. by eapply (anchored_mono s). }
  split; [exact H1|]. exists ∅. split_and!; [done|exact H2|..]; apply HQ; by etrans.
Qed.

(** ** Everything that is not a launch *)

Lemma wallets_upkeep w wid wl bal l :
  w_wallets w !! wid = Some wl ->
  upkeep w (set_ledger l (set_wallets (<[wid := mk_wallet (w_userId wl) (w_currency wl) bal]> (w_wallets w)) w)).
Proof.
  intros Hwl. split; [|split; [done|intros i; cbn; destruct (w_sessions w !! i); by constructor]].
  split; [done|]. split; [done|]. intros id wl' Hid. cbn. destruct (decide (id = wid)) as [->|Hne].
  - rewrite lookup_insert_eq. rewrite Hwl in Hid. injection Hid as <-. eauto.
  - rewrite lookup_insert_ne by done. eauto.
Qed.

Lemma steps_reset wid target k ref : steps_in upkeep (Ledger.resetTo wid target k ref).
Proof. apply Ledger.moves_resetTo; [apply _|]. intros. by apply wallets_upkeep. Qed.

Lemma session_steps_ledger c : steps_in upkeep (Ledger.perform c).
Proof. apply Ledger.moves_perform; [apply _|]. intros. by apply wallets_upkeep. Qed.

Lemma steps_updateMany P f : (forall s, same_launch s (f s)) -> steps_in upkeep (sessions_updateMany P f).
Proof.
  intros Hf. apply steps_db; [apply _|]. intros w. split; [by split; [done|split; [done|eauto]]|]. split; [done|].
  intros i. cbn. rewrite lookup_fmap. destruct (w_sessions w !! i) as [s|]; cbn; constructor.
  destruct (P s); [apply Hf|reflexivity].
Qed.

Lemma session_steps_audit sl e : steps_in upkeep (Audit.record sl e).
Proof.
  eapply steps_mono; [|apply Audit.steps_audit_record]. intros w w' T. unfold Audit.audit_frame in T. destruct_and!.
  split; [|split; [done|]].
  - split; [done|]. split; [by replace (w_users w') with (w_users w)|]. intros id wl.
    replace (w_wallets w') with (w_wallets w). eauto.
  - intros i. replace (w_sessions w') with (w_sessions w). destruct (w_sessions w !! i); by constructor.
Qed.

#[local] Hint Resolve steps_updateMany session_steps_audit steps_reset : vr_steps.

Context (stringify_length : json -> Z) (toISOString : Z -> string) (process_env : Risk.env) (JWT_SECRET : string).

Lemma steps_revokeForWallet wid : steps_in upkeep (revokeForWallet stringify_length toISOString wid).
Proof.
  unfold revokeForWallet. apply steps_bind; [steps|]. intros targets. apply steps_bind; [steps|]. intros now.
  apply steps_bind; [by apply steps_updateMany|]. intros n. apply steps_bind; [|steps].
  apply steps_when, steps_bind; [steps|]. intros. apply session_steps_audit.
Qed.

Lemma steps_revokeForOperatorPlayer op pl ccy :
  steps_in upkeep (revokeForOperatorPlayer stringify_length toISOString op pl ccy).
Proof.
  unfold revokeForOperatorPlayer. apply steps_bind; [steps|]. intros cs. apply steps_bind; [|steps].
  apply steps_fold_each. intros n c. apply steps_bind; [apply steps_revokeForWallet|steps].
Qed.

Lemma steps_mark id due : steps_in upkeep (markRealityCheckPending id due).
Proof. apply steps_bind; [steps|]. intros now. apply steps_bind; [by apply steps_updateMany|steps]. Qed.
Lemma steps_ack id due : steps_in upkeep (ackRealityCheck id due).
Proof. apply steps_bind; [steps|]. intros now. apply steps_bind; [by apply steps_updateMany|steps]. Qed.
Lemma steps_load id : steps_in upkeep (loadRealityCheckState id).
Proof. unfold loadRealityCheckState. steps. Qed.
Lemma steps_isLive id : steps_in upkeep (isLive id).
Proof. unfold isLive. steps. Qed.
Lemma steps_findNotLive ids : steps_in upkeep (findNotLive ids).
Proof. unfold findNotLive. steps. Qed.
Lemma steps_isDemoWallet id : steps_in upkeep (isDemoWallet id).
Proof. unfold isDemoWallet. steps. Qed.
Lemma steps_resolver id : steps_in upkeep (resolver id).
Proof. unfold resolver. steps. Qed.

(** ** Launches *)

Definition ends {A} (s : world) (s' : world) (o : gset unit) (_ : res A) : Prop := o = ∅ /\ identity s s'.

Lemma secure_openFromToken s t : sec s ∅ (openFromToken process_env JWT_SECRET t) (ends s).
Proof.
  unfold openFromToken. apply secure_bind, secure_verify. intros s1 [v|e] H1 Hv; [|done].
  destruct Hv as (n & op & Hn & Hop & Hv). cbv zeta.
  apply secure_bind, secure_operator. intros s2 [found|e] H2 _; [|split; [done|by etrans]].
  apply secure_bind, secure_wallet_for. intros s3 [wl|e] H3 Hwl; [|split; [done|etrans; [exact H1|by etrans]]].
  assert (H13 : identity s1 s3) by by etrans.
  apply secure_bind, secure_try. rewrite Hn.
  assert (H03 : identity s s3) by by etrans.
  assert (Hops : w_operators s3 = w_operators s) by apply H03.
  eapply (secure_session_create s3 v n op); [exists n, op; rewrite Hops; tauto|done|by rewrite Hops|done|].
  intros s4 r H4. assert (H04 : identity s s4) by (etrans; [exact H1|by etrans]).
  destruct r as [ses|e]; [|by destruct e].
  apply secure_bind, secure_upkeep; [apply steps_when, steps_bind; [apply steps_reset|steps]|].
  intros s5 r H5. assert (H05 : identity s s5) by by etrans. destruct r as [_|e]; [|done].
  apply secure_bind, secure_now. intros s6 now H6. assert (H06 : identity s s6) by by etrans.
  by destruct (signAsync _ _ _ _ _).
Qed.

(** What a node may run: launches, the rest of the service, and money moves on
    the internal ledger. *)
Inductive call :=
| COpen (t : Token)
| CRevokeWallet (wid : uuid)
| CRevokePlayer (operatorId playerId : string) (currency : option string)
| CMark (id : uuid) (due : option Z)
| CAck (id : uuid) (due : option Z)
| CLoad (id : uuid)
| CIsLive (id : uuid)
| CFindNotLive (ids : list uuid)
| CIsDemoWallet (wid : uuid)
| CResolve (wid : uuid)
| CLedger (c : Ledger.call).

Definition perform (c : call) : prog world unit :=
  match c with
  | COpen t => forget (openFromToken process_env JWT_SECRET t)
  | CRevokeWallet wid => forget (revokeForWallet stringify_length toISOString wid)
  | CRevokePlayer op pl ccy => forget (revokeForOperatorPlayer stringify_length toISOString op pl ccy)
  | CMark id due => markRealityCheckPending id due
  | CAck id due => ackRealityCheck id due
  | CLoad id => forget (loadRealityCheckState id)
  | CIsLive id => forget (isLive id)
  | CFindNotLive ids => forget (findNotLive ids)
  | CIsDemoWallet wid => forget (isDemoWallet wid)
  | CResolve wid => forget (resolver wid)
  | CLedger c => Ledger.perform c
  end.

Lemma steps_call c : match c with COpen _ => True | _ => steps_in upkeep (perform c) end.
Proof.
  destruct c; cbn [perform]; try done; try apply steps_forget.
  - apply steps_revokeForWallet.
  - apply steps_revokeForOperatorPlayer.
  - apply steps_mark.
  - apply steps_ack.
  - apply steps_load.
  - apply steps_isLive.
  - apply steps_findNotLive.
  - apply steps_isDemoWallet.
  - apply steps_resolver.
  - apply session_steps_ledger.
Qed.

Lemma secure_perform s c : sec s ∅ (perform c) (fun _ _ _ => True).
Proof.
  pose proof (steps_call c) as Hc.
  destruct c; try (apply secure_upkeep; [exact Hc|done]).
  cbn [perform]. apply secure_forget. eapply secure_weaken; [apply secure_openFromToken|done].
Qed.

Lemma calls_ok cs w w' ps' :
  sessions_ok w -> pool_steps w (perform <$> cs) w' ps' -> sessions_ok w' /\ identity w w'.
Proof.
  intros Hw Hsteps.
  destruct (pool_secure_sound identity SInv w _ w' ps' (replicate (length (perform <$> cs)) ∅) Hsteps)
    as (os & _ & HI & HR); [|done..].
  apply pool_secure_idle; [apply _|]. apply Forall_fmap, Forall_true. intros c. apply secure_perform.
Qed.
End invariant.

(** ** Properties *)

Section properties.
Context {Token : Type} `{Jwt Token} `{UuidColumn} (HU : UuidColumnLaws).
Context (stringify_length : json -> Z) (toISOString : Z -> string) (process_env : Risk.env) (JWT_SECRET : string).

#[local] Abbreviation serve := (perform stringify_length toISOString process_env JWT_SECRET).

(** The currency codes operators are configured with hold no separator. *)
Definition codes_ok (w : world) : Prop :=
  forall n op, w_operators w !! n = Some op -> Forall (fun c => lacks ":" (toUpperCase c) /\ nonempty c = true) (o_currencies op).

Definition same_routing (s t : session) : Prop :=
  s_operatorId s = s_operatorId t /\ s_playerId s = s_playerId t /\ s_currency s = s_currency t /\ s_demo s = s_demo t.

Lemma admitted_code w op s n : codes_ok w -> w_operators w !! n = Some op -> admitted op s ->
  exists c, s_currency s = toUpperCase c /\ lacks ":" (toUpperCase c) /\ nonempty c = true.
Proof.
  intros Hc Hop (_ & (c & Hs & Hin)%list_elem_of_fmap & _). exists c. split; [done|].
  by apply (proj1 (Forall_forall _ _) (Hc _ _ Hop)).
Qed.

Lemma wallet_routing w i j s t :
  sessions_ok w -> codes_ok w -> w_sessions w !! i = Some s -> w_sessions w !! j = Some t ->
  s_walletId s = s_walletId t -> same_routing s t.
Proof using HU.
  intros (_ & _ & Hs) Hc Hi Hj Hw.
  destruct (Hs i s Hi) as (_ & op1 & x1 & O1 & A1 & X1 & wl1 & W1 & _ & N1).
  destruct (Hs j t Hj) as (_ & op2 & x2 & O2 & A2 & X2 & wl2 & W2 & _ & N2).
  destruct (admitted_code _ _ _ _ Hc O1 A1) as (c1 & C1 & L1 & _).
  destruct (admitted_code _ _ _ _ Hc O2 A2) as (c2 & C2 & L2 & _).
  rewrite Hw, W2 in W1. injection W1 as <-. rewrite N2 in N1. apply (inj Some) in N1 as N.
  rewrite C1, C2 in N. unfold same_routing. rewrite C1, C2.
  destruct (tag_inj HU x2 x1 _ _ _ _ c2 c1 _ _ X2 X1 L2 L1 N) as (? & ? & ? & ?). by split_and!.
Qed.

(** C13: One session per launch token, and only as the operator allows.  However
    launches, revocations, lookups and money moves interleave, on any number of
    nodes and with any statement failing: no two sessions hold the same token
    identifier; every session is of an enabled operator, in a currency it
    offers, a demo session only where demo play is enabled; and all the sessions
    of a wallet agree on operator, player, currency and mode, so that any of them
    routes its money. *)
Theorem sessions_consistent (cs : list (@call Token)) (w w' : world) ps'
    (Hok : sessions_ok w) (Hc : codes_ok w) (Hsteps : pool_steps w (serve <$> cs) w' ps') :
  sessions_ok w' /\ w_operators w' = w_operators w /\
  (forall i j s t, w_sessions w' !! i = Some s -> w_sessions w' !! j = Some t ->
     (s_launchJti s = s_launchJti t -> i = j) /\ (s_walletId s = s_walletId t -> same_routing s t)) /\
  (forall i s, w_sessions w' !! i = Some s ->
     exists op, w_operators w' !! s_operatorId s = Some op /\ admitted op s).
Proof using HU.
  destruct (calls_ok stringify_length toISOString process_env JWT_SECRET cs w w' ps' Hok Hsteps) as [Hok' HR].
  assert (Ho : w_operators w' = w_operators w) by apply HR.
  assert (Hc' : codes_ok w') by (unfold codes_ok; by rewrite Ho).
  split; [done|]. split; [done|]. split.
  - intros i j s t Hi Hj. split; [by apply Hok'|]. by apply (wallet_routing w' i j).
  - intros i s Hi. destruct Hok' as (_ & _ & Hs). destruct (Hs i s Hi) as (_ & op & _ & ? & ? & _). eauto.
Qed.

(** *** Routing *)

Lemma sessions_where_in P w s : s ∈ sessions_where P w <-> exists i, w_sessions w !! i = Some s /\ P s = true.
Proof.
  unfold sessions_where. rewrite list_elem_of_In, List.filter_In, <- list_elem_of_In, list_elem_of_fmap. split.
  - intros [([i t] & -> & Hin) HP]. apply elem_of_map_to_list in Hin. eauto.
  - intros (i & Hi & HP). split; [|done]. exists (i, s). split; [done|]. by apply elem_of_map_to_list.
Qed.

Definition on_wallet (wid : uuid) (s : session) : bool := bool_decide (s_walletId s = wid).

Lemma head_on_wallet w i s wid :
  w_sessions w !! i = Some s -> s_walletId s = wid ->
  exists j t, head (sessions_where (on_wallet wid) w) = Some t /\ w_sessions w !! j = Some t /\ s_walletId t = wid.
Proof.
  intros Hi Hs. assert (Hin : s ∈ sessions_where (on_wallet wid) w).
  { apply sessions_where_in. exists i. split; [done|]. by apply bool_decide_eq_true. }
  destruct (sessions_where (on_wallet wid) w) as [|t l] eqn:E; [set_solver|].
  assert (Ht : t ∈ sessions_where (on_wallet wid) w) by (rewrite E; by left).
  apply sessions_where_in in Ht as (j & Hj & Ht%bool_decide_eq_true). by exists j, t.
Qed.

Lemma newest_in l acc : 
  fold_left (fun best s => match best with
                           | Some b => if s_createdAt b <? s_createdAt s then Some s else best
                           | None => Some s
                           end) l acc = None -> l = [] /\ acc = None.
Proof.
  revert acc. induction l as [|s l IH]; intros acc; cbn; [done|].
  intros [_ Hacc]%IH. destruct acc as [b|]; [|done]. by destruct (_ <? _).
Qed.

Lemma newest_elem l acc s :
  fold_left (fun best s => match best with
                           | Some b => if s_createdAt b <? s_createdAt s then Some s else best
                           | None => Some s
                           end) l acc = Some s -> s ∈ l \/ acc = Some s.
Proof.
  revert acc. induction l as [|t l IH]; intros acc; cbn; [by right|].
  intros [Hin|Hacc]%IH; [left; by right|]. destruct acc as [b|].
  - destruct (_ <? _); [injection Hacc as ->; left; by left|by right].
  - injection Hacc as ->. left. by left.
Qed.

Lemma newest_on_wallet w i s wid :
  w_sessions w !! i = Some s -> s_walletId s = wid ->
  exists j t, newest (sessions_where (on_wallet wid) w) = Some t /\ w_sessions w !! j = Some t /\ s_walletId t = wid.
Proof.
  intros Hi Hs. destruct (newest _) as [t|] eqn:E.
  - destruct (newest_elem _ _ _ E) as [Hin|]; [|done].
    apply sessions_where_in in Hin as (j & Hj & Ht%bool_decide_eq_true). by exists j, t.
  - apply newest_in in E as [E _]. destruct (head_on_wallet w i s wid Hi Hs) as (j & t & Hh & _).
    by rewrite E in Hh.
Qed.

(** C14: Money is routed by the mode of the session.  For the wallet of any
    session, whatever other sessions it has had, the demo lookup answers that
    session's mode and the resolver answers its operator, player and currency;
    a move of a demo wallet through the router is exactly the internal ledger's,
    a real one exactly the operator's, and when the lookup fails neither runs. *)
Theorem routing_follows_session (w : world) (i : uuid) (s : session)
    (Hok : sessions_ok w) (Hc : codes_ok w) (Hf : w_faults w = []) (Hs : w_sessions w !! i = Some s) :
  let wid := s_walletId s in
  run (resolver wid) w = (Ok (mk_opsession (s_operatorId s) (s_playerId s) (s_currency s)), w) /\
  forall (ledger operator : WalletProvider) A (move : WalletProvider -> prog world A),
    run (Router.pick ledger operator isDemoWallet wid move) w = run (move (if s_demo s then ledger else operator)) w /\
    forall fs, run (Router.pick ledger operator isDemoWallet wid move) (set_faults (FailBefore :: fs) w)
               = (Raise DbUnavailable, set_faults fs w).
Proof using HU.
  cbv zeta. split.
  - destruct (newest_on_wallet w i s _ Hs eq_refl) as (j & t & Hn & Hj & Hw).
    unfold resolver. rewrite run_bind, run_db_get by done. unfold on_wallet in Hn. rewrite Hn, run_ret.
    destruct (wallet_routing w j i t s) as (-> & -> & -> & _); try done.
  - intros ledger operator A move. split.
    + destruct (head_on_wallet w i s _ Hs eq_refl) as (j & t & Hn & Hj & Hw).
      rewrite Router.run_pick. unfold isDemoWallet. rewrite run_bind, run_db_get by done. unfold on_wallet in Hn. rewrite Hn, run_ret.
      destruct (wallet_routing w j i t s) as (_ & _ & _ & ->); try done. by destruct (s_demo s).
    + intros fs. by rewrite Router.run_pick.
Qed.

(** *** The reality check *)

(** A pending check of this session stays pending. *)
Definition paused (id : uuid) (w : world) : Prop :=
  exists s, w_sessions w !! id = Some s /\ s_id s = id /\ is_Some_b (s_rcPendingAt s) = true.
Definition keeps_pause (id : uuid) (w w' : world) : Prop := paused id w -> paused id w'.

#[local] Instance keeps_pause_rel id : TableRel (keeps_pause id).
Proof using Type.
  split; [split; [by intros w Hw|by intros x y z H1 H2 Hx; apply H2, H1]|].
  intros w w' T (s & Hs & Hid & Hp). exists s. split; [|done].
  replace (w_sessions w') with (w_sessions w); [done|]. unfold tables_eq in T. symmetry. tauto.
Qed.

Lemma keeps_sessions id w w' : w_sessions w' = w_sessions w -> keeps_pause id w w'.
Proof using Type. intros Hs (s & Hi & ?). exists s. by rewrite Hs. Qed.

Lemma steps_keep_update id P f :
  (forall s, same_launch s (f s)) ->
  (forall s, s_id s = id -> P s = true -> is_Some_b (s_rcPendingAt s) = true -> is_Some_b (s_rcPendingAt (f s)) = true) ->
  steps_in (keeps_pause id) (sessions_updateMany P f).
Proof using Type.
  intros Hl Hf. apply steps_db; [apply _|]. intros w (s & Hs & Hid & Hp). cbn.
  exists (if P s then f s else s). cbn. rewrite lookup_fmap, Hs. split; [done|].
  destruct (P s) eqn:HP; [|done]. split; [|by apply Hf]. by rewrite (Hl s).
Qed.

Lemma steps_keep_reset id wid target k ref : steps_in (keeps_pause id) (Ledger.resetTo wid target k ref).
Proof using Type. apply Ledger.moves_resetTo; [apply _|]. intros. by apply keeps_sessions. Qed.

Lemma steps_keep_audit id sl e : steps_in (keeps_pause id) (Audit.record sl e).
Proof using Type.
  eapply steps_mono; [|apply Audit.steps_audit_record]. intros w w' T. apply keeps_sessions.
  unfold Audit.audit_frame in T. tauto.
Qed.

Lemma steps_keep_operator id j : steps_in (keeps_pause id) (LaunchToken.operator_findUnique j).
Proof using Type.
  destruct j as [| | |t| |]; try apply steps_raise. apply steps_db; [apply _|]. intros w. by destruct (uuid_column t).
Qed.

Lemma steps_keep_verify id t : steps_in (keeps_pause id) (LaunchToken.verify t).
Proof using Type.
  unfold LaunchToken.verify, LaunchToken.check_claims, LaunchToken.unauthorized.
  destruct (claim _ _) as [j|]; [|apply steps_raise]. destruct (truthy _); [|apply steps_raise]. cbn [negb].
  apply steps_bind; [apply steps_keep_operator|]. intros found. steps.
  by destruct (claim _ _) as [[]|].
Qed.

Lemma steps_keep_wallet id currency tag playerId : steps_in (keeps_pause id) (wallet_for currency tag playerId).
Proof using Type.
  unfold wallet_for. apply steps_bind; [steps|]. intros [e|]; [apply steps_ret|]. apply steps_try.
  - apply steps_bind; [steps|]. intros uid. apply steps_db; [apply _|]. intros w.
    destruct (user_by_name tag w); [done|]. destruct (w_users w !! uid); [done|].
    destruct (w_wallets w !! w_uuid w); [done|]. destruct (w_profiles w !! uid); [done|]. by apply keeps_sessions.
  - intros []; try apply steps_raise. apply steps_db; [apply _|]. intros w. by destruct (find_wallet currency tag w).
Qed.

Lemma steps_keep_create id n v currency wid : steps_in (keeps_pause id) (session_create n v currency wid).
Proof using Type.
  apply steps_db; [apply _|]. intros w. destruct (LaunchToken.session_by_jti _ w); [done|].
  destruct (w_sessions w !! w_uuid w) eqn:E; [done|]. intros (s & Hs & Hid & Hp). exists s. split; [|done].
  cbn. rewrite lookup_insert_ne; [done|congruence].
Qed.

Lemma steps_keep_open id t : steps_in (keeps_pause id) (openFromToken process_env JWT_SECRET t).
Proof using Type.
  unfold openFromToken. apply steps_bind; [apply steps_keep_verify|]. intros v. cbv zeta.
  apply steps_bind; [apply steps_keep_operator|]. intros found.
  apply steps_bind; [apply steps_keep_wallet|]. intros wl.
  apply steps_bind.
  { apply steps_try; [|intros []; apply steps_raise].
    destruct (uuid_column _); [apply steps_keep_create|apply steps_raise]. }
  intros ses. apply steps_bind; [apply steps_when, steps_bind; [apply steps_keep_reset|steps]|]. steps.
Qed.

(** Any call but an acknowledgement of this very session. *)
Definition no_ack (id : uuid) (c : @call Token) : Prop := match c with CAck j _ => j <> id | _ => True end.

Lemma steps_keep_revoke id wid : steps_in (keeps_pause id) (revokeForWallet stringify_length toISOString wid).
Proof using Type.
  unfold revokeForWallet. apply steps_bind; [steps|]. intros targets. apply steps_bind; [steps|]. intros now.
  apply steps_bind; [by apply steps_keep_update|]. intros n. apply steps_bind; [|steps].
  apply steps_when, steps_bind; [steps|]. intros. apply steps_keep_audit.
Qed.

Lemma steps_keep_call id (c : @call Token) : no_ack id c -> steps_in (keeps_pause id) (serve c).
Proof using Type.
  intros Hc. destruct c; cbn [perform no_ack] in *; try apply steps_forget.
  - apply steps_keep_open.
  - apply steps_keep_revoke.
  - unfold revokeForOperatorPlayer. apply steps_bind; [steps|]. intros cs. apply steps_bind; [|steps].
    apply steps_fold_each. intros n c. apply steps_bind; [apply steps_keep_revoke|steps].
  - apply steps_bind; [steps|]. intros now. apply steps_bind; [by apply steps_keep_update|steps].
  - apply steps_bind; [steps|]. intros now. apply steps_bind; [|steps]. apply steps_keep_update; [done|].
    intros s Hid Hl. apply andb_true_iff in Hl as [Hl%bool_decide_eq_true _]. congruence.
  - unfold loadRealityCheckState. steps.
  - unfold isLive. steps.
  - unfold findNotLive. steps.
  - unfold isDemoWallet. steps.
  - unfold resolver. steps.
  - apply Ledger.moves_perform; [apply _|]. intros. by apply keeps_sessions.
Qed.

(** Reconnecting does not dodge a reality check.  Once a check is pending on
    a session, whatever is launched, revoked, marked, looked up or moved, on any
    node, in any order and with any statement failing, it stays pending, and a
    later reconnect loads it as pending, until that session itself
    acknowledges. *)
Theorem pause_survives (cs : list (@call Token)) (w w' : world) ps' (id : uuid) (s : session)
    (Hs : w_sessions w !! id = Some s) (Hid : s_id s = id) (Hp : is_Some_b (s_rcPendingAt s) = true)
    (Hcs : Forall (no_ack id) cs) (Hsteps : pool_steps w (serve <$> cs) w' ps') :
  (exists s', w_sessions w' !! id = Some s' /\ is_Some_b (s_rcPendingAt s') = true) /\
  exists due, (run (loadRealityCheckState id) (set_faults [] w')).1 = Ok (true, due).
Proof using Type.
  assert (Hpause : paused id w').
  { apply (pool_steps_in (keeps_pause id) w (serve <$> cs) w' ps'); [done| |by exists s].
    apply Forall_fmap. eapply Forall_impl; [exact Hcs|]. intros c. apply steps_keep_call. }
  destruct Hpause as (s' & Hs' & _ & Hp'). split; [eauto|].
  unfold loadRealityCheckState. rewrite run_bind, run_db_get by done. cbn [w_sessions set_faults].
  rewrite Hs', run_ret, Hp'. eauto.
Qed.

(** *** Revocation *)

Definition revoked_at (now : Z) (s : session) : session :=
  session_with s (Some now) (s_rcDueAt s) (s_rcPendingAt s) (s_rcLastAckAt s).

(** The sessions table after the live sessions of these wallets are revoked. *)
Definition revoke_on (now : Z) (wids : list uuid) (s : session) : session :=
  if bool_decide (s_walletId s ∈ wids) && is_null (s_revokedAt s) then revoked_at now s else s.

Definition calm_revoke (w w' : world) (wids : list uuid) : Prop :=
  w_sessions w' = revoke_on (w_now w) wids <$> w_sessions w /\ w_faults w' = [] /\ w_now w' = w_now w.

Lemma run_revokeForWallet w wid : w_faults w = [] ->
  exists n w', run (revokeForWallet stringify_length toISOString wid) w = (Ok n, w') /\ calm_revoke w w' [wid].
Proof using Type.
  intros Hf. unfold revokeForWallet. rewrite run_bind, run_db_get by done.
  unfold Date_now, gets. rewrite run_bind, run_atom. cbn [fst snd].
  unfold sessions_updateMany. rewrite run_bind, run_db_nofault by done.
  set (w1 := set_sessions _ w).
  assert (Hw1 : calm_revoke w w1 [wid]).
  { split; [|done]. cbn. apply map_fmap_ext. intros i s _. unfold revoke_on, live_on.
    by rewrite (bool_decide_ext (s_walletId s ∈ [wid]) (s_walletId s = wid)) by apply list_elem_of_singleton. }
  rewrite run_bind. destruct (_ >? 0); cbn [when].
  - rewrite run_bind, run_atom. cbn [fst snd].
    destruct (Audit.run_audit_record stringify_length (mk_audit "system" "session.revoke" (Some "game_session"%string)
       (Some (Keys.uuid_string wid)) (s_operatorId <$> head (sessions_where (live_on wid) w)) None
       None (Some (JObj [("revokedAt"%string, JStr (toISOString (w_now w1)))]))
       (Some (JObj [("walletId", JStr (Keys.uuid_string wid));
          ("revokedCount", JNum (QArith_base.inject_Z (Z.of_nat (length (sessions_where (live_on wid) w)))));
          ("sessionIds", JArr (List.map (fun s => JStr (Keys.uuid_string (s_id s))) (sessions_where (live_on wid) w)))]%string))) w1)
      as (l & El); [done|].
    rewrite El, run_ret. eexists _, _. split; [done|]. exact Hw1.
  - rewrite run_ret. by eexists _, _.
Qed.

Lemma revoke_on_app now l1 l2 s : revoke_on now l2 (revoke_on now l1 s) = revoke_on now (l1 ++ l2) s.
Proof using Type.
  unfold revoke_on. destruct (is_null (s_revokedAt s)) eqn:Hn; rewrite ?andb_true_r, ?andb_false_r, ?Hn, ?andb_false_r; [|done].
  rewrite (bool_decide_ext (s_walletId s ∈ l1 ++ l2) (s_walletId s ∈ l1 \/ s_walletId s ∈ l2)) by apply elem_of_app.
  destruct (bool_decide_reflect (s_walletId s ∈ l1)) as [H1|H1].
  - rewrite (bool_decide_eq_true_2 (_ \/ _)) by (by left). by destruct (bool_decide _).
  - rewrite Hn, andb_true_r. by rewrite (bool_decide_ext (_ \/ _) (s_walletId s ∈ l2)) by (split; [by intros [?|?]|by right]).
Qed.

Lemma run_revoke_all (l : list (uuid * string)) : forall w n0, w_faults w = [] ->
  exists n w', run (fold_each l (fun n c => m ← revokeForWallet stringify_length toISOString c.1; mret (n + m)) n0) w = (Ok n, w')
    /\ calm_revoke w w' l.*1.
Proof using Type.
  induction l as [|[wid name] l IH]; intros w n0 Hf; cbn [fold_each].
  - rewrite run_ret. eexists _, _. split; [done|]. split; [|done]. symmetry. apply map_fmap_id. 
  - rewrite run_bind. destruct (run_revokeForWallet w wid Hf) as (m & w1 & E1 & S1 & F1 & N1).
    cbn [fst]. rewrite run_bind, E1, run_ret.
    destruct (IH w1 (n0 + m) F1) as (n & w2 & E2 & S2 & F2 & N2). rewrite E2.
    eexists _, _. split; [done|]. split; [|split; [done|congruence]].
    rewrite S2, N1, S1, <- map_fmap_compose. apply map_fmap_ext. intros i s _. cbn.
    apply (revoke_on_app _ [wid]).
Qed.

(** A name under a player's prefix with an accepted suffix is a tag. *)
Lemma prefix_split p x : startsWith p x = true -> x = (p +:+ slice_from (String.length p) x)%string.
Proof using Type.
  revert x. induction p as [|a p IH]; intros x Hp; [by destruct x|]. destruct x as [|b x]; [done|].
  cbn in Hp. destruct (ascii_dec a b) as [<-|]; [|done]. exact (f_equal (String a) (IH x Hp)).
Qed.

Lemma slice_prefix p x : startsWith p (p +:+ x) = true /\ slice_from (String.length p) (p +:+ x) = x.
Proof using Type.
  induction p as [|a p [IH1 IH2]]; [by destruct x|]. split; [|exact IH2].
  rewrite string_cons_app. unfold startsWith. cbn. by destruct (ascii_dec a a).
Qed.

Lemma suffix_parts x : SUFFIX_RE x = true ->
  exists c (d : bool), lacks ":" c /\ nonempty c = true /\ x = (c +:+ if d then ":demo" else "")%string.
Proof using Type.
  unfold SUFFIX_RE. pose proof (split_parts x ":"%char) as [Hl Hx].
  destruct (split_on ":" x) as [|c [|d [|]]]; try done.
  - intros Hc. exists c, false. apply Forall_cons in Hl as [Hl _]. rewrite string_app_nil. by split_and!.
  - intros [Hc ->%eqb_str_eq]%andb_true_iff. exists c, true. apply Forall_cons in Hl as [Hl _]. by split_and!.
Qed.

Lemma suffix_ok c (d : bool) : lacks ":" c -> nonempty c = true ->
  SUFFIX_RE (c +:+ if d then ":demo" else "")%string = true.
Proof using Type.
  intros Hl Hn. unfold SUFFIX_RE. destruct d.
  - change ":demo"%string with (String ":" "demo"). rewrite split_on_cons by done. cbn. by rewrite Hn.
  - rewrite string_app_nil, split_on_word by done. done.
Qed.

(** Two tags of one name: the same launch, or a demo tag read as the tag of a
    player whose name ends in the currency. *)
Lemma tag_match o1 o2 n1 n2 p1 p2 c1 c2 (d1 d2 : bool) :
  uuid_column o1 = Some n1 -> uuid_column o2 = Some n2 -> lacks ":" c1 -> lacks ":" (toUpperCase c2) ->
  tag_of o1 p1 c1 d1 = tag_of o2 p2 (toUpperCase c2) d2 ->
  n1 = n2 /\ (p1 = p2 \/ d2 = true /\ p1 = (p2 +:+ String ":" (toUpperCase c2))%string).
Proof using HU.
  intros H1 H2 L1 L2. rewrite !tag_shape. intros Heq%string_app_inj.
  assert (o1 = o2) as <- by exact (uuid_column_prefix _ _ _ _ _ _ H1 H2 Heq). rewrite H1 in H2. injection H2 as <-.
  apply string_app_inj in Heq. injection Heq as Heq.
  assert (Ld : lacks ":" "demo") by (cbn; intuition discriminate).
  split; [done|].
  destruct d1, d2; rewrite ?demo_suffix, ?string_app_nil in Heq; apply sep_last_inj in Heq as [Heq Heq']; try done; [|..|by left].
  - apply sep_last_inj in Heq as [-> ->]; [by left|done..].
  - by destruct (lower_not_upper c2).
  - by right.
Qed.

(** The wallets a revocation of a player touches. *)
Definition revoke_targets (w : world) (operatorId playerId : string) : list uuid :=
  let base := player_prefix operatorId playerId in
  (List.filter (fun c => SUFFIX_RE (slice_from (String.length base) c.2))
     (List.map (fun e => (e.1, nullish (username_of w e.2) EmptyString))
        (wallets_where (revoke_candidate base None w) w))).*1.

Lemma revoke_targets_spec w operatorId playerId wid :
  wid ∈ revoke_targets w operatorId playerId <->
  exists wl c d, w_wallets w !! wid = Some wl /\ lacks ":" c /\ nonempty c = true /\
    username_of w wl = Some (tag_of operatorId playerId c d).
Proof using Type.
  unfold revoke_targets. cbv zeta. set (base := player_prefix operatorId playerId). rewrite list_elem_of_fmap. split.
  - intros ([wid' name] & -> & Hin%list_elem_of_In). apply List.filter_In in Hin as [Hin Hsuf].
    apply in_map_iff in Hin as ([id wl] & [= <- <-] & Hin). apply List.filter_In in Hin as [Hin%list_elem_of_In Hcand].
    apply elem_of_map_to_list in Hin. unfold revoke_candidate in Hcand. cbn in *.
    destruct (username_of w wl) as [name|] eqn:Hu; [|done]. cbn in Hsuf.
    apply suffix_parts in Hsuf as (c & d & Hl & Hn & Hx). exists wl, c, d. split_and!; [done..|].
    pose proof (prefix_split base name Hcand) as Hsplit. rewrite Hx in Hsplit. rewrite Hu. exact (f_equal Some Hsplit).
  - intros (wl & c & d & Hwl & Hl & Hn & Hname). exists (wid, tag_of operatorId playerId c d). split; [done|].
    pose proof (slice_prefix base (c +:+ if d then ":demo" else "")%string) as [Hp Hs].
    apply list_elem_of_In, List.filter_In. split.
    + apply in_map_iff. exists (wid, wl). cbn. rewrite Hname. split; [done|]. apply List.filter_In. split.
      * by apply list_elem_of_In, elem_of_map_to_list.
      * unfold revoke_candidate. cbn. by rewrite Hname.
    + cbn. unfold tag_of. fold base. rewrite Hs. by apply suffix_ok.
Qed.

(** Terminating a player's sessions stays inside the tenant.  An operator that
    revokes a player revokes every live session launched for that player under
    the same spelling of the operator's identifier, and touches no session of
    another operator; within the operator it touches another player's session
    only when that is a demo session and the name given is that player's
    followed by the currency. *)
Theorem revoke_isolated (w : world) (operatorId playerId : string) (n : uuid)
    (Hf : w_faults w = []) (Hok : sessions_ok w) (Hc : codes_ok w) (Hn : uuid_column operatorId = Some n) :
  exists k w', run (revokeForOperatorPlayer stringify_length toISOString operatorId playerId None) w = (Ok k, w') /\
    (forall i s s', w_sessions w !! i = Some s -> w_sessions w' !! i = Some s' -> s' <> s ->
       s' = revoked_at (w_now w) s /\ s_operatorId s = n /\
       (s_playerId s = playerId \/
        s_demo s = true /\ playerId = (s_playerId s +:+ String ":" (s_currency s))%string)) /\
    (forall i s wl, w_sessions w !! i = Some s -> w_wallets w !! s_walletId s = Some wl ->
       username_of w wl = Some (tag_of operatorId playerId (s_currency s) (s_demo s)) ->
       exists s', w_sessions w' !! i = Some s' /\ is_null (s_revokedAt s') = false).
Proof using HU.
  unfold revokeForOperatorPlayer. rewrite run_bind, run_db_get by done. rewrite run_bind.
  destruct (run_revoke_all (List.filter (fun c => SUFFIX_RE (slice_from (String.length (player_prefix operatorId playerId)) c.2))
     (List.map (fun e => (e.1, nullish (username_of w e.2) EmptyString))
        (wallets_where (revoke_candidate (player_prefix operatorId playerId) None w) w))) w 0 Hf)
    as (k & w' & E & HS & _ & _).
  rewrite E, run_ret. eexists _, w'. split; [done|].
  change (w_sessions w' = revoke_on (w_now w) (revoke_targets w operatorId playerId) <$> w_sessions w) in HS.
  split.
  - intros i s s' Hi Hi' Hne. rewrite HS, lookup_fmap, Hi in Hi'. injection Hi' as <-.
    unfold revoke_on in Hne |- *. destruct (bool_decide_reflect (s_walletId s ∈ revoke_targets w operatorId playerId)) as [Hin|]; [|done].
    destruct (is_null (s_revokedAt s)); [|done]. cbn [andb] in *. split; [done|].
    apply revoke_targets_spec in Hin as (wl & c & d & Hwl & Hl & _ & Hname).
    destruct Hok as (_ & _ & Hs). destruct (Hs i s Hi) as (_ & op & text & Ho & Had & Ht & wl' & Hwl' & _ & Hname').
    rewrite Hwl in Hwl'. injection Hwl' as <-. rewrite Hname in Hname'. apply (inj Some) in Hname'.
    destruct (admitted_code _ _ _ _ Hc Ho Had) as (c' & Hc' & Lc' & _). rewrite Hc' in Hname' |- *.
    destruct (tag_match _ _ _ _ _ _ _ _ _ _ Hn Ht Hl Lc' Hname') as [<- [->|[? ->]]]; split; auto.
  - intros i s wl Hi Hwl Hname. exists (revoke_on (w_now w) (revoke_targets w operatorId playerId) s).
    rewrite HS, lookup_fmap, Hi. split; [done|]. unfold revoke_on.
    destruct Hok as (_ & _ & Hs). destruct (Hs i s Hi) as (_ & op & _ & Ho & Had & _).
    destruct (admitted_code _ _ _ _ Hc Ho Had) as (c & Hcc & Lc & Nc).
    rewrite bool_decide_eq_true_2; [by destruct (is_null (s_revokedAt s)) eqn:?|].
    apply revoke_targets_spec. exists wl, (s_currency s), (s_demo s). rewrite Hcc in *. split_and!; try done.
    by destruct c.
Qed.
End properties.

(** ** Witnesses *)

#[local] Existing Instance TicketJwt.
#[local] Existing Instance two_operators.

Definition ticket (playerId : string) (demo : bool) (jti : string) : Ticket :=
  mk_ticket (LaunchToken.launch_payload (mk_claims (Keys.uuid_string 7) playerId "eur" None (Some demo) None)
             ++ ticket_extra (Some jti) 5000 125) "s3cret" 125.

(** Alice's token is opened twice at the same time, then her demo one. *)
Definition three_launches : list (@call Ticket) :=
  [COpen (ticket "alice" false "j1"); COpen (ticket "alice" false "j1"); COpen (ticket "alice" true "j2")].
Definition interleaved : list nat := (concat (replicate 20 [0; 1]) ++ replicate 30 2)%nat.

Definition served : list (@call Ticket) -> list (prog world unit) :=
  fmap (perform (fun _ => 100) (fun _ => "2026"%string) (fun _ => None) "our-secret").
Definition launched_pool := schedule_pool interleaved LaunchToken.launch_world (served three_launches).
Definition launched_world : world := Eval vm_compute in launched_pool.1.

Lemma launch_world_ok : sessions_ok LaunchToken.launch_world /\ codes_ok LaunchToken.launch_world.
Proof.
  split; [split; [|split]|].
  - intros i j u v Hu. done.
  - intros i j s t Hs. done.
  - intros i s Hs. done.
  - intros n op Hop. cbn in Hop. apply lookup_singleton_Some in Hop as [<- <-].
    repeat constructor; cbn; intuition discriminate.
Qed.

Lemma launched_steps : pool_steps LaunchToken.launch_world (served three_launches) launched_world launched_pool.2.
Proof.
  replace launched_world with launched_pool.1 by (vm_compute; reflexivity).
  exact (schedule_pool_steps interleaved LaunchToken.launch_world (served three_launches)).
Qed.

Lemma launched_ok : sessions_ok launched_world /\ codes_ok launched_world /\ w_faults launched_world = [].
Proof.
  destruct launch_world_ok as [H1 H2].
  destruct (calls_ok _ _ _ _ _ _ _ _ H1 launched_steps) as [H3 H4]. split; [done|]. split; [|done].
  unfold codes_ok. by replace (w_operators launched_world) with (w_operators LaunchToken.launch_world) by apply H4.
Qed.

Lemma sessions_consistent_witness :
  pool_steps LaunchToken.launch_world (served three_launches) launched_world launched_pool.2 /\
  size (w_sessions launched_world) = 2%nat /\
  (forall i j s t, w_sessions launched_world !! i = Some s -> w_sessions launched_world !! j = Some t ->
     s_launchJti s = s_launchJti t -> i = j).
Proof.
  split; [exact launched_steps|]. split; [vm_compute; reflexivity|].
  destruct (sessions_consistent two_operators_laws (fun _ => 100) (fun _ => "2026"%string) (fun _ => None) "our-secret"
    three_launches LaunchToken.launch_world launched_world launched_pool.2 (proj1 launch_world_ok) (proj2 launch_world_ok)
    launched_steps) as (_ & _ & H & _).
  intros i j s t Hi Hj. exact (proj1 (H i j s t Hi Hj)).
Defined.

Definition alice_demo : session := Eval vm_compute in default (mk_session 0 0 "" "" "" 0 false "" 0 None None None None) (w_sessions launched_world !! 6%N).

Lemma routing_follows_session_witness :
  w_sessions launched_world !! 6%N = Some alice_demo /\
  run (Router.pick Ledger.LedgerService Ledger.LedgerService isDemoWallet (s_walletId alice_demo)
         (fun P => @wp_getBalance P (s_walletId alice_demo))) launched_world = (Ok 10000, launched_world).
Proof.
  split; [reflexivity|]. destruct launched_ok as (H1 & H2 & H3).
  destruct (routing_follows_session two_operators_laws launched_world 6%N alice_demo H1 H2 H3 eq_refl) as (_ & H).
  etrans; [exact (proj1 (H Ledger.LedgerService Ledger.LedgerService Z (fun P => @wp_getBalance P (s_walletId alice_demo))))|].
  vm_compute. reflexivity.
Defined.

(** A check is pending on Alice's real session, 3. *)
Definition pending_world : world := Eval vm_compute in (run (markRealityCheckPending 3%N (Some 9000)) launched_world).2.
Definition alice_paused : session := Eval vm_compute in default alice_demo (w_sessions pending_world !! 3%N).
Definition dodges : list (@call Ticket) :=
  [CRevokeWallet 2%N; COpen (ticket "alice" false "j3"); CAck 6%N None; CLoad 3%N].
Definition dodged := schedule_pool (concat (replicate 20 [0; 1; 2; 3]))%nat pending_world (served dodges).

Lemma pause_survives_witness :
  is_Some_b (s_rcPendingAt alice_paused) = true /\ Forall (no_ack 3%N) dodges /\
  exists s', w_sessions dodged.1 !! 3%N = Some s' /\ is_Some_b (s_rcPendingAt s') = true.
Proof.
  split; [reflexivity|].
  assert (H : Forall (no_ack 3%N) dodges) by (repeat constructor; vm_compute; discriminate).
  split; [exact H|].
  exact (proj1 (pause_survives (fun _ => 100) (fun _ => "2026"%string) (fun _ => None) "our-secret" dodges pending_world
    dodged.1 dodged.2 3%N alice_paused eq_refl eq_refl eq_refl H
    (schedule_pool_steps (concat (replicate 20 [0; 1; 2; 3]))%nat pending_world (served dodges)))).
Defined.

Definition revoke (playerId : string) : res (Z * Z) * world :=
  run (revokeForOperatorPlayer (fun _ => 100) (fun _ => "2026"%string) (Keys.uuid_string 7) playerId None) launched_world.

Lemma revoke_isolated_witness :
  (revoke "alice").1 = Ok (2, 2) /\
  forall i s s', w_sessions launched_world !! i = Some s -> w_sessions (revoke "alice").2 !! i = Some s' -> s' <> s ->
    s_operatorId s = 7%N.
Proof.
  split; [vm_compute; reflexivity|]. destruct launched_ok as (H1 & H2 & H3).
  destruct (revoke_isolated two_operators_laws (fun _ => 100) (fun _ => "2026"%string) launched_world
    (Keys.uuid_string 7) "alice" 7%N H3 H1 H2 eq_refl) as (k & w' & E & H & _).
  intros i s s' Hi Hi' Hne. unfold revoke in Hi'. rewrite E in Hi'. apply (H i s s' Hi Hi' Hne).
Defined.

(** The guard against sibling players is incomplete: with nothing but Alice's
    sessions in the database, terminating the player named "alice:EUR" revokes
    Alice's demo session, since the rest of its tag is the word "demo". *)
Theorem revoke_reaches_sibling_demo :
  (revoke "alice:EUR").1 = Ok (1, 1) /\
  (exists s, w_sessions (revoke "alice:EUR").2 !! 6%N = Some s /\ s_playerId s = "alice"%string /\
     is_null (s_revokedAt s) = false).
Proof. split; [vm_compute; reflexivity|]. eexists. split_and!; vm_compute; reflexivity. Qed.
End SessionSafety.
