(* ===== verification/DataErasure.v ===== *)
(** * Erasure of a player's personal data

    [privacy/data-erasure.service.ts]: anonymization in place, and the read
    that lists dormant players.  The keyed hash is the parameter [hmac256]
    (secret, message, hexadecimal digest); the one-time warning on the console
    is not modelled.
    Proved: an erasure leaves nothing of the player under its name, is
    idempotent, and never touches a money row, however it interleaves and fails;
    and two runs in which it erases too much or too little. *)

From Stdlib Require Import QArith.
From S2P Require Import Prelude Effects Js Money Schema Wallet Ledger Keys OperatorWallet AuditLog OperatorConfig Launch Sessions SessionSafety.
Import GameSession.

Open Scope Z_scope.

#[local] Set Warnings "-clear-no-such-hyp".

Record AnonymizePlayerInput := mk_erasure {
  e_operatorId : string; e_playerId : string; e_currency : option string; e_actor : string; e_reason : option string
}.

Record AnonymizePlayerResult := mk_erased { alreadyAnonymized : bool; usersAffected : Z; scrubbedFields : list string }.

(** One group of [findDormantPlayers]. *)
Record dormant_player := mk_dormant { d_operatorId : uuid; d_playerId : string; d_wallets : list uuid; d_last : Z }.

Module DataErasure.

Definition NON_TERMINAL_BET_STATUSES : list bet_status := [reserving; cancelling; active; payout_pending; voiding].

(** A user row with its identifier. *)
Abbreviation user_row := (uuid * user)%type (only parsing).

Definition users_where (P : user_row -> bool) (w : world) : list user_row :=
  List.filter P (map_to_list (w_users w)).

(** [u.wallets.map((w) => w.id)] *)
Definition wallets_of (w : world) (id : uuid) : list uuid :=
  (wallets_where (fun e => bool_decide (w_userId e.2 = id)) w).*1.

(** [{ include: { wallets } }] *)
Definition with_wallets (w : world) (l : list user_row) : list (user_row * list uuid) :=
  List.map (fun u => (u, wallets_of w u.1)) l.

(** [byId.set(u.id, u)] in turn, then [byId.values()]: first position, last value. *)
Fixpoint map_set (u : user_row * list uuid) (l : list (user_row * list uuid)) : list (user_row * list uuid) :=
  match l with
  | [] => [u]
  | v :: l => if bool_decide (v.1.1 = u.1.1) then u :: l else v :: map_set u l
  end.
Definition by_id (l : list (user_row * list uuid)) : list (user_row * list uuid) :=
  fold_left (fun m u => map_set u m) l [].

Section service.
Context `{UuidColumn} (hmac256 : string -> string -> string) (stringify_length : json -> Z) (toISOString : Z -> string).
Context (process_env : Risk.env).

Definition anonymizePepper : string :=
  match process_env "ANONYMIZE_PEPPER" with
  | Some (String _ _ as p) => p
  | _ => match process_env "JWT_SECRET" with
         | Some (String _ _ as p) => p
         | _ => "vaultrun-anon-dev"
         end
  end.

Definition tombstone (userId : uuid) : string := slice_to 24 (hmac256 anonymizePepper (Keys.uuid_string userId)).
Definition playerTombstone (operatorId playerId : string) : string :=
  slice_to 24 (hmac256 anonymizePepper (operatorId +:+ String ":" playerId)%string).
Definition anon (t : string) : string := ("anon:" +:+ t)%string.

(** Pass 1: live users under the player's prefix, siblings dropped. *)
Definition live_candidate (prefix : string) (u : user_row) : bool := startsWith prefix (u_username u.2).
Definition live_suffix (prefix : string) (u : user_row) : bool :=
  SUFFIX_RE (slice_from (String.length prefix) (u_username u.2)).

(** Pass 2: the sessions already scrubbed for this player. *)
Definition anon_session (operatorId : uuid) (pTomb : string) (s : session) : bool :=
  bool_decide (s_operatorId s = operatorId) && eqb_str (s_playerId s) (anon pTomb).

Definition owns_one_of (ids : list uuid) (w : world) (u : user_row) : bool :=
  existsb (fun id => bool_decide (id ∈ ids)) (wallets_of w u.1).

Definition resolve (operatorId playerId : string) : prog world (list (user_row * list uuid)) :=
  let prefix := player_prefix operatorId playerId in
  let pTomb := playerTombstone operatorId playerId in
  candidates ← db_get (fun w => with_wallets w (users_where (live_candidate prefix) w));
  let liveUsers := List.filter (fun u => live_suffix prefix u.1) candidates in
  anonSessions ← db (fun w => match uuid_column operatorId with
                              | Some n => (Ok (sessions_where (anon_session n pTomb) w), w)
                              | None => (Raise (JsError "Inconsistent column data"), w)
                              end);
  let anonWalletIds := List.map s_walletId anonSessions in
  anonUsers ← match anonWalletIds with
              | [] => mret []
              | ids => db_get (fun w => with_wallets w (users_where (owns_one_of ids w) w))
              end;
  mret (by_id (liveUsers ++ anonUsers)).

(** One [user.update] of the transaction. *)
Definition scrub_user (now : Z) (id : uuid) : prog world unit :=
  db (fun w => match w_users w !! id with
               | None => (Raise RecordNotFound, w)
               | Some u =>
                   let name := anon (tombstone id) in
                   match user_by_name name w with
                   | Some other => if bool_decide (other = id)
                                   then (Ok tt, set_users (<[id := mk_user name (u_isGuest u) (Some now)]> (w_users w)) w)
                                   else (Raise UniqueViolation, w)
                   | None => (Ok tt, set_users (<[id := mk_user name (u_isGuest u) (Some now)]> (w_users w)) w)
                   end
               end).

Definition scrub_tx (now : Z) (userIds walletIds : list uuid) (pTomb : string) : prog world unit :=
  _ ← for_each userIds (scrub_user now);
  _ ← db_set (fun w => set_profiles
        (map_imap (fun id p => Some (if bool_decide (id ∈ userIds)
                                     then mk_profile "anon" (p_totalLoot p) (p_biggestMultiplier p) else p)) (w_profiles w)) w);
  db_set (fun w => set_sessions
        ((fun s => if bool_decide (s_walletId s ∈ walletIds)
                   then mk_session (s_id s) (s_operatorId s) (anon pTomb) (s_currency s) (s_locale s) (s_walletId s)
                          (s_demo s) (s_launchJti s) (s_createdAt s) (s_revokedAt s) (s_rcDueAt s) (s_rcPendingAt s) (s_rcLastAckAt s)
                   else s) <$> w_sessions w) w).

(** Refuse while money is in flight or a session is live. *)
Definition assert_settled (walletIds : list uuid) : prog world unit :=
  match walletIds with
  | [] => mret tt
  | _ =>
      inFlightBets ← bets_count (fun b => bool_decide (b_walletId b ∈ walletIds)
                                          && bool_decide (b_status b ∈ NON_TERMINAL_BET_STATUSES));
      if inFlightBets >? 0 then raise (BadRequest "player_not_settled")
      else
        liveSessions ← db_get (fun w => Z.of_nat (length (sessions_where
                         (fun s => bool_decide (s_walletId s ∈ walletIds) && is_null (s_revokedAt s)) w)));
        if liveSessions >? 0 then raise (BadRequest "player_not_settled") else mret tt
  end.

Definition SCRUBBED : list string := ["username"; "displayName"; "session.playerId"]%string.
Definition str_list (l : list string) : json := JArr (List.map JStr l).

Definition anonymizePlayer (input : AnonymizePlayerInput) : prog world AnonymizePlayerResult :=
  users ← resolve (e_operatorId input) (e_playerId input);
  match users with
  | [] => mret (mk_erased false 0 [])
  | _ =>
      let userIds := List.map (fun u => u.1.1) users in
      let walletIds := List.concat (List.map snd users) in
      if forallb (fun u => is_Some_b (u_anonymizedAt u.1.2)) users
      then mret (mk_erased true (Z.of_nat (length users)) [])
      else
        _ ← assert_settled walletIds;
        anonymizedAt ← Date_now;
        _ ← db_transaction (scrub_tx anonymizedAt userIds walletIds (playerTombstone (e_operatorId input) (e_playerId input)));
        _ ← emit (EvMetric "player_anonymize" "");
        _ ← Audit.record stringify_length (mk_audit (e_actor input) "player.anonymize" (Some "user"%string)
              (Keys.uuid_string <$> head userIds) (uuid_column (e_operatorId input)) None
              (Some (JObj [("scrubbedFields"%string, str_list SCRUBBED)]))
              (Some (JObj [("anonymizedAt", JStr (toISOString anonymizedAt));
                           ("usersAffected", JNum (inject_Z (Z.of_nat (length users))))]%string))
              (Some (JObj (match e_reason input with Some r => [("reason"%string, JStr r)] | None => [] end
                           ++ [("currency"%string, JStr (nullish (e_currency input) "all"%string))]))));
        mret (mk_erased false (Z.of_nat (length users)) SCRUBBED)
  end.

(** ** Dormant players *)

(** Group the sessions by operator and player: the wallets and the latest launch. *)
Fixpoint group_session (s : session) (l : list dormant_player) : list dormant_player :=
  match l with
  | [] => [mk_dormant (s_operatorId s) (s_playerId s) [s_walletId s] (s_createdAt s)]
  | g :: l =>
      if bool_decide (d_operatorId g = s_operatorId s) && eqb_str (d_playerId g) (s_playerId s)
      then mk_dormant (d_operatorId g) (d_playerId g) (if bool_decide (s_walletId s ∈ d_wallets g) then d_wallets g else d_wallets g ++ [s_walletId s])
             (if d_last g <? s_createdAt s then s_createdAt s else d_last g) :: l
      else g :: group_session s l
  end.
Definition group_sessions (l : list session) : list dormant_player :=
  fold_left (fun gs s => group_session s gs) l [].

(** [_max: { createdAt }] of the wallet's bets. *)
Definition last_bet (walletId : uuid) (l : list bet) : option Z :=
  fold_left (fun m b => if bool_decide (b_walletId b = walletId)
                        then Some (match m with Some t => Z.max t (b_createdAt b) | None => b_createdAt b end)
                        else m) l None.

(** The latest of the group's launches and its wallets' bets. *)
Definition last_activity (bets : list bet) (g : dormant_player) : Z :=
  fold_left (fun t id => match last_bet id bets with
                         | Some b => if t <? b then b else t
                         | None => t
                         end) (d_wallets g) (d_last g).

(** Stable insertion by last activity, oldest first. *)
Fixpoint insert_oldest (g : dormant_player) (l : list dormant_player) : list dormant_player :=
  match l with
  | [] => [g]
  | h :: t => if d_last g <? d_last h then g :: l else h :: insert_oldest g t
  end.
Definition sort_oldest (l : list dormant_player) : list dormant_player :=
  fold_left (fun acc g => insert_oldest g acc) l [].

Definition findDormantPlayers (cutoff : Z) : prog world (list dormant_player) :=
  sessions ← db_get (fun w => (map_to_list (w_sessions w)).*2);
  match sessions with
  | [] => mret []
  | _ =>
      let allWalletIds := List.map s_walletId sessions in
      bets ← db_get (bets_where (fun b => bool_decide (b_walletId b ∈ allWalletIds)));
      anonWallets ← db_get (fun w => (wallets_where (fun e => bool_decide (e.1 ∈ allWalletIds)
            && match w_users w !! w_userId e.2 with Some u => is_Some_b (u_anonymizedAt u) | None => false end) w).*1);
      mret (sort_oldest (List.filter (fun g => d_last g <? cutoff)
              (List.map (fun g => mk_dormant (d_operatorId g) (d_playerId g) (d_wallets g) (last_activity bets g))
                 (List.filter (fun g => negb (existsb (fun id => bool_decide (id ∈ anonWallets)) (d_wallets g)))
                    (group_sessions sessions)))))
  end.
End service.

(** ** What erasure may change *)

Definition same_user (u v : user) : Prop := u_isGuest v = u_isGuest u.
Definition same_profile (p q : profile) : Prop := p_totalLoot q = p_totalLoot p /\ p_biggestMultiplier q = p_biggestMultiplier p.
Definition with_player (s : session) (playerId : string) : session :=
  mk_session (s_id s) (s_operatorId s) playerId (s_currency s) (s_locale s) (s_walletId s) (s_demo s)
    (s_launchJti s) (s_createdAt s) (s_revokedAt s) (s_rcDueAt s) (s_rcPendingAt s) (s_rcLastAckAt s).
Definition same_session (s t : session) : Prop := t = with_player s (s_playerId t).

(** Money, rounds, seeds and operators are as they were; no row appears or
    disappears; of a user, a profile and a session only the personal fields differ. *)
Definition scrub_only (w w' : world) : Prop :=
  (w_bets w' = w_bets w /\ w_rounds w' = w_rounds w /\ w_wallets w' = w_wallets w /\ w_ledger w' = w_ledger w /\
   w_chains w' = w_chains w /\ w_seeds w' = w_seeds w /\ w_rollbacks w' = w_rollbacks w /\ w_operators w' = w_operators w) /\
  (forall i, option_Forall2 same_user (w_users w !! i) (w_users w' !! i)) /\
  (forall i, option_Forall2 same_profile (w_profiles w !! i) (w_profiles w' !! i)) /\
  (forall i, option_Forall2 same_session (w_sessions w !! i) (w_sessions w' !! i)).

#[export] Instance same_user_preorder : PreOrder same_user.
Proof. split; [done|]. unfold same_user. intros ???. congruence. Qed.
#[export] Instance same_profile_preorder : PreOrder same_profile.
Proof. split; [done|]. unfold same_profile. intros ??? [] []. split; congruence. Qed.
#[export] Instance same_session_preorder : PreOrder same_session.
Proof. split; [by intros []|]. unfold same_session, with_player. intros [] [] [] H1 H2. cbn in *. injection H1; injection H2; intros; by subst. Qed.

Lemma forall2_refl {A} (R : A -> A -> Prop) `{!PreOrder R} (o : option A) : option_Forall2 R o o.
Proof. destruct o; constructor; reflexivity. Qed.
Lemma forall2_trans {A} (R : A -> A -> Prop) `{!PreOrder R} (x y z : option A) :
  option_Forall2 R x y -> option_Forall2 R y z -> option_Forall2 R x z.
Proof. intros Hxy Hyz. inversion Hxy; subst; inversion Hyz; subst; constructor. by etrans. Qed.

#[export] Instance scrub_only_rel : TableRel scrub_only.
Proof.
  split; [split|].
  - intros w. split; [done|]. split_and!; intros i; apply forall2_refl, _.
  - intros x y z (M1 & U1 & P1 & S1) (M2 & U2 & P2 & S2). split; [destruct_and!; split_and!; congruence|].
    split_and!; intros i; eapply forall2_trans; eauto with typeclass_instances.
  - unfold tables_eq, scrub_only. intros w w' T. destruct_and!.
    repeat match goal with H : _ w' = _ w |- _ => rewrite H; clear H end.
    split; [done|]. split_and!; intros i; apply forall2_refl, _.
Qed.

Section properties.
Context `{UuidColumn} (hmac256 : string -> string -> string) (stringify_length : json -> Z) (toISOString : Z -> string).
Context (process_env : Risk.env).

#[local] Abbreviation tomb := (tombstone hmac256 process_env).
#[local] Abbreviation playerTomb := (playerTombstone hmac256 process_env).
#[local] Abbreviation anonymize := (anonymizePlayer hmac256 stringify_length toISOString process_env).

Lemma user_changed w id u v :
  w_users w !! id = Some u -> same_user u v -> scrub_only w (set_users (<[id := v]> (w_users w)) w).
Proof using Type.
  intros Hu Hv. split; [done|]. split_and!; intros i; try apply (forall2_refl _). cbn.
  destruct (decide (i = id)) as [->|Hne].
  - rewrite lookup_insert_eq, Hu. by constructor.
  - rewrite lookup_insert_ne by done. apply (forall2_refl _).
Qed.

Lemma steps_scrub_user now id : steps_in scrub_only (scrub_user hmac256 process_env now id).
Proof using Type.
  apply steps_db; [apply _|]. intros w. destruct (w_users w !! id) as [u|] eqn:Hu; [|reflexivity]. cbv zeta.
  destruct (user_by_name _ w) as [o|]; [destruct (bool_decide _); [|reflexivity]|]; by apply (user_changed w id u).
Qed.

Lemma steps_scrub_tx now userIds walletIds t : steps_in scrub_only (scrub_tx hmac256 process_env now userIds walletIds t).
Proof using Type.
  unfold scrub_tx. apply steps_bind; [apply steps_for_each, steps_scrub_user|]. intros _.
  apply steps_bind; [|intros _]; (apply steps_db_set; [apply _|]); intros w; (split; [done|]); split_and!; intros i;
    try apply (forall2_refl _); cbn.
  - rewrite map_lookup_imap. destruct (w_profiles w !! i) as [p|]; cbn; constructor.
    by destruct (bool_decide _).
  - rewrite lookup_fmap. destruct (w_sessions w !! i) as [s|]; cbn; constructor.
    destruct (bool_decide _); [done|reflexivity].
Qed.

Lemma erasure_steps_audit sl e : steps_in scrub_only (Audit.record sl e).
Proof using Type.
  eapply steps_mono; [|apply Audit.steps_audit_record]. intros w w' T. unfold Audit.audit_frame, scrub_only in *.
  destruct_and!. repeat match goal with H : _ w' = _ w |- _ => rewrite H; clear H end.
  split; [done|]. split_and!; intros i; apply (forall2_refl _).
Qed.

Lemma steps_assert ids : steps_in scrub_only (assert_settled ids).
Proof using Type. unfold assert_settled, bets_count. destruct ids; steps. Qed.

Lemma steps_resolve o p : steps_in scrub_only (resolve hmac256 process_env o p).
Proof using Type.
  unfold resolve. apply steps_bind; [steps|]. intros cs. apply steps_bind; [|intros ss; apply steps_bind; steps].
  apply steps_db; [apply _|]. intros w. by destruct (uuid_column o).
Qed.

Lemma steps_anonymize input : steps_in scrub_only (anonymize input).
Proof using Type.
  unfold anonymizePlayer. apply steps_bind; [apply steps_resolve|]. intros [|u us]; [steps|]. cbv zeta.
  destruct (forallb _ _); [steps|]. apply steps_bind; [apply steps_assert|]. intros _.
  apply steps_bind; [steps|]. intros now. apply steps_bind.
  { apply steps_transaction; [apply _|]. intros w a w' E. pose proof (steps_scrub_tx now) as Hs.
    eapply (run_steps_in scrub_only) with (s := w) in Hs. by rewrite E in Hs. }
  intros _. apply steps_bind; [steps|]. intros _. apply steps_bind; [apply erasure_steps_audit|steps].
Qed.

(** Erasure never touches money.  However erasures of any players by any
    operators interleave, with any statement failing, every bet, wallet, ledger
    row, rollback, round and seed is byte for byte what it was, no row appears or
    disappears, and of a user, a profile or a session nothing but the name, the
    erasure date, the display name and the player identifier differs. *)
Theorem erasure_keeps_money (inputs : list AnonymizePlayerInput) (w w' : world) ps'
    (Hsteps : pool_steps w ((fun i => forget (anonymize i)) <$> inputs) w' ps') :
  scrub_only w w'.
Proof using Type.
  apply (pool_steps_in scrub_only _ _ _ _ Hsteps). apply Forall_fmap, Forall_true. intros i. apply steps_forget, steps_anonymize.
Qed.

(** *** A run that no statement fails *)

Definition row_ids (l : list (user_row * list uuid)) : list uuid := List.map (fun u => u.1.1) l.

Lemma map_set_in u l x : x ∈ map_set u l -> x = u \/ x ∈ l.
Proof using Type.
  induction l as [|v l IH]; cbn; [set_solver|]. destruct (bool_decide _); intros [->|Hx]%elem_of_cons; [by left|..];
    try (right; by right); [right; by left|]. destruct (IH Hx); [by left|right; by right].
Qed.

Lemma map_set_ids u l i : i ∈ row_ids (map_set u l) <-> i = u.1.1 \/ i ∈ row_ids l.
Proof using Type.
  induction l as [|v l IH]; cbn; [set_solver|].
  destruct (bool_decide_reflect (v.1.1 = u.1.1)) as [Hv|Hv]; cbn; fold (row_ids l);
    fold (row_ids (map_set u l)); rewrite !elem_of_cons, ?IH; [|tauto].
  split; [tauto|]. intros [?|[Hi|?]]; [by left|left; etrans; [exact Hi|exact Hv]|by right].
Qed.

Lemma by_id_spec l : (forall x, x ∈ by_id l -> x ∈ l) /\ (forall i, i ∈ row_ids (by_id l) <-> i ∈ row_ids l).
Proof using Type.
  unfold by_id. assert (Hgen : forall acc,
    (forall x, x ∈ fold_left (fun m u => map_set u m) l acc -> x ∈ acc \/ x ∈ l) /\
    (forall i, i ∈ row_ids (fold_left (fun m u => map_set u m) l acc) <-> i ∈ row_ids acc \/ i ∈ row_ids l)).
  { induction l as [|u l IH]; intros acc; cbn; [split; set_solver|]. destruct (IH (map_set u acc)) as [H1 H2]. split.
    - intros x [Hx|Hx]%H1; [apply map_set_in in Hx as [->|Hx]|]; [right; by left|by left|right; by right].
    - intros i. rewrite H2, map_set_ids, elem_of_cons. tauto. }
  destruct (Hgen []) as [H1 H2]. split; [intros x [Hx|Hx]%H1; [set_solver|done]|]. intros i. rewrite H2. set_solver.
Qed.

(** The two passes, in one state. *)
Definition live_users (operatorId playerId : string) (w : world) : list (user_row * list uuid) :=
  let prefix := player_prefix operatorId playerId in
  List.filter (fun u => live_suffix prefix u.1) (with_wallets w (users_where (live_candidate prefix) w)).
Definition anon_wallets (n : uuid) (pTomb : string) (w : world) : list uuid :=
  List.map s_walletId (sessions_where (anon_session n pTomb) w).
Definition anon_users (n : uuid) (pTomb : string) (w : world) : list (user_row * list uuid) :=
  match anon_wallets n pTomb w with
  | [] => []
  | ids => with_wallets w (users_where (owns_one_of ids w) w)
  end.
Definition resolved (operatorId playerId : string) (n : uuid) (w : world) : list (user_row * list uuid) :=
  by_id (live_users operatorId playerId w ++ anon_users n (playerTomb operatorId playerId) w).

Lemma run_resolve o p n w : w_faults w = [] -> uuid_column o = Some n ->
  run (resolve hmac256 process_env o p) w = (Ok (resolved o p n w), w).
Proof using Type.
  intros Hf Hn. unfold resolve. rewrite run_bind, run_db_get by done. rewrite run_bind, run_db_nofault, Hn by done.
  rewrite run_bind. unfold resolved, anon_users, anon_wallets.
  destruct (List.map s_walletId _); [by rewrite !run_ret|]. by rewrite run_db_get, run_ret by done.
Qed.

Lemma users_where_in P w u : u ∈ users_where P w <-> w_users w !! u.1 = Some u.2 /\ P u = true.
Proof using Type.
  unfold users_where. rewrite list_elem_of_In, List.filter_In, <- list_elem_of_In. destruct u as [i u].
  by rewrite elem_of_map_to_list.
Qed.

Lemma with_wallets_in w l x : x ∈ with_wallets w l <-> exists u, u ∈ l /\ x = (u, wallets_of w u.1).
Proof using Type.
  unfold with_wallets. rewrite list_elem_of_In, in_map_iff. setoid_rewrite <- list_elem_of_In. naive_solver.
Qed.

Lemma wallets_of_in w i wid : wid ∈ wallets_of w i <-> exists wl, w_wallets w !! wid = Some wl /\ w_userId wl = i.
Proof using Type.
  unfold wallets_of, wallets_where. rewrite list_elem_of_fmap. split.
  - intros ([id wl] & -> & Hin%list_elem_of_In). apply List.filter_In in Hin as [Hin%list_elem_of_In Hi%bool_decide_eq_true].
    apply elem_of_map_to_list in Hin. eauto.
  - intros (wl & Hw & Hi). exists (wid, wl). split; [done|]. apply list_elem_of_In, List.filter_In. split.
    + by apply list_elem_of_In, elem_of_map_to_list.
    + by apply bool_decide_eq_true.
Qed.

(** Who is live under the player's name, and who owns a scrubbed session. *)
Definition named (o p : string) (u : user) : Prop :=
  startsWith (player_prefix o p) (u_username u) = true /\
  SUFFIX_RE (slice_from (String.length (player_prefix o p)) (u_username u)) = true.
Definition scrubbed (n : uuid) (t : string) (w : world) (i : uuid) : Prop :=
  exists k s wl, w_sessions w !! k = Some s /\ s_operatorId s = n /\ s_playerId s = anon t /\
    w_wallets w !! s_walletId s = Some wl /\ w_userId wl = i.

Lemma live_users_ids o p w i : i ∈ row_ids (live_users o p w) <-> exists u, w_users w !! i = Some u /\ named o p u.
Proof using Type.
  unfold row_ids, live_users. rewrite list_elem_of_In, in_map_iff. split.
  - intros (x & <- & [Hx%list_elem_of_In Hs]%List.filter_In). apply with_wallets_in in Hx as (u & [Hu Hp]%users_where_in & ->).
    exists u.2. by split.
  - intros (u & Hu & Hp & Hs). exists ((i, u), wallets_of w i). split; [done|]. apply List.filter_In. split; [|done].
    apply list_elem_of_In, with_wallets_in. exists (i, u). split; [|done]. apply users_where_in. by split.
Qed.

Lemma anon_wallets_in n t w wid : wid ∈ anon_wallets n t w <->
  exists k s, w_sessions w !! k = Some s /\ s_operatorId s = n /\ s_playerId s = anon t /\ s_walletId s = wid.
Proof using Type.
  unfold anon_wallets, sessions_where. rewrite list_elem_of_In, in_map_iff. split.
  - intros (s & <- & [Hs%list_elem_of_In Ha]%List.filter_In). apply list_elem_of_fmap in Hs as ([k s'] & -> & Hk).
    apply elem_of_map_to_list in Hk. apply andb_true_iff in Ha as [Ho%bool_decide_eq_true Hp%eqb_str_eq]. by exists k, s'.
  - intros (k & s & Hk & Ho & Hp & Hw). exists s. split; [done|]. apply List.filter_In. split.
    + apply list_elem_of_In, list_elem_of_fmap. exists (k, s). split; [done|]. by apply elem_of_map_to_list.
    + unfold anon_session. by rewrite Ho, Hp, bool_decide_eq_true_2, eqb_str_refl.
Qed.

Lemma anon_users_ids n t w i : i ∈ row_ids (anon_users n t w) <-> is_Some (w_users w !! i) /\ scrubbed n t w i.
Proof using Type.
  assert (Hany : i ∈ row_ids (with_wallets w (users_where (owns_one_of (anon_wallets n t w) w) w)) <->
                 is_Some (w_users w !! i) /\ scrubbed n t w i).
  { unfold row_ids. rewrite list_elem_of_In, in_map_iff. split.
    - intros (x & <- & Hx%list_elem_of_In). apply with_wallets_in in Hx as (u & [Hu Ho]%users_where_in & ->). cbn.
      split; [eauto|]. apply existsb_exists in Ho as (wid & Hw%list_elem_of_In & Hin%bool_decide_eq_true).
      apply wallets_of_in in Hw as (wl & Hwl & <-). apply anon_wallets_in in Hin as (k & s & ? & ? & ? & <-).
      by exists k, s, wl.
    - intros ([u Hu] & k & s & wl & Hk & Ho & Hp & Hwl & Hi). exists ((i, u), wallets_of w i). split; [done|].
      apply list_elem_of_In, with_wallets_in. exists (i, u). split; [|done]. apply users_where_in. split; [done|].
      apply existsb_exists. exists (s_walletId s). split; [apply list_elem_of_In, wallets_of_in; eauto|].
      apply bool_decide_eq_true, anon_wallets_in. eauto 10. }
  unfold anon_users. destruct (anon_wallets n t w) as [|wid ids] eqn:E; [|exact Hany].
  split; [cbn; set_solver|]. intros (_ & k & s & wl & Hk & Ho & Hp & _).
  assert (Hin : s_walletId s ∈ anon_wallets n t w) by (apply anon_wallets_in; eauto 10). rewrite E in Hin. set_solver.
Qed.

Lemma resolved_ids o p n w i : i ∈ row_ids (resolved o p n w) <->
  (exists u, w_users w !! i = Some u /\ named o p u) \/
  (is_Some (w_users w !! i) /\ scrubbed n (playerTomb o p) w i).
Proof using Type.
  unfold resolved. destruct (by_id_spec (live_users o p w ++ anon_users n (playerTomb o p) w)) as [_ ->].
  unfold row_ids. rewrite List.map_app, elem_of_app. by rewrite <- live_users_ids, <- anon_users_ids.
Qed.

Lemma resolved_row o p n w x : x ∈ resolved o p n w -> w_users w !! x.1.1 = Some x.1.2 /\ x.2 = wallets_of w x.1.1.
Proof using Type.
  intros Hx. apply (proj1 (by_id_spec _)) in Hx. apply elem_of_app in Hx as [Hx|Hx].
  - apply list_elem_of_In, List.filter_In in Hx as [Hx%list_elem_of_In _].
    apply with_wallets_in in Hx as (u & [Hu _]%users_where_in & ->). by split.
  - unfold anon_users in Hx. destruct (anon_wallets _ _ _); [set_solver|].
    apply with_wallets_in in Hx as (u & [Hu _]%users_where_in & ->). by split.
Qed.

(** The tables after the transaction. *)
Definition scrubbed_users (now : Z) (ids : list uuid) (m : gmap N user) : gmap N user :=
  map_imap (fun i u => Some (if bool_decide (i ∈ ids) then mk_user (anon (tomb i)) (u_isGuest u) (Some now) else u)) m.
Definition scrubbed_sessions (t : string) (wids : list uuid) (m : gmap N session) : gmap N session :=
  (fun s => if bool_decide (s_walletId s ∈ wids) then with_player s (anon t) else s) <$> m.

Lemma scrubbed_users_cons now i ids u m :
  m !! i = Some u ->
  scrubbed_users now ids (<[i := mk_user (anon (tomb i)) (u_isGuest u) (Some now)]> m) = scrubbed_users now (i :: ids) m.
Proof using Type.
  intros Hi. apply map_eq. intros j. unfold scrubbed_users. rewrite !map_lookup_imap.
  destruct (decide (j = i)) as [->|Hne].
  - rewrite lookup_insert_eq, Hi. cbn. rewrite (bool_decide_eq_true_2 (i ∈ i :: ids)) by left. by destruct (bool_decide _).
  - rewrite lookup_insert_ne by done. destruct (m !! j); cbn; [|done].
    by rewrite (bool_decide_ext (j ∈ i :: ids) (j ∈ ids)) by (rewrite elem_of_cons; split; [by intros [?|?]|by right]).
Qed.

Lemma run_scrub_users now ids : forall w w', w_faults w = [] ->
  run (for_each ids (scrub_user hmac256 process_env now)) w = (Ok tt, w') ->
  w' = set_users (scrubbed_users now ids (w_users w)) w.
Proof using Type.
  induction ids as [|i ids IH]; intros w w' Hf E; cbn [for_each] in E.
  - rewrite run_ret in E. injection E as <-. unfold scrubbed_users.
    replace (map_imap _ (w_users w)) with (w_users w); [by destruct w|].
    apply map_eq. intros j. rewrite map_lookup_imap. by destruct (w_users w !! j).
  - apply run_bind_ok in E as ([] & w1 & E1 & E). unfold scrub_user in E1. rewrite run_db_nofault in E1 by done.
    destruct (w_users w !! i) as [u|] eqn:Hi; [|done]. cbv zeta in E1.
    assert (Hw1 : w1 = set_users (<[i := mk_user (anon (tomb i)) (u_isGuest u) (Some now)]> (w_users w)) w).
    { destruct (user_by_name _ w) as [o|]; [destruct (bool_decide _); [|done]|]; by injection E1. }
    rewrite (IH w1 w'); [|by rewrite Hw1|done]. rewrite Hw1. cbn [w_users set_users].
    by rewrite scrubbed_users_cons.
Qed.

Lemma run_scrub_tx now ids wids t w w' : w_faults w = [] ->
  run (scrub_tx hmac256 process_env now ids wids t) w = (Ok tt, w') ->
  w_users w' = scrubbed_users now ids (w_users w) /\ w_sessions w' = scrubbed_sessions t wids (w_sessions w) /\
  w_wallets w' = w_wallets w /\ w_faults w' = [].
Proof using Type.
  intros Hf E. unfold scrub_tx in E. apply run_bind_ok in E as ([] & w1 & ->%run_scrub_users & E); [|done].
  unfold db_set in E. rewrite run_bind, run_db_nofault in E by done. rewrite run_db_nofault in E by done.
  injection E as <-. by split_and!.
Qed.

Lemma run_assert ids w r w' : w_faults w = [] -> run (assert_settled ids) w = (r, w') ->
  w' = w /\ (r = Raise (BadRequest "player_not_settled") \/
    r = Ok tt /\ (forall i b, w_bets w !! i = Some b -> b_walletId b ∈ ids -> b_status b ∉ NON_TERMINAL_BET_STATUSES) /\
    (forall i s, w_sessions w !! i = Some s -> s_walletId s ∈ ids -> is_null (s_revokedAt s) = false)).
Proof using Type.
  intros Hf E. unfold assert_settled in E. destruct ids as [|a ids].
  { rewrite run_ret in E. injection E as <- <-. split; [done|right]. split_and!; set_solver. }
  set (l := a :: ids) in *. unfold bets_count in E. rewrite run_bind, run_db_get in E by done.
  destruct (_ >? 0) eqn:Hb in E; [injection E as <- <-; auto|].
  rewrite run_bind, run_db_get in E by done.
  destruct (_ >? 0) eqn:Hs in E; [injection E as <- <-; auto|]. rewrite run_ret in E. injection E as <- <-.
  split; [done|right]. split; [done|]. split.
  - intros i b Hi Hw Hst. eapply count_none in Hb; [|by eapply map_value_in].
    by rewrite !bool_decide_eq_true_2 in Hb by done.
  - intros i s Hi Hw. eapply count_none in Hs; [|by eapply map_value_in].
    by rewrite bool_decide_eq_true_2 in Hs by done.
Qed.

Lemma anon_not_named o p t : ~ startsWith (player_prefix o p) (anon t) = true.
Proof using Type. done. Qed.

(** Whoever is resolved again after the scrub was scrubbed. *)
Lemma resolved_again o p n w w' us :
  us = resolved o p n w ->
  w_users w' = scrubbed_users (w_now w) (row_ids us) (w_users w) ->
  w_sessions w' = scrubbed_sessions (playerTomb o p) (List.concat (List.map snd us)) (w_sessions w) ->
  w_wallets w' = w_wallets w ->
  (forall i u, w_users w' !! i = Some u -> ~ named o p u) /\
  forall i, i ∈ row_ids (resolved o p n w') -> exists u, w_users w' !! i = Some u /\ u_anonymizedAt u = Some (w_now w).
Proof using Type.
  intros Hus HU HS HW.
  assert (Hids : forall i, i ∈ row_ids us <-> i ∈ row_ids (resolved o p n w)) by (intros i; by rewrite Hus).
  assert (Hgone : forall i u, w_users w' !! i = Some u -> ~ named o p u).
  { intros i u Hi Hnm. rewrite HU in Hi. unfold scrubbed_users in Hi. rewrite map_lookup_imap in Hi.
    destruct (w_users w !! i) as [u0|] eqn:H0; [|done]. cbn in Hi. injection Hi as <-.
    destruct (bool_decide_reflect (i ∈ row_ids us)) as [Hin|Hout]; [by destruct Hnm as [Hnm _]|].
    apply Hout, Hids, resolved_ids. left. by exists u0. }
  split; [done|]. intros i Hi. apply resolved_ids in Hi as [(u & Hu & Hnm)|([u Hu] & k & s & wl & Hk & Ho & Hp & Hwl & Hown)].
  { by destruct (Hgone i u). }
  assert (Hin : i ∈ row_ids us).
  { rewrite HW in Hwl. rewrite HS in Hk. unfold scrubbed_sessions in Hk. rewrite lookup_fmap in Hk.
    destruct (w_sessions w !! k) as [s0|] eqn:Hk0; [|done]. cbn in Hk. injection Hk as <-.
    destruct (bool_decide_reflect (s_walletId s0 ∈ List.concat (List.map snd us))) as [Hw|Hw].
    - apply list_elem_of_In, in_concat in Hw as (l & Hl & Hw). apply in_map_iff in Hl as (x & <- & Hx).
      apply list_elem_of_In in Hx. pose proof Hx as Hx'. rewrite Hus in Hx'. apply resolved_row in Hx' as [_ Hx2].
      rewrite Hx2 in Hw. apply list_elem_of_In, wallets_of_in in Hw as (wl' & Hwl' & Hi'). cbn in Hwl.
      rewrite Hwl in Hwl'. injection Hwl' as <-. rewrite <- Hown, Hi'. apply list_elem_of_In, in_map_iff.
      exists x. split; [done|]. by apply list_elem_of_In.
    - apply Hids, resolved_ids. right. split; [|by exists k, s0, wl].
      rewrite HU in Hu. unfold scrubbed_users in Hu. rewrite map_lookup_imap in Hu.
      destruct (w_users w !! i); [eauto|done]. }
  exists u. split; [done|]. rewrite HU in Hu. unfold scrubbed_users in Hu. rewrite map_lookup_imap in Hu.
  destruct (w_users w !! i) as [u0|]; [|done]. cbn in Hu. rewrite bool_decide_eq_true_2 in Hu by done. by injection Hu as <-.
Qed.

(** A successful first erasure, taken apart. *)
Lemma erase_run input n w r w' :
  w_faults w = [] -> uuid_column (e_operatorId input) = Some n -> run (anonymize input) w = (Ok r, w') ->
  alreadyAnonymized r = false -> usersAffected r <> 0 ->
  let us := resolved (e_operatorId input) (e_playerId input) n w in
  let wids := List.concat (List.map snd us) in
  (forall i b, w_bets w !! i = Some b -> b_walletId b ∈ wids -> b_status b ∉ NON_TERMINAL_BET_STATUSES) /\
  (forall i s, w_sessions w !! i = Some s -> s_walletId s ∈ wids -> is_null (s_revokedAt s) = false) /\
  w_users w' = scrubbed_users (w_now w) (row_ids us) (w_users w) /\
  w_sessions w' = scrubbed_sessions (playerTomb (e_operatorId input) (e_playerId input)) wids (w_sessions w) /\
  w_wallets w' = w_wallets w /\ w_faults w' = [].
Proof using All.
  intros Hf Hn E Hnew Haff. cbv zeta.
  unfold anonymizePlayer in E. rewrite run_bind, (run_resolve _ _ n) in E by done.
  destruct (resolved _ _ n w) as [|u0 us0]; [rewrite run_ret in E; by injection E as <- _|].
  set (us := u0 :: us0) in *. cbv zeta in E.
  destruct (forallb _ us) eqn:Hall; [rewrite run_ret in E; by injection E as <- _|].
  apply run_bind_ok in E as ([] & w1 & E1 & E). apply run_assert in E1 as [-> [|(_ & Hb & Hs)]]; [done| |done].
  split; [exact Hb|]. split; [exact Hs|].
  unfold Date_now, gets in E. rewrite run_bind, run_atom in E. cbn [fst snd] in E.
  apply run_bind_ok in E as ([] & w2 & E2 & E). unfold db_transaction in E2. rewrite run_db_nofault in E2 by done.
  unfold run_transaction in E2. destruct (run (scrub_tx _ _ _ _ _ _) w) as [[[]|e] w3] eqn:Etx; [|done]. injection E2 as ->.
  apply run_scrub_tx in Etx as (HU & HS & HW & Hf2); [|done].
  rewrite run_bind in E. cbn [run emit atom fst snd] in E. rewrite run_bind in E.
  destruct (Audit.run_audit_record stringify_length (mk_audit (e_actor input) "player.anonymize" (Some "user"%string)
              (Keys.uuid_string <$> head (List.map (fun u => u.1.1) us)) (uuid_column (e_operatorId input)) None
              (Some (JObj [("scrubbedFields"%string, str_list SCRUBBED)]))
              (Some (JObj [("anonymizedAt", JStr (toISOString (w_now w)));
                           ("usersAffected", JNum (inject_Z (Z.of_nat (length us))))]%string))
              (Some (JObj (match e_reason input with Some r => [("reason"%string, JStr r)] | None => [] end
                           ++ [("currency"%string, JStr (nullish (e_currency input) "all"%string))]))))
    (set_events (EvMetric "player_anonymize" "" :: w_events w2) w2) Hf2) as [l El].
  rewrite El, run_ret in E. injection E as _ <-. by split_and!.
Qed.

(** C18: Erasure fails closed, is complete and is idempotent.  When an erasure
    scrubs somebody, every bet on that player's wallets was settled and every
    session revoked; afterwards no user carries the player's name under that
    operator, every session of the player's wallets carries the pseudonym, and
    running the erasure again finds them and changes nothing at all. *)
Theorem erase_complete (input : AnonymizePlayerInput) (n : uuid) (w w' : world) (r : AnonymizePlayerResult)
    (Hf : w_faults w = []) (Hn : uuid_column (e_operatorId input) = Some n)
    (E : run (anonymize input) w = (Ok r, w')) (Hnew : alreadyAnonymized r = false) (Haff : usersAffected r <> 0) :
  let o := e_operatorId input in
  let p := e_playerId input in
  (forall wid wl u, w_wallets w !! wid = Some wl -> w_users w !! w_userId wl = Some u -> named o p u ->
     (forall i b, w_bets w !! i = Some b -> b_walletId b = wid -> b_status b ∉ NON_TERMINAL_BET_STATUSES) /\
     (forall k s, w_sessions w !! k = Some s -> s_walletId s = wid ->
        is_null (s_revokedAt s) = false /\ w_sessions w' !! k = Some (with_player s (anon (playerTomb o p))))) /\
  (forall i u, w_users w' !! i = Some u -> ~ named o p u) /\
  exists r', run (anonymize input) w' = (Ok r', w') /\ scrubbedFields r' = [].
Proof using All.
  cbv zeta. destruct (erase_run input n w r w' Hf Hn E Hnew Haff) as (Hb & Hs & HU & HS & HW & Hf').
  destruct (resolved_again _ _ n w w' _ eq_refl HU HS HW) as [Hgone Hagain].
  split; [|split; [exact Hgone|]].
  - intros wid wl u Hwl Hu Hnm.
    assert (Hin : wid ∈ List.concat (List.map snd (resolved (e_operatorId input) (e_playerId input) n w))).
    { assert (Hi : w_userId wl ∈ row_ids (resolved (e_operatorId input) (e_playerId input) n w))
        by (apply resolved_ids; left; by exists u).
      apply list_elem_of_In, in_map_iff in Hi as (x & Hx & Hin%list_elem_of_In).
      pose proof (resolved_row _ _ _ _ _ Hin) as [_ Hx2]. apply list_elem_of_In, in_concat. exists x.2.
      split; [apply in_map_iff; exists x; split; [done|by apply list_elem_of_In]|].
      rewrite Hx2. apply list_elem_of_In, wallets_of_in. exists wl. by rewrite Hx. }
    split; [intros i b Hi <-; by apply (Hb i)|]. intros k s Hk <-. split; [by apply (Hs k)|].
    rewrite HS. unfold scrubbed_sessions. rewrite lookup_fmap, Hk. cbn. by rewrite bool_decide_eq_true_2.
  - unfold anonymizePlayer. rewrite run_bind, (run_resolve _ _ n) by done.
    set (us' := resolved _ _ n w') in *. destruct us' as [|u0 us0] eqn:Hus; [rewrite run_ret; by eexists|]. rewrite <- Hus in *. cbv zeta.
    assert (Hall : forallb (fun u => is_Some_b (u_anonymizedAt u.1.2)) us' = true).
    { apply forallb_forall. intros x Hx. destruct (Hagain x.1.1) as (u & Hu & Ha).
      { apply list_elem_of_In, in_map_iff. by exists x. }
      apply list_elem_of_In in Hx. unfold us' in Hx. apply resolved_row in Hx as [Hx _]. rewrite Hx in Hu. injection Hu as ->.
      by rewrite Ha. }
    rewrite Hall, run_ret. by eexists.
Qed.
End properties.

(** ** Witnesses *)

#[local] Existing Instance TicketJwt.
#[local] Existing Instance two_operators.

(** Alice's sessions, real and demo, once revoked; a keyed hash that keeps the
    end of its message. *)
Definition revoked_world : world := Eval vm_compute in (SessionSafety.revoke "alice").2.
Definition toy_hmac (_ m : string) : string := slice_from 12 m.
Definition erase (playerId : string) : prog world AnonymizePlayerResult :=
  anonymizePlayer toy_hmac (fun _ => 100) (fun _ => "2026"%string) (fun _ => None)
    (mk_erasure (Keys.uuid_string 7) playerId None "provision-cli" None).
Definition erased_world : world := Eval vm_compute in (run (erase "alice") revoked_world).2.

Lemma erasure_keeps_money_witness :
  let pool := schedule_pool (concat (replicate 20 [0; 1]))%nat revoked_world
                ((fun i => forget (anonymizePlayer toy_hmac (fun _ => 100) (fun _ => "2026"%string) (fun _ => None) i))
                   <$> [mk_erasure (Keys.uuid_string 7) "alice" None "a" None; mk_erasure (Keys.uuid_string 7) "alice" None "b" None]) in
  w_users pool.1 <> w_users revoked_world /\ w_wallets pool.1 = w_wallets revoked_world.
Proof.
  cbv zeta. split; [intros Heq; apply (f_equal (fun m => u_username <$> m !! 0%N)) in Heq; vm_compute in Heq; discriminate|].
  refine (proj1 (proj2 (proj2 (proj1 (@erasure_keeps_money two_operators toy_hmac (fun _ => 100) (fun _ => "2026"%string) (fun _ => None)
    [mk_erasure (Keys.uuid_string 7) "alice" None "a" None; mk_erasure (Keys.uuid_string 7) "alice" None "b" None]
    revoked_world _ _ _))))). apply schedule_pool_steps.
Defined.

Lemma erase_complete_witness :
  run (erase "alice") revoked_world = (Ok (mk_erased false 2 SCRUBBED), erased_world) /\
  (forall i u, w_users erased_world !! i = Some u -> ~ named (Keys.uuid_string 7) "alice" u).
Proof.
  assert (E : run (erase "alice") revoked_world = (Ok (mk_erased false 2 SCRUBBED), erased_world)) by (vm_compute; reflexivity).
  split; [exact E|].
  destruct (@erase_complete two_operators toy_hmac (fun _ => 100) (fun _ => "2026"%string) (fun _ => None)
    (mk_erasure (Keys.uuid_string 7) "alice" None "provision-cli" None) 7%N revoked_world erased_world
    (mk_erased false 2 SCRUBBED) eq_refl eq_refl E eq_refl ltac:(discriminate)) as (_ & H & _).
  exact H.
Defined.

(** Erasing the player named "alice:EUR" erases Alice's demo identity. *)
Theorem erasure_reaches_sibling_demo :
  (run (erase "alice:EUR") revoked_world).1 = Ok (mk_erased false 1 SCRUBBED) /\
  u_anonymizedAt <$> w_users (run (erase "alice:EUR") revoked_world).2 !! 4%N = Some (Some 5000) /\
  s_playerId <$> w_sessions revoked_world !! 6%N = Some "alice"%string.
Proof. split_and!; vm_compute; reflexivity. Qed.

(** A launch that found Alice's wallet before the erasure, and records its
    session after it, leaves her identifier in a live session; erasing her again
    finds her already anonymized and leaves it there. *)
Definition late_launch : world := Eval vm_compute in
  (schedule_pool (replicate 5 0 ++ replicate 30 1 ++ replicate 20 0)%nat revoked_world
     [forget (openFromToken (fun _ => None) "our-secret" (SessionSafety.ticket "alice" false "j9")); forget (erase "alice")]).1.

Theorem launch_races_erasure :
  (exists i s, w_sessions late_launch !! i = Some s /\ s_playerId s = "alice"%string /\ is_null (s_revokedAt s) = true) /\
  run (erase "alice") late_launch = (Ok (mk_erased true 2 []), late_launch).
Proof.
  split; [|vm_compute; reflexivity].
  assert (H : existsb (fun s => eqb_str (s_playerId s) "alice" && is_null (s_revokedAt s)) (map_to_list (w_sessions late_launch)).*2 = true)
    by (vm_compute; reflexivity).
  apply existsb_exists in H as (s & Hs%list_elem_of_In & [Hp%eqb_str_eq Hn]%andb_true_iff).
  apply list_elem_of_fmap in Hs as ([i s'] & -> & Hi). apply elem_of_map_to_list in Hi. by exists i, s'.
Qed.
End DataErasure.
