(* ===== verification/OperatorAuth.v ===== *)
(** * Authentication of an operator's requests

    [common/timing-safe.ts], [common/client-ip.ts], [operator/reporting-key.ts]
    and [operator/operator-auth.guard.ts].  The digests are the parameters
    [sha256] and [hmac256] (message, then key, to hexadecimal text); the random
    secret of a new key is an argument.  Timing is not modelled: the unconditional
    hash on the refusing paths has no effect on the result.
    Proved: a minted key parses and verifies, whatever happens to the pepper as
    far as it can; the guard lets exactly the right requests through, and a route
    that needs the write scope is closed to an operator without a write key. *)

From S2P Require Import Prelude Effects Js Money Schema Keys Launch.

Open Scope Z_scope.

#[local] Set Warnings "-clear-no-such-hyp".

(** ** Comparison and extraction *)

Definition safeTokenEqual (provided expected : option string) : bool :=
  match provided, expected with
  | Some p, Some e => nonempty p && nonempty e && (String.length p =? String.length e)%nat && eqb_str p e
  | _, _ => false
  end.

(** A header value: one text, or several. *)
Inductive header := One (s : string) | Many (l : list string).

Definition bearerToken (authHeader : option header) : option string :=
  match authHeader with
  | Some (One h) => if startsWith "Bearer " h then Some (slice_from 7 h) else None
  | _ => None
  end.

Record request := mk_request {
  headers : string -> option header; rq_ip : option string; remoteAddress : option string
}.

Definition first_text (h : option header) : option string :=
  match h with Some (One s) => Some s | Some (Many l) => head l | None => None end.

Definition extractClientIp (req : request) : string :=
  let fallback := nullish (rq_ip req) (nullish (remoteAddress req) "unknown"%string) in
  let forwarded :=
    match first_text (headers req "x-forwarded-for") with
    | Some x => if nonempty (trim x) then trim (nullish (head (split_on "," x)) EmptyString) else fallback
    | None => fallback
    end in
  match headers req "cf-connecting-ip" with
  | Some (One cf) => if nonempty (trim cf) then trim cf else forwarded
  | _ => forwarded
  end.

(** ** Keys *)

Module ReportingKey.
Definition REPORTING_TOKEN_PREFIX : string := "vrk_".
Definition WRITE_TOKEN_PREFIX : string := "vrw_".
Definition ALGO_SHA : string := "sha256".
Definition ALGO_HMAC : string := "hmac-sha256".

(** [s.indexOf(c)] as the parts before and after it. *)
Fixpoint cut (c : ascii) (s : string) : option (string * string) :=
  match s with
  | EmptyString => None
  | String a s => if Ascii.eqb a c then Some (EmptyString, s)
                  else option_map (fun p => (String a p.1, p.2)) (cut c s)
  end.

Record parsed_token := mk_parsed { pt_operatorId : string; pt_secret : string }.

Definition parseReportingToken (token : option string) : option parsed_token :=
  match token with
  | None => None
  | Some token =>
      if (512 <? String.length token)%nat then None
      else
        body ← (if startsWith REPORTING_TOKEN_PREFIX token then Some (slice_from 4 token)
                else if startsWith WRITE_TOKEN_PREFIX token then Some (slice_from 4 token) else None);
        parts ← cut "." body;
        if negb (nonempty parts.1) || negb (nonempty parts.2) then None
        else if negb (Keys.isUuid parts.1) then None else Some (mk_parsed parts.1 parts.2)
  end.

Section digests.
Context (sha256 : string -> string) (hmac256 : string -> string -> string).

(** [process.env.REPORTING_KEY_PEPPER], unset when empty. *)
Definition pepper (e : Risk.env) : option string :=
  match e "REPORTING_KEY_PEPPER" with Some (String _ _ as p) => Some p | _ => None end.

Definition hashSecret (e : Risk.env) (secret : string) : string :=
  match pepper e with
  | Some p => ALGO_HMAC +:+ String ":" (hmac256 secret p)
  | None => ALGO_SHA +:+ String ":" (sha256 secret)
  end.

(** [{ token, hash }] *)
Definition generate_key (prefix : string) (e : Risk.env) (operatorId secret : string) : string * string :=
  ((prefix +:+ operatorId +:+ String "." secret)%string, hashSecret e secret).
Definition generateReportingKey := generate_key REPORTING_TOKEN_PREFIX.
Definition generateWriteKey := generate_key WRITE_TOKEN_PREFIX.

Definition reportingKeyPepperUnavailable (e : Risk.env) (storedHash : option string) : bool :=
  match storedHash with
  | Some h => startsWith (ALGO_HMAC +:+ ":") h && negb (is_Some_b (pepper e))
  | None => false
  end.

Definition verifyReportingSecret (e : Risk.env) (secret : string) (storedHash : option string) : bool :=
  match storedHash with
  | Some (String _ _ as h) =>
      let '(algo, digest) := match cut ":" h with
                             | Some (String _ _ as a, d) => (a, d)
                             | _ => (EmptyString, EmptyString)
                             end in
      if eqb_str algo ALGO_HMAC then
        match pepper e with
        | Some p => safeTokenEqual (Some (hmac256 secret p)) (Some digest)
        | None => false
        end
      else if eqb_str algo ALGO_SHA then safeTokenEqual (Some (sha256 secret)) (Some digest)
      else false
  | _ => false
  end.

(** ** Lemmas *)

Lemma cut_first c a b : lacks c a -> cut c (a +:+ String c b)%string = Some (a, b).
Proof using Type.
  induction a as [|x a IH]; intros Ha.
  - change (EmptyString +:+ String c b)%string with (String c b). cbn. by rewrite Ascii.eqb_refl.
  - destruct Ha as [Hx Ha]. change (String x a +:+ String c b)%string with (String x (a +:+ String c b)). cbn.
    by rewrite (proj2 (Ascii.eqb_neq x c) Hx), (IH Ha).
Qed.

Lemma safe_refl d : nonempty d = true -> safeTokenEqual (Some d) (Some d) = true.
Proof using Type. intros Hd. cbn. by rewrite Hd, Nat.eqb_refl, eqb_str_refl. Qed.

Lemma safe_equal p d : safeTokenEqual (Some p) (Some d) = true -> p = d.
Proof using Type. cbn. by intros [_ ->%eqb_str_eq]%andb_true_iff. Qed.

Lemma verify_shape e secret algo d : nonempty algo = true -> lacks ":" algo ->
  verifyReportingSecret e secret (Some (algo +:+ String ":" d)%string) =
  if eqb_str algo ALGO_HMAC then
    match pepper e with Some p => safeTokenEqual (Some (hmac256 secret p)) (Some d) | None => false end
  else if eqb_str algo ALGO_SHA then safeTokenEqual (Some (sha256 secret)) (Some d) else false.
Proof using Type.
  intros Hn Hl. destruct algo as [|a algo]; [done|]. unfold verifyReportingSecret.
  pose proof (cut_first ":" (String a algo) d Hl) as Hc.
  change (String a algo +:+ String ":" d)%string with (String a (algo +:+ String ":" d))%string in *. cbv beta iota. by rewrite Hc.
Qed.

(** A minted key works.  The token of a new read or write key parses back to
    the operator and the secret; its stored hash accepts that secret whatever
    pepper is set later when the key was minted without one, and exactly while
    the same pepper is set when it was minted with one; without the pepper it is
    refused and reported as such. *)
Theorem minted_key_verifies (prefix : string) (e : Risk.env) (n : uuid) (secret : string)
    (Hp : prefix = REPORTING_TOKEN_PREFIX \/ prefix = WRITE_TOKEN_PREFIX)
    (Hs : nonempty secret = true) (Hl : (String.length secret <= 400)%nat)
    (Hsha : nonempty (sha256 secret) = true) (Hmac : forall p, nonempty (hmac256 secret p) = true) :
  let key := generate_key prefix e (Keys.uuid_string n) secret in
  parseReportingToken (Some key.1) = Some (mk_parsed (Keys.uuid_string n) secret) /\
  match pepper e with
  | None => forall e', verifyReportingSecret e' secret (Some key.2) = true
  | Some p =>
      (forall e', pepper e' = Some p -> verifyReportingSecret e' secret (Some key.2) = true) /\
      (forall e', pepper e' = None -> verifyReportingSecret e' secret (Some key.2) = false /\
                                     reportingKeyPepperUnavailable e' (Some key.2) = true)
  end.
Proof using Type.
  cbv zeta. cbn [generate_key fst snd]. split.
  - unfold parseReportingToken.
    assert (Hlen : String.length (prefix +:+ Keys.uuid_string n +:+ String "." secret)%string = (4 + (36 + S (String.length secret)))%nat).
    { rewrite !string_length_app, Keys.uuid_length. by destruct Hp as [->| ->]. }
    rewrite Hlen. rewrite (proj2 (Nat.ltb_ge _ _)) by lia.
    assert (Hbody : (if startsWith REPORTING_TOKEN_PREFIX (prefix +:+ Keys.uuid_string n +:+ String "." secret)%string
                     then Some (slice_from 4 (prefix +:+ Keys.uuid_string n +:+ String "." secret)%string)
                     else if startsWith WRITE_TOKEN_PREFIX (prefix +:+ Keys.uuid_string n +:+ String "." secret)%string
                          then Some (slice_from 4 (prefix +:+ Keys.uuid_string n +:+ String "." secret)%string) else None)
                    = Some (Keys.uuid_string n +:+ String "." secret)%string).
    { destruct Hp as [->| ->]; by destruct (Keys.uuid_string n +:+ String "." secret)%string. }
    rewrite Hbody. cbn [mbind option_bind]. rewrite cut_first by (by apply Keys.uuid_lacks_char). cbn [mbind option_bind fst snd].
    rewrite LaunchToken.uuid_nonempty, Hs, Keys.uuid_isUuid. done.
  - unfold hashSecret. destruct (pepper e) as [p|] eqn:Ep.
    + split; intros e' He'.
      * rewrite verify_shape by (done || by apply lacksb_spec). rewrite eqb_str_refl, He'. by apply safe_refl.
      * rewrite verify_shape by (done || by apply lacksb_spec). rewrite eqb_str_refl, He'. split; [done|].
        unfold reportingKeyPepperUnavailable. rewrite He'. by destruct (hmac256 secret p).
    + intros e'. rewrite verify_shape by (done || by apply lacksb_spec). by apply safe_refl.
Qed.
End digests.

Lemma minted_key_verifies_witness :
  let secret := "0123456789abcdef0123456789abcdef"%string in
  let key := generate_key (fun s => s) (fun s p => p +:+ s)%string WRITE_TOKEN_PREFIX (fun _ => None) (Keys.uuid_string 7) secret in
  parseReportingToken (Some key.1) = Some (mk_parsed (Keys.uuid_string 7) secret) /\
  forall e', verifyReportingSecret (fun s => s) (fun s p => p +:+ s)%string e' secret (Some key.2) = true.
Proof.
  apply (minted_key_verifies (fun s => s) (fun s p => p +:+ s)%string WRITE_TOKEN_PREFIX (fun _ => None) 7
    "0123456789abcdef0123456789abcdef"); [by right|reflexivity|cbn; lia|reflexivity|by intros []].
Defined.
End ReportingKey.

(** ** The guard *)

Module Guard.
Import ReportingKey.
Section guard.
Context `{UuidColumn} (sha256 : string -> string) (hmac256 : string -> string -> string) (process_env : Risk.env).

(** The column the route's scope is checked against. *)
Definition scope_hash (requireWrite : bool) (o : operator) : option string :=
  if requireWrite then o_writeApiKeyHash o else o_reportingApiKeyHash o.

(** The answer is the operator the request is made for. *)
Definition canActivate (requireWrite : bool) (req : request) : prog world uuid :=
  match parseReportingToken (bearerToken (headers req "authorization")) with
  | None => LaunchToken.unauthorized "invalid_api_key"
  | Some parsed =>
      found ← LaunchToken.operator_findUnique (JStr (pt_operatorId parsed));
      let storedHash := match found with Some (_, o) => scope_hash requireWrite o | None => None end in
      let ok := verifyReportingSecret sha256 hmac256 process_env (pt_secret parsed) storedHash in
      match found with
      | None => LaunchToken.unauthorized "invalid_api_key"
      | Some (id, o) =>
          if negb ok then
            _ ← when (reportingKeyPepperUnavailable process_env storedHash) (emit (EvLog "REPORTING_KEY_PEPPER is unset"));
            LaunchToken.unauthorized "invalid_api_key"
          else if negb (o_enabled o) then LaunchToken.unauthorized "operator_disabled"
          else match o_ipWhitelist o with
               | [] => mret id
               | ips => if negb (bool_decide (extractClientIp req ∈ ips)) then LaunchToken.unauthorized "ip_not_allowed"
                        else mret id
               end
      end
  end.

(** [@CurrentOperatorId()]: what the guard left on the request, if it ran. *)
Definition CurrentOperatorId (req_operatorId : option uuid) : prog world uuid :=
  match req_operatorId with
  | Some id => mret id
  | None => LaunchToken.unauthorized "operator_not_resolved"
  end.

(** Who may pass. *)
Definition authorized (requireWrite : bool) (req : request) (w : world) (n : uuid) : Prop :=
  exists parsed o h,
    parseReportingToken (bearerToken (headers req "authorization")) = Some parsed /\
    uuid_column (pt_operatorId parsed) = Some n /\ w_operators w !! n = Some o /\
    scope_hash requireWrite o = Some h /\
    verifyReportingSecret sha256 hmac256 process_env (pt_secret parsed) (Some h) = true /\
    o_enabled o = true /\ (o_ipWhitelist o = [] \/ extractClientIp req ∈ o_ipWhitelist o).

Lemma verify_some e secret h : verifyReportingSecret sha256 hmac256 e secret h = true -> exists h', h = Some h'.
Proof using Type. destruct h as [h|]; [eauto|done]. Qed.

Lemma operator_found s w r w' : run (LaunchToken.operator_findUnique (JStr s)) w = (Ok r, w') ->
  tables_eq w w' /\ exists n, uuid_column s = Some n /\ r = option_map (fun o => (n, o)) (w_operators w !! n).
Proof using Type.
  intros (fs & E)%run_db_ok. destruct (uuid_column s) as [n|]; [|done]. injection E as <- <-.
  split; [apply tables_set_faults|by exists n].
Qed.

Lemma canActivate_sound (rw : bool) (req : request) (w : world) n w' :
  run (canActivate rw req) w = (Ok n, w') -> authorized rw req w n.
Proof using Type.
  intros E. unfold canActivate in E.
  destruct (parseReportingToken _) as [parsed|] eqn:Hp; [|done].
  apply run_bind_ok in E as (found & w1 & (_ & n' & Hn & ->)%operator_found & E).
  destruct (w_operators w !! n') as [o|] eqn:Ho; cbn [option_map] in E; [|done]. cbv zeta in E.
  destruct (verifyReportingSecret _ _ _ _ _) eqn:Hv; cbn [negb] in E.
  2: { rewrite run_bind in E. by destruct (run (when _ _) w1) as [[]]. }
  destruct (o_enabled o) eqn:Hen; cbn [negb] in E; [|done].
  pose proof (verify_some _ _ _ Hv) as [h Hh]. rewrite Hh in Hv.
  destruct (o_ipWhitelist o) as [|ip ips] eqn:Hw.
  - rewrite run_ret in E. injection E as <- _. exists parsed, o, h. rewrite Hw. split_and!; auto.
  - destruct (bool_decide_reflect (extractClientIp req ∈ ip :: ips)) as [Hin|]; cbn [negb] in E; [|done].
    rewrite run_ret in E. injection E as <- _. exists parsed, o, h. rewrite Hw. split_and!; auto.
Qed.

(** The guard only reads. *)
Lemma canActivate_reads (rw : bool) (req : request) : steps_in tables_eq (canActivate rw req).
Proof using Type.
  unfold canActivate, LaunchToken.unauthorized, LaunchToken.operator_findUnique. steps.
  all: apply steps_db; [apply _|]; intros w; by repeat case_match.
Qed.

(** C15: The operator guard lets exactly the right requests through.  Whatever
    fails, a request that passes carries a well-formed key whose secret matches
    the hash of the scope its route needs, of an enabled operator that has such
    a hash, from an allowed address, and it is that operator's; when nothing
    fails every such request passes.  A route that needs the write scope is
    closed to an operator without a write key, however good its read key. *)
Theorem guard_exact (requireWrite : bool) (req : request) (w : world) :
  (forall n w', run (canActivate requireWrite req) w = (Ok n, w') -> authorized requireWrite req w n) /\
  (forall n, w_faults w = [] -> authorized requireWrite req w n -> run (canActivate requireWrite req) w = (Ok n, w)) /\
  (forall n o w', w_operators w !! n = Some o -> o_writeApiKeyHash o = None -> run (canActivate true req) w <> (Ok n, w')).
Proof using Type.
  split; [intros n w'; apply canActivate_sound|]. split.
  - intros n Hf (parsed & o & h & Hp & Hn & Ho & Hh & Hv & Hen & Hip). unfold canActivate. rewrite Hp.
    rewrite run_bind, (LaunchToken.run_operator_findUnique _ n), Ho by done. cbn [option_map]. rewrite Hh, Hv, Hen. cbn [negb].
    destruct (o_ipWhitelist o) as [|ip ips]; [done|]. destruct Hip as [|Hip]; [done|].
    by rewrite bool_decide_eq_true_2.
  - intros n o w' Ho Hnone E. apply canActivate_sound in E as (parsed & o' & h & _ & _ & Ho' & Hh & _).
    rewrite Ho in Ho'. injection Ho' as <-. cbn in Hh. congruence.
Qed.
End guard.
End Guard.
