(* ===== verification/Provision.v ===== *)
(** * Provisioning an operator

    [scripts/operator-provision.ts], the one way an operator row is written, and
    [scripts/operator-launch-token.ts].  The URL parser, the digests and what
    [randomBytes] draws are arguments, as is the reader of a --bet-limits or
    --rg-config value (a file or the text itself, through [JSON.parse]).
    Proved: an invalid configuration writes nothing; a valid one writes exactly
    the fields it names, of that operator; the keys it mints open the routes of
    their scope; the audit carries no secret; a limit it stores is the one found
    for its currency; and what the command line cannot do or does unasked. *)

From Stdlib Require Import QArith.
From S2P Require Import Prelude Effects Js Cli Money Schema Keys OperatorConfig Launch AuditLog OperatorAuth.

Open Scope Z_scope.

#[local] Set Warnings "-clear-no-such-hyp".

Module Provision.
Import ReportingKey.

(** ** Canonical keys *)

(** [None] is the case-collision error. *)
Definition upperKeys {A} (obj : list (string * A)) : option (list (string * A)) :=
  fold_left (fun out '(k, v) =>
    out ← out;
    let K := toUpperCase k in
    if is_Some_b (amap_get K out) then None else Some (out ++ [(K, v)])) obj (Some []).

Definition upperKeysRgLimits (cfg : Rg.RgConfig) : option Rg.RgConfig :=
  match Rg.g_limits cfg with
  | Some limits =>
      limits ← upperKeys limits;
      Some (Rg.mk_rg_config (Rg.g_realityCheckIntervalSec cfg) (Rg.g_maxSessionSec cfg) (Rg.g_enforceRealityCheck cfg) (Some limits))
  | None => Some cfg
  end.

(** What is stored. *)
Definition number (z : Z) : json := JNum (inject_Z z).
Definition json_of_limit (l : Risk.PerBetLimits) : json :=
  JObj [("minBet", number (Risk.pl_minBet l)); ("maxBet", number (Risk.pl_maxBet l)); ("maxWinPerBet", number (Risk.pl_maxWinPerBet l))]%string.
Definition json_of_limits (cfg : list (string * Risk.PerBetLimits)) : json := JObj ((fun e => (e.1, json_of_limit e.2)) <$> cfg).

Definition json_of_caps (caps : option Z * option Z) : json :=
  JObj (Rg.field_if "maxSessionLoss" number caps.1 ++ Rg.field_if "maxSessionWager" number caps.2).
Definition json_of_rg (cfg : Rg.RgConfig) : json :=
  JObj (Rg.field_if "realityCheckIntervalSec" number (Rg.g_realityCheckIntervalSec cfg) ++
        Rg.field_if "maxSessionSec" number (Rg.g_maxSessionSec cfg) ++
        Rg.field_if "enforceRealityCheck" JBool (Rg.g_enforceRealityCheck cfg) ++
        Rg.field_if "limits" (fun l => JObj ((fun e => (e.1, json_of_caps e.2)) <$> l)) (Rg.g_limits cfg)).

(** ** The row *)

Record ProvisionInput := mk_provision {
  p_code : string; p_name : option string; p_currencies : option (list string);
  p_walletApiUrl : option string; p_walletApiKey : option string;
  p_betLimits : option json; p_rgConfig : option json;
  p_ipWhitelist : option (list string); p_callbackUrl : option string;
  p_enabled : option bool; p_demoEnabled : option bool;
  p_rotateSecret : bool; p_rotateReportingKey : bool; p_rotateWriteKey : bool; p_strictCurrencies : bool
}.

(** The columns an update sets. *)
Inductive column :=
| CName (s : string) | CCurrencies (l : list string) | CWalletApiUrl (s : string) | CWalletApiKey (s : string)
| CCallbackUrl (s : string) | CIpWhitelist (l : list string) | CBetLimits (j : json) | CRgConfig (j : json)
| CEnabled (b : bool) | CDemoEnabled (b : bool) | CLaunchSecret (s : string).

Definition set_column (o : operator) (c : column) : operator :=
  let '(mk_operator en de ls cu cb ip bl rg rk wk co na wu wk') := o in
  match c with
  | CName s => mk_operator en de ls cu cb ip bl rg rk wk co s wu wk'
  | CCurrencies l => mk_operator en de ls l cb ip bl rg rk wk co na wu wk'
  | CWalletApiUrl s => mk_operator en de ls cu cb ip bl rg rk wk co na (Some s) wk'
  | CWalletApiKey s => mk_operator en de ls cu cb ip bl rg rk wk co na wu (Some s)
  | CCallbackUrl s => mk_operator en de ls cu (Some s) ip bl rg rk wk co na wu wk'
  | CIpWhitelist l => mk_operator en de ls cu cb l bl rg rk wk co na wu wk'
  | CBetLimits j => mk_operator en de ls cu cb ip (Some j) rg rk wk co na wu wk'
  | CRgConfig j => mk_operator en de ls cu cb ip bl (Some j) rk wk co na wu wk'
  | CEnabled b => mk_operator b de ls cu cb ip bl rg rk wk co na wu wk'
  | CDemoEnabled b => mk_operator en b ls cu cb ip bl rg rk wk co na wu wk'
  | CLaunchSecret s => mk_operator en de s cu cb ip bl rg rk wk co na wu wk'
  end.
Definition set_columns (o : operator) (l : list column) : operator := fold_left set_column l o.

Definition strings (l : list string) : json := JArr (JStr <$> l).

(** The audited form of a column: never a secret. *)
Definition sanitized (walletApiKey : option string) (c : column) : string * json :=
  match c with
  | CName s => ("name", JStr s)
  | CCurrencies l => ("currencies", strings l)
  | CWalletApiUrl s => ("walletApiUrl", JStr s)
  | CWalletApiKey _ => ("walletApiKey", JStr (if nonempty (nullish walletApiKey "") then "(set)" else "(cleared)"))
  | CCallbackUrl s => ("callbackUrl", JStr s)
  | CIpWhitelist l => ("ipWhitelist", strings l)
  | CBetLimits j => ("betLimits", j)
  | CRgConfig j => ("rgConfig", j)
  | CEnabled b => ("enabled", JBool b)
  | CDemoEnabled b => ("demoEnabled", JBool b)
  | CLaunchSecret _ => ("launchSecretRotated", JBool true)
  end%string.

Definition given {A} (f : A -> column) (v : option A) : list column := match v with Some x => [f x] | None => [] end.

Section provision.
Context (new_URL : string -> option string) (sha256 : string -> string) (hmac256 : string -> string -> string) (process_env : Risk.env).

(** [None] is the error it throws. *)
Definition validateCallbackUrl (u : string) : option unit :=
  match new_URL u with
  | Some protocol => if negb (eqb_str protocol "http:") && negb (eqb_str protocol "https:") then None else Some tt
  | None => None
  end.

(** What the input becomes once checked. *)
Record checked := mk_checked {
  k_betLimits : option json; k_rgConfig : option json; k_currencies : option (list string); k_unknown : list string
}.
Definition check_input (input : ProvisionInput) : res checked :=
  match (match p_betLimits input with None => Some None | Some v => l ← (BetLimits.validateBetLimits v ≫= upperKeys); Some (Some (json_of_limits l)) end) with
  | None => Raise (JsError "invalid bet limits")
  | Some betLimits =>
      match (match p_rgConfig input with None => Some None | Some v => c ← (Rg.validateRgConfig v ≫= upperKeysRgLimits); Some (Some (json_of_rg c)) end) with
      | None => Raise (JsError "invalid rg config")
      | Some rgConfig =>
          match (match p_callbackUrl input with Some u => validateCallbackUrl u | None => Some tt end) with
          | None => Raise (JsError "invalid callbackUrl")
          | Some _ =>
              let currencies := option_map (List.map toUpperCase) (p_currencies input) in
              let unknown := List.filter (fun c => negb (Currency.isKnownCurrency (Some c))) (nullish currencies []) in
              if p_strictCurrencies input && (0 <? Z.of_nat (length unknown)) then Raise (JsError "unknown currency")
              else Ok (mk_checked betLimits rgConfig currencies unknown)
          end
      end
  end.

Definition patch_of (input : ProvisionInput) (k : checked) (newSecret : string) : list column :=
  given CName (p_name input) ++ given CCurrencies (k_currencies k) ++ given CWalletApiUrl (p_walletApiUrl input) ++
  given CWalletApiKey (p_walletApiKey input) ++ given CCallbackUrl (p_callbackUrl input) ++ given CIpWhitelist (p_ipWhitelist input) ++
  given CBetLimits (k_betLimits k) ++ given CRgConfig (k_rgConfig k) ++ given CEnabled (p_enabled input) ++
  given CDemoEnabled (p_demoEnabled input) ++ (if p_rotateSecret input then [CLaunchSecret newSecret] else []).

Definition create_of (input : ProvisionInput) (k : checked) (newSecret : string) : operator :=
  mk_operator (nullish (p_enabled input) true) (nullish (p_demoEnabled input) false) newSecret (nullish (k_currencies k) [])
    (p_callbackUrl input) (nullish (p_ipWhitelist input) []) (k_betLimits k) (k_rgConfig k) None None
    (p_code input) (nullish (p_name input) (p_code input)) (p_walletApiUrl input) (p_walletApiKey input).

(** [operator.upsert]: one statement; the database draws the key of a new row. *)
Definition upsert (code : string) (create : operator) (update : list column) : prog world (uuid * operator) :=
  db (fun w => match operator_by_code w code with
    | Some (id, o) => let o' := set_columns o update in (Ok (id, o'), set_operators (<[id := o']> (w_operators w)) w)
    | None => match w_operators w !! w_uuid w with
              | None => (Ok (w_uuid w, create), bump_uuid (set_operators (<[w_uuid w := create]> (w_operators w)) w))
              | Some _ => (Raise UniqueViolation, w)
              end
    end).

(** [recordAudit]: best effort. *)
Definition recordAudit (action : string) (id : uuid) (after meta : option json) : prog world unit :=
  try_catch (db_set (fun w => set_audit (w_audit w ++
      [mk_audit_row (w_now w) (mk_audit "provision-cli" action (Some "operator"%string) (Some (Keys.uuid_string id)) (Some id) None None after meta)]) w))
    (fun _ => mret tt).

Definition set_hash (write : bool) (hash : string) (o : operator) : operator :=
  let '(mk_operator en de ls cu cb ip bl rg rk wk co na wu wk') := o in
  if write then mk_operator en de ls cu cb ip bl rg rk (Some hash) co na wu wk'
  else mk_operator en de ls cu cb ip bl rg (Some hash) wk co na wu wk'.

(** Mint or rotate one key; the token is returned, its hash stored. *)
Definition rotate (write : bool) (id : uuid) (code secret : string) : prog world string :=
  let '(token, hash) := generate_key sha256 hmac256 (if write then WRITE_TOKEN_PREFIX else REPORTING_TOKEN_PREFIX) process_env (Keys.uuid_string id) secret in
  _ ← db (fun w => match w_operators w !! id with
        | Some o => (Ok tt, set_operators (<[id := set_hash write hash o]> (w_operators w)) w)
        | None => (Raise RecordNotFound, w)
        end);
  let hashPrefix := match cut ":" hash with Some p => (p.1 +:+ ":")%string | None => "(unknown)"%string end in
  _ ← recordAudit (if write then "write_key.rotate" else "reporting_key.rotate")%string id None
        (Some (JObj [("code", JStr code); ("hashPrefix", JStr hashPrefix)]%string));
  mret token.

Record provisioned := mk_provisioned {
  v_id : uuid; v_operator : operator; v_created : bool; v_launchSecret : option string;
  v_reportingApiKey : option string; v_writeApiKey : option string; v_unknown : list string
}.

(** What [randomBytes] draws: the launch secret and the secrets of the two keys. *)
Record drawn := mk_drawn { d_newSecret : string; d_readSecret : string; d_writeSecret : string }.

Definition created_audit (o : operator) : json :=
  JObj [("code", JStr (o_code o)); ("name", JStr (o_name o)); ("enabled", JBool (o_enabled o)); ("demoEnabled", JBool (o_demoEnabled o));
        ("currencies", strings (o_currencies o)); ("walletApiSet", JBool (nonempty (nullish (o_walletApiKey o) "")))]%string.

Definition provisionOperator (input : ProvisionInput) (d : drawn) : prog world provisioned :=
  match check_input input with
  | Raise e => raise e
  | Ok k =>
      existing ← db_get (fun w => operator_by_code w (p_code input));
      let created := negb (is_Some_b existing) in
      let patch := patch_of input k (d_newSecret d) in
      row ← upsert (p_code input) (create_of input k (d_newSecret d)) patch;
      let '(id, operator) := row in
      _ ← recordAudit (if created then "operator.provision" else "operator.config_update")%string id
            (Some (if created then created_audit operator else JObj (sanitized (p_walletApiKey input) <$> patch)))
            (Some (JObj [("code", JStr (o_code operator)); ("unknownCurrencies", strings (k_unknown k))]%string));
      reportingApiKey ← (if p_rotateReportingKey input then t ← rotate false id (o_code operator) (d_readSecret d); mret (Some t) else mret None);
      writeApiKey ← (if p_rotateWriteKey input then t ← rotate true id (o_code operator) (d_writeSecret d); mret (Some t) else mret None);
      mret (mk_provisioned id operator created
              (if created || p_rotateSecret input then Some (o_launchSecret operator) else None) reportingApiKey writeApiKey (k_unknown k))
  end.

(** ** The command line *)

(** A --bet-limits or --rg-config value: [@path] names a file. *)
Context (readFileSync : string -> res string) (JSON_parse : string -> res json).
Definition read_config (v : option Cli.value) : res (option json) :=
  match Cli.str v with
  | Some (String _ _ as text) =>
      match (if startsWith "@" text then readFileSync (slice_from 1 text) else Ok text) with
      | Ok raw => match JSON_parse raw with Ok j => Ok (Some j) | Raise e => Raise e end
      | Raise e => Raise e
      end
  | _ => Ok None
  end.

(** [args.disabled ? false : undefined]: any value but the empty text. *)
Definition is_truthy (v : option Cli.value) : bool :=
  match v with Some (Cli.Text s) => nonempty s | Some Cli.Flag => true | None => false end.

Definition input_of (args : list (string * Cli.value)) (code : string) (betLimits rgConfig : option json) : ProvisionInput :=
  let arg k := Cli.arg k args in
  mk_provision code (Cli.str (arg "name")) (Cli.list_ (arg "currencies")) (Cli.str (arg "wallet-url")) (Cli.str (arg "wallet-key"))
    betLimits rgConfig (Cli.list_ (arg "ip-whitelist")) (Cli.str (arg "callback-url"))
    (if is_truthy (arg "disabled") then Some false else None)
    (if Cli.is_true (arg "demo-enabled") then Some true else if Cli.is_true (arg "demo-disabled") then Some false else None)
    (Cli.is_true (arg "rotate-secret")) (Cli.is_true (arg "rotate-reporting-key")) (Cli.is_true (arg "rotate-write-key"))
    (Cli.is_true (arg "strict-currencies")).

(** [None] is the usage message; both it and an error exit with 1. *)
Definition main (argv : list string) (d : drawn) : prog world (option provisioned) :=
  let args := Cli.parseArgs argv in
  match Cli.str (Cli.arg "code" args) with
  | Some (String _ _ as code) =>
      match read_config (Cli.arg "bet-limits" args) with
      | Raise e => raise e
      | Ok betLimits =>
          match read_config (Cli.arg "rg-config" args) with
          | Raise e => raise e
          | Ok rgConfig => v ← provisionOperator (input_of args code betLimits rgConfig) d; mret (Some v)
          end
      end
  | _ => mret None
  end.
End provision.

(** ** What is stored is what is found *)

Lemma assoc_last_nodup k v l : NoDup l.*1 -> (k, v) ∈ l -> assoc_last k l = Some v.
Proof.
  induction l as [|[j u] l IH]; intros Hnd Hin; [by apply not_elem_of_nil in Hin|]. cbn in Hnd |- *. apply NoDup_cons in Hnd as [Hj Hnd].
  apply elem_of_cons in Hin as [[= <- <-]|Hin].
  - rewrite LaunchToken.assoc_last_none by done. by rewrite eqb_str_refl.
  - by rewrite IH.
Qed.

Lemma js_keys_nodup l : NoDup l.*1 -> js_keys l = l.*1.
Proof.
  intros Hnd. unfold js_keys. assert (forall m : list string, NoDup m -> remove_dups m = m) as Hid.
  { induction 1 as [|x m Hx Hm IH]; [done|]. cbn. destruct (decide_rel _ _ _); [done|]. by rewrite IH. }
  rewrite Hid; [apply rev_involutive|]. by rewrite <- Permutation_rev.
Qed.

(** A record printed with distinct, non-empty, canonical names is read back. *)
Lemma z_record_print {A} (parse : json -> option A) (print : A -> json) (cfg : list (string * A)) :
  NoDup cfg.*1 -> (forall k x, (k, x) ∈ cfg -> nonempty k = true /\ toUpperCase k = k /\ parse (print x) = Some x) ->
  Schemas.z_record parse (JObj ((fun e => (e.1, print e.2)) <$> cfg)) = Some cfg.
Proof.
  intros Hnd Hcfg. cbn [Schemas.z_record]. set (F := (fun e => (e.1, print e.2)) <$> cfg).
  assert (HF : F.*1 = cfg.*1) by (unfold F; rewrite <- list_fmap_compose; reflexivity).
  rewrite js_keys_nodup by (by rewrite HF). rewrite HF.
  replace (forallb nonempty cfg.*1) with true.
  2: { symmetry. apply forallb_forall. intros k Hk%list_elem_of_In. apply list_elem_of_fmap in Hk as ([k' x] & -> & Hk). by apply (Hcfg k' x). }
  assert (Hm : mapM (fun k => x ← (assoc_last k F ≫= parse); Some (k, x)) cfg.*1 = Some cfg).
  { apply mapM_Some. apply Forall2_fmap_l. apply Forall_Forall2_diag, Forall_forall. intros [k x] Hin. unfold compose. cbn [fst].
    rewrite (assoc_last_nodup k (print x)); [|by rewrite HF|unfold F; apply list_elem_of_fmap; by exists (k, x)].
    cbn [mbind option_bind]. by rewrite (proj2 (proj2 (Hcfg k x Hin))). }
  rewrite Hm. cbn [mbind option_bind]. f_equal.
  assert (forall l : list (string * A), (forall k x, (k, x) ∈ l -> toUpperCase k = k) ->
    List.filter (fun e => negb (eqb_str e.1 "__proto__")) l = l) as Hid.
  { induction l as [|[k x] l IH]; intros Hl; [done|]. cbn. destruct (eqb_str k "__proto__") eqn:E; cbn [negb].
    - apply eqb_str_eq in E. subst k. specialize (Hl _ x ltac:(by left)). by vm_compute in Hl.
    - f_equal. apply IH. intros j y Hj. apply (Hl j y). by right. }
  apply Hid. intros k x Hk. by apply (Hcfg k x).
Qed.

(** Collisions are refused, and nothing else. *)
Lemma upperKeys_spec {A} (obj : list (string * A)) :
  upperKeys obj = if decide (NoDup (toUpperCase <$> obj.*1)) then Some (prod_map toUpperCase id <$> obj) else None.
Proof.
  unfold upperKeys. induction obj as [|[k x] obj IH] using rev_ind; [by rewrite decide_True by constructor|].
  rewrite fold_left_app. cbn [fold_left]. rewrite IH. rewrite !fmap_app. cbn [fmap list_fmap fst prod_map].
  destruct (decide (NoDup (toUpperCase <$> obj.*1))) as [Hnd|Hnd]; cbn [mbind option_bind].
  - assert (Hk : is_Some (amap_get (toUpperCase k) (prod_map toUpperCase id <$> obj)) <-> toUpperCase k ∈ toUpperCase <$> obj.*1).
    { rewrite <- amap_get_keys, <- !list_fmap_compose. done. }
    destruct (amap_get (toUpperCase k) (prod_map toUpperCase id <$> obj)) as [y|] eqn:E; cbn [is_Some_b].
    + rewrite decide_False; [done|]. intros [_ [Hd _]]%NoDup_app. apply (Hd (toUpperCase k)); [apply Hk; by eexists|by left].
    + rewrite decide_True; [done|]. apply NoDup_app. split; [done|]. split; [|apply NoDup_singleton].
      intros y Hy ->%list_elem_of_singleton. apply Hk in Hy. by destruct Hy.
  - rewrite decide_False; [done|]. by intros [? _]%NoDup_app.
Qed.

Lemma z_int_number lo hi z : lo <= z -> match hi with Some h => z <= h | None => True end -> Schemas.z_int lo hi (number z) = Some z.
Proof.
  intros Hlo Hhi. unfold Schemas.z_int, number. rewrite js_isInteger_int, js_ge_int, Qfloor_int by apply js_isInteger_int.
  rewrite (proj2 (Z.leb_le _ _) Hlo). destruct hi as [h|]; [|done]. rewrite js_le_int, Qfloor_int by apply js_isInteger_int.
  by rewrite (proj2 (Z.leb_le _ _) Hhi).
Qed.

Lemma limit_print l : BetLimits.limits_ok l -> 0 < Risk.pl_maxBet l -> BetLimits.PerCurrencyLimitSchema (json_of_limit l) = Some l.
Proof.
  destruct l as [lo hi win]. unfold BetLimits.limits_ok. cbn -[Schemas.z_int number Z.leb]. intros [[H1 H2] H3] H4. str_literals.
  cbn [mbind option_bind]. rewrite !z_int_number by (done || lia). cbn [mbind option_bind].
  by rewrite (proj2 (Z.leb_le _ _) H2), (proj2 (Z.leb_le _ _) H3).
Qed.

Lemma z_record_keys {A} (parse : json -> option A) v l k x : Schemas.z_record parse v = Some l -> (k, x) ∈ l -> nonempty k = true.
Proof.
  destruct v as [| | | | |f]; try done. cbn. destruct (forallb nonempty (js_keys f)) eqn:Hne; [|done].
  intros (entries & Hm & Hl)%bind_Some Hin. injection Hl as <-. apply list_elem_of_In, List.filter_In in Hin as [Hin%list_elem_of_In _].
  apply mapM_Some_1 in Hm. apply list_elem_of_lookup in Hin as [i Hi]. apply (Forall2_lookup_r _ _ _ _ _ Hm) in Hi as (k' & Hk' & Hk).
  apply bind_Some in Hk as (y & Hy & [= <- <-]). rewrite forallb_forall in Hne. apply Hne, list_elem_of_In. by eapply list_elem_of_lookup_2.
Qed.

Lemma upper_nonempty k : nonempty (toUpperCase k) = nonempty k.
Proof. by destruct k. Qed.

(** Canonical entries, their keys distinct. *)
Lemma upperKeys_entries {A} (obj out : list (string * A)) : upperKeys obj = Some out ->
  NoDup out.*1 /\ (forall k x, (k, x) ∈ out <-> exists k0, k = toUpperCase k0 /\ (k0, x) ∈ obj).
Proof.
  rewrite upperKeys_spec. destruct (decide _) as [Hnd|]; [|done]. intros [= <-]. split.
  - assert (forall l : list (string * A), (prod_map toUpperCase id <$> l).*1 = toUpperCase <$> l.*1) as -> by (induction l as [|[] l IH]; [done|]; cbn; by f_equal). exact Hnd.
  - intros k x. rewrite list_elem_of_fmap. split; [intros ([k0 y] & [= -> ->] & Hin); eauto|intros (k0 & -> & Hin)]. by exists (k0, x).
Qed.

(** A limit given for a currency, in any case, is the one a launch in that
    currency resolves, in any case. *)
Theorem stored_limits_found (v : json) (cfg stored : list (string * Risk.PerBetLimits)) (key currency : string) (l : Risk.PerBetLimits)
    (Hv : BetLimits.validateBetLimits v = Some cfg) (Hs : upperKeys cfg = Some stored) (Hin : (key, l) ∈ cfg)
    (Hc : toUpperCase currency = toUpperCase key) :
  BetLimits.effectiveLimitsFor (Some (json_of_limits stored)) currency = Some l.
Proof.
  destruct (upperKeys_entries _ _ Hs) as [Hnd Hent].
  assert (Hparse : BetLimits.parseBetLimits (Some (json_of_limits stored)) = Some stored).
  { apply (z_record_print BetLimits.PerCurrencyLimitSchema json_of_limit); [done|]. intros k x (k0 & -> & Hk)%Hent.
    rewrite upper_nonempty, toUpperCase_idem. split; [by apply (z_record_keys _ _ _ _ _ Hv Hk)|]. split; [done|].
    destruct (Schemas.z_record_entry _ _ _ _ _ Hv Hk) as [u Hu]. destruct (BetLimits.schema_ok _ _ Hu). by apply limit_print. }
  unfold BetLimits.effectiveLimitsFor. rewrite Hparse. cbn [mbind option_bind].
  assert (Hst : (toUpperCase key, l) ∈ stored) by (apply Hent; eauto).
  pose proof (find_currency_spec currency stored) as Hf. destruct (find_currency currency stored) as [l'|].
  - destruct Hf as (pre & k & post & Est & Hk & _). f_equal.
    assert (Hk' : (k, l') ∈ stored) by (rewrite Est; set_solver). destruct (proj1 (Hent k l') Hk') as (k0 & -> & _).
    rewrite toUpperCase_idem, Hc in Hk. rewrite Hk in Hk'.
    apply list_elem_of_lookup in Hst as [i Hi]. apply list_elem_of_lookup in Hk' as [j Hj].
    assert (i = j) as <- by (eapply NoDup_lookup; [exact Hnd|rewrite list_lookup_fmap, Hi; reflexivity|rewrite list_lookup_fmap, Hj; reflexivity]).
    congruence.
  - rewrite Forall_forall in Hf. destruct (Hf _ Hst). cbn. by rewrite toUpperCase_idem, Hc.
Qed.

Lemma stored_limits_found_witness :
  let cfg := [("eur", Risk.Build_PerBetLimits 10 10000 1000000); ("USDT", Risk.Build_PerBetLimits 1 100 100)]%string in
  BetLimits.effectiveLimitsFor (Some (json_of_limits (prod_map toUpperCase id <$> cfg))) "Eur" = Some (Risk.Build_PerBetLimits 10 10000 1000000).
Proof.
  cbv zeta. apply (stored_limits_found (json_of_limits [("eur", Risk.Build_PerBetLimits 10 10000 1000000); ("USDT", Risk.Build_PerBetLimits 1 100 100)]%string)
    [("eur", Risk.Build_PerBetLimits 10 10000 1000000); ("USDT", Risk.Build_PerBetLimits 1 100 100)]%string _ "eur");
    [reflexivity|reflexivity|by left|reflexivity].
Defined.

(** ** What a provisioning does *)

(** Nothing but one operator and the audit is written. *)
Record operator_only (id : uuid) (w w' : world) : Prop := {
  oo_bets : w_bets w' = w_bets w; oo_rounds : w_rounds w' = w_rounds w; oo_wallets : w_wallets w' = w_wallets w;
  oo_ledger : w_ledger w' = w_ledger w; oo_profiles : w_profiles w' = w_profiles w; oo_sessions : w_sessions w' = w_sessions w;
  oo_chains : w_chains w' = w_chains w; oo_seeds : w_seeds w' = w_seeds w; oo_rollbacks : w_rollbacks w' = w_rollbacks w;
  oo_users : w_users w' = w_users w; oo_calls : w_calls w' = w_calls w;
  oo_others j : j <> id -> w_operators w' !! j = w_operators w !! j
}.

Section works.
Context `{UuidColumn} (new_URL : string -> option string) (sha256 : string -> string) (hmac256 : string -> string -> string) (process_env : Risk.env).

#[local] Abbreviation provision := (provisionOperator new_URL sha256 hmac256 process_env).
#[local] Abbreviation mint := (rotate sha256 hmac256 process_env).
#[local] Abbreviation hashed := (hashSecret sha256 hmac256 process_env).

Definition audited (now : Z) (action : string) (id : uuid) (after meta : option json) : audit_row :=
  mk_audit_row now (mk_audit "provision-cli" action (Some "operator"%string) (Some (Keys.uuid_string id)) (Some id) None None after meta).

Lemma run_recordAudit action id after meta w : w_faults w = [] ->
  run (recordAudit action id after meta) w = (Ok tt, set_audit (w_audit w ++ [audited (w_now w) action id after meta]) w).
Proof using Type. intros Hf. unfold recordAudit, db_set. by rewrite run_try, run_db_nofault. Qed.

(** Of a hash, its algorithm only. *)
Lemma hash_prefix secret : cut ":" (hashed secret) =
  Some (match pepper process_env with Some p => (ALGO_HMAC, hmac256 secret p) | None => (ALGO_SHA, sha256 secret) end).
Proof using Type.
  unfold hashSecret. destruct (pepper process_env); by rewrite cut_first by by apply lacksb_spec.
Qed.
Definition rotation (write : bool) (now : Z) (id : uuid) (code : string) : audit_row :=
  audited now (if write then "write_key.rotate" else "reporting_key.rotate") id None
    (Some (JObj [("code", JStr code);
                 ("hashPrefix", JStr ((match pepper process_env with Some _ => ALGO_HMAC | None => ALGO_SHA end) +:+ ":"))]))%string.

Lemma run_rotate write id code secret o w : w_faults w = [] -> w_operators w !! id = Some o ->
  run (mint write id code secret) w =
    (Ok (generate_key sha256 hmac256 (if write then WRITE_TOKEN_PREFIX else REPORTING_TOKEN_PREFIX) process_env (Keys.uuid_string id) secret).1,
     set_audit (w_audit w ++ [rotation write (w_now w) id code]) (set_operators (<[id := set_hash write (hashed secret) o]> (w_operators w)) w)).
Proof using Type.
  intros Hf Ho. unfold rotate. cbn [generate_key fst]. rewrite run_bind, run_db_nofault, Ho by done. cbv beta iota zeta.
  rewrite run_bind, run_recordAudit, run_ret by done. rewrite hash_prefix. unfold rotation. by destruct (pepper process_env).
Qed.

(** The row with the keys that were asked for. *)
Definition keyed (input : ProvisionInput) (d : drawn) (o : operator) : operator :=
  let o1 := if p_rotateReportingKey input then set_hash false (hashed (d_readSecret d)) o else o in
  if p_rotateWriteKey input then set_hash true (hashed (d_writeSecret d)) o1 else o1.

Definition token_of (write : bool) (id : uuid) (secret : string) : string :=
  (generate_key sha256 hmac256 (if write then WRITE_TOKEN_PREFIX else REPORTING_TOKEN_PREFIX) process_env (Keys.uuid_string id) secret).1.

(** One optional rotation. *)
Lemma run_maybe_rotate (asked write : bool) id code secret o w : w_faults w = [] -> w_operators w !! id = Some o ->
  run (if asked then t ← mint write id code secret; mret (Some t) else mret None) w =
    (Ok (if asked then Some (token_of write id secret) else None),
     set_audit (w_audit w ++ if asked then [rotation write (w_now w) id code] else [])
       (set_operators (<[id := if asked then set_hash write (hashed secret) o else o]> (w_operators w)) w)).
Proof using Type.
  intros Hf Ho. destruct asked; [by rewrite run_bind, (run_rotate write id code secret o), run_ret|].
  rewrite run_ret, app_nil_r, insert_id by done. by destruct w.
Qed.

Definition row_of (input : ProvisionInput) (k : checked) (d : drawn) (w : world) : uuid * operator * bool :=
  match operator_by_code w (p_code input) with
  | Some (id, o) => (id, set_columns o (patch_of input k (d_newSecret d)), false)
  | None => (w_uuid w, create_of input k (d_newSecret d), true)
  end.

Lemma by_code_in w code id o : operator_by_code w code = Some (id, o) -> w_operators w !! id = Some o /\ o_code o = code.
Proof using Type.
  unfold operator_by_code. intros [Hin E]%List.find_some. apply eqb_str_eq in E. split; [|done]. by apply elem_of_map_to_list, list_elem_of_In.
Qed.

(** The events of one provisioning. *)
Definition trail (input : ProvisionInput) (k : checked) (id : uuid) (o : operator) (created : bool) (patch : list column) (now : Z) : list audit_row :=
  [audited now (if created then "operator.provision" else "operator.config_update")%string id
    (Some (if created then created_audit o else JObj (sanitized (p_walletApiKey input) <$> patch)))
    (Some (JObj [("code", JStr (o_code o)); ("unknownCurrencies", strings (k_unknown k))]%string))] ++
  (if p_rotateReportingKey input then [rotation false now id (o_code o)] else []) ++
  (if p_rotateWriteKey input then [rotation true now id (o_code o)] else []).

Lemma run_provision input d w k : w_faults w = [] -> w_operators w !! w_uuid w = None -> check_input new_URL input = Ok k ->
  let '(id, o, created) := row_of input k d w in
  exists w', run (provision input d) w = (Ok (mk_provisioned id o created
      (if created || p_rotateSecret input then Some (o_launchSecret o) else None)
      (if p_rotateReportingKey input then Some (token_of false id (d_readSecret d)) else None)
      (if p_rotateWriteKey input then Some (token_of true id (d_writeSecret d)) else None) (k_unknown k)), w') /\
    w_operators w' = <[id := keyed input d o]> (w_operators w) /\ operator_only id w w' /\
    w_audit w' = w_audit w ++ trail input k id o created (patch_of input k (d_newSecret d)) (w_now w).
Proof using Type.
  intros Hf Hfresh Hk. unfold provisionOperator. rewrite Hk. rewrite run_bind, run_db_get by done. cbv beta iota zeta.
  assert (Hup : exists w1, run (upsert (p_code input) (create_of input k (d_newSecret d)) (patch_of input k (d_newSecret d))) w =
      (Ok (row_of input k d w).1, w1) /\ w_faults w1 = [] /\ w_now w1 = w_now w /\ w_audit w1 = w_audit w /\ operator_only (row_of input k d w).1.1 w w1 /\
      w_operators w1 = <[(row_of input k d w).1.1 := (row_of input k d w).1.2]> (w_operators w) /\
      negb (is_Some_b (operator_by_code w (p_code input))) = (row_of input k d w).2).
  { unfold upsert, row_of. rewrite run_db_nofault by done.
    destruct (operator_by_code w (p_code input)) as [[id o]|] eqn:Eo; [|rewrite Hfresh];
      (eexists; split; [reflexivity|]; do 3 (split; [done|]); split; [split; try done; intros j Hj; cbn; by rewrite lookup_insert_ne|by split]). }
  destruct Hup as (w1 & Eu & Hf1 & Hn1 & Ha1 & Hoo & Hops & Hcr). rewrite Hcr. destruct (row_of input k d w) as [[id o] created]. cbn [fst snd] in *.
  rewrite run_bind, Eu. cbv beta iota. rewrite run_bind, run_recordAudit by done. cbv beta iota. rewrite run_bind.
  rewrite (run_maybe_rotate _ _ _ _ _ o) by (done || (cbn; rewrite Hops; apply lookup_insert_eq)). cbv beta iota. rewrite run_bind.
  rewrite (run_maybe_rotate _ _ _ _ _ (if p_rotateReportingKey input then set_hash false (hashed (d_readSecret d)) o else o))
    by (done || (cbn; apply lookup_insert_eq)).
  rewrite run_ret. eexists. split; [reflexivity|]. split; [cbn; rewrite Hops, !insert_insert_eq; reflexivity|]. split.
  - destruct Hoo. split; try done. intros j Hj. cbn. rewrite !lookup_insert_ne by done. auto.
  - cbn. rewrite Ha1, Hn1. unfold trail. by rewrite <- !app_assoc.
Qed.

(** The columns that were not named keep their values. *)
Record unnamed_kept (input : ProvisionInput) (o o' : operator) : Prop := {
  uk_code : o_code o' = o_code o;
  uk_name : p_name input = None -> o_name o' = o_name o;
  uk_enabled : p_enabled input = None -> o_enabled o' = o_enabled o;
  uk_demo : p_demoEnabled input = None -> o_demoEnabled o' = o_demoEnabled o;
  uk_secret : p_rotateSecret input = false -> o_launchSecret o' = o_launchSecret o;
  uk_currencies : p_currencies input = None -> o_currencies o' = o_currencies o;
  uk_callback : p_callbackUrl input = None -> o_callbackUrl o' = o_callbackUrl o;
  uk_ips : p_ipWhitelist input = None -> o_ipWhitelist o' = o_ipWhitelist o;
  uk_limits : p_betLimits input = None -> o_betLimits o' = o_betLimits o;
  uk_rg : p_rgConfig input = None -> o_rgConfig o' = o_rgConfig o;
  uk_url : p_walletApiUrl input = None -> o_walletApiUrl o' = o_walletApiUrl o;
  uk_key : p_walletApiKey input = None -> o_walletApiKey o' = o_walletApiKey o;
  uk_read : p_rotateReportingKey input = false -> o_reportingApiKeyHash o' = o_reportingApiKeyHash o;
  uk_write : p_rotateWriteKey input = false -> o_writeApiKeyHash o' = o_writeApiKeyHash o
}.

Lemma check_absent input k : check_input new_URL input = Ok k ->
  (p_betLimits input = None -> k_betLimits k = None) /\ (p_rgConfig input = None -> k_rgConfig k = None) /\
  (p_currencies input = None -> k_currencies k = None).
Proof using Type.
  unfold check_input. destruct (p_betLimits input) as [v|].
  - destruct (BetLimits.validateBetLimits v ≫= upperKeys); cbn [mbind option_bind]; [|done].
    destruct (p_rgConfig input) as [c|]; [destruct (Rg.validateRgConfig c ≫= upperKeysRgLimits); cbn [mbind option_bind]; [|done]|];
      (destruct (match p_callbackUrl input with Some u => _ | None => _ end); [|done]); (destruct (_ && _); [done|]); intros [= <-]; cbn;
      split_and!; try done; by intros ->.
  - destruct (p_rgConfig input) as [c|]; [destruct (Rg.validateRgConfig c ≫= upperKeysRgLimits); cbn [mbind option_bind]; [|done]|];
      (destruct (match p_callbackUrl input with Some u => _ | None => _ end); [|done]); (destruct (_ && _); [done|]); intros [= <-]; cbn;
      split_and!; try done; by intros ->.
Qed.

Lemma set_columns_frame {X} (f : operator -> X) l o : (forall c o, c ∈ l -> f (set_column o c) = f o) -> f (set_columns o l) = f o.
Proof using Type.
  unfold set_columns. revert o. induction l as [|c l IH]; intros o H1; [done|]. cbn. rewrite IH by (intros; apply H1; by right). apply H1. by left.
Qed.

Lemma given_in {A} (f : A -> column) v c : c ∈ given f v -> exists x, v = Some x /\ c = f x.
Proof using Type. destruct v as [x|]; [intros ->%list_elem_of_singleton; by exists x|by intros ?%not_elem_of_nil]. Qed.

Lemma patch_in input k s c : c ∈ patch_of input k s ->
  match c with
  | CName x => p_name input = Some x | CCurrencies x => k_currencies k = Some x | CWalletApiUrl x => p_walletApiUrl input = Some x
  | CWalletApiKey x => p_walletApiKey input = Some x | CCallbackUrl x => p_callbackUrl input = Some x | CIpWhitelist x => p_ipWhitelist input = Some x
  | CBetLimits x => k_betLimits k = Some x | CRgConfig x => k_rgConfig k = Some x | CEnabled x => p_enabled input = Some x
  | CDemoEnabled x => p_demoEnabled input = Some x | CLaunchSecret x => p_rotateSecret input = true /\ x = s
  end.
Proof using Type.
  unfold patch_of. rewrite !elem_of_app.
  repeat match goal with |- _ \/ _ -> _ => intros [(x & E & ->)%given_in|Hc]; [exact E|revert Hc] end.
  destruct (p_rotateSecret input); [by intros ->%list_elem_of_singleton|by intros ?%not_elem_of_nil].
Qed.

Lemma set_columns_kept input k d o : check_input new_URL input = Ok k ->
  unnamed_kept input o (keyed input d (set_columns o (patch_of input k (d_newSecret d)))).
Proof using Type.
  intros Hk. destruct (check_absent _ _ Hk) as (Hl & Hr & Hc).
  assert (Hkeyed : forall {X} (f : operator -> X) u, (forall w h v, f (set_hash w h v) = f v) -> f (keyed input d u) = f u).
  { intros X f u Hf. unfold keyed. destruct (p_rotateWriteKey input), (p_rotateReportingKey input); by rewrite ?Hf. }
  split; intros; first [rewrite Hkeyed by (intros [] ? []; reflexivity)|unfold keyed].
  all: try (apply set_columns_frame; intros c u Hin%patch_in; destruct u, c; cbn; try done; by first [destruct Hin; congruence|rewrite ?Hl, ?Hr, ?Hc in Hin by done; congruence]).
  - assert (Hh : forall h u, o_reportingApiKeyHash (set_hash true h u) = o_reportingApiKeyHash u) by (by intros ? []).
    match goal with E : p_rotateReportingKey input = false |- _ => rewrite E end. transitivity (o_reportingApiKeyHash (set_columns o (patch_of input k (d_newSecret d)))).
    + by destruct (p_rotateWriteKey input); rewrite ?Hh.
    + apply set_columns_frame. by intros [] [] _.
  - assert (Hh : forall h u, o_writeApiKeyHash (set_hash false h u) = o_writeApiKeyHash u) by (by intros ? []).
    match goal with E : p_rotateWriteKey input = false |- _ => rewrite E end. transitivity (o_writeApiKeyHash (set_columns o (patch_of input k (d_newSecret d)))).
    + by destruct (p_rotateReportingKey input); rewrite ?Hh.
    + apply set_columns_frame. by intros [] [] _.
Qed.

(** The hash a rotation stored is the one the routes of its scope read. *)
Lemma keyed_hash (write : bool) input d o : (if write then p_rotateWriteKey input else p_rotateReportingKey input) = true ->
  Guard.scope_hash write (keyed input d o) = Some (hashed (if write then d_writeSecret d else d_readSecret d)).
Proof using Type.
  unfold keyed. destruct write; intros ->; [by destruct (p_rotateReportingKey input), o|]. by destruct (p_rotateWriteKey input), o.
Qed.

(** C16: Provisioning does what it is asked and nothing else.  An input that does
    not check writes nothing.  One that does writes one operator and the audit,
    and nothing of another operator; an existing operator keeps every column that
    was not named, its launch secret unless a rotation was asked and each key
    unless that key's was, and no secret is told; a new one is told its launch
    secret.  A key that is returned opens the routes of its scope, from the
    allowed addresses, while the operator is enabled. *)
Theorem provisioned_operator_works (input : ProvisionInput) (d : drawn) (w : world)
    (Hf : w_faults w = []) (Hfresh : w_operators w !! w_uuid w = None)
    (Hcol : forall n, is_Some (w_operators w !! n) \/ n = w_uuid w -> uuid_column (Keys.uuid_string n) = Some n)
    (Hsha : forall s, nonempty (sha256 s) = true) (Hmac : forall s p, nonempty (hmac256 s p) = true)
    (Hdrawn : forall s, s ∈ [d_readSecret d; d_writeSecret d] -> nonempty s = true /\ (String.length s <= 400)%nat) :
  match check_input new_URL input with
  | Raise e => run (provision input d) w = (Raise e, w)
  | Ok k =>
      exists v o' w', run (provision input d) w = (Ok v, w') /\ w_operators w' !! v_id v = Some o' /\ o_code o' = p_code input /\
        operator_only (v_id v) w w' /\
        match operator_by_code w (p_code input) with
        | Some (id, o) => v_id v = id /\ v_created v = false /\ unnamed_kept input o o' /\
            v_launchSecret v = if p_rotateSecret input then Some (o_launchSecret o') else None
        | None => v_created v = true /\ v_launchSecret v = Some (d_newSecret d) /\ o_launchSecret o' = d_newSecret d
        end /\
        forall (write : bool) t req, (if write then v_writeApiKey v else v_reportingApiKey v) = Some t ->
          bearerToken (headers req "authorization") = Some t -> o_enabled o' = true ->
          (o_ipWhitelist o' = [] \/ extractClientIp req ∈ o_ipWhitelist o') ->
          Guard.authorized sha256 hmac256 process_env write req w' (v_id v)
  end.
Proof using Type.
  destruct (check_input new_URL input) as [k|e] eqn:Hk; [|unfold provisionOperator; by rewrite Hk].
  pose proof (run_provision input d w k Hf Hfresh Hk) as Hrun. destruct (row_of input k d w) as [[id o] created] eqn:Erow.
  destruct Hrun as (w' & E & Hops & Honly & _). eexists _, (keyed input d o), w'. split; [exact E|]. cbn [v_id v_created v_launchSecret v_writeApiKey v_reportingApiKey].
  assert (Ho' : w_operators w' !! id = Some (keyed input d o)) by (rewrite Hops; apply lookup_insert_eq).
  assert (Hkc : forall X (f : operator -> X), (forall b h u, f (set_hash b h u) = f u) -> f (keyed input d o) = f o).
  { intros X f H1. unfold keyed. destruct (p_rotateWriteKey input), (p_rotateReportingKey input); by rewrite ?H1. }
  assert (Hcode : o_code (keyed input d o) = p_code input /\ uuid_column (Keys.uuid_string id) = Some id).
  { unfold row_of in Erow. destruct (operator_by_code w (p_code input)) as [[id0 o0]|] eqn:Eb.
    - injection Erow as <- <- <-. destruct (by_code_in _ _ _ _ Eb) as [Hin Hc0]. split; [|by apply Hcol; left].
      rewrite <- Hc0. by apply (uk_code _ _ _ (set_columns_kept input k d o0 Hk)).
    - injection Erow as <- <- <-. split; [|by apply Hcol; right]. rewrite (Hkc _ o_code) by (by intros [] ? []). done. }
  destruct Hcode as [Hcode Hid]. split_and!; [exact Ho'|exact Hcode|exact Honly| |].
  - unfold row_of in Erow. destruct (operator_by_code w (p_code input)) as [[id0 o0]|] eqn:Eb; injection Erow as <- <- <-.
    + split_and!; [done|done|by apply set_columns_kept|]. cbn [orb]. by rewrite (Hkc _ o_launchSecret) by (by intros [] ? []).
    + split_and!; [done|done|]. by rewrite (Hkc _ o_launchSecret) by (by intros [] ? []).
  - intros write t req Ht Hb Hen Hip.
    set (secret := if write then d_writeSecret d else d_readSecret d).
    assert (Hasked : (if write then p_rotateWriteKey input else p_rotateReportingKey input) = true /\ t = token_of write id secret).
    { subst secret. destruct write; [destruct (p_rotateWriteKey input)|destruct (p_rotateReportingKey input)]; by inversion Ht. }
    destruct Hasked as [Hasked ->]. destruct (Hdrawn secret) as [Hs1 Hs2]; [subst secret; destruct write; [right; by left|by left]|].
    pose proof (minted_key_verifies sha256 hmac256 (if write then WRITE_TOKEN_PREFIX else REPORTING_TOKEN_PREFIX) process_env id secret
      ltac:(destruct write; auto) Hs1 Hs2 (Hsha secret) (Hmac secret)) as [Hparse Hver].
    exists (mk_parsed (Keys.uuid_string id) secret), (keyed input d o), (hashed secret). split_and!; [by rewrite Hb|exact Hid|exact Ho'|
      by apply keyed_hash| |exact Hen|exact Hip].
    cbn [pt_secret]. cbn [generate_key snd] in Hver. destruct (pepper process_env) as [p|] eqn:Ep; [by apply Hver|apply Hver].
Qed.

(** *** The audit *)

Definition with_wallet_key (key : string) (i : ProvisionInput) : ProvisionInput :=
  mk_provision (p_code i) (p_name i) (p_currencies i) (p_walletApiUrl i) (Some key) (p_betLimits i) (p_rgConfig i) (p_ipWhitelist i)
    (p_callbackUrl i) (p_enabled i) (p_demoEnabled i) (p_rotateSecret i) (p_rotateReportingKey i) (p_rotateWriteKey i) (p_strictCurrencies i).

Lemma given_sanitized {A} (f : A -> column) v a b : (forall x, sanitized a (f x) = sanitized b (f x)) ->
  sanitized a <$> given f v = sanitized b <$> given f v.
Proof using Type. intros E. destruct v; [|done]. cbn. by rewrite E. Qed.

Lemma sanitized_patch input k key key' s s' : nonempty key = nonempty key' ->
  sanitized (Some key) <$> patch_of (with_wallet_key key input) k s = sanitized (Some key') <$> patch_of (with_wallet_key key' input) k s'.
Proof using Type.
  intros Hn. unfold patch_of. rewrite !fmap_app.
  cbn [with_wallet_key p_name p_walletApiUrl p_walletApiKey p_callbackUrl p_ipWhitelist p_enabled p_demoEnabled p_rotateSecret].
  assert (H4 : sanitized (Some key) <$> given CWalletApiKey (Some key) = sanitized (Some key') <$> given CWalletApiKey (Some key'))
    by (cbn; by rewrite Hn).
  rewrite H4. clear H4. repeat (apply (f_equal2 app); [first [by apply given_sanitized|done]|]). by destruct (p_rotateSecret input).
Qed.

(** The audit carries no secret: whatever launch secret, key secrets and
    wallet key are drawn or given, the events are the same. *)
Theorem audit_hides_secrets (input : ProvisionInput) (key key' : string) (d d' : drawn) (w : world)
    (Hf : w_faults w = []) (Hfresh : w_operators w !! w_uuid w = None) (Hkeys : nonempty key = nonempty key') :
  w_audit (run (provision (with_wallet_key key input) d) w).2 = w_audit (run (provision (with_wallet_key key' input) d') w).2.
Proof using Type.
  assert (Hc : check_input new_URL (with_wallet_key key input) = check_input new_URL (with_wallet_key key' input)) by reflexivity.
  destruct (check_input new_URL (with_wallet_key key' input)) as [k|e] eqn:Hk; [|unfold provisionOperator; by rewrite Hc, Hk].
  pose proof (run_provision _ d w k Hf Hfresh Hc) as H1. pose proof (run_provision _ d' w k Hf Hfresh Hk) as H2.
  destruct (row_of (with_wallet_key key input) k d w) as [[id o] c] eqn:E1, (row_of (with_wallet_key key' input) k d' w) as [[id' o'] c'] eqn:E2.
  destruct H1 as (w1 & -> & _ & _ & Ha1), H2 as (w2 & -> & _ & _ & Ha2). cbn [snd]. rewrite Ha1, Ha2. f_equal. clear Ha1 Ha2.
  unfold row_of in E1, E2. cbn [p_code with_wallet_key] in E1, E2.
  destruct (operator_by_code w (p_code input)) as [[i0 o0]|] eqn:Eb; injection E1 as <- <- <-; injection E2 as <- <- <-;
    unfold trail; cbn [p_walletApiKey p_rotateReportingKey p_rotateWriteKey with_wallet_key].
  - assert (Hcode : forall l, o_code (set_columns o0 l) = o_code o0) by (intros l; apply set_columns_frame; by intros [] [] _).
    rewrite !Hcode, (sanitized_patch input k key key' _ (d_newSecret d') Hkeys). done.
  - unfold created_audit. cbn. by rewrite Hkeys.
Qed.

(** *** From the command line *)

Lemma never_enables args code betLimits rgConfig : p_enabled (input_of args code betLimits rgConfig) <> Some true.
Proof using Type. unfold input_of. cbn. by destruct (is_truthy _). Qed.

Lemma disabled_stays readFileSync JSON_parse argv d w id o : w_faults w = [] -> w_operators w !! w_uuid w = None ->
  w_operators w !! id = Some o -> o_enabled o = false ->
  exists o', w_operators (run (main new_URL sha256 hmac256 process_env readFileSync JSON_parse argv d) w).2 !! id = Some o' /\ o_enabled o' = false.
Proof using Type.
  intros Hf Hfresh Ho Hen. unfold main. destruct (Cli.str _) as [[|a code]|]; [by exists o| |by exists o].
  destruct (read_config _ _ _) as [bl|]; [|by exists o]. destruct (read_config _ _ _) as [rg|]; [|by exists o].
  set (input := input_of _ _ _ _). pose proof (never_enables (Cli.parseArgs argv) (String a code) bl rg) as Hnever. fold input in Hnever.
  destruct (check_input new_URL input) as [k|e] eqn:Hk; [|rewrite run_bind; unfold provisionOperator; rewrite Hk; by exists o].
  pose proof (run_provision input d w k Hf Hfresh Hk) as H1. destruct (row_of input k d w) as [[id' o'] c] eqn:Erow.
  destruct H1 as (w' & E & Hops & _). rewrite run_bind, E, run_ret. cbn [snd]. rewrite Hops.
  destruct (decide (id' = id)) as [->|Hne]; [|exists o; by rewrite lookup_insert_ne]. eexists. split; [apply lookup_insert_eq|].
  unfold row_of in Erow. destruct (operator_by_code w (p_code input)) as [[id0 o0]|] eqn:Eb; [injection Erow as -> <- _|injection Erow as E1 _ _; rewrite E1 in Hfresh; congruence].
  destruct (by_code_in _ _ _ _ Eb) as [Hin _]. assert (o0 = o) as -> by congruence.
  assert (Hkeyed : forall u, o_enabled (keyed input d u) = o_enabled u).
  { intros u. unfold keyed. by destruct (p_rotateWriteKey input), (p_rotateReportingKey input), u. }
  rewrite Hkeyed. destruct (o_enabled (set_columns o (patch_of input k (d_newSecret d)))) eqn:Et; [|done]. exfalso.
  assert (Hset : forall l u, o_enabled (set_columns u l) = true -> o_enabled u = true \/ CEnabled true ∈ l).
  { induction l as [|x l IH]; intros u Hu; [by left|]. cbn in Hu. apply IH in Hu as [Hu|Hu]; [|right; by right].
    destruct u, x; cbn in Hu; try (by left). subst b. right. by left. }
  destruct (Hset _ _ Et) as [Ht|Ht%patch_in]; congruence.
Qed.
End works.

(** ** Launch tokens from the command line *)

Inductive launch_result {Token : Type} := LaunchUsage | NoSuchCode | Launched (t : Token) (currencyWarning demoWarning : bool).
Arguments launch_result Token : clear implicits.

(** [scripts/operator-launch-token.ts]; the token is printed, then the warnings. *)
Definition launch_main {Token} `{Jwt Token} `{UuidColumn} (argv : list string) : prog world (launch_result Token) :=
  let args := Cli.parseArgs argv in
  let arg k := Cli.str (Cli.arg k args) in
  match arg "code"%string with
  | Some (String _ _ as code) =>
      let playerId := nullish (arg "player") "dev-player-1" in
      let currency := nullish (arg "currency") "DEMO" in
      let locale := nullish (arg "locale") "en" in
      let demo := Cli.is_true (Cli.arg "demo" args) in
      op ← db_get (fun w => operator_by_code w code);
      match op with
      | None => mret NoSuchCode
      | Some (id, o) =>
          t ← LaunchToken.issue (mk_claims (Keys.uuid_string id) playerId currency (Some locale) (Some demo) None);
          mret (Launched t (negb (bool_decide (currency ∈ o_currencies o))) (demo && negb (o_demoEnabled o)))
      end
  | _ => mret LaunchUsage
  end%string.

(** ** Concrete runs *)

Definition toy_sha (s : string) : string := ("s" +:+ s)%string.
Definition toy_mac (s p : string) : string := ("m" +:+ p +:+ s)%string.
Definition https_only (u : string) : option string := if startsWith "https://" u then Some "https:"%string else None.
Definition no_config (_ : string) : res json := Raise (JsError "SyntaxError").
Definition secrets : drawn := mk_drawn "new-secret" "read-secret" "write-secret".
Definition casino : operator :=
  mk_operator true false "old-secret" ["EUR"]%string None ["10.0.0.1"]%string None None None None "casino" "Casino" None None.
Definition casino_world : world := set_operators {[ 7%N := casino ]} (Nat.iter 8 bump_uuid (set_now 5000 empty_world)).
Definition cli (argv : list string) (w : world) : res (option provisioned) * world :=
  run (main https_only toy_sha toy_mac (fun _ => None) (fun _ => Raise (JsError "ENOENT")) no_config argv secrets) w.
Definition row (w : world) : option operator := w_operators w !! 7%N.

Definition rotate_write : ProvisionInput :=
  mk_provision "casino" None None None None None None None None None None false false true false.

Lemma provisioned_operator_works_witness :
  let U := two_operators in
  (exists v w', run (provisionOperator https_only toy_sha toy_mac (fun _ => None) rotate_write secrets) casino_world = (Ok v, w') /\
     v_launchSecret v = None /\ v_reportingApiKey v = None /\
     exists t, v_writeApiKey v = Some t /\
       (exists o', w_operators w' !! v_id v = Some o' /\ unnamed_kept rotate_write casino o') /\
       forall req, bearerToken (headers req "authorization") = Some t -> extractClientIp req = "10.0.0.1"%string ->
         Guard.authorized toy_sha toy_mac (fun _ => None) true req w' (v_id v)).
Proof.
  cbv zeta.
  assert (Hcol : forall n, is_Some (w_operators casino_world !! n) \/ n = w_uuid casino_world -> @uuid_column two_operators (Keys.uuid_string n) = Some n).
  { intros n [[o Ho]| ->]; [|vm_compute; reflexivity]. unfold casino_world in Ho. cbn [w_operators set_operators] in Ho.
    apply lookup_singleton_Some in Ho as [<- _]. vm_compute. reflexivity. }
  assert (Hdrawn : forall s, s ∈ [d_readSecret secrets; d_writeSecret secrets] -> nonempty s = true /\ (String.length s <= 400)%nat).
  { intros s [->|[->|[]%not_elem_of_nil]%elem_of_cons]%elem_of_cons; (split; [reflexivity|apply Nat.leb_le; reflexivity]). }
  pose proof (@provisioned_operator_works two_operators https_only toy_sha toy_mac (fun _ => None) rotate_write secrets casino_world
    eq_refl eq_refl Hcol (fun _ => eq_refl) (fun _ _ => eq_refl) Hdrawn) as H.
  destruct H as (v & o' & w' & E & Ho & _ & _ & (Hv & _ & Hkept & Hls) & Hkey). exists v, w'. split; [exact E|].
  assert (Er : (run (provisionOperator https_only toy_sha toy_mac (fun _ => None) rotate_write secrets) casino_world).1 = Ok v) by (by rewrite E).
  vm_compute in Er. injection Er as <-.
  split; [reflexivity|]. split; [reflexivity|]. eexists. split; [reflexivity|]. split; [by exists o'|].
  intros req Hb Hip. apply (Hkey true _ req eq_refl Hb).
  - rewrite (uk_enabled _ _ _ Hkept eq_refl). reflexivity.
  - right. rewrite Hip, (uk_ips _ _ _ Hkept eq_refl). by left.
Defined.

Lemma audit_hides_secrets_witness :
  w_audit (run (provisionOperator https_only toy_sha toy_mac (fun _ => None) (with_wallet_key "k1" rotate_write) secrets) casino_world).2 =
  w_audit (run (provisionOperator https_only toy_sha toy_mac (fun _ => None) (with_wallet_key "k2" rotate_write) (mk_drawn "a" "b" "c")) casino_world).2.
Proof. apply audit_hides_secrets; reflexivity. Defined.

(** Nothing on the command line enables an operator again: --disabled has no
    opposite, and any value given to it disables as well. *)
Theorem disabled_for_good :
  let off := (cli ["--code"; "casino"; "--disabled"; "false"]%string casino_world).2 in
  option_map o_enabled (row off) = Some false /\ forall argv, option_map o_enabled (row (cli argv off).2) = Some false.
Proof.
  cbv zeta. split; [vm_compute; reflexivity|]. intros argv. unfold row, cli.
  set (off := (run _ casino_world).2). assert (Ho : exists o, w_operators off !! 7%N = Some o /\ o_enabled o = false).
  { assert (option_map o_enabled (w_operators off !! 7%N) = Some false) as E by (vm_compute; reflexivity).
    destruct (w_operators off !! 7%N) as [o|]; [|done]. exists o. by injection E. }
  destruct Ho as (o & Ho & Hen).
  destruct (disabled_stays https_only toy_sha toy_mac (fun _ => None) (fun _ => Raise (JsError "ENOENT")) no_config argv secrets off 7%N o
    ltac:(vm_compute; reflexivity) ltac:(vm_compute; reflexivity) Ho Hen) as (o' & -> & He). cbn. by rewrite He.
Qed.

(** A blank list of addresses, as an unset shell variable leaves it between its
    quotes, is stored as the empty list, and the empty list admits everybody. *)
Theorem blank_whitelist_opens :
  option_map o_ipWhitelist (row (cli ["--code"; "casino"; "--ip-whitelist"; ""]%string casino_world).2) = Some [] /\
  option_map o_ipWhitelist (row (cli ["--code"; "casino"; "--ip-whitelist"; ","]%string casino_world).2) = Some [].
Proof. by split; vm_compute. Qed.

(** The warning compares the case of the currency, the launch does not: a token
    announced as rejected is accepted. *)
Theorem warned_launch_accepted :
  let J := TicketJwt in let U := two_operators in
  match run (launch_main ["--code"; "casino"; "--player"; "alice"; "--currency"; "eur"]%string) casino_world with
  | (Ok (Launched t currencyWarning _), w') =>
      currencyWarning = true /\ match (run (LaunchToken.verify t) w').1 with Ok _ => True | Raise _ => False end
  | _ => False
  end.
Proof. vm_compute. by split. Qed.
End Provision.
