(* ===== verification/Fairness.v ===== *)
(** * Epochs, seeds and the fairness service

    [fairness/fairness.service.ts] against the interface of
    [fairness/salt.provider.ts].  An epoch goes pending, armed, active,
    exhausted; a round takes the next unused seed of the active one.  Proved:
    in strict mode only block-salt epochs serve rounds, whatever fails; a seed
    is handed out only while unused; the public dumps never contain an
    unrevealed seed or the salt of an epoch that has not served; and a strict
    node that starts without an epoch never gets one. *)

From S2P Require Import Prelude Effects Js Money Schema Crash EthBlock AuditLog.

Open Scope Z_scope.

#[local] Set Warnings "-clear-no-such-hyp".

Record SaltCommitment := mk_commitment {
  sc_source : string; sc_salt : option string;
  sc_targetChain : option string; sc_targetBlock : option Z
}.

(** [SaltProvider]: the interface of the providers. *)
Class SaltProvider := {
  sp_name : string;      (* constructor.name *)
  sp_source : string;
  sp_commit : prog world SaltCommitment;
  sp_resolve : SaltCommitment -> prog world (option string)
}.

(** A null or empty string is falsy. *)
Definition truthy (s : option string) : bool := match s with Some s => nonempty s | None => false end.

Definition fairness_tables (w w' : world) : Prop := w_chains w' = w_chains w /\ w_seeds w' = w_seeds w /\ w_rounds w' = w_rounds w.

#[export] Instance fairness_tables_rel : TableRel fairness_tables.
Proof.
  split; [split|].
  - by repeat split.
  - unfold fairness_tables. intros x y z ??; destruct_and!; split_and!; congruence.
  - unfold tables_eq, fairness_tables. intros; destruct_and!; split_and!; done.
Qed.

(** What the service relies on: a provider reads and writes none of its tables,
    and names its own source in every commitment. *)
Class SaltProviderLaws (P : SaltProvider) : Prop := {
  sp_commit_frame : steps_in fairness_tables sp_commit;
  sp_resolve_frame c : steps_in fairness_tables (sp_resolve c);
  sp_commit_source w c w' : run sp_commit w = (Ok c, w') -> sc_source c = sp_source
}.

(** ** The two providers *)

Module Providers.
Section providers.
Context (rand : N -> string).      (* randomBytes(32).toString("hex") *)

Definition randomBytesHex : prog world string := n ← randomUUID; mret (rand n).

Definition DailySaltProvider : SaltProvider := {|
  sp_name := "DailySaltProvider"; sp_source := "random";
  sp_commit := s ← randomBytesHex; mret (mk_commitment "random" (Some s) None None);
  sp_resolve c := mret (sc_salt c)
|}.

(** The network's answers, which may change with time. *)
Context (env : Risk.env) (net : Z -> nat -> string -> string -> res (option EthBlock.rpc_block)).

Definition oracle_latest : prog world Z :=
  atom_res (fun w => (EthBlock.latestBlockNumber (net (w_now w)) env, w)).
Definition oracle_hash (target : Z) : prog world (option string) :=
  atom_res (fun w => (EthBlock.finalizedBlockHash (net (w_now w)) env target, w)).

Definition EthBlockSaltProvider : SaltProvider := {|
  sp_name := "EthBlockSaltProvider"; sp_source := "eth-block";
  sp_commit := head ← oracle_latest;
               mret (mk_commitment "eth-block" None (Some "ethereum"%string) (Some (head + EthBlock.lead env)));
  sp_resolve c :=
    if truthy (sc_salt c) then mret (sc_salt c)
    else match sc_targetBlock c with
         | None => mret None
         | Some t => if t =? 0 then mret None else oracle_hash t
         end
|}.

#[export] Instance Daily_laws : SaltProviderLaws DailySaltProvider.
Proof.
  split; cbn [sp_commit sp_resolve sp_source DailySaltProvider]; [unfold randomBytesHex; steps|steps|].
  intros w c w' E. cbn in E. by simplify_eq.
Qed.

Lemma steps_oracle {A} (f : world -> res A) : steps_in fairness_tables (atom_res (fun w => (f w, w))).
Proof. apply steps_atom_res. intros w. simpl. reflexivity. Qed.

#[export] Instance EthBlock_laws : SaltProviderLaws EthBlockSaltProvider.
Proof.
  split; cbn [sp_commit sp_resolve sp_source EthBlockSaltProvider].
  - apply steps_bind; [apply steps_oracle|intros; apply steps_ret].
  - intros c. repeat case_match; try apply steps_ret. apply steps_oracle.
  - intros w c w' E. unfold oracle_latest in E. cbn in E.
    destruct (EthBlock.latestBlockNumber _ _); cbn in E; by simplify_eq.
Qed.

(** The block provider never knows its salt when it commits. *)
Lemma EthBlock_commit_unresolved w c w' :
  run (@sp_commit EthBlockSaltProvider) w = (Ok c, w') -> sc_salt c = None.
Proof.
  cbn. unfold oracle_latest. cbn. intros E.
  destruct (EthBlock.latestBlockNumber _ _); cbn in E; by simplify_eq.
Qed.
End providers.
End Providers.

(** ** Statements on the fairness tables *)

(** [orderBy: { epoch: "asc" | "desc" }], first row. *)
Definition min_epoch (l : list chain) : option chain :=
  foldr (fun c acc => match acc with Some d => if c_epoch d <? c_epoch c then Some d else Some c | None => Some c end) None l.
Definition max_epoch (l : list chain) : option chain :=
  foldr (fun c acc => match acc with Some d => if c_epoch c <? c_epoch d then Some d else Some c | None => Some c end) None l.

Definition epoch_le (a b : chain) : Prop := c_epoch a <= c_epoch b.
#[export] Instance epoch_le_dec : RelDecision epoch_le.
Proof. intros a b. apply Z_le_dec. Defined.
Definition index_le (a b : seed) : Prop := sd_chainIndex a <= sd_chainIndex b.
#[export] Instance index_le_dec : RelDecision index_le.
Proof. intros a b. apply Z_le_dec. Defined.

Definition chains_where (P : chain_status -> bool) (w : world) : list chain :=
  List.filter (fun c => P (c_status c)) (w_chains w).
Definition is_status (s : chain_status) (s' : chain_status) : bool := bool_decide (s' = s).
Definition is_queued (s : chain_status) : bool := is_status ChPending s || is_status ChArmed s.

Definition find_chain (id : uuid) (w : world) : option chain :=
  List.find (fun c => N.eqb (c_id c) id) (w_chains w).

Definition with_status (st : chain_status) (c : chain) : chain :=
  mk_chain (c_id c) (c_epoch c) (c_commitHash c) (c_length c) (c_saltSource c) (c_targetChain c)
    (c_targetBlock c) (c_salt c) st (c_createdAt c) (c_armedAt c).
Definition with_salt (salt : string) (now : Z) (c : chain) : chain :=
  mk_chain (c_id c) (c_epoch c) (c_commitHash c) (c_length c) (c_saltSource c) (c_targetChain c)
    (c_targetBlock c) (Some salt) (c_status c) (c_createdAt c) (Some now).

Definition update_chains (id : uuid) (f : chain -> chain) (l : list chain) : list chain :=
  List.map (fun c => if N.eqb (c_id c) id then f c else c) l.

(** [fairnessChain.update({ where: { id }, data })]: the updated row. *)
Definition chain_update (id : uuid) (f : chain -> chain) : prog world chain :=
  db (fun w => match find_chain id w with
               | Some c => (Ok (f c), set_chains (update_chains id f (w_chains w)) w)
               | None => (Raise RecordNotFound, w)
               end).

(** [fairnessChain.create]; [epoch] and the primary key are unique, the id and
    the date are defaults. *)
Definition chain_create (mk : uuid -> Z -> chain) : prog world chain :=
  db (fun w => let c := mk (w_uuid w) (w_now w) in
               if List.existsb (fun d => (c_epoch d =? c_epoch c) || N.eqb (c_id d) (c_id c)) (w_chains w)
               then (Raise UniqueViolation, w)
               else (Ok c, bump_uuid (set_chains (w_chains w ++ [c]) w))).

(** The rows of [createMany] get consecutive identifiers. *)
Fixpoint number_seeds (mk : uuid -> Z -> string -> seed) (id : N) (idx : Z) (l : list string) : list seed :=
  match l with [] => [] | s :: l => mk id idx s :: number_seeds mk (N.succ id) (idx + 1) l end.

Definition bump_many (n : nat) (w : world) : world := Nat.iter n bump_uuid w.

Definition seeds_createMany (mk : Z -> uuid -> Z -> string -> seed) (l : list string) : prog world unit :=
  db_set (fun w => bump_many (length l)
    (set_seeds (w_seeds w ++ number_seeds (mk (w_now w)) (w_uuid w) 0 l) w)).

(** A seed together with what [include: { chain }] selects. *)
Record allocated := mk_allocated { al_seed : seed; al_salt : option string; al_epoch : Z }.

Definition seed_used (w : world) (s : seed) : bool :=
  bool_decide (map_Exists (fun _ r => r_seedId r = sd_id s) (w_rounds w)).

Definition min_index (l : list seed) : option seed :=
  foldr (fun s acc => match acc with Some d => if sd_chainIndex d <? sd_chainIndex s then Some d else Some s | None => Some s end) None l.

(** ** The service *)

Module Fairness.
Section service.
Context (env : Risk.env) (provider : SaltProvider).
Context (hmac_sha256 : list Z -> string -> string) (sha256 : list Z -> string) (rand : N -> string).
Context (stringify_length : json -> Z).

Definition audit (action : string) (epoch : Z) (meta : list (string * json)) : prog world unit :=
  Audit.record stringify_length
    (mk_audit "system" action (Some "rng_epoch"%string) (Some (BigInt_toString epoch)) None None None None
       (Some (JObj meta))).

Definition jz (z : Z) : json := JNum (QArith_base.inject_Z z).
Definition jopt (o : option string) : json := match o with Some s => JStr s | None => JNull end.

(** Seeds per epoch. *)
Definition chainLength : jsnum :=
  let n := js_Number_opt (env "FAIRNESS_CHAIN_LENGTH"%string) in
  if js_isFinite n && js_ge n 2 then n else Fin (QArith_base.inject_Z 10000).

Definition requireBlockSalt : bool :=
  opt_eqb (env "FAIRNESS_REQUIRE_BLOCK_SALT"%string) (Some "true"%string).

Definition utf8 (s : string) : list Z := List.map code (String.list_ascii_of_string s).
Definition sha256OfUtf8 (s : string) : string := sha256 (utf8 s).

Definition fallback : SaltProvider := Providers.DailySaltProvider rand.

(** [generateSeedChain(len)]: [new Array(len)] refuses a length that is not a
    32-bit integer. *)
Definition newSeedChain : prog world (list string) :=
  match chainLength with
  | Fin q =>
      let len := EthBlock.js_floor chainLength in
      if js_isInteger chainLength && (len <? 2 ^ 32) then
        r ← Providers.randomBytesHex rand;
        match Crash.generateSeedChain sha256 len r with
        | Some l => mret l
        | None => raise (JsError "chain length must be >= 2")
        end
      else raise (JsError "Invalid array length")
  | _ => raise (JsError "Invalid array length")
  end.

Definition findActive : prog world (option chain) :=
  db_get (fun w => max_epoch (chains_where (is_status ChActive) w)).

Definition retireChain (c : chain) : prog world unit :=
  _ ← chain_update (c_id c) (with_status ChExhausted); mret tt.

Definition promote (id : uuid) : prog world chain := chain_update id (with_status ChActive).

Definition recordSaltFallback (reason mode : string) : prog world unit :=
  emit (EvMetric "fairness_salt_fallback" (reason +:+ "/" +:+ mode)%string).

Definition status_name (s : chain_status) : string :=
  match s with ChPending => "pending" | ChArmed => "armed" | ChActive => "active" | ChExhausted => "exhausted" end.

(** The commitment of a new epoch, with the fallback it took; [None] refuses. *)
Definition commitSalt (activate : bool)
  : prog world (option (SaltCommitment * option (string * string))) :=
  let strict := requireBlockSalt in
  c0 ← try_catch (c ← sp_commit; mret (Some c, None)) (fun e =>
         if strict then _ ← recordSaltFallback "commit_failed" "strict"; mret (None, None)
         else _ ← recordSaltFallback "commit_failed" "fallback";
              c ← @sp_commit fallback;
              mret (Some c, Some ("commit_failed", sp_name)%string));
  match c0 with
  | (None, _) => mret None
  | (Some c, fb) =>
      if activate && negb (truthy (sc_salt c)) then
        if strict then _ ← recordSaltFallback "salt_not_ready" "strict"; mret None
        else _ ← recordSaltFallback "salt_not_ready" "fallback";
             c' ← @sp_commit fallback;
             mret (Some (c', Some ("salt_not_ready"%string, sc_source c)))
      else mret (Some (c, fb))
  end.

Definition nextEpoch (w : world) : Z :=
  match max_epoch (w_chains w) with Some c => c_epoch c | None => -1 end + 1.

Definition createEpoch (activate : bool) : prog world (option chain) :=
  epoch ← db_get nextEpoch;
  cf ← commitSalt activate;
  match cf with
  | None => mret None
  | Some (c, fb) =>
      let status := if truthy (sc_salt c) then (if activate then ChActive else ChArmed) else ChPending in
      seeds ← newSeedChain;
      let len := EthBlock.js_floor chainLength in
      let commitHash := nullish (head seeds) EmptyString in
      ch ← chain_create (fun id now =>
             mk_chain id epoch commitHash len (sc_source c) (sc_targetChain c) (sc_targetBlock c)
               (sc_salt c) status now (if truthy (sc_salt c) then Some now else None));
      _ ← seeds_createMany (fun now id idx s =>
             mk_seed id (c_id ch) idx (Crash.sha256Hex sha256 s) s (if idx =? 0 then Some now else None)) seeds;
      _ ← audit "rng.epoch_commit" epoch
            [("epoch", jz epoch); ("status", JStr (status_name status)); ("saltSource", JStr (sc_source c));
             ("commitHash", JStr commitHash); ("targetChain", jopt (sc_targetChain c));
             ("targetBlock", jopt (BigInt_toString <$> sc_targetBlock c)); ("length", jz len)]%string;
      _ ← match fb with
          | Some (reason, from) =>
              audit "rng.salt_fallback" epoch
                [("epoch", jz epoch); ("reason", JStr reason); ("fellBackFrom", JStr from);
                 ("saltSource", JStr (sc_source c))]%string
          | None => mret tt
          end;
      _ ← match sc_salt c with
          | Some salt =>
              when (nonempty salt) (audit "rng.salt_armed" epoch
                [("epoch", jz epoch); ("status", JStr (status_name status)); ("saltSource", JStr (sc_source c));
                 ("saltHash", JStr (sha256OfUtf8 salt))]%string)
          | None => mret tt
          end;
      mret (Some ch)
  end.

Definition tryResolve (c : chain) : prog world (option string) :=
  try_catch (sp_resolve (mk_commitment (c_saltSource c) (c_salt c) (c_targetChain c) (c_targetBlock c)))
    (fun _ => mret None).

Definition is_block (c : chain) : bool := eqb_str (c_saltSource c) "eth-block".

(** The tail of [ensureActiveChain], from the pending epochs on. *)
Definition ensureFromPending : prog world (option chain) :=
  pending ← db_get (fun w => min_epoch (chains_where (is_status ChPending) w));
  armed ← match pending with
          | Some p =>
              salt ← tryResolve p;
              match salt with
              | Some s =>
                  if nonempty s then
                    _ ← (now ← Date_now; chain_update (c_id p) (with_salt s now));
                    ch ← promote (c_id p); mret (Some ch)
                  else mret None
              | None => mret None
              end
          | None => mret None
          end;
  match armed with
  | Some ch => mret (Some ch)
  | None => createEpoch true
  end.

Definition ensureFromArmed : prog world (option chain) :=
  armed ← db_get (fun w => min_epoch (chains_where (is_status ChArmed) w));
  match armed with
  | Some a =>
      if requireBlockSalt && negb (is_block a) then _ ← retireChain a; ensureFromPending
      else ch ← promote (c_id a); mret (Some ch)
  | None => ensureFromPending
  end.

Definition ensureActiveChain : prog world (option chain) :=
  active ← findActive;
  match active with
  | Some a =>
      if requireBlockSalt && negb (is_block a) then _ ← retireChain a; ensureFromArmed
      else mret (Some a)
  | None => ensureFromArmed
  end.

Definition find_unused (w : world) (chainId : uuid) : option seed :=
  min_index (List.filter (fun s => N.eqb (sd_chainId s) chainId && (1 <=? sd_chainIndex s) &&
                                   negb (seed_used w s)) (w_seeds w)).

Definition nextUnusedSeed (chainId : uuid) : prog world (option allocated) :=
  db_get (fun w => match find_unused w chainId, find_chain chainId w with
                   | Some s, Some c => Some (mk_allocated s (c_salt c) (c_epoch c))
                   | _, _ => None
                   end).

Definition allocateSeed : prog world (option allocated) :=
  chain ← ensureActiveChain;
  match chain with
  | None => mret None
  | Some c =>
      seed ← nextUnusedSeed (c_id c);
      match seed with
      | Some s => mret (Some s)
      | None =>
          _ ← chain_update (c_id c) (with_status ChExhausted);
          next ← ensureActiveChain;
          match next with
          | None => mret None
          | Some n =>
              seed ← nextUnusedSeed (c_id n);
              match seed with
              | Some s => mret (Some s)
              | None => raise (JsError "fairness_chain_exhausted")
              end
          end
      end
  end.

(** [seed.seed!] and [seed.chain.salt!]: a null salt makes the HMAC throw. *)
Definition crashForSeed (s : allocated) : option Z :=
  match al_salt s with Some salt => Crash.computeCrash hmac_sha256 (sd_seed (al_seed s)) salt | None => None end.

Definition revealSeed (seedId : uuid) : prog world unit :=
  db (fun w => if List.existsb (fun s => N.eqb (sd_id s) seedId) (w_seeds w)
               then (Ok tt, set_seeds (List.map (fun s =>
                       if N.eqb (sd_id s) seedId
                       then mk_seed (sd_id s) (sd_chainId s) (sd_chainIndex s) (sd_seedHash s) (sd_seed s) (Some (w_now w))
                       else s) (w_seeds w)) w)
               else (Raise RecordNotFound, w)).

(** [maintain]; [maintaining] is the process's re-entrancy flag as it reads it. *)
Definition maintain (maintaining : bool) : prog world unit :=
  if maintaining then mret tt else
  try_catch
    (pendings ← db_get (fun w => merge_sort epoch_le (chains_where (is_status ChPending) w));
     _ ← for_each pendings (fun p =>
       salt ← tryResolve p;
       match salt with
       | Some s =>
           when (nonempty s)
             (_ ← (now ← Date_now; chain_update (c_id p) (fun c => with_status ChArmed (with_salt s now c)));
              audit "rng.salt_armed" (c_epoch p)
                [("epoch", jz (c_epoch p)); ("status", JStr "armed"); ("saltSource", JStr (c_saltSource p));
                 ("saltHash", JStr (sha256OfUtf8 s));
                 ("targetBlock", jopt (BigInt_toString <$> c_targetBlock p))]%string)
       | None => mret tt
       end);
     active ← findActive;
     match active with
     | Some _ =>
         queued ← db_get (fun w => length (chains_where is_queued w));
         when (queued =? 0)%nat (forget (createEpoch false))
     | None => mret tt
     end)
    (fun _ => mret tt).

(** *** The public reads *)

Record commit_info := mk_commit {
  ci_epoch : Z; ci_commitHash : string; ci_saltSource : string; ci_saltHash : option string;
  ci_targetChain : option string; ci_targetBlock : option Z; ci_length : Z; ci_roundsRevealed : Z;
  ci_next : option chain
}.

Definition revealed_count (w : world) (id : uuid) : Z :=
  Z.of_nat (length (List.filter (fun s => N.eqb (sd_chainId s) id && is_Some_b (sd_revealedAt s)) (w_seeds w))).

Definition salt_hash (s : option string) : option string :=
  if truthy s then sha256OfUtf8 <$> s else None.

Definition getCurrentCommit : prog world (option commit_info) :=
  active ← findActive;
  match active with
  | None => mret None
  | Some c =>
      revealed ← db_get (fun w => revealed_count w (c_id c));
      next ← db_get (fun w => min_epoch (chains_where is_queued w));
      mret (Some (mk_commit (c_epoch c) (c_commitHash c) (c_saltSource c) (salt_hash (c_salt c))
        (c_targetChain c) (c_targetBlock c) (c_length c) (Z.max 0 (revealed - 1))
        ((fun n => mk_chain (c_id n) (c_epoch n) (c_commitHash n) 0 (c_saltSource n) (c_targetChain n)
             (c_targetBlock n) None (c_status n) 0 None) <$> next)))
  end.

Definition ensureChain : prog world (option commit_info) :=
  _ ← ensureActiveChain; getCurrentCommit.

Definition salt_public (s : chain_status) : bool := is_status ChActive s || is_status ChExhausted s.

Record epoch_info := mk_epoch_info {
  ei_epoch : Z; ei_commitHash : string; ei_saltSource : string; ei_salt : option string;
  ei_saltHash : option string; ei_targetChain : option string; ei_targetBlock : option Z;
  ei_length : Z; ei_status : chain_status; ei_roundsRevealed : Z;
  ei_createdAt : Z; ei_armedAt : option Z
}.

Definition listEpochs : prog world (list epoch_info) :=
  chains ← db_get (fun w => merge_sort epoch_le (w_chains w));
  fold_each chains (fun acc c =>
    revealed ← db_get (fun w => revealed_count w (c_id c));
    mret (acc ++ [mk_epoch_info (c_epoch c) (c_commitHash c) (c_saltSource c)
      (if salt_public (c_status c) then c_salt c else None) (salt_hash (c_salt c))
      (c_targetChain c) (c_targetBlock c) (c_length c) (c_status c) (Z.max 0 (revealed - 1))
      (c_createdAt c) (c_armedAt c)])) [].

Record seed_dump := mk_dump {
  du_epoch : Z; du_commitHash : string; du_saltSource : string; du_salt : option string;
  du_status : chain_status; du_length : Z; du_revealedCount : Z;
  du_seeds : list (Z * string * string * option Z)
}.

Definition epochSeeds (epoch : Z) : prog world (option seed_dump) :=
  chain ← db_get (fun w => List.find (fun c => c_epoch c =? epoch) (w_chains w));
  match chain with
  | None => mret None
  | Some c =>
      seeds ← db_get (fun w => merge_sort index_le
        (List.filter (fun s => N.eqb (sd_chainId s) (c_id c) && is_Some_b (sd_revealedAt s)) (w_seeds w)));
      mret (Some (mk_dump (c_epoch c) (c_commitHash c) (c_saltSource c)
        (if salt_public (c_status c) then c_salt c else None) (c_status c) (c_length c)
        (Z.of_nat (length seeds))
        (List.map (fun s => (sd_chainIndex s, sd_seed s, sd_seedHash s, sd_revealedAt s)) seeds)))
  end.

Definition verify (seed salt : string) (prevSeed : option string) : option Z * option bool :=
  (Crash.computeCrash hmac_sha256 seed salt,
   if truthy prevSeed then Crash.verifyChainLink sha256 seed <$> prevSeed else None).

(** *** Lists of epochs *)

Definition find_in (id : uuid) (l : list chain) : option chain := List.find (fun c => N.eqb (c_id c) id) l.

(** Identifiers are unique, and only block epochs are ever pending. *)
Definition wf_chains (l : list chain) : Prop :=
  NoDup (c_id <$> l) /\ forall c, c ∈ l -> c_status c = ChPending -> is_block c = true.

(** An update of an epoch: it keeps the identifier and the salt source, and
    nothing becomes pending. *)
Definition epoch_update (f : chain -> chain) : Prop :=
  forall c, c_id (f c) = c_id c /\ c_saltSource (f c) = c_saltSource c /\
            (c_status (f c) = ChPending -> c_status c = ChPending).

Lemma with_status_update st : st <> ChPending -> epoch_update (with_status st).
Proof. intros Hst c. by split_and!. Qed.
Lemma with_salt_update s now : epoch_update (with_salt s now).
Proof. intros c. by split_and!. Qed.

Lemma is_block_update f c : epoch_update f -> is_block (f c) = is_block c.
Proof. intros Hf. unfold is_block. by destruct (Hf c) as (_ & -> & _). Qed.

Lemma find_in_elem c l : NoDup (c_id <$> l) -> c ∈ l -> find_in (c_id c) l = Some c.
Proof.
  induction l as [|d l IH]; [set_solver|]. cbn. intros [Hn Hd]%NoDup_cons [->|Hin]%elem_of_cons.
  - by rewrite N.eqb_refl.
  - destruct (N.eqb_spec (c_id d) (c_id c)) as [E|_]; [|by apply IH].
    destruct Hn. apply list_elem_of_fmap. eauto.
Qed.

Lemma find_in_some id l c : find_in id l = Some c -> c ∈ l /\ c_id c = id.
Proof.
  intros [Hin E]%List.find_some. split; [by apply list_elem_of_In|]. by apply N.eqb_eq.
Qed.

Lemma find_in_update id f l :
  epoch_update f -> find_in id (update_chains id f l) = f <$> find_in id l.
Proof.
  intros Hf. induction l as [|c l IH]; [done|]. cbn.
  destruct (N.eqb (c_id c) id) eqn:E; [|by rewrite E].
  destruct (Hf c) as (-> & _). by rewrite E.
Qed.

Lemma update_ids id f l : epoch_update f -> c_id <$> update_chains id f l = c_id <$> l.
Proof.
  intros Hf. induction l as [|c l IH]; [done|].
  change (c_id (if N.eqb (c_id c) id then f c else c) :: (c_id <$> update_chains id f l) = c_id c :: (c_id <$> l)).
  rewrite IH. f_equal. destruct (N.eqb (c_id c) id); [apply Hf|done].
Qed.

Lemma update_wf id f l : epoch_update f -> wf_chains l -> wf_chains (update_chains id f l).
Proof.
  intros Hf [Hn Hp]. split; [by rewrite update_ids|].
  intros c (d & Hc & Hd)%list_elem_of_fmap Hst. subst c.
  destruct (N.eqb (c_id d) id); [|auto]. rewrite is_block_update by done. apply Hp; [done|]. by apply Hf.
Qed.

Lemma min_epoch_elem l c : min_epoch l = Some c -> c ∈ l.
Proof.
  revert c; induction l as [|d l IH]; intros c; [done|]. cbn. fold (min_epoch l).
  destruct (min_epoch l) as [c0|]; [|intros; simplify_eq; by left].
  destruct (_ <? _); intros; simplify_eq; [right; by apply IH|by left].
Qed.
Lemma max_epoch_elem l c : max_epoch l = Some c -> c ∈ l.
Proof.
  revert c; induction l as [|d l IH]; intros c; [done|]. cbn. fold (max_epoch l).
  destruct (max_epoch l) as [c0|]; [|intros; simplify_eq; by left].
  destruct (_ <? _); intros; simplify_eq; [right; by apply IH|by left].
Qed.

Lemma chains_where_elem P w c : c ∈ chains_where P w -> c ∈ w_chains w /\ P (c_status c) = true.
Proof. unfold chains_where. rewrite list_elem_of_In, filter_In, <- list_elem_of_In. done. Qed.

Lemma is_status_eq s s' : is_status s s' = true -> s' = s.
Proof. unfold is_status. by rewrite bool_decide_eq_true. Qed.

Lemma min_where_elem P w c :
  min_epoch (chains_where P w) = Some c -> c ∈ w_chains w /\ P (c_status c) = true.
Proof. intros H%min_epoch_elem. by apply chains_where_elem. Qed.

(** *** Specifications of the statements, on the list of epochs *)

Definition chains_are (l : list chain) (w : world) : Prop := w_chains w = l.

Lemma spec_read {A} l (f : world -> A) :
  spec (chains_are l) (db_get f)
    (fun r w => chains_are l w /\ forall a, r = Ok a -> exists w0, w_chains w0 = l /\ a = f w0).
Proof.
  apply spec_db_get; try done. intros w Hw. split; [done|]. intros a ?. simplify_eq. by exists w.
Qed.

Lemma spec_chain_update l id f :
  spec (chains_are l) (chain_update id f)
    (fun r w => (chains_are l w \/ chains_are (update_chains id f l) w) /\
       forall c, r = Ok c -> exists c0, find_in id l = Some c0 /\ c = f c0 /\
                                        chains_are (update_chains id f l) w).
Proof.
  apply spec_db; unfold chains_are, find_chain; [done|intros; split; [by left|done]|].
  intros w <-. destruct (List.find _ _) as [c0|] eqn:E; cbn.
  - split; [|split; [by right|done]]. split; [by right|]. intros c ?. simplify_eq. by exists c0.
  - split; (split; [by left|done]).
Qed.

(** A program that leaves the epochs alone. *)
Lemma spec_frame {A} R (p : prog world A) l :
  PreOrder R -> (forall w w', R w w' -> w_chains w' = w_chains w) -> steps_in R p ->
  spec (chains_are l) p (fun _ w => chains_are l w).
Proof. intros HR Hc Hp w <-. unfold chains_are. by apply Hc, run_steps_in. Qed.

Lemma tables_frame w w' : fairness_tables w w' -> w_chains w' = w_chains w.
Proof. by intros (-> & _). Qed.
Lemma audit_frame_chains w w' : Audit.audit_frame w w' -> w_chains w' = w_chains w.
Proof. intros Ha. unfold Audit.audit_frame in Ha. by destruct_and!. Qed.

Lemma spec_audit l action epoch meta :
  spec (chains_are l) (audit action epoch meta) (fun _ w => chains_are l w).
Proof.
  pose proof Audit.audit_frame_rel.
  apply (spec_frame Audit.audit_frame); [apply _|apply audit_frame_chains|apply Audit.steps_audit_record].
Qed.

Lemma min_index_spec l s :
  min_index l = Some s -> s ∈ l /\ forall s', s' ∈ l -> sd_chainIndex s <= sd_chainIndex s'.
Proof.
  revert s; induction l as [|d l IH]; intros s; [done|]. cbn. fold (min_index l).
  destruct (min_index l) as [s0|] eqn:E.
  - destruct (IH s0 eq_refl) as [Hin Hmin]. destruct (Z.ltb_spec (sd_chainIndex s0) (sd_chainIndex d));
      intros; simplify_eq; (split; [set_solver|]); intros s' [->|Hs']%elem_of_cons; try lia; auto.
    specialize (Hmin s' Hs'). lia.
  - intros; simplify_eq. split; [set_solver|]. intros s' [->|Hs']%elem_of_cons; [lia|].
    destruct l as [|x l]; [set_solver|]. cbn in E. by repeat case_match.
Qed.

(** The seed taken is the first unused one of its epoch, past the commit. *)
Lemma find_unused_spec w id s :
  find_unused w id = Some s ->
  s ∈ w_seeds w /\ sd_chainId s = id /\ 1 <= sd_chainIndex s /\ seed_used w s = false /\
  forall s', s' ∈ w_seeds w -> sd_chainId s' = id -> 1 <= sd_chainIndex s' -> seed_used w s' = false ->
    sd_chainIndex s <= sd_chainIndex s'.
Proof.
  unfold find_unused. intros [Hin Hmin]%min_index_spec.
  rewrite list_elem_of_In, filter_In, <- list_elem_of_In, !andb_true_iff, N.eqb_eq, negb_true_iff in Hin.
  destruct Hin as (Hin & (Hc & Hi) & Hu). split_and!; try done; [lia|].
  intros s' Hs' Hc' Hi' Hu'. apply Hmin. rewrite list_elem_of_In, filter_In, <- list_elem_of_In.
  rewrite Hc', Hu', N.eqb_refl. split; [done|]. cbn. rewrite andb_true_r. lia.
Qed.

(** *** What serves rounds in strict mode *)

(** An epoch was returned: it is a block epoch, and the one with its identifier. *)
Definition serves (o : option chain) (w : world) : Prop :=
  forall c, o = Some c -> is_block c = true /\ find_in (c_id c) (w_chains w) = Some c.

Definition served (r : res (option chain)) (w : world) : Prop :=
  wf_chains (w_chains w) /\ match r with Ok o => serves o w | Raise _ => True end.

Lemma spec_promote l id :
  wf_chains l ->
  (forall c, find_in id l = Some c -> is_block c = true) ->
  spec (chains_are l) (ch ← promote id; mret (Some ch)) served.
Proof.
  intros Hwf Hb. assert (Hu : epoch_update (with_status ChActive)) by by apply with_status_update.
  apply (spec_bind _ (fun c w => chains_are (update_chains id (with_status ChActive) l) w /\
           exists c0, find_in id l = Some c0 /\ c = with_status ChActive c0)).
  - eapply spec_conseq; [apply spec_chain_update|done|]. unfold chains_are.
    intros [c|e] w [Hor Hc]; cbn.
    + destruct (Hc c eq_refl) as (c0 & ? & ? & ?). split; [done|eauto].
    + split; [|done]. destruct Hor as [->| ->]; [done|by apply update_wf].
  - intros c. apply spec_ret. unfold chains_are. intros w (Hw & c0 & Hf & ->). split.
    { rewrite Hw. by apply update_wf. }
    intros c ?. simplify_eq. rewrite is_block_update by done. split; [by eapply Hb|].
    rewrite Hw. destruct (Hu c0) as (-> & _). apply find_in_some in Hf as Hid. destruct Hid as [_ ->].
    by rewrite find_in_update, Hf.
Qed.

Section strict.
Context (Hlaws : SaltProviderLaws provider).

Lemma spec_tryResolve l c :
  spec (chains_are l) (tryResolve c) (fun _ w => chains_are l w).
Proof using Hlaws.
  apply (spec_try _ (fun _ w => chains_are l w)); [|intros; by apply spec_ret].
  eapply spec_conseq; [apply (spec_frame fairness_tables); [apply _|apply tables_frame|apply sp_resolve_frame]|done|].
  by intros [].
Qed.

Lemma spec_commit l :
  spec (chains_are l) sp_commit
    (fun r w => chains_are l w /\ match r with Ok c => sc_source c = sp_source | _ => True end).
Proof using Hlaws.
  intros w Hw. split.
  - apply (spec_frame fairness_tables sp_commit l); [apply _|apply tables_frame|apply sp_commit_frame|done].
  - destruct (run sp_commit w) as [[c|e] w'] eqn:E; [|done]. by eapply sp_commit_source.
Qed.

Context (Hstrict : requireBlockSalt = true).

(** In strict mode a commitment that activates carries the provider's source. *)
Lemma spec_commitSalt l activate :
  spec (chains_are l) (commitSalt activate)
    (fun r w => chains_are l w /\ match r with
      | Ok (Some (c, _)) => sc_source c = sp_source /\ (activate = true -> truthy (sc_salt c) = true)
      | _ => True end).
Proof using Hlaws Hstrict.
  unfold commitSalt. rewrite Hstrict. cbv zeta.
  apply (spec_bind _ (fun x w => chains_are l w /\
    match x.1 with Some c => sc_source c = sp_source | None => True end)).
  - apply (spec_try _ (fun _ w => chains_are l w)).
    + apply (spec_bind _ (fun c w => chains_are l w /\ sc_source c = sp_source)).
      * eapply spec_conseq; [apply spec_commit|done|]. intros [c|e] w [? ?]; done.
      * intros c. by apply spec_ret.
    + intros e. cbn. intros w Hw. done.
  - intros [[c|] fb]; cbn [fst]; [|apply spec_ret; by intros w [? ?]].
    destruct (activate && negb (truthy (sc_salt c))) eqn:E.
    + cbn. intros w [Hw _]. done.
    + apply spec_ret. intros w [Hw Hs]. split_and!; try done.
      intros ->. by destruct (truthy (sc_salt c)).
Qed.

Lemma spec_newSeedChain l : spec (chains_are l) newSeedChain (fun _ w => chains_are l w).
Proof using Type.
  apply (spec_frame fairness_tables); [apply _|apply tables_frame|].
  unfold newSeedChain, Providers.randomBytesHex. steps.
Qed.

Lemma bump_many_chains n w : w_chains (bump_many n w) = w_chains w.
Proof using Type. induction n as [|n IH]; [done|]. cbn. by rewrite <- IH. Qed.

Lemma spec_seeds l mk ss : spec (chains_are l) (seeds_createMany mk ss) (fun _ w => chains_are l w).
Proof using Type.
  apply spec_db; try done. intros w Hw. unfold chains_are. cbn. by rewrite bump_many_chains.
Qed.

Lemma spec_chain_create l (mk : uuid -> Z -> chain) :
  wf_chains l -> (forall id now, c_status (mk id now) = ChPending -> is_block (mk id now) = true) ->
  spec (chains_are l) (chain_create mk)
    (fun r w => wf_chains (w_chains w) /\
       forall c, r = Ok c -> (exists id now, c = mk id now) /\ find_in (c_id c) (w_chains w) = Some c).
Proof using Type.
  intros [Hn Hp] Hmk. apply spec_db; unfold chains_are; [done|intros w ->; by split|].
  intros w Hl. cbv zeta. set (c := mk (w_uuid w) (w_now w)).
  destruct (List.existsb _ (w_chains w)) eqn:Ex; cbn; rewrite Hl; [by repeat split|].
  assert (Hfresh : c_id c ∉ c_id <$> l).
  { intros (d & Hd & Hin)%list_elem_of_fmap. rewrite Hl in Ex.
    assert (List.existsb (fun d => (c_epoch d =? c_epoch c) || N.eqb (c_id d) (c_id c)) l = true); [|congruence].
    apply existsb_exists. exists d. split; [by apply list_elem_of_In|]. rewrite Hd, N.eqb_refl. by rewrite orb_true_r. }
  assert (Hwf : wf_chains (l ++ [c])).
  { split.
    - rewrite fmap_app. apply NoDup_app. split; [done|]. split; [|apply NoDup_singleton].
      intros x Hx Hx'%list_elem_of_singleton. by subst x.
    - intros d [Hd|Hd%list_elem_of_singleton]%elem_of_app Hst; [by apply Hp|subst d; by apply Hmk]. }
  split; [|done]. split; [done|]. intros d ?. simplify_eq. split; [by exists (w_uuid w), (w_now w)|].
  apply find_in_elem; [apply Hwf|]. apply elem_of_app. right. by left.
Qed.

Context (Hsrc : sp_source = "eth-block"%string).

(** A read, then a continuation that may use what was read. *)
Lemma spec_read_bind {A B} l (f : world -> A) (k : A -> prog world B) (Q : res B -> world -> Prop) :
  (forall w, chains_are l w -> Q (Raise DbUnavailable) w) ->
  (forall w0, chains_are l w0 -> spec (chains_are l) (k (f w0)) Q) ->
  spec (chains_are l) (x ← db_get f; k x) Q.
Proof using Type.
  intros HQ Hk.
  apply (spec_bind _ (fun a w => chains_are l w /\ exists w0, chains_are l w0 /\ a = f w0)).
  - apply spec_db_get; [done|done|]. intros w Hw. split; [done|eauto].
  - intros a w (Hw & w0 & Hw0 & ->). by apply (Hk w0).
Qed.

(** A program that leaves the epochs alone, then a continuation. *)
Lemma spec_frame_bind {A B} l (p : prog world A) (k : A -> prog world B) (Q : res B -> world -> Prop) :
  spec (chains_are l) p (fun _ w => chains_are l w) ->
  (forall e w, chains_are l w -> Q (Raise e) w) ->
  (forall a, spec (chains_are l) (k a) Q) ->
  spec (chains_are l) (x ← p; k x) Q.
Proof using Type.
  intros Hp HQ Hk. apply (spec_bind _ (fun _ => chains_are l)); [|done].
  eapply spec_conseq; [apply Hp|done|]. intros [a|e] w; auto.
Qed.

Lemma spec_on {A} (Phi : list chain -> Prop) (p : prog world A) Q :
  (forall l, Phi l -> spec (chains_are l) p Q) -> spec (fun w => Phi (w_chains w)) p Q.
Proof using Type. intros H w Hw. by apply (H (w_chains w)). Qed.

Lemma raised_served l : wf_chains l -> forall e w, chains_are l w -> served (Raise e) w.
Proof using Type. intros Hwf e w <-. by split. Qed.

Lemma spec_createEpoch l activate :
  wf_chains l ->
  spec (chains_are l) (createEpoch activate) (fun r w => wf_chains (w_chains w) /\ (activate = true -> served r w)).
Proof using Hlaws Hstrict Hsrc.
  intros Hwf.
  assert (Hr : forall e w, chains_are l w ->
    wf_chains (w_chains w) /\ (activate = true -> served (@Raise (option chain) e) w)).
  { intros e w <-. by split. }
  unfold createEpoch. apply spec_read_bind; [by apply Hr|]. intros w0 Hw0.
  generalize (nextEpoch w0); intros epoch.
  apply (spec_bind _ (fun x w => chains_are l w /\ match x with
      | Some (c, _) => sc_source c = sp_source /\ (activate = true -> truthy (sc_salt c) = true)
      | None => True end)).
  { eapply spec_conseq; [apply spec_commitSalt|done|]. intros [x|e] w [Hw Hx]; [by split|by apply Hr]. }
  intros [[c fb]|]; apply spec_pure; [intros [Hs Ht]|intros _; apply spec_ret; intros w <-; by split].
  cbv zeta. apply spec_frame_bind; [apply spec_newSeedChain|apply Hr|]. intros seeds.
  apply (spec_bind _ (fun ch w => wf_chains (w_chains w) /\
           (activate = true -> is_block ch = true /\ find_in (c_id ch) (w_chains w) = Some ch))).
  { eapply spec_conseq; [apply spec_chain_create; [done|]|done|].
    - intros id now _. unfold is_block. cbn. rewrite Hs, Hsrc. apply eqb_str_refl.
    - cbn. intros [ch|e] w [Hw Hc]; [|by split; [|intros _; split]].
      destruct (Hc ch eq_refl) as [(id & now & ->) Hf]. split; [done|]. intros _. split; [|done].
      unfold is_block. cbn. rewrite Hs, Hsrc. apply eqb_str_refl. }
  intros ch. apply (spec_on (fun l' => wf_chains l' /\
    (activate = true -> is_block ch = true /\ find_in (c_id ch) l' = Some ch))).
  intros l' [Hw Hch]. assert (Hdone : forall w', chains_are l' w' ->
    wf_chains (w_chains w') /\ (activate = true -> served (Ok (Some ch)) w')).
  { unfold chains_are, served, serves. intros w' Hw'. rewrite Hw'. split; [done|]. intros Ha.
    split; [done|]. intros c' ?. simplify_eq. by apply Hch. }
  assert (Hr' : forall e w', chains_are l' w' ->
    wf_chains (w_chains w') /\ (activate = true -> served (@Raise (option chain) e) w')).
  { unfold chains_are, served. intros e w' Hw'. rewrite Hw'. by split; [|intros _; split]. }
  apply spec_frame_bind; [apply spec_seeds|done|]. intros _.
  apply spec_frame_bind; [apply spec_audit|done|]. intros _.
  apply spec_frame_bind; [destruct fb as [[]|]; [apply spec_audit|by apply spec_ret]|done|]. intros _.
  apply spec_frame_bind; [|done|intros _; by apply spec_ret].
  destruct (sc_salt c); [|by apply spec_ret].
  apply spec_when; [intros _; apply spec_audit|done].
Qed.

Lemma spec_activate l : wf_chains l -> spec (chains_are l) (createEpoch true) served.
Proof using Hlaws Hstrict Hsrc.
  intros Hwf. eapply spec_conseq; [by apply (spec_createEpoch l true)|done|]. intros r w [_ H]. by apply H.
Qed.

Lemma spec_ensureFromPending l : wf_chains l -> spec (chains_are l) ensureFromPending served.
Proof using Hlaws Hstrict Hsrc.
  intros Hwf. pose proof (raised_served l Hwf) as Hr. unfold ensureFromPending.
  apply spec_read_bind; [by apply Hr|]. intros w0 Hw0.
  apply (spec_bind _ (fun o w => served (Ok o) w)); [|intros [ch|] w Hs].
  - destruct (min_epoch _) as [p|] eqn:Ep; [|apply spec_ret; intros w <-; by split].
    apply min_where_elem in Ep as [Hin Hst%is_status_eq]. rewrite Hw0 in Hin.
    assert (Hb : is_block p = true) by (apply Hwf; [done|by rewrite Hst]).
    apply spec_frame_bind; [by apply spec_tryResolve|by apply Hr|]. intros [s|]; last first.
    { apply spec_ret. intros w <-. by split. }
    destruct (nonempty s); [|apply spec_ret; intros w <-; by split].
    set (upd := fun now => update_chains (c_id p) (with_salt s now) l).
    apply (spec_bind _ (fun _ w => exists now, chains_are (upd now) w)).
    { apply spec_frame_bind; [apply (spec_frame fairness_tables); [apply _|apply tables_frame|apply steps_now; apply _]|
        by intros; apply Hr|].
      intros now. eapply spec_conseq; [apply spec_chain_update|done|].
      intros [c|e] w [Hor Hc]; [destruct (Hc c eq_refl) as (c0 & _ & _ & ?); by exists now|].
      split; [|done]. destruct Hor as [->| ->]; [done|apply update_wf; [apply with_salt_update|done]]. }
    intros _ w [now Hw].
    assert (Hp : spec (chains_are (upd now)) (ch ← promote (c_id p); mret (Some ch)) served).
    { apply spec_promote; [apply update_wf; [apply with_salt_update|done]|].
      intros c. unfold upd. rewrite find_in_update, (find_in_elem p) by (try apply with_salt_update; try done; apply Hwf).
      cbn. intros ?. by simplify_eq. }
    specialize (Hp w Hw). by destruct (run _ w) as [[] ?].
  - done.
  - destruct Hs as [Hw _]. by apply (spec_activate (w_chains w)).
Qed.

Lemma spec_exhaust {B} l id (Q : res B -> world -> Prop) (k : chain -> prog world B) :
  wf_chains l -> (forall e w, wf_chains (w_chains w) -> Q (Raise e) w) ->
  (forall d l', wf_chains l' -> spec (chains_are l') (k d) Q) ->
  spec (chains_are l) (d ← chain_update id (with_status ChExhausted); k d) Q.
Proof using Type.
  intros Hwf Hr Hk. assert (Hu : epoch_update (with_status ChExhausted)) by by apply with_status_update.
  apply (spec_bind _ (fun _ w => wf_chains (w_chains w))); [|intros d w Hw; by apply (Hk d (w_chains w))].
  eapply spec_conseq; [apply spec_chain_update|done|]. intros r w [Hor _].
  assert (Hw : wf_chains (w_chains w)).
  { destruct Hor as [Hw|Hw]; unfold chains_are in Hw; rewrite Hw; auto using update_wf. }
  destruct r; auto.
Qed.

Lemma spec_retire {B} l c (Q : res B -> world -> Prop) (k : prog world B) :
  wf_chains l -> (forall e w, wf_chains (w_chains w) -> Q (Raise e) w) ->
  (forall l', wf_chains l' -> spec (chains_are l') k Q) ->
  spec (chains_are l) (_ ← retireChain c; k) Q.
Proof using Type.
  intros Hwf Hr Hk. apply (spec_bind _ (fun _ w => wf_chains (w_chains w))).
  - apply spec_exhaust; [done|auto|]. intros d l' Hl'. apply spec_ret. by intros w <-.
  - intros _ w Hw. by apply (Hk (w_chains w)).
Qed.

Lemma served_raise_wf e w : wf_chains (w_chains w) -> served (Raise e) w.
Proof using Type. by split. Qed.

Lemma spec_ensureFromArmed l : wf_chains l -> spec (chains_are l) ensureFromArmed served.
Proof using Hlaws Hstrict Hsrc.
  intros Hwf. unfold ensureFromArmed. rewrite Hstrict.
  apply spec_read_bind; [by apply raised_served|]. intros w0 Hw0.
  destruct (min_epoch _) as [a|] eqn:Ea; [|by apply spec_ensureFromPending].
  destruct (true && negb (is_block a)) eqn:Eb.
  - apply spec_retire; [done|apply served_raise_wf|apply spec_ensureFromPending].
  - apply min_where_elem in Ea as [Hin _]. rewrite Hw0 in Hin. apply spec_promote; [done|].
    rewrite (find_in_elem a) by (try done; apply Hwf). intros c ?. simplify_eq.
    by destruct (is_block c).
Qed.

Lemma spec_ensureActiveChain l : wf_chains l -> spec (chains_are l) ensureActiveChain served.
Proof using Hlaws Hstrict Hsrc.
  intros Hwf. unfold ensureActiveChain, findActive. rewrite Hstrict.
  apply spec_read_bind; [by apply raised_served|]. intros w0 Hw0.
  destruct (max_epoch _) as [a|] eqn:Ea; [|by apply spec_ensureFromArmed].
  destruct (true && negb (is_block a)) eqn:Eb.
  - apply spec_retire; [done|apply served_raise_wf|apply spec_ensureFromArmed].
  - apply max_epoch_elem, chains_where_elem in Ea as [Hin _]. rewrite Hw0 in Hin.
    apply spec_ret. intros w <-. split; [done|]. intros c ?. simplify_eq.
    split; [by destruct (is_block c)|]. by apply find_in_elem; [apply Hwf|].
Qed.

(** An allocation: the seed is of this epoch, which is a block epoch. *)
Definition from_block (a : allocated) (w : world) : Prop :=
  exists c, find_in (sd_chainId (al_seed a)) (w_chains w) = Some c /\ is_block c = true /\
            al_salt a = c_salt c /\ al_epoch a = c_epoch c.
Definition allocated_ok (r : res (option allocated)) (w : world) : Prop :=
  wf_chains (w_chains w) /\ forall a, r = Ok (Some a) -> from_block a w.

Lemma spec_nextUnused l c :
  wf_chains l -> is_block c = true -> find_in (c_id c) l = Some c ->
  spec (chains_are l) (nextUnusedSeed (c_id c)) allocated_ok.
Proof using Type.
  intros Hwf Hb Hf. apply spec_db_get; [done|by intros w <-|].
  intros w <-. split; [done|]. intros a Ha. destruct (find_unused w (c_id c)) as [s|] eqn:Es; [|done].
  change (find_chain (c_id c) w) with (find_in (c_id c) (w_chains w)) in Ha. rewrite Hf in Ha.
  simplify_eq. exists c. cbn. split; [|done]. by destruct (find_unused_spec w (c_id c) s Es) as (_ & -> & _).
Qed.

Lemma spec_serve_seed {B} l c (k : option allocated -> prog world B) Q :
  wf_chains l -> is_block c = true -> find_in (c_id c) l = Some c ->
  (forall e w, wf_chains (w_chains w) -> Q (Raise e) w) ->
  (forall a, spec (fun w => wf_chains (w_chains w) /\ from_block a w) (k (Some a)) Q) ->
  (forall l', wf_chains l' -> spec (chains_are l') (k None) Q) ->
  spec (chains_are l) (s ← nextUnusedSeed (c_id c); k s) Q.
Proof using Type.
  intros Hwf Hb Hf Hr Hs Hn. apply (spec_bind _ (fun s w => allocated_ok (Ok s) w)).
  - eapply spec_conseq; [by apply spec_nextUnused|done|]. intros [s|e] w; [done|]. intros [? _]. auto.
  - intros [a|] w [Hw Ha]; [apply Hs; auto|by apply (Hn (w_chains w))].
Qed.

Lemma spec_allocateSeed l : wf_chains l -> spec (chains_are l) allocateSeed allocated_ok.
Proof using Hlaws Hstrict Hsrc.
  intros Hwf.
  assert (Hr : forall e w, wf_chains (w_chains w) -> allocated_ok (Raise e) w) by by split.
  assert (Hret : forall a, spec (fun w => wf_chains (w_chains w) /\ from_block a w)
                             (mret (Some a)) allocated_ok).
  { intros a. apply spec_ret. intros w [Hw Ha]. split; [done|]. intros a' ?. by simplify_eq. }
  assert (Hens : forall (k : option chain -> prog world (option allocated)) l, wf_chains l ->
    (forall l', wf_chains l' -> spec (chains_are l') (k None) allocated_ok) ->
    (forall c l', wf_chains l' -> is_block c = true -> find_in (c_id c) l' = Some c ->
       spec (chains_are l') (k (Some c)) allocated_ok) ->
    spec (chains_are l) (o ← ensureActiveChain; k o) allocated_ok).
  { intros k l0 Hl0 Hn Hs. apply (spec_bind _ (fun o w => served (Ok o) w)).
    - eapply spec_conseq; [by apply spec_ensureActiveChain|done|]. intros [o|e] w; [done|]. intros [? _]. auto.
    - intros [c|] w [Hw Hc]; [destruct (Hc c eq_refl); by apply (Hs c (w_chains w))|by apply (Hn (w_chains w))]. }
  assert (Hnone : forall l', wf_chains l' -> spec (chains_are l') (mret None) allocated_ok).
  { intros l' Hl'. apply spec_ret. intros w <-. by split. }
  unfold allocateSeed. apply Hens; [done|done|]. intros c l' Hl' Hb Hf.
  apply spec_serve_seed; [done..| ]. intros l1 Hl1.
  apply spec_exhaust; [done..|]. intros _ l2 Hl2. apply Hens; [done|done|]. intros n l3 Hl3 Hbn Hfn.
  apply spec_serve_seed; [done..|]. intros l4 Hl4. apply spec_raise. intros w <-. by apply Hr.
Qed.
End strict.

(** *** A strict node without an epoch *)

Section cold_start.
Context (Hlaws : SaltProviderLaws provider) (Hstrict : requireBlockSalt = true).
Context (Hunresolved : forall w c w', run sp_commit w = (Ok c, w') -> sc_salt c = None).

(** Every epoch has served its rounds; in particular there may be none. *)
Definition spent (l : list chain) : Prop := forall c, c ∈ l -> c_status c = ChExhausted.

Lemma spent_where l w P : spent l -> chains_are l w -> P ChExhausted = false -> chains_where P w = [].
Proof using Type.
  intros Hs Hw HP. destruct (chains_where P w) as [|c cs] eqn:E; [done|].
  assert (Hc : c ∈ chains_where P w) by (rewrite E; by left).
  apply chains_where_elem in Hc as [Hin Hst]. rewrite Hw in Hin. rewrite (Hs c Hin) in Hst. congruence.
Qed.

Lemma spec_cold_create l :
  spec (chains_are l) (createEpoch true) (fun r w => chains_are l w /\ forall c, r <> Ok (Some c)).
Proof using Hlaws Hstrict Hunresolved.
  unfold createEpoch. apply spec_read_bind; [done|]. intros w0 _.
  apply (spec_bind _ (fun x w => chains_are l w /\ x = None)); [|intros x; apply spec_pure; intros ->; by apply spec_ret].
  unfold commitSalt. rewrite Hstrict. cbv zeta.
  apply (spec_bind _ (fun x w => chains_are l w /\ match x.1 with Some c => sc_salt c = None | None => True end)).
  - apply (spec_try _ (fun _ w => chains_are l w)); [|by intros e w].
    apply (spec_bind _ (fun c w => chains_are l w /\ sc_salt c = None)); [|intros c; by apply spec_ret].
    intros w Hw. pose proof (spec_commit Hlaws l w Hw) as [H _].
    destruct (run sp_commit w) as [[c|e] w'] eqn:E; cbn in *; [|done]. split; [done|]. by eapply Hunresolved.
  - intros [[c|] fb]; apply spec_pure; cbn [fst]; [|intros _; by apply spec_ret].
    intros ->. by intros w Hw.
Qed.

Lemma spec_cold_ensure l : spent l ->
  spec (chains_are l) ensureActiveChain (fun r w => chains_are l w /\ forall c, r <> Ok (Some c)).
Proof using Hlaws Hstrict Hunresolved.
  intros Hs. unfold ensureActiveChain, ensureFromArmed, ensureFromPending, findActive.
  do 3 (apply spec_read_bind; [done|]; intros ? Hw; rewrite (spent_where l _ _ Hs Hw) by done; cbn [min_epoch max_epoch foldr]; clear Hw).
  apply (spec_bind _ (fun o w => chains_are l w /\ o = None)); [by apply spec_ret|].
  intros o. apply spec_pure. intros ->. apply spec_cold_create.
Qed.

(** What the engine asks of the service, round after round; exceptions are
    caught by its [safe] wrapper. *)
Definition engine_tick (b : bool) : prog world unit :=
  try_catch (if b then forget allocateSeed else maintain false) (fun _ => mret tt).

Lemma spec_cold_allocate l : spent l ->
  spec (chains_are l) allocateSeed (fun r w => chains_are l w /\ forall a, r <> Ok (Some a)).
Proof using Hlaws Hstrict Hunresolved.
  intros Hs. apply (spec_bind _ (fun o w => chains_are l w /\ o = None)).
  - eapply spec_conseq; [by apply spec_cold_ensure|done|]. intros [[c|]|e] w [Hw Hn]; [by destruct (Hn c)|done|done].
  - intros o. apply spec_pure. intros ->. by apply spec_ret.
Qed.

Lemma spec_cold_tick l b : spent l -> spec (chains_are l) (engine_tick b) (fun _ w => chains_are l w).
Proof using Hlaws Hstrict Hunresolved.
  intros Hs. apply (spec_try _ (fun _ w => chains_are l w)); [|intros; by apply spec_ret].
  eapply (spec_conseq _ _ _ (fun _ w => chains_are l w)); [|done|by intros []]. destruct b.
  - apply (spec_bind _ (fun _ w => chains_are l w)); [|intros; by apply spec_ret].
    eapply spec_conseq; [by apply spec_cold_allocate|done|]. by intros [] w [? _].
  - unfold maintain, findActive. apply (spec_try _ (fun _ w => chains_are l w)); [|intros; by apply spec_ret].
    eapply (spec_conseq _ _ _ (fun _ w => chains_are l w)); [|done|by intros []].
    apply spec_read_bind; [done|]. intros w0 Hw0. rewrite (spent_where l _ _ Hs Hw0) by done. cbn.
    apply (spec_read_bind l (fun w => max_epoch (chains_where (is_status ChActive) w))); [done|].
    intros w1 Hw1. rewrite (spent_where l _ _ Hs Hw1) by done. by apply spec_ret.
Qed.

Lemma spec_cold_ticks l bs : spent l -> spec (chains_are l) (for_each bs engine_tick) (fun _ w => chains_are l w).
Proof using Hlaws Hstrict Hunresolved.
  intros Hs. apply (spec_for_each (chains_are l)); [|done]. intros b _.
  eapply spec_conseq; [by apply spec_cold_tick|done|]. by intros [].
Qed.
End cold_start.
End service.

(** *** Properties *)

(** In strict mode only a block-salt epoch ever serves a round.  For any
    provider that names its commitments as block salts, from any database whose
    epochs have distinct identifiers and whose pending epochs are block epochs,
    and whichever statements fail: the seed handed to a round belongs to an
    epoch whose salt source is the block hash, and carries that epoch's salt.  A
    random epoch left over from play mode is retired instead. *)
Theorem strict_serves_block_salt env P sha rand len w a w'
  (Hlaws : SaltProviderLaws P) (Hsrc : sp_source = "eth-block"%string)
  (Hstrict : requireBlockSalt env = true) (Hwf : wf_chains (w_chains w)) :
  run (allocateSeed env P sha rand len) w = (Ok (Some a), w') ->
  exists c, find_in (sd_chainId (al_seed a)) (w_chains w') = Some c /\
    c_saltSource c = "eth-block"%string /\ al_salt a = c_salt c /\ al_epoch a = c_epoch c.
Proof.
  intros E. pose proof (spec_allocateSeed env P sha rand len Hlaws Hstrict Hsrc _ Hwf w eq_refl) as [_ Ha].
  rewrite E in Ha. destruct (Ha a eq_refl) as (c & ? & Hb & ? & ?). exists c.
  split_and!; try done. by apply eqb_str_eq.
Qed.

(** A strict node with a random epoch still active and a block epoch armed. *)
Definition flipped_world : world :=
  set_seeds [mk_seed 11 1 1 "h" "aa" None; mk_seed 21 2 0 "h" "bb" None; mk_seed 22 2 1 "h" "cc" None]
    (set_chains [mk_chain 1 0 "c0" 2 "random" None None (Some "r"%string) ChActive 0 None;
                 mk_chain 2 1 "c1" 2 "eth-block" (Some "ethereum"%string) (Some 100) (Some "0xbeef"%string) ChArmed 0 None]
       empty_world).

Definition quiet_net (_ : Z) (_ : nat) (_ _ : string) : res (option EthBlock.rpc_block) := Ok None.

Lemma strict_serves_block_salt_witness :
  let P := Providers.EthBlockSaltProvider EthBlock.strict_env quiet_net in
  exists a w', run (allocateSeed EthBlock.strict_env P (fun _ => "00"%string) (fun _ => "00"%string) (fun _ => 0)) flipped_world
      = (Ok (Some a), w') /\ al_salt a = Some "0xbeef"%string /\
    exists c, find_in (sd_chainId (al_seed a)) (w_chains w') = Some c /\
      c_saltSource c = "eth-block"%string /\ al_salt a = c_salt c /\ al_epoch a = c_epoch c.
Proof.
  cbv zeta. destruct (run _ flipped_world) as [r w'] eqn:E.
  assert (Hr : r = Ok (Some (mk_allocated (mk_seed 22 2 1 "h" "cc" None) (Some "0xbeef"%string) 1))).
  { apply (f_equal fst) in E. vm_compute in E. by rewrite <- E. }
  subst r. eexists _, w'. split; [reflexivity|]. split; [reflexivity|].
  apply (fun H1 H2 H3 H4 => strict_serves_block_salt _ _ _ _ _ _ _ _ H1 H2 H3 H4 E);
    [apply Providers.EthBlock_laws|reflexivity|vm_compute; reflexivity|].
  split; [by apply (bool_decide_unpack _); vm_compute|].
  intros c [->|[->|Hc]%elem_of_cons]%elem_of_cons; [done|done|]. by apply elem_of_nil in Hc.
Defined.

(** The seed handed to a round is new: it belongs to the epoch named, is not
    the public commit, no round has used it, and it is the lowest such seed of
    its epoch, so rounds walk each chain in order without skipping. *)
Theorem allocated_seed_is_next_unused env P sha rand len w a w' :
  run (allocateSeed env P sha rand len) w = (Ok (Some a), w') ->
  let s := al_seed a in
  s ∈ w_seeds w' /\ 1 <= sd_chainIndex s /\ (forall id r, w_rounds w' !! id = Some r -> r_seedId r <> sd_id s) /\
  forall s', s' ∈ w_seeds w' -> sd_chainId s' = sd_chainId s -> 1 <= sd_chainIndex s' ->
    seed_used w' s' = false -> sd_chainIndex s <= sd_chainIndex s'.
Proof.
  intros E. assert (Hn : exists id w0, run (nextUnusedSeed id) w0 = (Ok (Some a), w')).
  { unfold allocateSeed in E. apply run_bind_ok in E as ([c|] & w1 & _ & E); [|done].
    apply run_bind_ok in E as ([s|] & w2 & E2 & E); [rewrite run_ret in E; simplify_eq; by eexists _, _|].
    apply run_bind_ok in E as (d & w3 & _ & E). apply run_bind_ok in E as ([n|] & w4 & _ & E); [|done].
    apply run_bind_ok in E as ([s|] & w5 & E5 & E); [|done]. rewrite run_ret in E. simplify_eq. by eexists _, _. }
  destruct Hn as (id & w0 & Hn). apply run_db_ok in Hn as (fs & Hn).
  cbv beta in Hn. injection Hn as Hm <-. revert Hm. generalize (set_faults fs w0). intros v Hm.
  destruct (find_unused v id) as [s|] eqn:Es; [|done]. destruct (find_chain id v); simplify_eq.
  apply find_unused_spec in Es as (H1 & H2 & H3 & H4 & H5). cbn [al_seed]. split_and!; try done.
  - intros rid r Hr Heq. unfold seed_used in H4. apply bool_decide_eq_false in H4. apply H4. by exists rid, r.
  - intros s' ? Hc. apply H5; [done|congruence].
Qed.

Lemma allocated_seed_is_next_unused_witness :
  exists a w', run (allocateSeed (fun _ => None) (Providers.DailySaltProvider (fun _ => "00"%string))
      (fun _ => "00"%string) (fun _ => "00"%string) (fun _ => 0)) flipped_world = (Ok (Some a), w') /\
    al_seed a ∈ w_seeds w' /\ 1 <= sd_chainIndex (al_seed a).
Proof.
  destruct (run _ flipped_world) as [r w'] eqn:E.
  assert (Hr : r = Ok (Some (mk_allocated (mk_seed 11 1 1 "h" "aa" None) (Some "r"%string) 0))).
  { apply (f_equal fst) in E. vm_compute in E. by rewrite <- E. }
  subst r. eexists _, w'. split; [reflexivity|].
  pose proof (allocated_seed_is_next_unused _ _ _ _ _ _ _ _ E) as (H1 & H2 & _). by split.
Defined.

Definition hidden (st : chain_status) : Prop := st = ChPending \/ st = ChArmed.

Lemma hidden_not_public st : hidden st -> salt_public st = false.
Proof. by intros [->| ->]. Qed.

Lemma epochSeeds_rows w epoch d w' :
  run (epochSeeds epoch) w = (Ok (Some d), w') ->
  exists c, c ∈ w_chains w /\ c_epoch c = epoch /\ du_status d = c_status c /\
    du_salt d = (if salt_public (c_status c) then c_salt c else None) /\
    exists seeds, du_seeds d = List.map (fun s => (sd_chainIndex s, sd_seed s, sd_seedHash s, sd_revealedAt s)) seeds /\
      forall s, s ∈ seeds -> s ∈ w_seeds w /\ sd_chainId s = c_id c /\ is_Some (sd_revealedAt s).
Proof.
  intros E. unfold epochSeeds in E. apply run_bind_ok in E as (oc & w1 & E1 & E).
  apply run_db_ok in E1 as (fs & E1). cbv beta in E1. injection E1 as <- <-.
  destruct (List.find _ _) as [c|] eqn:Ec; [|by rewrite run_ret in E].
  apply run_bind_ok in E as (seeds & w2 & E2 & E). apply run_db_ok in E2 as (fs' & E2).
  cbv beta in E2. injection E2 as <- <-. rewrite run_ret in E. simplify_eq. cbn.
  apply List.find_some in Ec as [Hin Heq]. exists c. split; [by apply list_elem_of_In|].
  split; [lia|]. split; [done|]. split; [done|]. eexists; split; [reflexivity|].
  intros s Hs. rewrite (merge_sort_Permutation index_le) in Hs.
  rewrite list_elem_of_In, filter_In, <- list_elem_of_In, andb_true_iff, N.eqb_eq in Hs.
  destruct Hs as (? & ? & Hr). split_and!; try done. by destruct (sd_revealedAt s).
Qed.

Lemma listEpochs_rows sha w l w' :
  run (listEpochs sha) w = (Ok l, w') ->
  forall i, i ∈ l -> exists c, c ∈ w_chains w /\ ei_epoch i = c_epoch c /\ ei_status i = c_status c /\
    ei_commitHash i = c_commitHash c /\
    ei_salt i = (if salt_public (c_status c) then c_salt c else None).
Proof.
  intros E. unfold listEpochs in E. apply run_bind_ok in E as (cs & w1 & E1 & E).
  apply run_db_ok in E1 as (fs & E1). cbv beta in E1. injection E1 as Hcs <-.
  assert (Hsub : forall c, c ∈ cs -> c ∈ w_chains w).
  { intros c. rewrite <- Hcs, (merge_sort_Permutation epoch_le). done. }
  clear Hcs. revert E. generalize (set_faults fs w).
  match goal with |- context [fold_each _ ?f _] => set (body := f) end.
  assert (Hacc : forall i, i ∈ @nil epoch_info -> exists c, c ∈ w_chains w /\
    ei_epoch i = c_epoch c /\ ei_status i = c_status c /\ ei_commitHash i = c_commitHash c /\
    ei_salt i = (if salt_public (c_status c) then c_salt c else None)) by (by intros i Hi%elem_of_nil).
  revert Hacc. generalize (@nil epoch_info). induction cs as [|c cs IH]; intros acc Hacc v E.
  { cbn in E. by simplify_eq. }
  cbn [fold_each] in E. apply run_bind_ok in E as (acc' & w2 & E2 & E).
  apply run_bind_ok in E2 as (rev & w3 & _ & E2). rewrite run_ret in E2. injection E2 as <- <-.
  eapply IH; [intros; apply Hsub; by right| |exact E].
  intros i [Hi|Hi%list_elem_of_singleton]%elem_of_app; [by apply Hacc|]. subst i.
  exists c. split; [apply Hsub; by left|done].
Qed.

(** The public reads keep the secrets.  Every row of an epoch's dump is a
    revealed seed of that epoch, and the raw salt of an epoch that has not
    served yet (pending or armed) appears neither in its dump nor in the list of
    epochs. *)
Theorem public_reads_hide_secrets sha w epoch d w1 l w2 :
  run (epochSeeds epoch) w = (Ok (Some d), w1) -> run (listEpochs sha) w = (Ok l, w2) ->
  (hidden (du_status d) -> du_salt d = None) /\
  (forall i, i ∈ l -> hidden (ei_status i) -> ei_salt i = None) /\
  exists c, c ∈ w_chains w /\ c_epoch c = epoch /\
    forall idx sd h t, (idx, sd, h, t) ∈ du_seeds d -> exists s, s ∈ w_seeds w /\ sd_chainId s = c_id c /\
      sd_seed s = sd /\ sd_chainIndex s = idx /\ is_Some (sd_revealedAt s).
Proof.
  intros E1 E2. destruct (epochSeeds_rows _ _ _ _ E1) as (c & Hc & He & Hst & Hsalt & seeds & Hd & Hs).
  split; [|split].
  - rewrite Hst, Hsalt. by intros ->%hidden_not_public.
  - intros i Hi Hh. destruct (listEpochs_rows _ _ _ _ E2 i Hi) as (c' & _ & _ & Hst' & _ & ->).
    rewrite Hst' in Hh. by rewrite (hidden_not_public _ Hh).
  - exists c. split; [done|]. split; [done|]. intros idx sd h t Hin. rewrite Hd in Hin.
    apply list_elem_of_fmap in Hin as (s & [= -> -> -> ->] & Hin). exists s.
    destruct (Hs s Hin) as (? & ? & ?). by split_and!.
Qed.

Definition two_epochs_world : world :=
  set_seeds [mk_seed 10 1 0 "h0" "aa" (Some 5); mk_seed 11 1 1 "h1" "bb" None]
    (set_chains [mk_chain 1 0 "c0" 2 "random" None None (Some "r"%string) ChArmed 0 None] empty_world).

Lemma public_reads_hide_secrets_witness :
  exists d w1 l w2, run (epochSeeds 0) two_epochs_world = (Ok (Some d), w1) /\
    run (listEpochs (fun _ => "00"%string)) two_epochs_world = (Ok l, w2) /\
    length (du_seeds d) = 1%nat /\ du_salt d = None /\ forall i, i ∈ l -> hidden (ei_status i) -> ei_salt i = None.
Proof.
  destruct (run (epochSeeds 0) two_epochs_world) as [r1 w1] eqn:E1.
  destruct (run (listEpochs (fun _ => "00"%string)) two_epochs_world) as [r2 w2] eqn:E2.
  pose proof E1 as H1. apply (f_equal fst) in H1. vm_compute in H1. cbn [fst] in H1. subst r1.
  pose proof E2 as H2. apply (f_equal fst) in H2. vm_compute in H2. cbn [fst] in H2. subst r2.
  eexists _, w1, _, w2. split; [reflexivity|]. split; [reflexivity|]. split; [reflexivity|].
  destruct (public_reads_hide_secrets _ _ _ _ _ _ _ E1 E2) as (Hd & Hl & _).
  split; [apply Hd; by right|exact Hl].
Defined.

(** A strict node whose database has no pending, armed or active epoch, for
    instance a fresh one, never opens a round: with the block-hash provider, for
    every network behaviour, every fault and every sequence of allocations and
    maintenance passes, no epoch is ever recorded and no seed is handed out.
    [createEpoch] discards its own commitment when the salt is not ready, and
    [maintain] pre-commits only next to an active epoch, so there is no block
    for the stall to wait for. *)
Theorem strict_cold_start_never_opens env net sha rand len bs w
  (Hstrict : requireBlockSalt env = true) (Hspent : spent (w_chains w)) :
  let P := Providers.EthBlockSaltProvider env net in
  let w' := (run (for_each bs (engine_tick env P sha rand len)) w).2 in
  w_chains w' = w_chains w /\ forall a, (run (allocateSeed env P sha rand len) w').1 <> Ok (Some a).
Proof.
  intros P w'.
  assert (Hu : forall v c v', run (@sp_commit P) v = (Ok c, v') -> sc_salt c = None)
    by (intros; by eapply Providers.EthBlock_commit_unresolved).
  pose proof (Providers.EthBlock_laws env net) as Hl.
  assert (Hw : w_chains w' = w_chains w)
    by exact (spec_cold_ticks env P sha rand len Hl Hstrict Hu _ bs Hspent w eq_refl).
  split; [exact Hw|]. exact (proj2 (spec_cold_allocate env P sha rand len Hl Hstrict Hu _ Hspent w' Hw)).
Qed.

Lemma strict_cold_start_never_opens_witness :
  requireBlockSalt EthBlock.strict_env = true /\
  forall a, (run (allocateSeed EthBlock.strict_env (Providers.EthBlockSaltProvider EthBlock.strict_env quiet_net)
    (fun _ => "00"%string) (fun _ => "00"%string) (fun _ => 0)) empty_world).1 <> Ok (Some a).
Proof.
  assert (H : requireBlockSalt EthBlock.strict_env = true) by (vm_compute; reflexivity). split; [exact H|].
  refine (proj2 (strict_cold_start_never_opens EthBlock.strict_env quiet_net _ _ _ [] empty_world H _)).
  intros c Hc. by apply elem_of_nil in Hc.
Defined.
End Fairness.
