(* ===== verification/Bets.v ===== *)
(** * Bets: every money-moving bet operation

    [game/bets.service.ts].  [placeBet] (the checks, the reservation under the
    per-round lock, the debit, the activation retry), [cancelBet], [cashOut],
    [evaluateAutoCashouts], [settleRound], [voidBet] with its two reversals,
    the two reconcilers and the backlog gauges.  The engine is seen through
    [EngineView], the wallet through [WalletProvider]; every [await] is a
    point where other requests, other nodes and the sweeps may run. *)

From S2P Require Import Prelude Effects Js Money Schema Wallet Keys AuditLog OperatorConfig.

Open Scope Z_scope.

(** What the bet service sees of the engine: a phase and a round, possibly a
    follower's stale cache, and the live multiplier (in cents). *)
Record PublicState := { ps_phase : phase; ps_roundId : uuid }.

Class EngineView := {
  getPublicState : prog world (option PublicState);
  currentMultiplier : prog world Z
}.

(** Looking at the engine changes nothing; what it answers is unconstrained. *)
Class ViewLaws (E : EngineView) : Prop := {
  view_state_pure : steps_in eq getPublicState;
  view_mult_pure : steps_in eq currentMultiplier
}.

Record RgContext := { rc_rg : option EffectiveRg; rc_rgPending : bool; rc_sessionStartedAt : option Z }.

Record BetResult := {
  br_ok : bool; br_reason : option string; br_panel : panel;
  br_balance : option Z; br_betId : option uuid; br_currency : option string
}.

Record CashoutResult := {
  co_ok : bool; co_reason : option string; co_userId : uuid; co_panel : panel;
  co_multiplier : option Z; co_payout : option Z; co_balance : option Z;
  co_currency : option string; co_pending : bool
}.

Record VoidResult := {
  vr_betId : uuid; vr_status : bet_status; vr_reversed : bool;
  vr_refundedStake : string; vr_reclaimedPayout : string
}.

(** The arguments of [placeBet]. *)
Record PlaceArgs := {
  q_userId : uuid; q_panel : panel; q_amount : jsnum; q_autoCashout : option Z;
  q_walletId : option uuid; q_limits : option Risk.PerBetLimits; q_demo : bool;
  q_rgCtx : option RgContext; q_operatorId : option uuid
}.

Module Bets.

Definition WalletOwnershipError : exn := JsError "wallet does not belong to user".

(** [e?.message === m] *)
Definition has_message (m : string) (e : exn) : bool :=
  match e with
  | BadRequest m' | Unauthorized m' | Forbidden m' | NotFound m' | Conflict m' | OperatorError m' | JsError m' => eqb_str m' m
  | _ => false
  end.

Definition status_string (s : bet_status) : string :=
  match s with
  | reserving => "reserving" | cancelling => "cancelling" | active => "active"
  | cashed_out => "cashed_out" | busted => "busted" | cancelled => "cancelled"
  | payout_pending => "payout_pending" | voiding => "voiding" | voided => "voided"
  end.

Definition has_status (s : bet_status) (b : bet) : bool := bool_decide (b_status b = s).

Definition recordRejected (reason : string) : prog world unit := emit (EvMetric "bets_rejected" reason).
Definition recordRgBlock (reason : string) : prog world unit := emit (EvMetric "rg_blocks" reason).
Definition recordError (where_ : string) : prog world unit := emit (EvMetric "errors" where_).

Definition bet_fail (reason : string) (p : panel) : BetResult :=
  {| br_ok := false; br_reason := Some reason; br_panel := p; br_balance := None; br_betId := None; br_currency := None |}.
Definition cash_fail (reason : string) (userId : uuid) (p : panel) : CashoutResult :=
  {| co_ok := false; co_reason := Some reason; co_userId := userId; co_panel := p; co_multiplier := None;
     co_payout := None; co_balance := None; co_currency := None; co_pending := false |}.

(** ** Wallet resolution *)

Definition wallet_findUniqueOrThrow (id : uuid) : prog world (uuid * wallet) :=
  db (fun w => match w_wallets w !! id with
               | Some wl => (Ok (id, wl), w)
               | None => (Raise RecordNotFound, w)
               end).

Definition wallet_findFirstOrThrow (userId : uuid) : prog world (uuid * wallet) :=
  db (fun w => match List.find (fun p => bool_decide (w_userId p.2 = userId)) (map_to_list (w_wallets w)) with
               | Some p => (Ok p, w)
               | None => (Raise RecordNotFound, w)
               end).

Definition walletFor (userId : uuid) (walletId : option uuid) : prog world (uuid * wallet) :=
  match walletId with
  | Some id =>
      wl ← wallet_findUniqueOrThrow id;
      if bool_decide (w_userId wl.2 = userId) then mret wl else raise WalletOwnershipError
  | None => wallet_findFirstOrThrow userId
  end.

(** ** Session accounting *)

Record Accounting := { acc_wagered : Z; acc_won : Z; acc_net : Z }.

Definition in_session (walletId : uuid) (since : Z) (b : bet) : bool :=
  bool_decide (b_walletId b = walletId) && (since <=? b_createdAt b).

Definition account (bets : list bet) : Z * Z :=
  fold_left (fun '(wagered, won) b =>
    (if BetStatus.isWageredStatus (b_status b) then wagered + b_amount b else wagered,
     if BetStatus.isWonStatus (b_status b) then won + b_payout b else won)) bets (0, 0).

Definition sessionAccounting (walletId : uuid) (since : Z) : prog world Accounting :=
  bets ← db_get (bets_where (in_session walletId since));
  let '(wagered, won) := account bets in
  mret {| acc_wagered := wagered; acc_won := won; acc_net := wagered - won |}.

(** ** The service *)

Section service.
Context (W : WalletProvider) (E : EngineView) (risk : Risk.RiskLimits).
Context (stringify_length : json -> Z).
Context (PAYOUT_PENDING_ALERT_SEC RESERVING_ALERT_SEC : jsnum).

(** *** placeBet *)

(** [BigInt(Math.floor(amount))]; [None] is its RangeError. *)
Definition bigint_floor (n : jsnum) : option Z :=
  match n with Fin q => Some (Qfloor_Z q) | _ => None end.

(** The controls of a real-money session, with the session's start. *)
Definition active_rg (demo : bool) (ctx : option RgContext) : option (EffectiveRg * Z) :=
  match ctx with
  | Some c =>
      match rc_rg c, rc_sessionStartedAt c with
      | Some g, Some t => if negb demo && negb (t =? 0) then Some (g, t) else None
      | _, _ => None
      end
  | None => None
  end.

Definition rgPending (ctx : option RgContext) : bool :=
  match ctx with Some c => rc_rgPending c | None => false end.

Definition rg_refuse (reason : string) : prog world (option string) :=
  _ ← recordRejected reason; _ ← recordRgBlock reason; mret (Some reason).

(** The checks that read no table: the reason to refuse. *)
Definition rg_gate (rg : option (EffectiveRg * Z)) (pending : bool) : prog world (option string) :=
  match rg with
  | None => mret None
  | Some (g, startedAt) =>
      if enforceRealityCheck g && pending then rg_refuse "reality_check_pending"
      else match maxSessionSec g with
           | None => mret None
           | Some m => now ← Date_now;
                       if startedAt + m * 1000 <=? now then rg_refuse "session_time_limit" else mret None
           end
  end.

Definition in_round_live (roundId : uuid) (b : bet) : bool :=
  bool_decide (b_roundId b = roundId) && (has_status active b || has_status reserving b).

(** The session's money caps, evaluated under the round's lock. *)
Definition session_caps (rg : option (EffectiveRg * Z)) (walletId : uuid) (roundBets : list bet) (amt : Z)
  : prog world unit :=
  match rg with
  | None => mret tt
  | Some (g, startedAt) =>
      if negb (is_Some_b (maxSessionLoss g) || is_Some_b (maxSessionWager g)) then mret tt
      else
        acc ← sessionAccounting walletId startedAt;
        let reserved := fold_left (fun s b => s + b_amount b)
          (List.filter (fun b => bool_decide (b_walletId b = walletId) && has_status reserving b) roundBets) 0 in
        if match maxSessionWager g with Some c => c <? acc_wagered acc + reserved + amt | None => false end
        then _ ← recordRgBlock "session_wager_limit"; raise (ReserveRejected "session_wager_limit")
        else if match maxSessionLoss g with Some c => c <? acc_net acc + reserved + amt | None => false end
        then _ ← recordRgBlock "session_loss_limit"; raise (ReserveRejected "session_loss_limit")
        else mret tt
  end.

(** The reservation row. *)
Definition reservation (q : PlaceArgs) (roundId betId : uuid) (wl : uuid * wallet) (amt now : Z) : bet :=
  mk_bet betId roundId (q_userId q) wl.1 (q_panel q) amt (q_autoCashout q) reserving None 0 (q_demo q)
    (q_operatorId q) (toUpperCase (w_currency wl.2)) (Risk.pl_maxWinPerBet <$> q_limits q)
    None None now None.

(** The transaction body, serialized by the per-round advisory lock. *)
Definition reserve_tx (q : PlaceArgs) (rg : option (EffectiveRg * Z)) (roundId betId : uuid)
    (wl : uuid * wallet) (amt : Z) : prog world unit :=
  roundBets ← db_get (bets_where (in_round_live roundId));
  let ccy := toUpperCase (w_currency wl.2) in
  let currentExposure := fold_left (fun sum b => sum + Risk.potentialPayout risk (b_amount b))
    (List.filter (fun b => eqb_str (b_currency b) ccy) roundBets) 0 in
  match Risk.checkRoundExposure risk currentExposure amt with
  | inl reason => raise (ReserveRejected reason)
  | inr _ =>
      _ ← session_caps rg wl.1 roundBets amt;
      now ← Date_now;
      bet_create (reservation q roundId betId wl amt now)
  end.

(** PHASE 1: [None] when the slot is reserved, the client's reason otherwise. *)
Definition reserve (q : PlaceArgs) rg (roundId betId : uuid) wl amt : prog world (option string) :=
  try_catch (_ ← db_transaction (reserve_tx q rg roundId betId wl amt); mret None)
    (fun e => match e with
      | ReserveRejected reason => _ ← recordRejected reason; mret (Some reason)
      | UniqueViolation => mret (Some "already_bet"%string)
      | _ => _ ← recordRejected "reserve_failed"; mret (Some "bet_failed"%string)
      end).

(** The activation retry: [left] attempts remain. *)
Fixpoint activate (left : nat) (p : panel) (betId : uuid) (amt : Z) (tx : WalletTxResult) (ccy : string)
  : prog world BetResult :=
  match left with
  | O => mret (bet_fail "bet_failed" p)
  | S left' =>
      try_catch
        (count ← bet_updateMany_id betId (has_status reserving)
                   (fun b => set_debitTxId (tx_txId tx) (set_status active b));
         if count =? 0 then _ ← recordError "bet_activate"; mret (bet_fail "bet_failed" p)
         else
           _ ← emit (EvRecordBet amt);
           mret {| br_ok := true; br_reason := None; br_panel := p; br_balance := Some (tx_balanceAfter tx);
                   br_betId := Some betId; br_currency := Some ccy |})
        (fun _ =>
           match left' with
           | O =>
               _ ← try_catch (_ ← bet_updateMany_id betId (has_status reserving) (set_debitTxId (tx_txId tx)); mret tt)
                     (fun _ => mret tt);
               _ ← recordError "bet_activate";
               mret (bet_fail "bet_failed" p)
           | _ => activate left' p betId amt tx ccy
           end)
  end.

(** PHASE 2: the debit, outside the lock, and the activation. *)
Definition debitAndActivate (q : PlaceArgs) (roundId betId : uuid) (wl : uuid * wallet) (amt : Z)
  : prog world BetResult :=
  let debitKey := KDebit roundId (q_userId q) (q_panel q) in
  tx ← try_catch (tx ← wp_debit wl.1 amt BetDebit debitKey (Some betId); mret (inl tx))
         (fun e =>
            _ ← try_catch (bet_delete betId) (fun _ => mret tt);
            let reason := if has_message "insufficient_balance" e then "insufficient_balance"%string else "bet_failed"%string in
            _ ← recordRejected (if eqb_str reason "bet_failed" then "debit_failed" else reason);
            mret (inr reason));
  match tx with
  | inr reason => mret (bet_fail reason (q_panel q))
  | inl tx => activate 3 (q_panel q) betId amt tx (w_currency wl.2)
  end.

(** From the validated stake on. *)
Definition placeInRound (q : PlaceArgs) (roundId : uuid) (amt : Z) : prog world BetResult :=
  let rg := active_rg (q_demo q) (q_rgCtx q) in
  refused ← rg_gate rg (rgPending (q_rgCtx q));
  match refused with
  | Some reason => mret (bet_fail reason (q_panel q))
  | None =>
      existing ← db_get (bet_findUnique_slot roundId (q_userId q) (q_panel q));
      if match existing with Some b => negb (has_status reserving b) | None => false end
      then mret (bet_fail "already_bet" (q_panel q))
      else
        wl ← try_catch (wl ← walletFor (q_userId q) (q_walletId q); mret (Some wl))
               (fun e => _ ← recordRejected (if bool_decide (e = WalletOwnershipError) then "wallet_owner_mismatch" else "wallet_unavailable");
                         mret None);
        match wl with
        | None => mret (bet_fail "bet_failed" (q_panel q))
        | Some wl =>
            betId ← randomUUID;
            rejected ← reserve q rg roundId betId wl amt;
            match rejected with
            | Some reason => mret (bet_fail reason (q_panel q))
            | None => debitAndActivate q roundId betId wl amt
            end
        end
  end.

Definition in_phase (ph : phase) (st : option PublicState) : option uuid :=
  match st with
  | Some st => if phase_eqb (ps_phase st) ph then Some (ps_roundId st) else None
  | None => None
  end.

Definition placeBet (q : PlaceArgs) : prog world BetResult :=
  state ← getPublicState;
  match in_phase Betting state with
  | None => mret (bet_fail "betting_closed" (q_panel q))
  | Some roundId =>
      match bigint_floor (q_amount q) with
      | None => raise (JsError "RangeError")
      | Some amt =>
          match Risk.checkBetAmount risk amt (q_limits q) with
          | Some reason => _ ← recordRejected reason; mret (bet_fail reason (q_panel q))
          | None => placeInRound q roundId amt
          end
      end
  end.

(** *** cancelBet *)

(** The bet in a slot with its wallet's currency. *)
Definition bet_with_wallet (roundId userId : uuid) (p : panel) : prog world (option (bet * string)) :=
  db (fun w => match bet_findUnique_slot roundId userId p w with
               | None => (Ok None, w)
               | Some b => match w_wallets w !! b_walletId b with
                           | Some wl => (Ok (Some (b, w_currency wl)), w)
                           | None => (Raise (JsError "Inconsistent query result"), w)
                           end
               end).

Definition cancelBet (userId : uuid) (p : panel) : prog world BetResult :=
  state ← getPublicState;
  match in_phase Betting state with
  | None => mret (bet_fail "betting_closed" p)
  | Some roundId =>
      found ← bet_with_wallet roundId userId p;
      match found with
      | Some (b, ccy) =>
          if negb (has_status active b) then mret (bet_fail "no_active_bet" p)
          else
            now ← Date_now;
            count ← bet_updateMany_id (b_id b) (has_status active) (set_settled cancelled now);
            if count =? 0 then mret (bet_fail "no_active_bet" p)
            else
              refund ← wp_credit (b_walletId b) (b_amount b) Refund (KRefund (b_id b)) (Some (b_id b));
              mret {| br_ok := true; br_reason := None; br_panel := p; br_balance := Some (tx_balanceAfter refund);
                      br_betId := None; br_currency := Some ccy |}
      | None => mret (bet_fail "no_active_bet" p)
      end
  end.

(** *** cashOut *)

(** The bet in a slot with its wallet's currency and its round's row. *)
Definition bet_with_round (roundId userId : uuid) (p : panel) : prog world (option (bet * string * round)) :=
  db (fun w => match bet_findUnique_slot roundId userId p w with
               | None => (Ok None, w)
               | Some b => match w_wallets w !! b_walletId b, w_rounds w !! b_roundId b with
                           | Some wl, Some r => (Ok (Some (b, w_currency wl, r)), w)
                           | _, _ => (Raise (JsError "Inconsistent query result"), w)
                           end
               end).

(** The leaderboard update; a user without a profile is no row. *)
Definition profile_loot (userId : uuid) (payout mult : Z) : prog world unit :=
  db_set (fun w => set_profiles
    (alter (fun pr => mk_profile (p_displayName pr) (p_totalLoot pr + payout) (Z.max (p_biggestMultiplier pr) mult))
       userId (w_profiles w)) w).

Definition payoutOf (b : bet) (mult : Z) : Z :=
  Risk.capPayout risk (Money.floorPayout (b_amount b) mult) (b_maxWinPerBet b).

(** The claimed win is paid, or left for the reconciler. *)
Definition payWin (userId : uuid) (p : panel) (b : bet) (ccy : string) (mult payout : Z) (t0 : Z)
  : prog world CashoutResult :=
  credit ← try_catch
    (c ← wp_credit (b_walletId b) payout PayoutCredit (KPayout (b_id b)) (Some (b_id b)); mret (Some c))
    (fun e => _ ← when (negb (has_message "payout_pending" e)) (recordError "cashout_credit");
              _ ← bet_update (b_id b) (set_status payout_pending);
              mret None);
  match credit with
  | None => mret {| co_ok := true; co_reason := None; co_userId := userId; co_panel := p; co_multiplier := Some mult;
                    co_payout := Some payout; co_balance := None; co_currency := Some ccy; co_pending := true |}
  | Some c =>
      _ ← bet_update (b_id b) (set_payoutTxId (tx_txId c));
      _ ← profile_loot userId payout mult;
      _ ← emit (EvRecordPayout payout);
      t1 ← Date_now;
      _ ← emit (EvGauge "settlement_latency_ms" (t1 - t0) 0);
      mret {| co_ok := true; co_reason := None; co_userId := userId; co_panel := p; co_multiplier := Some mult;
              co_payout := Some payout; co_balance := Some (tx_balanceAfter c); co_currency := Some ccy; co_pending := false |}
  end.

Definition cashOut (userId : uuid) (p : panel) (atMultiplier : option Z) : prog world CashoutResult :=
  t0 ← Date_now;
  state ← getPublicState;
  match in_phase Running state with
  | None => mret (cash_fail "too_late" userId p)
  | Some roundId =>
      mult ← match atMultiplier with Some m => mret m | None => currentMultiplier end;
      found ← bet_with_round roundId userId p;
      match found with
      | Some (b, ccy, r) =>
          if negb (has_status active b) then mret (cash_fail "no_active_bet" userId p)
          else if negb (phase_eqb (r_status r) Running) || (r_crashPoint r <=? mult)
          then mret (cash_fail "too_late" userId p)
          else
            let payout := payoutOf b mult in
            now ← Date_now;
            count ← bet_updateMany_id (b_id b) (has_status active) (set_cashed_out mult payout now);
            if count =? 0 then mret (cash_fail "no_active_bet" userId p)
            else payWin userId p b ccy mult payout t0
      | None => mret (cash_fail "no_active_bet" userId p)
      end
  end.

(** *** evaluateAutoCashouts *)

Definition due_at (roundId : uuid) (multiplier : Z) (b : bet) : bool :=
  bool_decide (b_roundId b = roundId) && has_status active b &&
  match b_autoCashout b with Some t => t <=? multiplier | None => false end.

Definition evaluateAutoCashouts (multiplier : Z) : prog world (list CashoutResult) :=
  state ← getPublicState;
  match in_phase Running state with
  | None => mret []
  | Some roundId =>
      due ← db_get (bets_where (due_at roundId multiplier));
      fold_each due (fun results b =>
        try_catch (r ← cashOut (b_userId b) (b_panel b) (b_autoCashout b);
                   mret (if co_ok r then results ++ [r] else results))
          (fun _ => _ ← recordError "auto_cashout"; mret results)) []
  end.

(** *** settleRound *)

Definition active_in (roundId : uuid) (b : bet) : bool :=
  bool_decide (b_roundId b = roundId) && has_status active b.

Definition settleRound (roundId : uuid) : prog world (list (uuid * panel)) :=
  act ← db_get (bets_where (active_in roundId));
  match act with
  | [] => mret []
  | _ =>
      now ← Date_now;
      _ ← bets_updateMany (active_in roundId) (set_settled busted now);
      mret ((fun b => (b_userId b, b_panel b)) <$> act)
  end.

(** *** voidBet *)

Definition reclaim_params (b : bet) : ReverseParams := {|
  rp_originalKey := KPayout (b_id b); rp_reverseKey := KVoidReclaim (b_id b); rp_amount := b_payout b;
  rp_originalDirection := OrigCredit; rp_type := PayoutCredit; rp_ref := Some (b_id b); rp_intent := None |}.

Definition refund_params (b : bet) : ReverseParams := {|
  rp_originalKey := KDebit (b_roundId b) (b_userId b) (b_panel b); rp_reverseKey := KVoidRefund (b_id b);
  rp_amount := b_amount b; rp_originalDirection := OrigDebit; rp_type := Refund; rp_ref := Some (b_id b);
  rp_intent := None |}.

Definition performVoidReversals (b : bet) : prog world unit :=
  _ ← when (0 <? b_payout b) (wp_reverse (b_walletId b) (reclaim_params b));
  wp_reverse (b_walletId b) (refund_params b).

Definition void_audit (operatorId : uuid) (reason : option string) (b : bet) : audit_event :=
  mk_audit ("operator:" +:+ Keys.uuid_string operatorId) "operator.bet_void" (Some "bet"%string)
    (Some (Keys.uuid_string (b_id b))) (Some operatorId) None
    (Some (JObj [("status"%string, JStr (status_string (b_status b)))]))
    (Some (JObj [("status"%string, JStr "voided")]))
    (Some (JObj [("reason"%string, match reason with Some r => JStr r | None => JNull end);
                 ("refundedStake"%string, JStr (BigInt_toString (b_amount b)));
                 ("reclaimedPayout"%string, JStr (if 0 <? b_payout b then BigInt_toString (b_payout b) else "0"))])).

Definition void_result (b : bet) (s : bet_status) (reversed : bool) (reclaimed : string) : VoidResult :=
  {| vr_betId := b_id b; vr_status := s; vr_reversed := reversed;
     vr_refundedStake := BigInt_toString (b_amount b); vr_reclaimedPayout := reclaimed |}.

(** The claim, the reversals, the finalising flip and the audit record. *)
Definition voidClaimed (operatorId : uuid) (reason : option string) (b : bet) : prog world VoidResult :=
  _ ← performVoidReversals b;
  _ ← bet_updateMany_id (b_id b) (has_status voiding) (set_status voided);
  _ ← emit (EvLog "bet VOIDED by operator");
  _ ← Audit.record stringify_length (void_audit operatorId reason b);
  mret (void_result b voided true (if 0 <? b_payout b then BigInt_toString (b_payout b) else "0"%string)).

Definition claimVoid (operatorId : uuid) (reason : option string) (b : bet) : prog world VoidResult :=
  count ← bet_updateMany_id (b_id b) (has_status (b_status b)) (set_status voiding);
  if count =? 0 then raise (Conflict "bet_state_changed") else voidClaimed operatorId reason b.

Definition voidBet (operatorId betId : uuid) (reason : option string) : prog world VoidResult :=
  found ← db_get (fun w => w_bets w !! betId);
  match found with
  | None => raise (NotFound "bet_not_found")
  | Some b =>
      if negb (opt_eqb (b_operatorId b) (Some operatorId)) then raise (NotFound "bet_not_found")
      else match b_status b with
           | voided => mret (void_result b voided false (BigInt_toString (b_payout b)))
           | cancelled => mret (void_result b cancelled false "0")
           | active => raise (Conflict "bet_not_settled")
           | reserving | cancelling | payout_pending => raise (Conflict "bet_transient")
           | voiding => voidClaimed operatorId reason b
           | busted | cashed_out => claimVoid operatorId reason b
           end
  end.

(** *** The reconcilers *)

Definition finishVoid (n : Z) (b : bet) : prog world Z :=
  try_catch
    (_ ← performVoidReversals b;
     count ← bet_updateMany_id (b_id b) (has_status voiding) (set_status voided);
     mret (if 0 <? count then n + 1 else n))
    (fun _ => _ ← recordError "void_reconcile"; mret n).

Definition reconcileVoidingBets (limit : nat) : prog world Z :=
  stuck ← db_get (fun w => take limit (bets_where (has_status voiding) w));
  finalized ← fold_each stuck finishVoid 0;
  remaining ← bets_count (has_status voiding);
  _ ← when (0 <? remaining) (emit (EvLog "bet(s) stuck in voiding"));
  mret finalized.

Definition finishPayout (n : Z) (b : bet) : prog world Z :=
  try_catch
    (credit ← wp_credit (b_walletId b) (b_payout b) PayoutCredit (KPayout (b_id b)) (Some (b_id b));
     count ← bet_updateMany_id (b_id b) (has_status payout_pending)
               (fun b => set_payoutTxId (tx_txId credit) (set_status cashed_out b));
     if count =? 0 then mret n
     else
       _ ← profile_loot (b_userId b) (b_payout b) (nullish (b_cashoutMult b) 100);
       _ ← emit (EvRecordPayout (b_payout b));
       mret (n + 1))
    (fun _ => _ ← recordError "payout_reconcile"; mret n).

Definition countPendingPayouts : prog world Z := bets_count (has_status payout_pending).

(** [findFirst] ordered by a timestamp, nulls last. *)
Definition oldest_by (ts : bet -> option Z) (bets : list bet) : option bet :=
  fold_left (fun best b =>
    match best with
    | None => Some b
    | Some a => match ts a, ts b with
                | Some x, Some y => if y <? x then Some b else best
                | None, Some _ => Some b
                | _, None => best
                end
    end) bets None.

(** [Math.max(0, Math.floor(ms / 1000))] of the row's age. *)
Definition age_seconds (now : Z) (t : option Z) : Z :=
  match t with Some t => Z.max 0 ((now - t) / 1000) | None => 0 end.

Definition backlog (gauge stuckMsg : string) (P : bet -> bool) (ts : bet -> option Z) (alert : jsnum) : prog world unit :=
  count ← bets_count P;
  if count =? 0 then emit (EvGauge gauge 0 0)
  else
    oldest ← db_get (fun w => oldest_by ts (bets_where P w));
    now ← Date_now;
    let age := age_seconds now (b ← oldest; ts b) in
    _ ← emit (EvGauge gauge count age);
    when (js_lt alert age) (emit (EvLog stuckMsg)).

Definition reportPendingBacklog : prog world unit :=
  backlog "pending_payouts" "STUCK operator payout" (has_status payout_pending) b_settledAt PAYOUT_PENDING_ALERT_SEC.

Definition reportReservingBacklog : prog world unit :=
  backlog "reserving_backlog" "STUCK reservation" (fun b => has_status reserving b || has_status cancelling b)
    (fun b => Some (b_createdAt b)) RESERVING_ALERT_SEC.

Definition reconcilePendingPayouts (limit : nat) : prog world Z :=
  pending ← db_get (fun w => take limit (bets_where (has_status payout_pending) w));
  recovered ← fold_each pending finishPayout 0;
  _ ← reportPendingBacklog;
  mret recovered.

(** The entry points of the service, as a request. *)
Inductive request :=
| RPlace (q : PlaceArgs)
| RCancel (userId : uuid) (p : panel)
| RCash (userId : uuid) (p : panel) (at_ : option Z)
| RAuto (multiplier : Z)
| RSettle (roundId : uuid)
| RVoid (operatorId betId : uuid) (reason : option string)
| RReconcileVoiding (limit : nat)
| RReconcilePayouts (limit : nat)
| RReserving.

Definition serve (r : request) : prog world unit :=
  match r with
  | RPlace q => forget (placeBet q)
  | RCancel u p => forget (cancelBet u p)
  | RCash u p m => forget (cashOut u p m)
  | RAuto m => forget (evaluateAutoCashouts m)
  | RSettle r => forget (settleRound r)
  | RVoid o b m => forget (voidBet o b m)
  | RReconcileVoiding n => forget (reconcileVoidingBets n)
  | RReconcilePayouts n => forget (reconcilePendingPayouts n)
  | RReserving => reportReservingBacklog
  end.
End service.
End Bets.
