(* ===== verification/BetSafety.v ===== *)
(** * Concurrency safety of the bet service

    The invariant the bet table, the ledger and the round exposure satisfy
    while any number of bet requests, sweeps and reconcilers interleave, on any
    nodes, with any statement failing: [Inv], with the transitions of a row in
    [evolves].  A slot's [placeBet] owns its bet's id as a token from the draw of
    the id until the debit is recorded on the row. *)

From Stdlib Require Import QArith.
From S2P Require Import Prelude Effects Js Money Schema Wallet Ledger AuditLog Bets.

Open Scope Z_scope.

#[local] Set Warnings "-clear-no-such-hyp".

Module BetSafety.
Import Bets.

(** ** The life of a bet row *)

(** Not yet debited as far as the row knows. *)
Definition pre (s : bet_status) : bool := bool_decide (s ∈ [reserving; cancelling]).
(** A stake not returned by a cancel, and that a void may return. *)
Definition settled_win (s : bet_status) : bool := bool_decide (s ∈ [cashed_out; payout_pending; voiding; voided]).
Definition live (s : bet_status) : bool := bool_decide (s ∈ [active; reserving]).

Record frozen (b b' : bet) : Prop := {
  fz_id : b_id b' = b_id b; fz_round : b_roundId b' = b_roundId b; fz_user : b_userId b' = b_userId b;
  fz_wallet : b_walletId b' = b_walletId b; fz_panel : b_panel b' = b_panel b;
  fz_amount : b_amount b' = b_amount b; fz_operator : b_operatorId b' = b_operatorId b;
  fz_currency : b_currency b' = b_currency b; fz_cap : b_maxWinPerBet b' = b_maxWinPerBet b;
  fz_created : b_createdAt b' = b_createdAt b
}.

(** What a row can become: its terms are frozen; a claimed win keeps its
    multiplier and payout; a recorded debit stays recorded; cancelled is final;
    a settled win never goes back to play; nothing enters play from outside. *)
Record evolves (b b' : bet) : Prop := {
  ev_frozen : frozen b b';
  ev_claim m : b_cashoutMult b = Some m -> b_cashoutMult b' = Some m /\ b_payout b' = b_payout b;
  ev_debit : is_Some (b_debitTxId b) -> is_Some (b_debitTxId b');
  ev_cancelled : b_status b = cancelled -> b_status b' = cancelled;
  ev_settled : settled_win (b_status b) = true -> settled_win (b_status b') = true;
  ev_pre : pre (b_status b') = true -> pre (b_status b) = true;
  ev_live : live (b_status b') = true -> live (b_status b) = true
}.

#[export] Instance frozen_preorder : PreOrder frozen.
Proof. split; [by split|]. intros x y z [] []; split; congruence. Qed.

#[export] Instance evolves_preorder : PreOrder evolves.
Proof.
  split; [intros b; split; try done; intros; by split|].
  intros x y z [] []; split; eauto; [by etrans|].
  intros m Hm. destruct (ev_claim0 m Hm) as [H1 H2]. destruct (ev_claim1 m H1). split; congruence.
Qed.

(** A row that may be dropped: no win claimed, and no debit recorded on it or
    already being cancelled. *)
Definition disposable (b : bet) : Prop :=
  b_cashoutMult b = None /\ (pre (b_status b) = true \/ b_debitTxId b = None).

Lemma disposable_back b b' : evolves b b' -> disposable b' -> disposable b.
Proof.
  intros Hev [Hc Hd]. split.
  - destruct (b_cashoutMult b) eqn:E; [|done]. apply Hev in E as [? ?]. congruence.
  - destruct Hd as [Hd|Hd]; [left; by apply Hev|]. right.
    destruct (b_debitTxId b) eqn:E; [|done]. destruct (ev_debit _ _ Hev) as [x Hx]; [by eexists|congruence].
Qed.

(** ** The transition relation *)

Definition bets_evolve (m m' : gmap N bet) : Prop :=
  forall id b, m !! id = Some b -> disposable b \/ exists b', m' !! id = Some b' /\ evolves b b'.

Definition rounds_evolve (m m' : gmap N round) : Prop :=
  forall id r, m !! id = Some r -> exists r', m' !! id = Some r' /\ r_crashPoint r' = r_crashPoint r.

Definition R (w w' : world) : Prop :=
  (w_uuid w <= w_uuid w')%N /\ rounds_evolve (w_rounds w) (w_rounds w') /\
  bets_evolve (w_bets w) (w_bets w').

#[export] Instance bets_evolve_preorder : PreOrder bets_evolve.
Proof.
  split; [intros m i b Hb; right; by exists b|].
  intros x y z H1 H2 i b Hb. destruct (H1 i b Hb) as [?|(b1 & Hb1 & Hev)]; [by left|].
  destruct (H2 i b1 Hb1) as [?|(b2 & Hb2 & Hev2)]; [left; by eapply disposable_back|].
  right. exists b2. split; [done|]. by etrans.
Qed.

#[export] Instance rounds_evolve_preorder : PreOrder rounds_evolve.
Proof.
  split; [intros m i r Hr; by exists r|].
  intros x y z H1 H2 i r Hr. destruct (H1 i r Hr) as (r1 & Hr1 & E1).
  destruct (H2 i r1 Hr1) as (r2 & Hr2 & E2). exists r2. split; [done|congruence].
Qed.

#[export] Instance R_rel : TableRel R.
Proof.
  split; [split|].
  - intros w. split_and!; reflexivity.
  - intros x y z (? & ? & ?) (? & ? & ?). split_and!; [lia|by etrans|by etrans].
  - unfold tables_eq. intros w w' Ht. destruct_and!. unfold R.
    repeat match goal with H : _ w' = _ w |- _ => rewrite H end. split_and!; [lia|reflexivity..].
Qed.

Lemma R_bet w w' id b :
  R w w' -> w_bets w !! id = Some b -> ~ disposable b -> exists b', w_bets w' !! id = Some b' /\ evolves b b'.
Proof. intros (_ & _ & HR) Hb Hd. by destruct (HR id b Hb). Qed.

Lemma claimed_kept b : is_Some (b_cashoutMult b) -> ~ disposable b.
Proof. intros [m Hm] [Hc _]. congruence. Qed.

Lemma debited_kept b : is_Some (b_debitTxId b) -> pre (b_status b) = false -> ~ disposable b.
Proof. intros [m Hm] Hp [_ [?|?]]; congruence. Qed.

(** ** The invariant *)

Section inv.
Context (risk : Risk.RiskLimits).

Record bet_ok (w : world) (id : N) (b : bet) : Prop := {
  ok_id : b_id b = id;
  ok_fresh : (id < w_uuid w)%N;
  ok_amount : 0 <= b_amount b;
  ok_debit : pre (b_status b) = true \/ b_status b = cancelled \/ is_Some (b_debitTxId b);
  ok_unclaimed : b_cashoutMult b = None ->
    b_payout b = 0 /\ b_status b <> cashed_out /\ b_status b <> payout_pending;
  ok_claimed m : b_cashoutMult b = Some m ->
    settled_win (b_status b) = true /\
    exists r, w_rounds w !! b_roundId b = Some r /\ m < r_crashPoint r /\ b_payout b = payoutOf risk b m
}.

(** What a posted row says of the bet it names. *)
Definition row_ok (w : world) (k : idem_key) (row : ledger_row) : Prop :=
  match k with
  | KPayout id => exists b, w_bets w !! id = Some b /\ is_Some (b_cashoutMult b) /\
      l_walletId row = b_walletId b /\ l_amount row = b_payout b
  | KRefund id => exists b, w_bets w !! id = Some b /\ b_status b = cancelled /\ is_Some (b_debitTxId b) /\
      l_walletId row = b_walletId b /\ l_amount row = b_amount b
  | KVoidRefund id => exists b, w_bets w !! id = Some b /\ settled_win (b_status b) = true /\
      is_Some (b_debitTxId b) /\ l_walletId row = b_walletId b /\ l_amount row = b_amount b
  | KVoidReclaim id => exists b, w_bets w !! id = Some b /\ is_Some (b_cashoutMult b) /\
      l_walletId row = b_walletId b /\ l_amount row = - b_payout b
  | _ => True
  end.

(** What owning a bet's id guarantees. *)
Definition tok_ok (b : bet) : Prop :=
  (pre (b_status b) = true \/ b_status b = cancelled) /\ b_debitTxId b = None /\ b_cashoutMult b = None.

Definition reserved_for (roundId : uuid) (ccy : string) (b : bet) : Z :=
  if in_round_live roundId b && eqb_str (b_currency b) ccy then Risk.potentialPayout risk (b_amount b) else 0.

(** The house's exposure on a round in one currency. *)
Definition exposure (w : world) (roundId : uuid) (ccy : string) : Z :=
  sum_map (reserved_for roundId ccy) (w_bets w).

Record Inv (w : world) (own : gset N) : Prop := {
  inv_bets id b : w_bets w !! id = Some b -> bet_ok w id b;
  inv_rows k row : w_ledger w !! k = Some row -> row_ok w k row;
  inv_tokens id : id ∈ own -> (id < w_uuid w)%N /\ forall b, w_bets w !! id = Some b -> tok_ok b;
  inv_exposure r c : exposure w r c <= Risk.maxRoundExposure risk
}.

(** Limits that make sense: nothing negative. *)
Record sane : Prop := {
  sane_exposure : 0 <= Risk.maxRoundExposure risk;
  sane_mult : 0 <= Risk.maxMultiplier risk;
  sane_win : 0 <= Risk.maxWinPerBet risk;
  sane_min : 0 <= Risk.minBet risk
}.

Lemma bet_ok_mono w w' id b :
  (w_uuid w <= w_uuid w')%N -> rounds_evolve (w_rounds w) (w_rounds w') -> bet_ok w id b -> bet_ok w' id b.
Proof.
  intros Hu Hr []. split; try done; [lia|]. intros m Hm.
  destruct (ok_claimed0 m Hm) as (? & r & Hrr & ? & ?). split; [done|].
  destruct (Hr _ _ Hrr) as (r' & ? & ?). exists r'. split_and!; [done|lia|done].
Qed.

Lemma row_ok_mono w w' k row : R w w' -> row_ok w k row -> row_ok w' k row.
Proof.
  intros HR. destruct k; simpl; try done.
  - intros (b & Hb & Hc & Hw & Ha). destruct (R_bet _ _ _ _ HR Hb (claimed_kept b Hc)) as (b' & Hb' & Hev).
    exists b'. destruct Hc as [m Hm]. destruct (ev_claim _ _ Hev m Hm) as [? ?].
    pose proof (ev_frozen _ _ Hev) as []. split_and!; [done|by eexists|congruence..].
  - intros (b & Hb & Hs & Hd & Hw & Ha).
    destruct (R_bet _ _ _ _ HR Hb) as (b' & Hb' & Hev); [apply debited_kept; [done|by rewrite Hs]|].
    pose proof (ev_frozen _ _ Hev) as []. exists b'. split_and!; [done|by apply Hev|by apply (ev_debit _ _ Hev)|congruence..].
  - intros (b & Hb & Hc & Hw & Ha). destruct (R_bet _ _ _ _ HR Hb (claimed_kept b Hc)) as (b' & Hb' & Hev).
    exists b'. destruct Hc as [m Hm]. destruct (ev_claim _ _ Hev m Hm) as [? ?].
    pose proof (ev_frozen _ _ Hev) as []. split_and!; [done|by eexists|congruence..].
  - intros (b & Hb & Hs & Hd & Hw & Ha).
    destruct (R_bet _ _ _ _ HR Hb) as (b' & Hb' & Hev).
    { apply debited_kept; [done|]. destruct (b_status b); vm_compute in Hs |- *; congruence. }
    pose proof (ev_frozen _ _ Hev) as []. exists b'. split_and!; [done|by apply Hev|by apply (ev_debit _ _ Hev)|congruence..].
Qed.

Lemma inv_sub w own own' : own' ⊆ own -> Inv w own -> Inv w own'.
Proof. intros Hs []. split; [done|done| |done]. intros id Hid. apply inv_tokens0. set_solver. Qed.

(** The tables the invariant reads. *)
Definition core (w w' : world) : Prop :=
  w_bets w' = w_bets w /\ w_rounds w' = w_rounds w /\ w_ledger w' = w_ledger w /\ (w_uuid w <= w_uuid w')%N.

#[export] Instance core_rel : TableRel core.
Proof.
  split; [split|].
  - intros w. frame.
  - unfold core. intros x y z ??; destruct_and!; split_and!; first [congruence|lia].
  - unfold tables_eq, core. intros; destruct_and!; by split_and!.
Qed.

Lemma core_inv w w' own : Inv w own -> core w w' -> R w w' /\ Inv w' own.
Proof.
  intros [Hb Hr Ht He] (Eb & Er & El & Hu).
  assert (HR : R w w') by (unfold R; rewrite Eb, Er; split_and!; [done|reflexivity..]).
  split; [done|]. split.
  - intros id b Hid. apply (bet_ok_mono w); [apply HR..|]. apply Hb. congruence.
  - intros k row Hk. apply (row_ok_mono w); [done|]. apply Hr. congruence.
  - intros id Hid. destruct (Ht id Hid) as [? Htk]. split; [lia|]. intros b Hbb. apply Htk. congruence.
  - intros r c. unfold exposure in *. rewrite Eb. apply He.
Qed.

#[export] Instance Inv_rel : TableInv Inv.
Proof. intros w w' own Ht HI. apply (core_inv w); [done|]. by apply table_env. Qed.

Lemma potential_nonneg a : sane -> 0 <= a -> 0 <= Risk.potentialPayout risk a.
Proof. intros [] Ha. rewrite Risk.potentialPayout_min. apply Z.min_glb; nia. Qed.

Lemma reserved_nonneg w own id b r c :
  sane -> Inv w own -> w_bets w !! id = Some b -> 0 <= reserved_for r c b.
Proof.
  intros Hs HI Hb. unfold reserved_for. case_match; [|done].
  apply potential_nonneg; [done|]. by eapply ok_amount, HI.
Qed.

Lemma in_round_live_eq r b : in_round_live r b = bool_decide (b_roundId b = r) && live (b_status b).
Proof. unfold in_round_live, has_status. f_equal. by destruct (b_status b). Qed.

Lemma reserved_evolves r c b b' :
  evolves b b' -> 0 <= reserved_for r c b -> reserved_for r c b' <= reserved_for r c b.
Proof.
  intros [[] _ _ _ _ _ Hlive]. unfold reserved_for. rewrite !in_round_live_eq, fz_round0, fz_currency0, fz_amount0.
  destruct (live (b_status b')); [by rewrite Hlive|].
  rewrite (andb_comm _ false). cbn. done.
Qed.

(** Replacing the bet table by one where rows only evolve or are dropped. *)
Lemma bets_step w own own' m' :
  sane -> Inv w own -> own' ⊆ own ->
  (forall id b', m' !! id = Some b' -> exists b, w_bets w !! id = Some b /\ evolves b b' /\
     bet_ok w id b' /\ (id ∈ own' -> tok_ok b -> tok_ok b')) ->
  (forall id b, w_bets w !! id = Some b -> is_Some (m' !! id) \/ disposable b) ->
  R w (set_bets m' w) /\ Inv (set_bets m' w) own'.
Proof.
  intros Hsane HI Hown Hm Hdrop.
  assert (HR : R w (set_bets m' w)).
  { split_and!; [cbn; lia|reflexivity|]. intros id b Hb.
    destruct (Hdrop id b Hb) as [[b' Hb']|?]; [|by left].
    destruct (Hm _ _ Hb') as (b0 & ? & ? & _). simplify_eq. right. by exists b'. }
  split; [done|]. split.
  - intros id b' Hb'. destruct (Hm id b' Hb') as (b & _ & _ & Hok & _).
    by apply (bet_ok_mono w); [apply HR..|].
  - intros k row Hk. by apply (row_ok_mono w); [|apply HI].
  - intros id Hid. destruct (inv_tokens _ _ HI id) as [? Htk]; [set_solver|]. split; [done|].
    intros b' Hb'. destruct (Hm id b' Hb') as (b & Hb & _ & _ & Ht). auto.
  - intros r c. etrans; [|apply (inv_exposure _ _ HI r c)]. apply sum_map_mono.
    + intros id b Hb. by eapply reserved_nonneg.
    + intros id b' Hb'. destruct (Hm id b' Hb') as (b & Hb & Hev & _).
      exists b. split; [done|]. apply reserved_evolves; [done|]. by eapply reserved_nonneg.
Qed.

(** One row at a time. *)
Lemma bet_step w own own' id b b' :
  sane -> Inv w own -> own' ⊆ own -> w_bets w !! id = Some b -> evolves b b' -> bet_ok w id b' ->
  (id ∈ own' -> tok_ok b -> tok_ok b') ->
  R w (set_bets (<[id := b']> (w_bets w)) w) /\ Inv (set_bets (<[id := b']> (w_bets w)) w) own'.
Proof.
  intros Hsane HI Hown Hb Hev Hok Ht. apply (bets_step _ own); [done|done|done| |].
  - intros i x. destruct (decide (i = id)) as [->|Hne].
    + rewrite lookup_insert_eq. intros [= <-]. by exists b.
    + rewrite lookup_insert_ne by done. intros Hx. exists x. split_and!; [done|reflexivity|by apply HI|done].
  - intros i x Hx. left. apply lookup_insert_is_Some'. naive_solver.
Qed.

(** Dropping a row. *)
Lemma delete_step w own id :
  sane -> Inv w own -> (forall b, w_bets w !! id = Some b -> disposable b) ->
  R w (set_bets (delete id (w_bets w)) w) /\ Inv (set_bets (delete id (w_bets w)) w) own.
Proof.
  intros Hsane HI Hd. apply (bets_step _ own); [done|done|done| |].
  - intros i x [Hne Hx]%lookup_delete_Some. exists x. split_and!; [done|reflexivity|by apply HI|done].
  - intros i x Hx. destruct (decide (i = id)) as [->|Hne]; [right; by apply Hd|].
    left. exists x. by apply lookup_delete_Some.
Qed.

(** A new reservation within the exposure cap. *)
Lemma create_step w own b :
  sane -> Inv w own -> w_bets w !! b_id b = None -> bet_ok w (b_id b) b -> tok_ok b ->
  exposure w (b_roundId b) (b_currency b) + Risk.potentialPayout risk (b_amount b) <= Risk.maxRoundExposure risk ->
  R w (set_bets (<[b_id b := b]> (w_bets w)) w) /\ Inv (set_bets (<[b_id b := b]> (w_bets w)) w) own.
Proof.
  intros Hsane HI Hnone Hok Htok Hexp.
  assert (HR : R w (set_bets (<[b_id b := b]> (w_bets w)) w)).
  { split_and!; [cbn; lia|reflexivity|]. intros i x Hx. right. exists x.
    cbn. rewrite lookup_insert_ne by congruence. done. }
  split; [done|]. split.
  - intros i x. cbn. destruct (decide (i = b_id b)) as [->|Hne].
    + rewrite lookup_insert_eq. intros [= <-]. by apply (bet_ok_mono w); [apply HR..|].
    + rewrite lookup_insert_ne by done. intros Hx. apply (bet_ok_mono w); [apply HR..|]. by apply HI.
  - intros k row Hk. by apply (row_ok_mono w); [|apply HI].
  - intros i Hi. destruct (inv_tokens _ _ HI i Hi) as [? Ht]. split; [done|]. intros x. cbn.
    destruct (decide (i = b_id b)) as [->|Hne]; [rewrite lookup_insert_eq; by intros [= <-]|].
    rewrite lookup_insert_ne by done. apply Ht.
  - intros r c. unfold exposure. cbn [w_bets set_bets]. rewrite sum_map_insert by done.
    pose proof (inv_exposure _ _ HI r c) as Hrc. unfold exposure in *. unfold reserved_for at 1. rewrite in_round_live_eq.
    destruct (bool_decide_reflect (b_roundId b = r)) as [<-|_]; [|cbn; lia].
    destruct (eqb_str (b_currency b) c) eqn:Ec; [apply eqb_str_eq in Ec; subst c|rewrite andb_false_r; lia].
    case_match; lia.
Qed.

(** A money move that posts a row the invariant accepts. *)
Lemma key_step_inv w w' own k wid amt :
  Inv w own -> key_step k wid amt w w' ->
  (forall row, l_walletId row = wid -> l_amount row = amt -> row_ok w k row) ->
  R w w' /\ Inv w' own.
Proof.
  intros HI [Hf Hl] Hrow. unfold money_frame in Hf. destruct_and!.
  destruct Hl as [Hl|(Hn & row & Hl & Hw & Ha)]; [by apply core_inv|].
  destruct (core_inv w (set_ledger (w_ledger w) w') own) as [HR [Hb Hr Ht He]]; [done|by split_and!|].
  split; [exact HR|]. split; [| |exact Ht|exact He].
  { intros id b Hid. apply (bet_ok_mono (set_ledger (w_ledger w) w')); [cbn; lia|reflexivity|by apply Hb]. }
  intros k' row' Hk'. rewrite Hl in Hk'. apply (row_ok_mono w); [exact HR|].
  destruct (decide (k' = k)) as [->|Hne].
  - rewrite lookup_insert_eq in Hk'. injection Hk' as <-. auto.
  - rewrite lookup_insert_ne in Hk' by done. by apply HI.
Qed.
End inv.

(** ** Rules for the service's statements *)

Section handlers.
Context (W : WalletProvider) `{!WalletLaws W} (risk : Risk.RiskLimits) (Hsane : sane risk).

#[local] Abbreviation sec := (secure R (Inv risk)).

(** A program that leaves the invariant's tables alone. *)
Lemma secure_core {A} s o (p : prog world A) Q :
  steps_in core p -> (forall s' r, R s s' -> Q s' o r) -> sec s o p Q.
Proof using Type.
  intros Hp HQ. eapply secure_steps; [apply _|exact Hp| |done]. intros. by apply core_inv.
Qed.

Lemma still_core w w' : still w w' -> core w w'.
Proof using Type. intros [Hm ?]. unfold money_frame in Hm. destruct_and!. by split_and!. Qed.

Lemma eq_core w w' : w = w' -> core w w'.
Proof using Type. intros <-. reflexivity. Qed.

(** A money move whose row the invariant accepts where the move starts. *)
Lemma secure_move {A} s o k wid amt (p : prog world A) Q :
  steps_in (key_step k wid amt) p ->
  (forall row, l_walletId row = wid -> l_amount row = amt -> row_ok s k row) ->
  (forall s' r, R s s' -> Q s' o r) -> sec s o p Q.
Proof using Type.
  intros Hp Hrow HQ. eapply secure_steps; [apply _|exact Hp| |done]. intros w w' F HR _ HI Hk.
  eapply key_step_inv; [done|done|]. intros row ??. apply (row_ok_mono s); auto.
Qed.

(** A row of the table, as the invariant describes it. *)
Definition row_at (w : world) (id : N) (b : bet) : Prop := w_bets w !! id = Some b /\ bet_ok risk w id b.

Lemma secure_cas s o id P f Q :
  (forall w b, R s w -> row_at w id b -> P b = true ->
     evolves b (f b) /\ bet_ok risk w id (f b) /\ (tok_ok b -> tok_ok (f b))) ->
  (forall w, R s w -> Q w o (Raise DbUnavailable) /\ Q w o (Ok 0)) ->
  (forall w0 w b, R s w0 -> R w0 w -> row_at w0 id b -> P b = true -> w_bets w !! id = Some (f b) -> Q w o (Ok 1)) ->
  sec s o (bet_updateMany_id id P f) Q.
Proof using Hsane.
  intros Hf H0 H1. apply secure_db; [apply _..| |by intros; apply H0].
  intros w F HR Ho HI. destruct (w_bets w !! id) as [b|] eqn:Hb; cbn [fst snd].
  - assert (Hrow : row_at w id b) by (split; [done|by apply HI]).
    destruct (P b) eqn:HP; cbn [fst snd].
    + destruct (Hf w b HR Hrow HP) as (Hev & Hok & Htok).
      destruct (bet_step risk w (o ∪ F) (o ∪ F) id b (f b)) as [HR' HI']; [done|done|done|done|done|done|by intros _|].
      split; [done|]. exists o. split; [done|]. split; [done|]. split.
      * eapply (H1 w); [done|done|done|done|]. cbn. apply lookup_insert_eq.
      * apply H0. by etrans.
    + split; [reflexivity|]. exists o. split_and!; [done|done|by apply H0|by apply H0].
  - split; [reflexivity|]. exists o. split_and!; [done|done|by apply H0|by apply H0].
Qed.

Lemma secure_update s o id f Q :
  (forall w b, R s w -> row_at w id b ->
     evolves b (f b) /\ bet_ok risk w id (f b) /\ (tok_ok b -> tok_ok (f b))) ->
  (forall w r, R s w -> Q w o r) ->
  sec s o (bet_update id f) Q.
Proof using Hsane.
  intros Hf HQ. apply secure_db; [apply _..| |eauto].
  intros w F HR Ho HI. destruct (w_bets w !! id) as [b|] eqn:Hb; cbn [fst snd].
  - destruct (Hf w b HR) as (Hev & Hok & Htok); [split; [done|by apply HI]|].
    destruct (bet_step risk w (o ∪ F) (o ∪ F) id b (f b)) as [HR' HI']; [done|done|done|done|done|done|by intros _|].
    split; [done|]. exists o. split_and!; [done|done|apply HQ; by etrans|apply HQ; by etrans].
  - split; [reflexivity|]. exists o. split_and!; [done|done|by apply HQ|by apply HQ].
Qed.

Lemma secure_updateMany s o P f Q :
  (forall w id b, R s w -> row_at w id b -> P b = true ->
     evolves b (f b) /\ bet_ok risk w id (f b) /\ (tok_ok b -> tok_ok (f b))) ->
  (forall w r, R s w -> Q w o r) ->
  sec s o (bets_updateMany P f) Q.
Proof using Hsane.
  intros Hf HQ. apply secure_db; [apply _..| |eauto]. intros w F HR Ho HI. cbn [fst snd].
  destruct (bets_step risk w (o ∪ F) (o ∪ F) ((fun b => if P b then f b else b) <$> w_bets w)) as [HR' HI'];
    [done|done|done| | |].
  - intros id b' Hb'. rewrite lookup_fmap in Hb'. destruct (w_bets w !! id) as [b|] eqn:Hb; [|done].
    injection Hb' as <-. exists b. split; [done|]. assert (bet_ok risk w id b) by by apply HI.
    destruct (P b) eqn:HP; [|by split_and!]. destruct (Hf w id b HR) as (? & ? & ?); [done|done|by split_and!].
  - intros id b Hb. left. rewrite lookup_fmap, Hb. by eexists.
  - split; [done|]. exists o. split_and!; [done|done|apply HQ; by etrans|apply HQ; by etrans].
Qed.

(** ** Facts about rows *)

Lemma bets_where_row P w own b :
  Inv risk w own -> b ∈ bets_where P w -> row_at w (b_id b) b /\ P b = true.
Proof using Type.
  intros HI Hb. unfold bets_where in Hb. apply list_elem_of_In, filter_In in Hb as [Hb HP].
  apply list_elem_of_In, list_elem_of_fmap in Hb as ([id b'] & -> & Hb%elem_of_map_to_list). cbn in *.
  assert (Hok : bet_ok risk w id b') by by apply HI.
  split; [|done]. rewrite (ok_id _ _ _ _ Hok). by split.
Qed.

Lemma slot_row r u p w own b :
  Inv risk w own -> bet_findUnique_slot r u p w = Some b ->
  row_at w (b_id b) b /\ b_roundId b = r.
Proof using Type.
  intros HI Hs. unfold bet_findUnique_slot in Hs.
  destruct (bets_where_row (same_slot r u p) w own b HI) as [? HP].
  { apply list_elem_of_In. destruct (bets_where _ w); [done|]. cbn in Hs. simplify_eq. by left. }
  split; [done|]. unfold same_slot in HP. apply andb_true_iff in HP as [[HP _]%andb_true_iff _].
  by apply bool_decide_eq_true in HP.
Qed.

Lemma has_status_eq st b : has_status st b = true <-> b_status b = st.
Proof using Type. apply bool_decide_eq_true. Qed.

(** A row in play was debited and carries no claim. *)
Lemma active_row w id b :
  bet_ok risk w id b -> b_status b = active ->
  is_Some (b_debitTxId b) /\ b_cashoutMult b = None /\ ~ disposable b.
Proof using Type.
  intros [] Ha. assert (Hd : is_Some (b_debitTxId b)).
  { destruct ok_debit0 as [H|[H|H]]; [rewrite Ha in H; by vm_compute in H|congruence|done]. }
  assert (Hc : b_cashoutMult b = None).
  { destruct (b_cashoutMult b) as [m|] eqn:E; [|done].
    destruct (ok_claimed0 m eq_refl) as [H _]. rewrite Ha in H. by vm_compute in H. }
  split_and!; [done|done|]. apply debited_kept; [done|by rewrite Ha].
Qed.

(** A claimed row stays claimed, with the same terms. *)
Lemma claimed_row w w' id b :
  R w w' -> w_bets w !! id = Some b -> is_Some (b_cashoutMult b) ->
  exists b', w_bets w' !! id = Some b' /\ evolves b b' /\ b_cashoutMult b' = b_cashoutMult b /\ b_payout b' = b_payout b.
Proof using Type.
  intros HR Hb Hc. destruct (R_bet _ _ _ _ HR Hb (claimed_kept b Hc)) as (b' & Hb' & Hev).
  exists b'. destruct Hc as [m Hm]. destruct (ev_claim _ _ Hev m Hm). split_and!; [done|done|congruence|done].
Qed.

Lemma settled_debited w id b :
  bet_ok risk w id b -> settled_win (b_status b) = true -> is_Some (b_debitTxId b).
Proof using Type.
  intros [] Hs. destruct ok_debit0 as [H|[H|H]]; [|by rewrite H in Hs|done].
  destruct (b_status b); vm_compute in H, Hs; congruence.
Qed.

(** ** The status flips *)

(** Flipping the status of a row, keeping everything else but the time. *)
Lemma flip_ok w id b st t :
  bet_ok risk w id b ->
  (b_status b = active \/ settled_win (b_status b) = true \/ b_status b = busted) ->
  (b_cashoutMult b = None -> st <> cashed_out /\ st <> payout_pending) ->
  (settled_win (b_status b) = true -> settled_win st = true) ->
  live st = false -> pre st = false ->
  evolves b (bet_with_status b st t) /\ bet_ok risk w id (bet_with_status b st t) /\
  (tok_ok b -> tok_ok (bet_with_status b st t)).
Proof using Type.
  intros Hok Hst Hun Hset Hlive Hpre.
  assert (Hno : ~ (pre (b_status b) = true \/ b_status b = cancelled)).
  { destruct (b_status b); vm_compute in Hst |- *; naive_solver. }
  split; [|split].
  - split; cbn; try done; try congruence. intros Hc. exfalso. by apply Hno; right.
  - destruct Hok. split; cbn; try done.
    + destruct ok_debit0 as [H|[H|H]]; [exfalso; by apply Hno; left|exfalso; by apply Hno; right|tauto].
    + intros Hc. split; [by apply ok_unclaimed0|by apply Hun].
    + intros m Hm. destruct (ok_claimed0 m Hm) as [? ?]. auto.
  - by intros [H _].
Qed.

(** Recording a transaction id on a row. *)
Lemma payoutTx_ok w id b t :
  bet_ok risk w id b -> evolves b (set_payoutTxId t b) /\ bet_ok risk w id (set_payoutTxId t b) /\
  (tok_ok b -> tok_ok (set_payoutTxId t b)).
Proof using Type. intros []. split; [by split|]. split; [by split|done]. Qed.

(** ** The handlers

    Each keeps [R] and [Inv] at every step and ends with no token, [placeBet]
    apart, which may end owning its slot. *)

Context (E : EngineView) `{!ViewLaws E}.

Definition ends {A} (s : world) : world -> gset N -> res A -> Prop := fun s' o' _ => R s s' /\ o' = ∅.

Lemma view_state_core : steps_in core getPublicState.
Proof using ViewLaws0. eapply steps_mono; [apply eq_core|apply view_state_pure]. Qed.
Lemma view_mult_core : steps_in core currentMultiplier.
Proof using ViewLaws0. eapply steps_mono; [apply eq_core|apply view_mult_pure]. Qed.
Lemma profile_core u a m : steps_in core (profile_loot u a m).
Proof using Type. apply steps_db_set; [apply _|]. intros w. frame. Qed.
#[local] Hint Resolve view_state_core view_mult_core profile_core : vr_steps.

(** Reach a later state through the transitions in the context. *)
Ltac later :=
  first [ eassumption | reflexivity
        | multimatch goal with HR : R ?a ?b |- R ?a ?c => transitivity b; [exact HR|clear HR; later] end ].
(** Return, or let an exception through. *)
Ltac leaf := hnf; split; [later|first [reflexivity|hnf; split; [later|reflexivity]]].
Ltac next := secure_next.
(** The next statement leaves the invariant's tables alone. *)
Ltac quiet := apply secure_core; [solve [steps]|].

Lemma secure_cancelBet s u p : sec s ∅ (cancelBet W E u p) (ends s).
Proof using All.
  unfold cancelBet. apply secure_bind. quiet. intros s1 [st|e] H1; [|leaf].
  destruct (in_phase Betting st) as [r|]; [|leaf].
  apply secure_bind, secure_read; [apply _..|intros w; by repeat case_match| |intros; leaf].
  intros w F HR Ho HI. destruct (bet_findUnique_slot r u p w) as [b|] eqn:Hs; cbn [fst]; [|leaf].
  destruct (slot_row _ _ _ _ _ _ HI Hs) as [[Hb Hok] _].
  destruct (w_wallets w !! b_walletId b) as [wl|]; cbn [fst]; [|leaf].
  destruct (has_status active b) eqn:Hact; cbn [negb]; [|leaf]. apply has_status_eq in Hact.
  destruct (active_row _ _ _ Hok Hact) as (_ & _ & Hkeep).
  apply secure_bind. quiet. intros s2 [now|e] H2; [|leaf].
  apply secure_bind, secure_cas.
  - intros w' b' HR' [Hb' Hok'] Hst. apply has_status_eq in Hst.
    destruct (active_row _ _ _ Hok' Hst) as (_ & Hc & _).
    apply flip_ok; [done|by left|done|by rewrite Hst|done|done].
  - intros w' HR'. split; leaf.
  - intros w0 w' b' HR0 HR' [Hb0 Hok0] Hst Hb'. cbn [Z.eqb]. apply has_status_eq in Hst.
    destruct (active_row _ _ _ Hok0 Hst) as (Hd & _ & _).
    destruct (R_bet w w0 (b_id b) b) as (b0 & Hb0' & Hev); [later|done|done|]. simplify_eq.
    pose proof (ev_frozen _ _ Hev) as [].
    apply secure_bind. eapply secure_move; [apply wp_credit_posts| |].
    + intros row Hw Ha. exists (set_settled cancelled now b'). cbn. split_and!; [done|done|done|congruence..].
    + intros s3 [c|e] H3; leaf.
Qed.

(** A claimed win can be marked pending at any later time. *)
Lemma pending_ok s w id b b' st :
  w_bets s !! id = Some b -> is_Some (b_cashoutMult b) -> R s w -> row_at w id b' ->
  st = payout_pending \/ st = cashed_out ->
  evolves b' (set_status st b') /\ bet_ok risk w id (set_status st b') /\ (tok_ok b' -> tok_ok (set_status st b')).
Proof using Type.
  intros Hb Hc HR [Hb' Hok] Hst. destruct (claimed_row _ _ _ _ HR Hb Hc) as (b1 & Hb1 & _ & Hm & _).
  simplify_eq. destruct Hc as [m Hc]. rewrite Hc in Hm. destruct (ok_claimed _ _ _ _ Hok _ Hm) as [Hs _].
  apply flip_ok; [done|by right; left|congruence|by destruct Hst as [->| ->]..].
Qed.

Lemma secure_payWin s u p b b' ccy mult payout t0 :
  w_bets s !! b_id b = Some b' -> is_Some (b_cashoutMult b') -> b_payout b' = payout ->
  b_walletId b' = b_walletId b -> sec s ∅ (payWin W u p b ccy mult payout t0) (ends s).
Proof using All.
  intros Hb Hc Hpay Hwal. unfold payWin.
  apply secure_bind, secure_try, secure_bind. eapply secure_move; [apply wp_credit_posts| |].
  { intros row Hw Ha. exists b'. split_and!; [done|done|congruence..]. }
  intros s1 [c|e] H1.
  - next. apply secure_bind, secure_update.
    + intros w b1 _ [_ Hok]. by apply payoutTx_ok.
    + intros w [[]|e] H2; [|leaf]. quiet. intros s2 [x|e] H3; leaf.
  - next. apply secure_bind. quiet. intros s2 [[]|e'] H2; [|leaf].
    apply secure_bind, secure_update.
    + intros w b1 HRw Hrow. eapply (pending_ok s w); [done|done|later|done|by left].
    + intros w [[]|e'] H3; leaf.
Qed.

Lemma secure_cashOut s u p m : sec s ∅ (cashOut W E risk u p m) (ends s).
Proof using All.
  unfold cashOut. apply secure_bind. quiet. intros s0 [t0|e] H0; [|leaf].
  apply secure_bind. quiet. intros s1 [st|e] H1; [|leaf].
  destruct (in_phase Running st) as [r|]; [|leaf].
  apply secure_bind. quiet. intros s2 [mult|e] H2; [|leaf].
  apply secure_bind, secure_read; [apply _..|intros w; by repeat case_match| |intros; leaf].
  intros w F HR Ho HI. destruct (bet_findUnique_slot r u p w) as [b|] eqn:Hs; cbn [fst]; [|leaf].
  destruct (slot_row _ _ _ _ _ _ HI Hs) as [[Hb Hok] _].
  destruct (w_wallets w !! b_walletId b) as [wl|]; cbn [fst]; [|leaf].
  destruct (w_rounds w !! b_roundId b) as [rd|] eqn:Hrd; cbn [fst]; [|leaf].
  destruct (has_status active b) eqn:Hact; cbn [negb]; [|leaf]. apply has_status_eq in Hact.
  destruct (active_row _ _ _ Hok Hact) as (_ & _ & Hkeep).
  destruct (phase_eqb (r_status rd) Running); cbn [negb orb]; [|leaf].
  destruct (Z.leb_spec (r_crashPoint rd) mult) as [|Hlt]; [leaf|].
  apply secure_bind. quiet. intros s3 [now|e] H3; [|leaf].
  apply secure_bind, secure_cas.
  - intros w' b' HR' [Hb' Hok'] Hst. apply has_status_eq in Hst.
    destruct (active_row _ _ _ Hok' Hst) as (Hd & Hc & _).
    destruct (R_bet w w' (b_id b) b) as (b0 & Hb0 & Hev); [later|done|done|]. simplify_eq.
    assert (Hr : rounds_evolve (w_rounds w) (w_rounds w')) by (assert (HRw : R w w') by later; apply HRw).
    destruct (Hr _ _ Hrd) as (rd' & Hrd' & Hcp). pose proof (ev_frozen _ _ Hev) as [].
    split; [|split; [|by intros [[Ht|Ht] _]; rewrite Hst in Ht]].
    + split; cbn [set_cashed_out b_cashoutMult b_debitTxId b_status]; first [by split|intros; congruence|done].
    + destruct Hok'. split; cbn; try done; [by right; right|]. intros m' [= <-].
      split; [done|]. exists rd'. split_and!; [congruence|lia|]. unfold payoutOf. cbn. congruence.
  - intros w' HR'. split; leaf.
  - intros w0 w' b' HR0 HR' [Hb0 Hok0] Hst Hb'. cbn [Z.eqb].
    destruct (R_bet w w0 (b_id b) b) as (b0 & Hb0' & Hev); [later|done|done|]. simplify_eq.
    pose proof (ev_frozen _ _ Hev) as [].
    eapply secure_weaken; [eapply secure_payWin; [exact Hb'|by eexists|done|done]|].
    intros s4 o r' [H4 ->]. leaf.
Qed.

Lemma secure_evaluateAutoCashouts s m : sec s ∅ (evaluateAutoCashouts W E risk m) (ends s).
Proof using All.
  unfold evaluateAutoCashouts. apply secure_bind. quiet. intros s1 [st|e] H1; [|leaf].
  destruct (in_phase Running st) as [r|]; [|leaf].
  apply secure_bind, secure_get; [apply _..| |intros; leaf]. intros w F HR _ HI.
  apply secure_fold_each; [apply _|intros; leaf|]. intros b rs s' _ Hs'.
  apply secure_try, secure_bind. eapply secure_weaken; [apply secure_cashOut|].
  intros s2 o [x|e] [H2 ->]; [leaf|]. next. apply secure_bind. quiet. intros s3 [[]|e'] H3; leaf.
Qed.

Lemma secure_settleRound s r : sec s ∅ (settleRound r) (ends s).
Proof using All.
  unfold settleRound. apply secure_bind, secure_get; [apply _..| |intros; leaf]. intros w F HR _ HI.
  destruct (bets_where (active_in r) w) as [|b0 bs]; [leaf|].
  apply secure_bind. quiet. intros s1 [now|e] H1; [|leaf].
  apply secure_bind, secure_updateMany.
  - intros w' id b HR' [Hb Hok] Hst. unfold active_in in Hst. apply andb_true_iff in Hst as [_ Hst].
    apply has_status_eq in Hst. apply flip_ok; [done|by left|done|by rewrite Hst|done|done].
  - intros w' [n|e] HR'; leaf.
Qed.

(** *** Voids *)

(** The rows a void of [b] posts are acceptable. *)
Definition voidable (w : world) (b : bet) : Prop :=
  (forall row, l_walletId row = b_walletId b -> l_amount row = b_amount b -> row_ok w (KVoidRefund (b_id b)) row) /\
  (0 < b_payout b -> forall row, l_walletId row = b_walletId b -> l_amount row = - b_payout b ->
     row_ok w (KVoidReclaim (b_id b)) row).

Lemma voidable_mono w w' b : R w w' -> voidable w b -> voidable w' b.
Proof using Type. intros HR [H1 H2]. split; intros; eapply row_ok_mono; eauto. Qed.

Lemma voidable_of w b b' :
  w_bets w !! b_id b = Some b' -> frozen b b' -> settled_win (b_status b') = true ->
  is_Some (b_debitTxId b') -> b_payout b' = b_payout b -> (0 < b_payout b -> is_Some (b_cashoutMult b')) ->
  voidable w b.
Proof using Type.
  intros Hb [] Hs Hd Hp Hc. split.
  - intros row Hw Ha. exists b'. split_and!; [done..|congruence|congruence].
  - intros Hpos row Hw Ha. exists b'. split_and!; [done|by apply Hc|congruence|congruence].
Qed.

Lemma paid_claimed w id b : bet_ok risk w id b -> 0 < b_payout b -> is_Some (b_cashoutMult b).
Proof using Type.
  intros [] Hp. destruct (b_cashoutMult b) as [m|]; [by eexists|]. destruct (ok_unclaimed0 eq_refl). lia.
Qed.

Lemma secure_reversals s b : voidable s b -> sec s ∅ (performVoidReversals W b) (ends s).
Proof using All.
  intros Hv. unfold performVoidReversals. apply secure_bind. unfold when. destruct (Z.ltb_spec 0 (b_payout b)) as [Hp|Hp].
  - eapply secure_move; [apply wp_reverse_posts|intros row Hw Ha; by apply Hv|].
    intros s1 [[]|e] H1; [|leaf]. next.
    eapply secure_move; [apply wp_reverse_posts|intros row Hw Ha; by apply (voidable_mono s)|].
    intros s2 [[]|e] H2; leaf.
  - next. eapply secure_move; [apply wp_reverse_posts|intros row Hw Ha; by apply Hv|].
    intros s2 [[]|e] H2; leaf.
Qed.

(** [voiding -> voided]. *)
Lemma secure_finalize s id Q :
  (forall w r, R s w -> Q w ∅ r) -> sec s ∅ (bet_updateMany_id id (has_status voiding) (set_status voided)) Q.
Proof using Hsane.
  intros HQ. apply secure_cas; [|intros; split; by apply HQ|intros; apply HQ; by etrans].
  intros w b HR [_ Hok] Hst. apply has_status_eq in Hst.
  apply flip_ok; [done|right; left; by rewrite Hst|done..].
Qed.

Lemma audit_core sl e : steps_in core (Audit.record sl e).
Proof using Type.
  apply steps_try; [|intros; steps]. apply steps_db_set; [apply _|]. intros w. frame.
Qed.
#[local] Hint Resolve audit_core : vr_steps.

Lemma secure_voidClaimed s sl o reason b : voidable s b -> sec s ∅ (voidClaimed W sl o reason b) (ends s).
Proof using All.
  intros Hv. unfold voidClaimed. apply secure_bind. eapply secure_weaken; [by apply secure_reversals|].
  intros s1 o1 [[]|e] [H1 ->]; [|leaf]. next. apply secure_bind, secure_finalize.
  intros s2 [n|e] H2; [|leaf]. quiet. intros s3 r H3. leaf.
Qed.

(** A settled row keeps its payout until it is voided. *)
Lemma settled_same w w' id b b' :
  bet_ok risk w id b -> bet_ok risk w' id b' -> evolves b b' -> b_status b' = b_status b ->
  b_status b = busted \/ b_status b = cashed_out ->
  b_payout b' = b_payout b /\ is_Some (b_debitTxId b').
Proof using Type.
  intros Hok Hok' Hev Hst Hs. split.
  - destruct (b_cashoutMult b) as [m|] eqn:Hm; [by destruct (ev_claim _ _ Hev m Hm)|].
    destruct (ok_unclaimed _ _ _ _ Hok Hm) as (-> & Hne & _).
    destruct (b_cashoutMult b') as [m'|] eqn:Hm'; [|by apply (ok_unclaimed _ _ _ _ Hok')].
    destruct (ok_claimed _ _ _ _ Hok' m' Hm') as [Hset _]. rewrite Hst in Hset.
    destruct Hs as [Hs|Hs]; rewrite Hs in *; [by vm_compute in Hset|done].
  - destruct (ok_debit _ _ _ _ Hok') as [H|[H|H]]; [| |done];
      destruct Hs as [Hs|Hs]; rewrite Hst, Hs in H; by vm_compute in H.
Qed.

Lemma secure_voidBet s sl o id reason : sec s ∅ (voidBet W sl o id reason) (ends s).
Proof using All.
  unfold voidBet. apply secure_bind, secure_get; [apply _..| |intros; leaf]. intros w F HR _ HI. next.
  destruct (w_bets w !! id) as [b|] eqn:Hb; [|leaf]. assert (Hok : bet_ok risk w id b) by by apply HI.
  assert (b_id b = id) by apply Hok. subst id.
  destruct (opt_eqb (b_operatorId b) (Some o)); cbn [negb]; [|leaf].
  assert (Hclaim : b_status b = busted \/ b_status b = cashed_out -> sec w ∅ (claimVoid W sl o reason b) (ends s)).
  { intros Hst. apply secure_bind, secure_cas.
    - intros w' b' _ [_ Hok'] Heq. apply has_status_eq in Heq. rewrite <- Heq in Hst.
      apply flip_ok; [done|destruct Hst as [->| ->]; vm_compute; tauto|done..].
    - intros w' HR'. split; leaf.
    - intros w0 w' b' HR0 HR' [Hb0 Hok0] Heq Hb'. cbn [Z.eqb]. apply has_status_eq in Heq.
      assert (Hkeep : ~ disposable b).
      { destruct (settled_same w w (b_id b) b b Hok Hok ltac:(reflexivity) eq_refl Hst).
        apply debited_kept; [done|by destruct Hst as [->| ->]]. }
      destruct (R_bet w w0 (b_id b) b) as (b0 & Hb0' & Hev); [done|done|done|]. simplify_eq.
      destruct (settled_same w w0 (b_id b) b b' Hok Hok0 Hev Heq Hst) as [Hp Hd].
      eapply secure_weaken; [apply secure_voidClaimed|intros s4 o' r [H4 ->]; leaf].
      eapply voidable_of; [exact Hb'|etrans; [apply Hev|by split]|done|done|done|].
      cbn. intros Hpos. eapply paid_claimed; [exact Hok0|lia]. }
  destruct (b_status b) eqn:Hst; try (by leaf); try (apply Hclaim; tauto).
  eapply secure_weaken; [apply secure_voidClaimed|intros s4 o' r [H4 ->]; leaf].
  eapply voidable_of; [exact Hb|reflexivity|by rewrite Hst| |done|by eapply paid_claimed].
  eapply settled_debited; [done|by rewrite Hst].
Qed.

(** *** Reconcilers *)

Lemma secure_finishVoid s n b :
  voidable s b -> sec s ∅ (finishVoid W n b) (ends s).
Proof using All.
  intros Hv. unfold finishVoid. apply secure_try, secure_bind. eapply secure_weaken; [by apply secure_reversals|].
  intros s1 o1 [[]|e] [H1 ->]; next.
  - apply secure_bind, secure_finalize. intros s2 [c|e] H2; next; [leaf|]. quiet. intros s3 r H3. leaf.
  - quiet. intros s3 r H3. leaf.
Qed.

Lemma secure_reconcileVoidingBets s n : sec s ∅ (reconcileVoidingBets W n) (ends s).
Proof using All.
  unfold reconcileVoidingBets. apply secure_bind, secure_get; [apply _..| |intros; leaf]. intros w F HR _ HI. next.
  apply secure_bind, secure_fold_each; [apply _| |].
  - intros s1 z H1. next. apply secure_bind. quiet. intros s2 [c|e] H2; [|leaf]. quiet. intros s3 r H3. leaf.
  - intros b z s1 Hb%take_subset H1. eapply secure_weaken; [apply secure_finishVoid|].
    + destruct (bets_where_row _ _ _ _ HI Hb) as [[Hrow Hok] Hst]. apply has_status_eq in Hst.
      eapply voidable_mono; [exact H1|]. eapply voidable_of; [exact Hrow|reflexivity|by rewrite Hst| |done|by eapply paid_claimed].
      eapply settled_debited; [done|by rewrite Hst].
    + intros s2 o' [x|e] [H2 ->]; leaf.
Qed.

(** A pending win, as it was read. *)
Lemma secure_finishPayout s n b b' :
  w_bets s !! b_id b = Some b' -> is_Some (b_cashoutMult b') -> b_payout b' = b_payout b ->
  b_walletId b' = b_walletId b -> sec s ∅ (finishPayout W n b) (ends s).
Proof using All.
  intros Hb Hc Hp Hw. unfold finishPayout. apply secure_try, secure_bind.
  eapply secure_move; [apply wp_credit_posts|intros row ??; exists b'; split_and!; [done|done|congruence..]|].
  intros s1 [c|e] H1; next; [|quiet; intros; leaf].
  apply secure_bind, secure_cas.
  - intros w x HR Hrow _.
    destruct (pending_ok s w (b_id b) b' x cashed_out) as (Hev & Hok & Ht); [done|done|later|done|by right|].
    destruct (payoutTx_ok w (b_id b) _ (tx_txId c) Hok) as (Hev' & Hok' & Ht').
    split_and!; [by etrans|done|auto].
  - intros w HR. split; next; [quiet; intros; leaf|leaf].
  - intros w0 w x HR0 HR _ _ _. cbn [Z.eqb]. next. quiet. intros s2 [z|e] H2; next; [leaf|quiet; intros; leaf].
Qed.

Lemma secure_reconcilePendingPayouts s n thr : sec s ∅ (reconcilePendingPayouts W thr n) (ends s).
Proof using All.
  unfold reconcilePendingPayouts. apply secure_bind, secure_get; [apply _..| |intros; leaf]. intros w F HR _ HI. next.
  apply secure_bind, secure_fold_each; [apply _| |].
  - intros s1 z H1. next. unfold reportPendingBacklog, backlog, bets_count. quiet. intros s2 r H2. leaf.
  - intros b z s1 Hb%take_subset H1. destruct (bets_where_row _ _ _ _ HI Hb) as [[Hrow Hok] Hst].
    apply has_status_eq in Hst.
    assert (Hc : is_Some (b_cashoutMult b)).
    { destruct (b_cashoutMult b) as [m|] eqn:Hm; [by eexists|]. by destruct (ok_unclaimed _ _ _ _ Hok Hm) as (_ & _ & ?). }
    destruct (claimed_row _ _ _ _ H1 Hrow Hc) as (b' & Hb' & Hev & Hm & Hp).
    eapply secure_weaken; [eapply secure_finishPayout; [exact Hb'|congruence|done|apply Hev]|].
    intros s2 o' [x|e] [H2 ->]; leaf.
Qed.

(** *** placeBet *)

(** What the lock's reader accumulates is the exposure. *)
Lemma exposure_loop w r c :
  fold_left (fun sum b => sum + Risk.potentialPayout risk (b_amount b))
    (List.filter (fun b => eqb_str (b_currency b) c) (bets_where (in_round_live r) w)) 0 = exposure risk w r c.
Proof using All.
  rewrite fold_left_sumZ, Z.add_0_l, sumZ_filter. unfold bets_where. rewrite sumZ_filter.
  unfold exposure. rewrite sum_map_list. apply sumZ_ext. intros b. unfold reserved_for.
  by destruct (in_round_live r b), (eqb_str (b_currency b) c).
Qed.

Lemma run_tables {A} (p : prog world A) w : steps_in tables_eq p -> tables_eq w (run p w).2.
Proof using All. intros. by apply run_steps_in; [apply _|]. Qed.

(** A committed reservation adds one row to a free slot, within the cap. *)
Lemma reserve_tx_ok q rg r id wl amt w w' :
  run (reserve_tx risk q rg r id wl amt) w = (Ok tt, w') ->
  exists now, let b := reservation q r id wl amt now in
    w_bets w !! id = None /\ bet_findUnique_slot r (q_userId q) (q_panel q) w = None /\
    exposure risk w r (toUpperCase (w_currency wl.2)) + Risk.potentialPayout risk amt <= Risk.maxRoundExposure risk /\
    tables_eq (set_bets (<[id := b]> (w_bets w)) w) w'.
Proof using All.
  intros Er. unfold reserve_tx in Er. apply run_bind_ok in Er as (rb & w1 & E1 & Er).
  apply run_db_ok in E1 as (fs & E1). injection E1 as <- <-.
  rewrite exposure_loop in Er. change (exposure risk (set_faults fs w)) with (exposure risk w) in Er.
  unfold Risk.checkRoundExposure in Er.
  destruct (Z.ltb_spec (Risk.maxRoundExposure risk)
    (exposure risk w r (toUpperCase (w_currency wl.2)) + Risk.potentialPayout risk amt)) as [|Hexp]; [done|].
  apply run_bind_ok in Er as ([] & w2 & E2 & Er).
  assert (T2 : tables_eq (set_faults fs w) w2).
  { replace w2 with (run (session_caps rg wl.1 (bets_where (in_round_live r) (set_faults fs w)) amt) (set_faults fs w)).2
      by by rewrite E2.
    apply run_tables. unfold session_caps, sessionAccounting. steps. }
  apply run_bind_ok in Er as (now & w3 & E3 & Er). cbn in E3. injection E3 as <- <-.
  apply run_db_ok in Er as (fs' & Er). exists (w_now w2). unfold tables_eq in T2. destruct_and!. cbn in *.
  assert (Eb : w_bets w2 = w_bets w) by done. unfold bet_findUnique_slot, bets_where in *. cbn in *. rewrite Eb in Er.
  destruct (w_bets w !! id); [done|]. destruct (head _); [done|]. injection Er as <-.
  split_and!; [done|done|done|]. unfold tables_eq. cbn. split_and!; first [done|congruence|lia].
Qed.

Lemma secure_uuid s o Q :
  (forall w, R s w -> Q (bump_uuid w) ({[w_uuid w]} ∪ o) (Ok (w_uuid w))) -> sec s o randomUUID Q.
Proof using All.
  intros HQ w F HR Ho HI. cbn. assert (Hc : core w (bump_uuid w)) by (split_and!; cbn; [done..|lia]).
  destruct (core_inv risk w (bump_uuid w) (o ∪ F) HI Hc) as [HR' HI'].
  split; [done|]. exists ({[w_uuid w]} ∪ o).
  assert (Hfresh : forall i, i ∈ o ∪ F -> (i < w_uuid w)%N) by (intros i Hi; by apply (inv_tokens _ _ _ HI i)).
  split; [|split; [|by apply HQ]].
  { intros i [->%elem_of_singleton|Hi]%elem_of_union Hf; [|by apply (Ho i)].
    specialize (Hfresh (w_uuid w)). clear - Hfresh Hf. enough (w_uuid w < w_uuid w)%N by lia. apply Hfresh. set_solver. }
  destruct HI' as [Hb Hr Ht He]. split; [exact Hb|exact Hr| |exact He].
  intros i [[->%elem_of_singleton|Hi]%elem_of_union|Hi]%elem_of_union; [|apply Ht; set_solver..].
  split; [cbn; lia|]. intros b Hbb. pose proof (ok_fresh _ _ _ _ (inv_bets _ _ _ HI _ _ Hbb)). lia.
Qed.

Lemma secure_reserve s q rg r id wl amt :
  0 <= amt -> sec s {[id]} (reserve risk q rg r id wl amt) (fun s' o' _ => R s s' /\ o' = {[id]}).
Proof using All.
  intros Hamt. unfold reserve. apply secure_try, secure_bind, secure_transaction; [apply _..| |].
  - intros w F [] w' HR Ho HI Er. apply reserve_tx_ok in Er as (now & Hnone & _ & Hexp & T).
    destruct (inv_tokens _ _ _ HI id) as [Hid _]; [set_solver|].
    destruct (create_step risk w ({[id]} ∪ F) (reservation q r id wl amt now)) as [HR1 HI1]; try done.
    { split; cbn; try done. by left. }
    { split_and!; [by left|done|done]. }
    assert (HR2 : R w w') by (etrans; [exact HR1|by apply table_env]).
    split; [done|]. exists {[id]}. split; [done|]. split; [by eapply inv_env|].
    split; next; [leaf|quiet; intros; leaf].
  - intros w e HR. next. apply secure_core; [destruct e; steps|]. intros; leaf.
Qed.

(** The slot is this thread's, or has been activated by it. *)
Definition owned (s : world) (id : N) (o : gset N) : Prop :=
  o = {[id]} \/ o = ∅ /\ exists b, w_bets s !! id = Some b /\ ~ disposable b /\ pre (b_status b) = false.

Lemma owned_mono s s' id o : R s s' -> owned s id o -> owned s' id o.
Proof using All.
  intros HR [->|(-> & b & Hb & Hd & Hp)]; [by left|right]. split; [done|].
  destruct (R_bet _ _ _ _ HR Hb Hd) as (b' & Hb' & Hev). exists b'. split_and!; [done| |].
  - intros Hd'. by apply Hd, (disposable_back b b').
  - destruct (pre (b_status b')) eqn:E'; [|done]. by rewrite (ev_pre _ _ Hev E') in Hp.
Qed.

(** A compare-and-swap on the owned slot while it is reserving. *)
Lemma secure_slot s id o f Q :
  owned s id o ->
  (forall w b, bet_ok risk w id b -> b_status b = reserving -> tok_ok b -> evolves b (f b) /\ bet_ok risk w id (f b)) ->
  (forall w r, R s w -> Q w o r) ->
  (forall w b r, R s w -> o = {[id]} -> w_bets w !! id = Some (f b) -> Q w ∅ r) ->
  sec s o (bet_updateMany_id id (has_status reserving) f) Q.
Proof using All.
  intros Hown Hf H0 H1. apply secure_db; [apply _..| |auto]. intros w F HR Ho HI.
  assert (Hsame : R w w /\ exists o', o' ## F /\ Inv risk w (o' ∪ F) /\ Q w o' (Ok 0) /\ Q w o' (Raise DbUnavailable)).
  { split; [reflexivity|]. exists o. auto. }
  destruct (w_bets w !! id) as [b|] eqn:Hb; [|exact Hsame].
  destruct (has_status reserving b) eqn:Hst; [|exact Hsame]. apply has_status_eq in Hst.
  destruct (owned_mono _ _ _ _ HR Hown) as [->|(_ & b0 & Hb0 & _ & Hp)];
    [|rewrite Hb in Hb0; injection Hb0 as <-; by rewrite Hst in Hp]. cbn [fst snd].
  destruct (inv_tokens _ _ _ HI id) as [_ Htok]; [set_solver|].
  destruct (Hf w b (inv_bets _ _ _ HI _ _ Hb) Hst (Htok b Hb)) as [Hev Hok].
  destruct (bet_step risk w ({[id]} ∪ F) (∅ ∪ F) id b (f b)) as [HR' HI']; [done|done|set_solver|done|done|done|set_solver|].
  split; [done|]. exists ∅. split; [set_solver|]. split; [done|].
  split; eapply H1; first [done|by etrans|cbn; apply lookup_insert_eq].
Qed.

(** Recording the debit on a reserving slot, with or without activating it. *)
Lemma record_debit_ok w id b t st :
  bet_ok risk w id b -> b_status b = reserving -> tok_ok b -> st = active \/ st = reserving ->
  evolves b (set_debitTxId t (set_status st b)) /\ bet_ok risk w id (set_debitTxId t (set_status st b)).
Proof using All.
  intros [] Hst (_ & _ & Hc) Hs. destruct (ok_unclaimed0 Hc) as [Hp _]. split.
  - split; cbn; try done; rewrite Hst; destruct Hs as [->| ->]; by vm_compute.
  - split; cbn; try done; [by right; right|intros _; by destruct Hs as [->| ->]|congruence].
Qed.

Lemma secure_stamp s o id tx p :
  owned s id o ->
  sec s o (_ ← try_catch (_ ← bet_updateMany_id id (has_status reserving) (set_debitTxId (tx_txId tx)); mret tt)
                 (fun _ => mret tt);
           _ ← recordError "bet_activate"; mret (bet_fail "bet_failed" p)) (fun _ _ _ => True).
Proof using All.
  intros Hown. apply secure_bind, secure_try, secure_bind, secure_slot; [done| | |].
  - intros w b Hok Hst Ht. replace (set_debitTxId (tx_txId tx) b) with (set_debitTxId (tx_txId tx) (set_status reserving b)).
    + apply record_debit_ok; auto.
    + destruct b; cbn in *; by subst.
  - intros w r _. destruct r; next; quiet; done.
  - intros w b r _ _ _. destruct r; next; quiet; done.
Qed.

Lemma secure_activate n s o id p amt tx ccy :
  owned s id o -> sec s o (activate n p id amt tx ccy) (fun _ _ _ => True).
Proof using All.
  revert s o. induction n as [|n IH]; intros s o Hown; [done|]. cbn [activate].
  set (h := fun _ : exn => match n with O => _ | _ => _ end).
  assert (Hraise : forall w o' e, owned w id o' -> sec w o' (h e) (fun _ _ _ => True)).
  { intros w o' e Ho'. unfold h. destruct n; [by apply secure_stamp|by apply IH]. }
  apply secure_try, secure_bind, secure_slot; [done| | |].
  - intros w b ???. apply record_debit_ok; auto.
  - intros w r HR. assert (Ho := owned_mono _ _ _ _ HR Hown). destruct r as [c|e]; [|by apply Hraise].
    destruct (c =? 0); quiet; (intros s' [x|e] H'; [done|]); apply Hraise; by eapply owned_mono.
  - intros w b r HR _ Hb. assert (Ho : owned w id ∅).
    { right. split; [done|]. eexists; split; [exact Hb|]. split; [by apply debited_kept|done]. }
    destruct r as [c|e]; [|by apply Hraise].
    destruct (c =? 0); quiet; (intros s' [x|e] H'; [done|]); apply Hraise; by eapply owned_mono.
Qed.

Lemma secure_debitAndActivate s q r id wl amt :
  sec s {[id]} (debitAndActivate W q r id wl amt) (fun _ _ _ => True).
Proof using All.
  unfold debitAndActivate. apply secure_bind, secure_try, secure_bind.
  eapply secure_move; [apply wp_debit_posts|done|]. intros s1 [tx|e] H1; next; [apply secure_activate; by left|].
  apply secure_bind, secure_try.
  assert (Hrest : forall s', sec s' {[id]} (_ ← recordRejected (if eqb_str
      (if has_message "insufficient_balance" e then "insufficient_balance"%string else "bet_failed"%string) "bet_failed"
      then "debit_failed" else if has_message "insufficient_balance" e then "insufficient_balance"%string else "bet_failed"%string);
    mret (inr (A:=WalletTxResult) (if has_message "insufficient_balance" e then "insufficient_balance"%string else "bet_failed"%string)))
    (fun s' o' r0 => match r0 with
       | Ok (inl tx) => sec s' o' (activate 3 (q_panel q) id amt tx (w_currency wl.2)) (fun _ _ _ => True)
       | Ok (inr reason) => sec s' o' (mret (bet_fail reason (q_panel q))) (fun _ _ _ => True)
       | Raise _ => True end)).
  { intros s'. apply secure_bind. quiet. intros s2 [[]|e2] _; next; done. }
  apply secure_db; [apply _..| |].
  - intros w F HR Ho HI. 
    assert (Hd : forall b, w_bets w !! id = Some b -> disposable b).
    { intros b Hb. destruct (inv_tokens _ _ _ HI id) as [_ Ht]; [set_solver|].
      destruct (Ht b Hb) as (_ & Hd & Hc). split; [done|by right]. }
    destruct (delete_step risk w ({[id]} ∪ F) id) as [HR' HI']; [done..|].
    destruct (w_bets w !! id) as [b|] eqn:Hb; cbn [fst snd].
    + split; [done|]. exists {[id]}. split; [done|]. split; [done|].
      split; next; eapply secure_weaken; [apply Hrest| |apply Hrest|]; by intros s' o' [[]|].
    + split; [reflexivity|]. exists {[id]}. split; [done|]. split; [done|].
      split; next; eapply secure_weaken; [apply Hrest| |apply Hrest|]; by intros s' o' [[]|].
  - intros w HR. next. eapply secure_weaken; [apply Hrest|]. by intros s' o' [[]|].
Qed.

(** Limits with no negative minimum stake. *)
Definition sane_limits (q : PlaceArgs) : Prop :=
  match q_limits q with Some l => 0 <= Risk.pl_minBet l | None => True end.

Lemma secure_placeInRound s q r amt :
  0 <= amt -> sec s ∅ (placeInRound W risk q r amt) (fun _ _ _ => True).
Proof using All.
  intros Hamt. unfold placeInRound, rg_gate, rg_refuse. apply secure_bind. quiet. intros s1 [[reason|]|e] H1; [done| |done].
  apply secure_bind. quiet. intros s2 [ex|e] H2; [|done]. next.
  destruct (match ex with Some b => negb (has_status reserving b) | None => false end); [done|].
  apply secure_bind. unfold walletFor, wallet_findUniqueOrThrow, wallet_findFirstOrThrow.
  apply secure_core.
  { apply steps_try; [|intros; steps]. apply steps_bind; [|intros; steps].
    destruct (q_walletId q); [apply steps_bind; [|intros; steps]|];
      (apply steps_db; [apply _|intros w; case_match; reflexivity]). }
  intros s3 [[wl|]|e] H3; [|done|done]. next.
  apply secure_bind, secure_uuid. intros w HR. next. replace ({[w_uuid w]} ∪ ∅) with ({[w_uuid w]} : gset N) by set_solver.
  apply secure_bind. eapply secure_weaken; [by apply secure_reserve|].
  intros s4 o [[reason|]|e] [H4 ->]; [done| |done]. next. apply secure_debitAndActivate.
Qed.

Lemma secure_placeBet s q : sane_limits q -> sec s ∅ (placeBet W E risk q) (fun _ _ _ => True).
Proof using All.
  intros Hq. unfold placeBet. apply secure_bind. quiet. intros s1 [st|e] H1; [|done]. next.
  destruct (in_phase Betting st) as [r|]; [|done].
  destruct (bigint_floor (q_amount q)) as [amt|]; [|done].
  destruct (Risk.checkBetAmount risk amt (q_limits q)) as [reason|] eqn:Hc; [quiet; done|].
  apply Risk.checkBetAmount_ok in Hc. apply secure_placeInRound.
  unfold sane_limits in Hq. destruct (q_limits q); [lia|]. pose proof (sane_min _ Hsane). lia.
Qed.

(** ** The service *)

Definition sane_request (r : request) : Prop := match r with RPlace q => sane_limits q | _ => True end.

Lemma secure_serve s sl thr1 thr2 r :
  sane_request r -> sec s ∅ (serve W E risk sl thr1 thr2 r) (fun _ _ _ => True).
Proof using All.
  intros Hr. destruct r; cbn [serve];
    try (apply secure_forget; eapply secure_weaken; [|done]).
  - by apply secure_placeBet.
  - apply secure_cancelBet.
  - apply secure_cashOut.
  - apply secure_evaluateAutoCashouts.
  - apply secure_settleRound.
  - apply secure_voidBet.
  - apply secure_reconcileVoidingBets.
  - apply secure_reconcilePendingPayouts.
  - unfold reportReservingBacklog, backlog, bets_count. quiet. done.
Qed.
End handlers.

(** One request as a node runs it: with that node's view of the engine. *)
Record client := mk_client { cl_view : EngineView; cl_laws : ViewLaws cl_view; cl_request : request }.

Section pool.
Context (W : WalletProvider) `{!WalletLaws W} (risk : Risk.RiskLimits) (sl : json -> Z) (thr1 thr2 : jsnum).

Definition run_client (c : client) : prog world unit := serve W (cl_view c) risk sl thr1 thr2 (cl_request c).

(** Every interleaving of any requests keeps the invariant. *)
Lemma clients_inv cs w w' ps' :
  sane risk -> Forall (fun c => sane_request (cl_request c)) cs -> Inv risk w ∅ ->
  pool_steps w (run_client <$> cs) w' ps' -> R w w' /\ Inv risk w' ∅.
Proof using WalletLaws0.
  intros Hsane Hcs HI Hsteps.
  destruct (pool_secure_sound R (Inv risk) w _ w' ps' (replicate (length (run_client <$> cs)) ∅) Hsteps)
    as (os & _ & HI' & HR).
  - apply pool_secure_idle; [apply _|]. apply Forall_fmap. eapply Forall_impl; [exact Hcs|].
    intros c Hc. cbn. pose proof (cl_laws c). by apply secure_serve.
  - by rewrite union_list_idle.
  - split; [done|]. eapply inv_sub; [|exact HI']. set_solver.
Qed.

(** ** Properties *)

Definition posted_amount (w : world) (k : idem_key) : option Z := l_amount <$> w_ledger w !! k.

(** C1: No cash-out ever pays at or above the crash.  Whatever the nodes'
    cached views of the engine say, however requests and sweeps interleave and
    whichever statements fail, a claimed win was cashed strictly below the
    crash point of its round, for exactly the capped floor of stake times
    multiplier, and the only payout ever posted for a bet is that amount on its
    own wallet. *)
Theorem payout_below_crash cs w w' ps'
    (Hsane : sane risk) (Hcs : Forall (fun c => sane_request (cl_request c)) cs) (HI : Inv risk w ∅) :
  pool_steps w (run_client <$> cs) w' ps' ->
  (forall id b m, w_bets w' !! id = Some b -> b_cashoutMult b = Some m ->
     exists r, w_rounds w' !! b_roundId b = Some r /\ m < r_crashPoint r /\
       b_payout b = Risk.capPayout risk (Money.floorPayout (b_amount b) m) (b_maxWinPerBet b)) /\
  (forall id row, w_ledger w' !! KPayout id = Some row ->
     exists b, w_bets w' !! id = Some b /\ is_Some (b_cashoutMult b) /\
       l_walletId row = b_walletId b /\ l_amount row = b_payout b).
Proof using WalletLaws0.
  intros Hsteps. destruct (clients_inv cs w w' ps' Hsane Hcs HI Hsteps) as [_ HI']. split.
  - intros id b m Hb Hm. by apply (ok_claimed _ _ _ _ (inv_bets _ _ _ HI' _ _ Hb)).
  - intros id row Hrow. exact (inv_rows _ _ _ HI' _ _ Hrow).
Qed.


(** C5: The bankroll breaker holds under concurrency.  However many bets are
    placed at once, retried, or left half-done by failing statements, the
    potential payouts of a round's live bets in one currency never exceed the
    configured exposure. *)
Theorem round_exposure_bounded cs w w' ps'
    (Hsane : sane risk) (Hcs : Forall (fun c => sane_request (cl_request c)) cs) (HI : Inv risk w ∅) :
  pool_steps w (run_client <$> cs) w' ps' -> forall roundId ccy,
  sumZ (fun b => Risk.potentialPayout risk (b_amount b))
    (bets_where (fun b => in_round_live roundId b && eqb_str (b_currency b) ccy) w') <= Risk.maxRoundExposure risk.
Proof using WalletLaws0.
  intros Hsteps r c. destruct (clients_inv cs w w' ps' Hsane Hcs HI Hsteps) as [_ HI'].
  etrans; [|apply (inv_exposure _ _ _ HI' r c)]. unfold bets_where. rewrite sumZ_filter.
  unfold exposure. rewrite sum_map_list. by apply Z.eq_le_incl, sumZ_ext.
Qed.

(** A claim is final.  Once a bet is cashed out, whatever runs afterwards,
    the bet exists with the same stake, multiplier and payout, is never busted,
    cancelled or back in play; and a bet refunded by a cancel stays cancelled. *)
Theorem claims_are_final cs w w' ps'
    (Hsane : sane risk) (Hcs : Forall (fun c => sane_request (cl_request c)) cs) (HI : Inv risk w ∅) :
  pool_steps w (run_client <$> cs) w' ps' -> forall id b, w_bets w !! id = Some b ->
  (is_Some (b_cashoutMult b) -> exists b', w_bets w' !! id = Some b' /\ b_amount b' = b_amount b /\
     b_cashoutMult b' = b_cashoutMult b /\ b_payout b' = b_payout b /\
     b_status b' ∈ [cashed_out; payout_pending; voiding; voided]) /\
  (b_status b = cancelled -> is_Some (b_debitTxId b) ->
     exists b', w_bets w' !! id = Some b' /\ b_status b' = cancelled).
Proof using WalletLaws0.
  intros Hsteps id b Hb. destruct (clients_inv cs w w' ps' Hsane Hcs HI Hsteps) as [HR HI']. split.
  - intros Hc. destruct (claimed_row _ _ _ _ HR Hb Hc) as (b' & Hb' & Hev & Hm & Hp).
    exists b'. destruct Hc as [m Hc]. rewrite Hc in Hm.
    destruct (ok_claimed _ _ _ _ (inv_bets _ _ _ HI' _ _ Hb') m Hm) as [Hs _].
    split_and!; [done|apply Hev|congruence|done|]. by apply bool_decide_eq_true in Hs.
  - intros Hst Hd. destruct (R_bet _ _ _ _ HR Hb) as (b' & Hb' & Hev); [apply debited_kept; [done|by rewrite Hst]|].
    exists b'. split; [done|]. by apply Hev.
Qed.
End pool.

#[local] Existing Instance Ledger.LedgerService_laws.

(** *** A concrete pool

    A player places 120 on a round that crashes at 2.50x, cashes out at 2.00x
    while a stale node lets the same player cancel; the operator then voids. *)

Lemma opening_inv risk w : sane risk -> w_bets w = ∅ -> w_ledger w = ∅ -> Inv risk w ∅.
Proof.
  intros Hs Hb Hl. split.
  - intros id b. by rewrite Hb.
  - intros k row. by rewrite Hl.
  - intros id Hid. set_solver.
  - intros r c. unfold exposure. rewrite Hb, sum_map_empty. apply Hs.
Qed.

Lemma default_sane : sane Risk.default_limits.
Proof. split; vm_compute; congruence. Qed.

Definition seen (ph : phase) (mult : Z) : EngineView := {|
  getPublicState := mret (Some {| ps_phase := ph; ps_roundId := 100%N |}); currentMultiplier := mret mult |}.

Lemma seen_laws ph m : ViewLaws (seen ph m).
Proof. by split. Qed.

Definition ask (ph : phase) (m : Z) (r : request) : client := mk_client (seen ph m) (seen_laws ph m) r.

Definition sample_round : round := mk_round 100%N 1%N 1 250 Running 0 None (Some 0) None None 0.
Definition sample_world : world :=
  set_rounds {[ 100%N := sample_round ]} (set_wallets {[ 1%N := mk_wallet 7%N "usd" 500 ]} empty_world).
Definition stake_args (amount : Z) : PlaceArgs := {|
  q_userId := 7%N; q_panel := PanelA; q_amount := Fin (inject_Z amount); q_autoCashout := None; q_walletId := Some 1%N;
  q_limits := None; q_demo := false; q_rgCtx := None; q_operatorId := Some 5%N |}.

Definition sample_clients : list client :=
  [ask Betting 100 (RPlace (stake_args 120)); ask Running 200 (RCash 7%N PanelA None);
   ask Betting 100 (RCancel 7%N PanelA); ask Running 200 (RVoid 5%N 0%N None)].

Definition run_sample : client -> prog world unit :=
  run_client Ledger.LedgerService Risk.default_limits (fun _ => 0) NaN NaN.

(** The bet placed; both claims in flight, the cash-out first; then the void. *)
Definition sample_sched (claims : list nat) : list nat :=
  (replicate 30 0 ++ claims ++ replicate 30 1 ++ replicate 30 2 ++ replicate 30 3)%nat.
Definition sample_end (claims : list nat) : world * list (prog world unit) :=
  schedule_pool (sample_sched claims) sample_world (run_sample <$> sample_clients).

Definition cash_first : list nat := [1; 2; 1; 2; 1; 1; 2; 2]%nat.
Definition cancel_first : list nat := [1; 2; 1; 2; 1; 2; 2; 1]%nat.

Lemma sample_steps claims :
  pool_steps sample_world (run_sample <$> sample_clients) (sample_end claims).1 (sample_end claims).2.
Proof. exact (schedule_pool_steps (sample_sched claims) sample_world (run_sample <$> sample_clients)). Qed.

Lemma sample_sane : Forall (fun c => sane_request (cl_request c)) sample_clients.
Proof. repeat constructor. Qed.

Lemma sample_inv : Inv Risk.default_limits sample_world ∅.
Proof. apply opening_inv; [apply default_sane|reflexivity..]. Qed.

Lemma payout_below_crash_witness :
  posted_amount (sample_end cash_first).1 (KPayout 0%N) = Some 240 /\
  forall row, w_ledger (sample_end cash_first).1 !! KPayout 0%N = Some row ->
    exists b, w_bets (sample_end cash_first).1 !! 0%N = Some b /\ is_Some (b_cashoutMult b) /\
      l_walletId row = b_walletId b /\ l_amount row = b_payout b.
Proof.
  split; [vm_compute; reflexivity|].
  exact (proj2 (payout_below_crash Ledger.LedgerService Risk.default_limits (fun _ => 0) NaN NaN sample_clients _ _ _
    default_sane sample_sane sample_inv (sample_steps cash_first)) 0%N).
Defined.


Lemma round_exposure_bounded_witness :
  sumZ (fun b => Risk.potentialPayout Risk.default_limits (b_amount b))
    (bets_where (fun b => in_round_live 100%N b && eqb_str (b_currency b) "USD") (sample_end []).1) <=
  Risk.maxRoundExposure Risk.default_limits.
Proof.
  exact (round_exposure_bounded Ledger.LedgerService Risk.default_limits (fun _ => 0) NaN NaN sample_clients _ _ _
    default_sane sample_sane sample_inv (sample_steps []) 100%N "USD"%string).
Defined.

(** A claimed bet, then the reconcilers and another void. *)
Definition won_bet : bet :=
  mk_bet 0%N 100%N 7%N 1%N PanelA 120 None cashed_out (Some 200) 240 false (Some 5%N) "USD" None
    (Some (TxLedger 1%N)) None 0 (Some 0).
Definition won_world : world :=
  set_bets {[ 0%N := won_bet ]} (bump_uuid (bump_uuid sample_world)).
Definition later_clients : list client :=
  [ask Running 200 (RVoid 5%N 0%N None); ask Running 200 (RSettle 100%N)].
Definition won_end : world * list (prog world unit) :=
  schedule_pool (replicate 6 0 ++ [1; 1; 1])%nat won_world (run_sample <$> later_clients).

Lemma won_inv : Inv Risk.default_limits won_world ∅.
Proof.
  split.
  - intros id b Hb. change ((({[ 0%N := won_bet ]} : gmap N bet) !! id) = Some b) in Hb.
    apply lookup_singleton_Some in Hb as [<- <-].
    split; cbn; try done; try lia; [by right; right|].
    intros m [= <-]. split; [done|]. exists sample_round. by split_and!.
  - intros k row Hk. by vm_compute in Hk.
  - intros id Hid. set_solver.
  - intros r c. unfold exposure. cbn [won_world set_bets w_bets]. rewrite <- insert_empty, sum_map_insert by apply lookup_empty.
    rewrite sum_map_empty. unfold reserved_for. rewrite in_round_live_eq. cbn. by rewrite andb_false_r.
Qed.

Lemma claims_are_final_witness :
  exists b', w_bets won_end.1 !! 0%N = Some b' /\ b_amount b' = 120 /\
    b_cashoutMult b' = Some 200 /\ b_payout b' = 240 /\ b_status b' ∈ [cashed_out; payout_pending; voiding; voided].
Proof.
  apply (claims_are_final Ledger.LedgerService Risk.default_limits (fun _ => 0) NaN NaN later_clients won_world won_end.1 won_end.2
    default_sane ltac:(repeat constructor) won_inv (schedule_pool_steps _ _ _) 0%N won_bet); [reflexivity|by eexists].
Defined.
End BetSafety.
