(* ===== verification/BetFlow.v ===== *)
(** * What each bet operation does

    The functional contracts of [Bets] against the internal ledger with a
    healthy database: placing a bet, cancelling, cashing out, settling a round
    and voiding, each on every branch; and the runs, with a lost
    acknowledgement or a failed credit, in which a contract does not survive a
    fault. *)

From Stdlib Require Import QArith.
From S2P Require Import Prelude Effects Js Money Schema Wallet Ledger AuditLog OperatorConfig Bets BetSafety.

Open Scope Z_scope.

#[local] Set Warnings "-clear-no-such-hyp".

Module BetFlow.
Import Bets.
#[local] Existing Instance Ledger.LedgerService.

(** ** Healthy runs *)

(** [w] is [w0] but for the process's memory, with the database healthy. *)
Definition calm (w0 w : world) : Prop := tables_eq w0 w /\ w_faults w = [] /\ w_now w = w_now w0.

(** A step that keeps the database healthy and its tables as they are. *)
Definition quiet (w w' : world) : Prop :=
  tables_eq w w' /\ (w_faults w = [] -> w_faults w' = []) /\ w_now w' = w_now w.

#[local] Instance quiet_preorder : PreOrder quiet.
Proof.
  split; [by intros w|]. intros x y z (T1 & F1 & N1) (T2 & F2 & N2).
  split; [by etrans|]. split; [auto|congruence].
Qed.

Lemma quiet_db {A} (f : world -> res A * world) : (forall w, (f w).2 = w) -> steps_in quiet (db f).
Proof.
  intros Hf. apply steps_atom_res. intros w. unfold db_step. destruct (w_faults w) as [|[] fs] eqn:E;
    cbn [snd]; rewrite ?Hf; (split; [apply tables_set_faults || reflexivity|]); (split; [congruence|done]).
Qed.
Lemma quiet_get {A} (f : world -> A) : steps_in quiet (db_get f).
Proof. by apply quiet_db. Qed.
Lemma quiet_emit e : steps_in quiet (emit e).
Proof. apply steps_atom. intros w. split; [frame|done]. Qed.
Lemma quiet_uuid : steps_in quiet randomUUID.
Proof. apply steps_atom. intros w. split; [frame|done]. Qed.
Lemma quiet_now : steps_in quiet Date_now.
Proof. apply steps_gets. apply _. Qed.

Lemma quiet_view {A} (p : prog world A) : steps_in eq p -> steps_in quiet p.
Proof. apply steps_mono. by intros w _ <-. Qed.

#[local] Hint Resolve quiet_get quiet_emit quiet_uuid quiet_now : vr_steps.

Lemma calm_quiet w0 w w' : calm w0 w -> quiet w w' -> calm w0 w'.
Proof. intros (T & F & N) (T' & F' & N'). split; [by etrans|]. split; [auto|congruence]. Qed.

Lemma calm_refl w : w_faults w = [] -> calm w w.
Proof. done. Qed.

Lemma spec_calm {A} w0 (p : prog world A) : steps_in quiet p -> spec (calm w0) p (fun _ => calm w0).
Proof. intros Hp w Hw. eapply calm_quiet; [exact Hw|]. by apply run_steps_in; [apply _|]. Qed.

(** A read: it returns what the tables say. *)
Lemma spec_calm_get {A} w0 (f : world -> A) :
  spec (calm w0) (db_get f) (fun r w => calm w0 w /\ r = Ok (f w)).
Proof. intros w Hw. rewrite run_db_get by apply Hw. done. Qed.

Lemma spec_calm_now w0 : spec (calm w0) Date_now (fun r w => calm w0 w /\ r = Ok (w_now w0)).
Proof. intros w Hw. cbn. split; [done|]. f_equal. apply Hw. Qed.

(** Continue after a read with its value. *)
Lemma spec_seq_calm {A B} w0 (p : prog world A) (k : A -> prog world B) (phi : A -> Prop) Q :
  spec (calm w0) p (fun r w => calm w0 w /\ match r with Ok a => phi a | Raise _ => True end) ->
  (forall e w, calm w0 w -> Q (Raise e) w) -> (forall a, phi a -> spec (calm w0) (k a) Q) ->
  spec (calm w0) (x ← p; k x) Q.
Proof.
  intros Hp He Hk. apply (spec_bind _ (fun a w => calm w0 w /\ phi a)); [|intros a; apply spec_pure, Hk].
  eapply spec_conseq; [exact Hp|done|]. intros [a|e] w [? ?]; [done|by apply He].
Qed.

(** ** Placing a bet *)

Section place.
Context (E : EngineView) `{!ViewLaws E} (risk : Risk.RiskLimits).

(** The exposure of the stakes already in a round, in one currency. *)
Definition exposure_in (w : world) (roundId : uuid) (ccy : string) : Z :=
  fold_left (fun sum b => sum + Risk.potentialPayout risk (b_amount b))
    (List.filter (fun b => eqb_str (b_currency b) ccy) (bets_where (in_round_live roundId) w)) 0.

(** A session's stakes still being reserved in a round. *)
Definition reserved_in (w : world) (roundId wid : uuid) : Z :=
  fold_left (fun s b => s + b_amount b)
    (List.filter (fun b => bool_decide (b_walletId b = wid) && has_status reserving b) (bets_where (in_round_live roundId) w)) 0.

(** The responsible-gaming limits a placed bet respected. *)
Definition rg_respected (w : world) (q : PlaceArgs) (roundId wid : uuid) (amt : Z) : Prop :=
  forall g since, active_rg (q_demo q) (q_rgCtx q) = Some (g, since) ->
    ~ (enforceRealityCheck g = true /\ rgPending (q_rgCtx q) = true) /\
    (forall m, maxSessionSec g = Some m -> w_now w < since + m * 1000) /\
    let '(wagered, won) := account (bets_where (in_session wid since) w) in
    (forall c, maxSessionWager g = Some c -> wagered + reserved_in w roundId wid + amt <= c) /\
    (forall c, maxSessionLoss g = Some c -> wagered - won + reserved_in w roundId wid + amt <= c).

(** The row of a placed bet. *)
Definition placed_bet (q : PlaceArgs) (roundId betId : uuid) (wl : uuid * wallet) (amt now : Z) (tx : tx_id) : bet :=
  set_debitTxId tx (set_status active (reservation q roundId betId wl amt now)).

(** What placing a bet may do: refuse and leave every table alone, or take the
    stake once and record the bet; or, when a debit of the slot is already in
    the journal, record the bet against that debit. *)
Inductive place_outcome (q : PlaceArgs) (w : world) : res BetResult -> world -> Prop :=
| place_refused r w' :
    tables_eq w w' -> (forall br, r = Ok br -> br_ok br = false) -> place_outcome q w r w'
| place_taken roundId betId wid wl amt row br w' :
    bigint_floor (q_amount q) = Some amt -> Risk.checkBetAmount risk amt (q_limits q) = None ->
    w_wallets w !! wid = Some wl -> w_userId wl = q_userId q -> (forall id, q_walletId q = Some id -> wid = id) ->
    bet_findUnique_slot roundId (q_userId q) (q_panel q) w = None -> w_bets w !! betId = None ->
    exposure_in w roundId (toUpperCase (w_currency wl)) + Risk.potentialPayout risk amt <= Risk.maxRoundExposure risk ->
    rg_respected w q roundId wid amt ->
    w_ledger w !! KDebit roundId (q_userId q) (q_panel q) = None ->
    amt <= w_balance wl -> l_amount row = - amt -> l_walletId row = wid -> l_balanceAfter row = w_balance wl - amt ->
    w_bets w' = <[betId := placed_bet q roundId betId (wid, wl) amt (w_now w) (TxLedger (l_id row))]> (w_bets w) ->
    w_ledger w' = <[KDebit roundId (q_userId q) (q_panel q) := row]> (w_ledger w) ->
    w_wallets w' = <[wid := mk_wallet (w_userId wl) (w_currency wl) (w_balance wl - amt)]> (w_wallets w) ->
    br_ok br = true -> br_betId br = Some betId -> br_balance br = Some (w_balance wl - amt) ->
    place_outcome q w (Ok br) w'
| place_on_old_debit roundId betId wl amt row br w' :
    w_ledger w !! KDebit roundId (q_userId q) (q_panel q) = Some row ->
    w_bets w' = <[betId := placed_bet q roundId betId wl amt (w_now w) (TxLedger (l_id row))]> (w_bets w) ->
    w_ledger w' = w_ledger w -> w_wallets w' = w_wallets w -> br_ok br = true ->
    place_outcome q w (Ok br) w'.

(** *** The checks before the reservation *)

Lemma spec_rg_gate w0 rg pending :
  spec (calm w0) (rg_gate rg pending) (fun r w => calm w0 w /\ match r with
    | Ok None => forall g since, rg = Some (g, since) -> ~ (enforceRealityCheck g = true /\ pending = true) /\
                   forall m, maxSessionSec g = Some m -> w_now w0 < since + m * 1000
    | _ => True end).
Proof.
  assert (Hr : forall reason, spec (calm w0) (rg_refuse reason) (fun r w => calm w0 w /\ match r with Ok None => False | _ => True end)).
  { intros reason w Hw. cbn. split; [|done]. destruct Hw as (? & ? & ?). split; [|done]. etrans; [eassumption|frame]. }
  unfold rg_gate. destruct rg as [[g since]|]; [|by apply spec_ret].
  destruct (enforceRealityCheck g && pending) eqn:Ep; [eapply spec_conseq; [apply Hr|done|intros [[|]|] ?; naive_solver]|].
  assert (Hp : ~ (enforceRealityCheck g = true /\ pending = true)) by (intros [H1 H2]; rewrite H1, H2 in Ep; discriminate Ep).
  destruct (maxSessionSec g) as [m|] eqn:Em; [|apply spec_ret; intros w Hw; split; [done|intros g' since' Heq; injection Heq as <- <-; split; [done|congruence]]].
  apply (spec_seq_calm _ _ _ (fun now => now = w_now w0)).
  - eapply spec_conseq; [apply spec_calm_now|done|]. intros r w [? ->]. by split.
  - done.
  - intros now ->. destruct (Z.leb_spec (since + m * 1000) (w_now w0)).
    + eapply spec_conseq; [apply Hr|done|intros [[|]|] ?; naive_solver].
    + apply spec_ret. intros w Hw. split; [done|]. intros g' since' Heq. injection Heq as <- <-. split; [done|]. rewrite Em. by intros ? [= <-].
Qed.

Lemma spec_walletFor w0 user wid :
  spec (calm w0) (walletFor user wid) (fun r w => calm w0 w /\ match r with
    | Ok wl => w_wallets w0 !! wl.1 = Some wl.2 /\ w_userId wl.2 = user /\ (forall id, wid = Some id -> wl.1 = id)
    | Raise _ => True end).
Proof.
  intros w Hw. pose proof Hw as ((_ & _ & HW & _) & F & _). unfold walletFor. destruct wid as [id|].
  - rewrite run_bind. unfold wallet_findUniqueOrThrow. rewrite run_db_nofault, HW by done.
    destruct (w_wallets w0 !! id) as [wl|] eqn:El; [|done]. cbn.
    destruct (bool_decide_reflect (w_userId wl = user)); cbn; [|done]. split_and!; try done. by intros ? [= <-].
  - unfold wallet_findFirstOrThrow. rewrite run_db_nofault, HW by done.
    destruct (List.find _ _) as [[id wl]|] eqn:El; [|done]. apply List.find_some in El as [Hin Hu].
    apply list_elem_of_In, elem_of_map_to_list in Hin. apply bool_decide_eq_true in Hu. by split_and!.
Qed.
(** *** The reservation *)

(** The session's money caps hold of a stake. *)
Definition caps_respected (w : world) (rg : option (EffectiveRg * Z)) (roundId wid : uuid) (amt : Z) : Prop :=
  forall g since, rg = Some (g, since) ->
    let '(wagered, won) := account (bets_where (in_session wid since) w) in
    (forall c, maxSessionWager g = Some c -> wagered + reserved_in w roundId wid + amt <= c) /\
    (forall c, maxSessionLoss g = Some c -> wagered - won + reserved_in w roundId wid + amt <= c).

Lemma spec_refuse_cap {A} w0 name (phi : A -> Prop) :
  spec (calm w0) (_ ← recordRgBlock name; raise (ReserveRejected name))
    (fun r w => calm w0 w /\ match r with Ok a => phi a | Raise _ => True end).
Proof.
  apply (spec_seq_calm _ _ _ (fun _ => True)); [|done|by intros; apply spec_raise].
  eapply spec_conseq; [apply spec_calm, quiet_emit|done|]. intros [] w ?; by split.
Qed.

Lemma spec_session_caps w0 rg roundId wid amt :
  spec (calm w0) (session_caps rg wid (bets_where (in_round_live roundId) w0) amt)
    (fun r w => calm w0 w /\ match r with Ok _ => caps_respected w0 rg roundId wid amt | Raise _ => True end).
Proof.
  unfold session_caps. destruct rg as [[g since]|]; [|by apply spec_ret].
  destruct (maxSessionLoss g) as [cl|] eqn:El, (maxSessionWager g) as [cw|] eqn:Ew; cbn [is_Some_b orb negb];
    [..|apply spec_ret; intros w Hw; split; [done|intros g' since' Heq; injection Heq as <- <-; by destruct (account _); split; congruence]].
  all: unfold sessionAccounting; apply (spec_seq_calm _ _ _ (fun acc =>
      (acc_wagered acc, acc_wagered acc - acc_net acc) = account (bets_where (in_session wid since) w0)));
    [apply (spec_seq_calm _ _ _ (fun bets => bets = bets_where (in_session wid since) w0));
      [intros w Hw; rewrite run_db_get by apply Hw; cbn; split; [done|]; unfold bets_where; by rewrite (proj1 (proj1 Hw))
      |done|intros bets ->; destruct (account _) as [wagered won]; apply spec_ret; intros w Hw; split; [done|cbn; f_equal; lia]]
    |done|].
  all: intros acc Hacc; cbn zeta; fold (reserved_in w0 roundId wid);
    repeat (match goal with |- spec _ (if ?c <? ?x then _ else _) _ => destruct (Z.ltb_spec c x) end; [apply spec_refuse_cap|]);
    apply spec_ret; intros w Hw; split; [done|]; intros g' since' Heq; injection Heq as <- <-; rewrite <- Hacc;
    rewrite ?El, ?Ew; split; intros c [= <-]; lia.
Qed.

(** What a granted reservation guarantees. *)
Definition reserved (w0 : world) (q : PlaceArgs) rg (roundId betId : uuid) (wl : uuid * wallet) (amt : Z) : Prop :=
  exposure_in w0 roundId (toUpperCase (w_currency wl.2)) + Risk.potentialPayout risk amt <= Risk.maxRoundExposure risk /\
  caps_respected w0 rg roundId wl.1 amt /\
  bet_findUnique_slot roundId (q_userId q) (q_panel q) w0 = None /\ w_bets w0 !! betId = None.

Definition with_bet (b : bet) (w : world) : world := set_bets (<[b_id b := b]> (w_bets w)) w.

Lemma calm_with_bet w0 w b : calm w0 w -> calm (with_bet b w0) (with_bet b w).
Proof.
  intros (T & F & N). split; [|done]. unfold tables_eq in *. destruct_and!.
  unfold with_bet. cbn. split_and!; congruence.
Qed.

Lemma spec_reserve_tx w0 q rg roundId betId wl amt :
  spec (calm w0) (reserve_tx risk q rg roundId betId wl amt) (fun r w => match r with
    | Ok _ => reserved w0 q rg roundId betId wl amt /\ calm (with_bet (reservation q roundId betId wl amt (w_now w0)) w0) w
    | Raise _ => calm w0 w end).
Proof.
  unfold reserve_tx. apply (spec_bind _ (fun l w => calm w0 w /\ l = bets_where (in_round_live roundId) w0)).
  { intros w Hw. rewrite run_db_get by apply Hw. split; [done|]. unfold bets_where. by rewrite (proj1 (proj1 Hw)). }
  intros l. apply spec_pure. intros ->. cbn zeta. fold (exposure_in w0 roundId (toUpperCase (w_currency wl.2))).
  unfold Risk.checkRoundExposure. case_match_eqn; [by apply spec_raise|z_bool].
  apply (spec_bind _ (fun _ w => calm w0 w /\ caps_respected w0 rg roundId wl.1 amt)).
  { eapply spec_conseq; [apply spec_session_caps|done|]. by intros [] w [? ?]. }
  intros _. apply spec_pure. intros Hcaps.
  apply (spec_bind _ (fun now w => calm w0 w /\ now = w_now w0)).
  { eapply spec_conseq; [apply spec_calm_now|done|]. by intros r w [? ->]. }
  intros now. apply spec_pure. intros -> w Hw. pose proof Hw as ((HB & _) & F & _).
  unfold bet_create. rewrite run_db_nofault by done. unfold bet_findUnique_slot, bets_where. rewrite HB.
  cbn [reservation b_id b_roundId b_userId b_panel].
  destruct (w_bets w0 !! betId) eqn:Hid; [done|].
  destruct (head (List.filter (same_slot roundId (q_userId q) (q_panel q)) (map_to_list (w_bets w0)).*2)) eqn:Hs; [done|].
  split; [by split_and!|]. rewrite <- HB. by apply (calm_with_bet w0 w (reservation q roundId betId wl amt (w_now w0))).
Qed.

Lemma spec_reserve w0 q rg roundId betId wl amt :
  spec (calm w0) (reserve risk q rg roundId betId wl amt) (fun r w => match r with
    | Ok None => reserved w0 q rg roundId betId wl amt /\ calm (with_bet (reservation q roundId betId wl amt (w_now w0)) w0) w
    | _ => calm w0 w end).
Proof.
  unfold reserve. apply (spec_try _ (fun _ => calm w0)).
  - intros w Hw. rewrite run_bind. unfold db_transaction. rewrite run_db_nofault by apply Hw. unfold run_transaction.
    pose proof (spec_reserve_tx w0 q rg roundId betId wl amt w Hw) as Ht.
    destruct (run _ w) as [[[]|e] w']; [exact Ht|]. cbn.
    destruct Hw as (T & F & N), Ht as (_ & F' & _). split; [etrans; [exact T|apply tables_undo]|by split].
  - intros e. destruct e; first [by apply spec_ret|apply (spec_bind _ (fun _ => calm w0)); [|by intros; apply spec_ret]].
    all: eapply spec_conseq; [apply spec_calm, quiet_emit|done|by intros []].
Qed.
(** *** The debit and the activation *)

Lemma run_activate n p betId amt tx ccy b w :
  w_faults w = [] -> w_bets w !! betId = Some b -> b_status b = reserving ->
  run (activate (S n) p betId amt tx ccy) w =
  (Ok {| br_ok := true; br_reason := None; br_panel := p; br_balance := Some (tx_balanceAfter tx);
         br_betId := Some betId; br_currency := Some ccy |},
   set_events (EvRecordBet amt :: w_events w)
     (set_bets (<[betId := set_debitTxId (tx_txId tx) (set_status active b)]> (w_bets w)) w)).
Proof.
  intros F Hb Hs. cbn [activate]. rewrite run_try, run_bind. unfold bet_updateMany_id.
  rewrite run_db_nofault, Hb by done. unfold has_status. rewrite bool_decide_true by done. done.
Qed.

(** The debit did not go through: the slot is freed again. *)
Lemma run_debit_failed w0 b e p w :
  calm (with_bet b w0) w -> w_bets w0 !! b_id b = None ->
  exists reason w', run (_ ← try_catch (bet_delete (b_id b)) (fun _ => mret tt);
      let reason := if has_message "insufficient_balance" e then "insufficient_balance"%string else "bet_failed"%string in
      _ ← recordRejected (if eqb_str reason "bet_failed" then "debit_failed" else reason);
      mret (inr reason : WalletTxResult + string)) w = (Ok (inr reason), w') /\
    tables_eq w0 w' /\ br_ok (bet_fail reason p) = false.
Proof.
  intros ((HB & T) & F & N) Hid. rewrite run_bind, run_try. unfold bet_delete. rewrite run_db_nofault, HB by done.
  cbn [with_bet set_bets w_bets]. rewrite lookup_insert_eq. rewrite delete_insert_id by done.
  eexists _, _. split; [done|]. split; [|done]. unfold tables_eq, with_bet in *. cbn in *. destruct_and!. by split_and!.
Qed.

Lemma outcome_debit q w0 rg roundId betId wid wl amt w :
  rg = active_rg (q_demo q) (q_rgCtx q) ->
  bigint_floor (q_amount q) = Some amt -> Risk.checkBetAmount risk amt (q_limits q) = None ->
  (forall g since, rg = Some (g, since) -> ~ (enforceRealityCheck g = true /\ rgPending (q_rgCtx q) = true) /\
     forall m, maxSessionSec g = Some m -> w_now w0 < since + m * 1000) ->
  w_wallets w0 !! wid = Some wl -> w_userId wl = q_userId q -> (forall id, q_walletId q = Some id -> wid = id) ->
  reserved w0 q rg roundId betId (wid, wl) amt ->
  calm (with_bet (reservation q roundId betId (wid, wl) amt (w_now w0)) w0) w ->
  place_outcome q w0 (run (debitAndActivate Ledger.LedgerService q roundId betId (wid, wl) amt) w).1
    (run (debitAndActivate Ledger.LedgerService q roundId betId (wid, wl) amt) w).2.
Proof.
  intros -> Hamt Hlim Hgate Hwl Hu Hown (Hexp & Hcaps & Hslot & Hid) Hw.
  set (b := reservation q roundId betId (wid, wl) amt (w_now w0)) in *. set (key := KDebit roundId (q_userId q) (q_panel q)).
  pose proof Hw as ((HB & HR & HW & HL & T) & F & N). cbn in HB, HW, HL.
  unfold debitAndActivate. fold key. rewrite run_bind, run_try, run_bind.
  assert (Hfail : forall e w', run (wp_debit wid amt BetDebit key (Some betId)) w = (Raise e, w') -> w' = w ->
    let r := run (tx ← (_ ← try_catch (bet_delete (b_id b)) (fun _ => mret tt);
      let reason := if has_message "insufficient_balance" e then "insufficient_balance"%string else "bet_failed"%string in
      _ ← recordRejected (if eqb_str reason "bet_failed" then "debit_failed" else reason);
      mret (inr reason : WalletTxResult + string)); match tx with
        | inr reason => mret (bet_fail reason (q_panel q))
        | inl tx => activate 3 (q_panel q) betId amt tx (w_currency wl) end) w in
    place_outcome q w0 r.1 r.2).
  { intros e w' _ _ r. subst r. rewrite run_bind.
    destruct (run_debit_failed w0 b e (q_panel q) w Hw Hid) as (reason & v & -> & Tv & _).
    apply place_refused; [exact Tv|]. by intros br [= <-]. }
  cbn [wp_debit Ledger.LedgerService fst snd] in *.
  destruct (Z.leb_spec amt 0) as [Hneg|Hpos].
  { unfold Ledger.debit in *. destruct (Z.leb_spec amt 0); [|lia]. cbn [run raise] in *.
    specialize (Hfail _ _ eq_refl eq_refl). by rewrite run_bind in Hfail. }
  rewrite Ledger.debit_run, Ledger.move_run in * by done. rewrite HL, HW, Hwl in *.
  destruct (w_ledger w0 !! key) as [row|] eqn:Hkey.
  - cbn [run mret prog_mret]. rewrite (run_activate 2 _ _ _ _ _ b) by (done || (rewrite HB; apply lookup_insert_eq)).
    eapply (place_on_old_debit q w0 roundId betId (wid, wl) amt row); try done.
    cbn. rewrite HB. by rewrite insert_insert_eq.
  - cbn zeta in *. destruct (Z.ltb_spec (w_balance wl + -1 * amt) 0) as [Hlt|Hge].
    { specialize (Hfail _ _ eq_refl eq_refl). by rewrite run_bind in Hfail. }
    cbn [run mret prog_mret]. rewrite (run_activate 2 _ _ _ _ _ b) by (done || (cbn; rewrite HB; apply lookup_insert_eq)).
    eapply (place_taken q w0 roundId betId wid wl amt
      (mk_ledger (w_uuid w) wid BetDebit (-1 * amt) (w_balance wl + -1 * amt) (Some betId))); try done; try lia; cbn.
    + intros g since Hg. destruct (Hgate g since Hg). split; [done|]. split; [done|]. by apply (Hcaps g since).
    + rewrite HB. by rewrite insert_insert_eq.
    + by rewrite HL.
    + rewrite HW. by repeat f_equal.
Qed.

Lemma outcome_calm q w0 r w : calm w0 w -> (forall br, r = Ok br -> br_ok br = false) -> place_outcome q w0 r w.
Proof. intros (T & _) H. by apply place_refused. Qed.

Lemma spec_fail q w0 reason :
  spec (calm w0) (mret (bet_fail reason (q_panel q))) (place_outcome q w0).
Proof. apply spec_ret. intros w Hw. apply outcome_calm; [done|]. by intros br [= <-]. Qed.

Lemma spec_emit_then {B} w0 e (p : prog world B) Q : spec (calm w0) p Q -> spec (calm w0) (_ ← emit e; p) Q.
Proof.
  intros Hp. apply (spec_bind _ (fun _ => calm w0)); [|done].
  intros w Hw. cbn. eapply calm_quiet; [exact Hw|]. split; [frame|done].
Qed.

Lemma spec_placeInRound q w0 roundId amt :
  bigint_floor (q_amount q) = Some amt -> Risk.checkBetAmount risk amt (q_limits q) = None ->
  spec (calm w0) (placeInRound Ledger.LedgerService risk q roundId amt) (place_outcome q w0).
Proof.
  intros Hamt Hlim. unfold placeInRound. cbv zeta.
  assert (Hraise : forall e w, calm w0 w -> place_outcome q w0 (Raise e) w) by (intros; by apply outcome_calm).
  eapply spec_seq_calm; [apply spec_rg_gate|done|]. intros [reason|] Hgate; [apply spec_fail|].
  apply (spec_seq_calm _ _ _ (fun _ => True)); [|done|].
  { intros w Hw. by rewrite run_db_get by apply Hw. }
  intros existing _. destruct (match existing with Some b => _ | None => false end); [apply spec_fail|].
  apply (spec_seq_calm _ _ _ (fun wl => forall p, wl = Some p ->
    w_wallets w0 !! p.1 = Some p.2 /\ w_userId p.2 = q_userId q /\ (forall id, q_walletId q = Some id -> p.1 = id))); [|done|].
  { apply (spec_try _ (fun _ => calm w0)).
    - apply (spec_bind _ (fun p w => calm w0 w /\ (w_wallets w0 !! p.1 = Some p.2 /\ w_userId p.2 = q_userId q /\
        (forall id, q_walletId q = Some id -> p.1 = id)))).
      + eapply spec_conseq; [apply spec_walletFor|done|]. intros [p|e] w [? ?]; [by split|done].
      + intros p. apply spec_ret. intros w [? Hp]. split; [done|]. by intros ? [= <-].
    - intros e. apply spec_emit_then, spec_ret. intros w Hw. by split. }
  intros [[wid wl]|] Hp; [|apply spec_fail]. destruct (Hp _ eq_refl) as (Hwl & Hu & Hown). cbn [fst snd] in *.
  apply (spec_seq_calm _ _ _ (fun _ => True)); [|done|].
  { eapply spec_conseq; [apply spec_calm, quiet_uuid|done|]. intros [] w ?; by split. }
  intros betId _. apply (spec_bind _ (fun rej w => match rej with
      | None => reserved w0 q (active_rg (q_demo q) (q_rgCtx q)) roundId betId (wid, wl) amt /\
                calm (with_bet (reservation q roundId betId (wid, wl) amt (w_now w0)) w0) w
      | Some _ => calm w0 w end)).
  { eapply spec_conseq; [apply spec_reserve|done|]. intros [[|]|e] w Hw; [done..|by apply Hraise]. }
  intros [reason|]; [apply spec_fail|]. intros w [Hr Hw].
  by apply (outcome_debit q w0 (active_rg (q_demo q) (q_rgCtx q))).
Qed.
End place.

(** C4: Placing a bet is all or nothing.  With a healthy database, whatever the
    engine's view, the request and the tables: either the request is refused or
    throws, and every table is as it was; or exactly one row is posted, of the
    stake the client asked for, on a wallet the player owns, the balance falls
    by it, and the one new bet is active in a slot that was free, within the
    stake limits, the round's exposure cap and the session's
    responsible-gaming limits; or the slot's debit was already in the journal,
    in which case the bet is recorded and no money moves. *)
Theorem placeBet_all_or_nothing E risk q w (HE : ViewLaws E) (Hf : w_faults w = []) :
  place_outcome risk q w (run (placeBet Ledger.LedgerService E risk q) w).1 (run (placeBet Ledger.LedgerService E risk q) w).2.
Proof.
  assert (Hs : spec (calm w) (placeBet Ledger.LedgerService E risk q) (place_outcome risk q w)); [|by apply Hs].
  unfold placeBet. apply (spec_seq_calm _ _ _ (fun _ => True)).
  - eapply spec_conseq; [apply spec_calm, quiet_view, view_state_pure|done|]. intros [] v ?; by split.
  - intros e v Hv. by apply outcome_calm.
  - intros st _. destruct (in_phase Betting st) as [roundId|]; [|apply spec_fail].
    destruct (bigint_floor (q_amount q)) as [amt|] eqn:Ha; [|apply spec_raise; intros; by apply outcome_calm].
    destruct (Risk.checkBetAmount risk amt (q_limits q)) as [reason|] eqn:Hl; [|by apply spec_placeInRound].
    apply spec_emit_then, spec_fail.
Qed.

Definition bet_world : world :=
  set_rounds {[ 100%N := mk_round 100%N 1%N 1 250 Betting 0 (Some 5000) None None None 0 ]} BetSafety.sample_world.
Definition place (stake : Z) : prog world BetResult :=
  placeBet Ledger.LedgerService (BetSafety.seen Betting 100) Risk.default_limits (BetSafety.stake_args stake).

Lemma placeBet_all_or_nothing_witness :
  br_ok <$> (match (run (place 120) bet_world).1 with Ok br => Some br | Raise _ => None end) = Some true /\
  place_outcome Risk.default_limits (BetSafety.stake_args 120) bet_world (run (place 120) bet_world).1 (run (place 120) bet_world).2.
Proof.
  split; [vm_compute; reflexivity|].
  exact (placeBet_all_or_nothing (BetSafety.seen Betting 100) Risk.default_limits (BetSafety.stake_args 120) bet_world
    (BetSafety.seen_laws Betting 100) eq_refl).
Defined.

(** A lost acknowledgement lets the next bet of the slot be staked for less:
    the refused bet's debit of 10 stays in the journal under the slot's key, and
    a bet of 450 in the same slot is then active for a debit of 10. *)
Theorem lost_ack_underfunds_next_stake :
  let w0 := set_faults (replicate 6 NoFault ++ [FailAfter]) bet_world in
  let r1 := run (place 10) w0 in
  let r2 := run (place 450) r1.2 in
  br_ok <$> (match r1.1 with Ok br => Some br | Raise _ => None end) = Some false /\
  br_ok <$> (match r2.1 with Ok br => Some br | Raise _ => None end) = Some true /\
  (b_amount <$> bets_where (fun b => has_status active b) r2.2) = [450] /\ Ledger.balance r2.2 1%N = Some 490.
Proof. vm_compute. by split_and!. Qed.

(** ** Claiming a bet *)

(** The engine's view in a healthy world. *)
Lemma run_view E `{!ViewLaws E} w : exists r, run getPublicState w = (r, w).
Proof.
  pose proof (run_steps_in eq getPublicState w view_state_pure) as H.
  destruct (run getPublicState w) as [r w']; cbn in H. subst. by exists r.
Qed.

Lemma run_claim id P f b w :
  w_faults w = [] -> w_bets w !! id = Some b -> P b = true ->
  run (bet_updateMany_id id P f) w = (Ok 1, set_bets (<[id := f b]> (w_bets w)) w).
Proof. intros F Hb HP. unfold bet_updateMany_id. rewrite run_db_nofault, Hb, HP by done. done. Qed.

(** A fresh credit to a wallet that exists. *)
Lemma run_credit_fresh wid amt ty k ref wl w :
  w_faults w = [] -> 0 < amt -> 0 <= w_balance wl -> w_wallets w !! wid = Some wl -> w_ledger w !! k = None ->
  exists row, l_amount row = amt /\ l_walletId row = wid /\
    run (Ledger.credit wid amt ty k ref) w =
    (Ok {| tx_txId := TxLedger (l_id row); tx_balanceAfter := w_balance wl + amt |}, Ledger.posted w wid wl (w_balance wl + amt) k row).
Proof.
  intros F Ha Hb Hwl Hk. exists (mk_ledger (w_uuid w) wid ty amt (w_balance wl + amt) ref). split; [done|]. split; [done|].
  rewrite Ledger.credit_run, Ledger.move_run by done. rewrite Hk, Hwl. cbn zeta. rewrite Z.mul_1_l.
  by destruct (Z.ltb_spec (w_balance wl + amt) 0); [lia|].
Qed.

Lemma slot_elem rid u p w b : bet_findUnique_slot rid u p w = Some b ->
  exists id, w_bets w !! id = Some b /\ same_slot rid u p b = true.
Proof.
  unfold bet_findUnique_slot, bets_where. intros Hb. assert (Hin : b ∈ List.filter (same_slot rid u p) (map_to_list (w_bets w)).*2).
  { destruct (List.filter _ _); simplify_eq/=. set_solver. }
  apply list_elem_of_In, List.filter_In in Hin as [Hin Hs]. apply list_elem_of_In, list_elem_of_fmap in Hin as ([id b'] & -> & Hin).
  apply elem_of_map_to_list in Hin. by exists id.
Qed.

(** A table of bets keyed by their identifiers. *)
Definition keyed (w : world) : Prop := forall id b, w_bets w !! id = Some b -> b_id b = id.

Lemma slot_has_row rid u p w b : keyed w -> bet_findUnique_slot rid u p w = Some b -> w_bets w !! b_id b = Some b.
Proof. intros Hk (id & Hb & _)%slot_elem. by rewrite (Hk _ _ Hb). Qed.

Lemma run_bet_with_wallet rid u p w b wl :
  w_faults w = [] -> bet_findUnique_slot rid u p w = Some b -> w_wallets w !! b_walletId b = Some wl ->
  run (bet_with_wallet rid u p) w = (Ok (Some (b, w_currency wl)), w).
Proof. intros F Hb Hw. unfold bet_with_wallet. rewrite run_db_nofault by done. by rewrite Hb, Hw. Qed.

Lemma run_bet_with_round rid u p w b wl r :
  w_faults w = [] -> bet_findUnique_slot rid u p w = Some b -> w_wallets w !! b_walletId b = Some wl ->
  w_rounds w !! b_roundId b = Some r ->
  run (bet_with_round rid u p) w = (Ok (Some (b, w_currency wl, r)), w).
Proof. intros F Hb Hw Hr. unfold bet_with_round. rewrite run_db_nofault by done. by rewrite Hb, Hw, Hr. Qed.

(** ** Cancelling *)

(** Cancelling gives the stake back, once.  In the betting phase the active
    bet of the slot becomes cancelled, one refund of exactly its stake is
    posted and the balance rises by it; cancelling anything but an active bet
    changes no table. *)
Theorem cancelBet_refunds_stake E u p rid w b wl
    (Hf : w_faults w = []) (Hview : run getPublicState w = (Ok (Some {| ps_phase := Betting; ps_roundId := rid |}), w))
    (Hkeyed : keyed w) (Hb : bet_findUnique_slot rid u p w = Some b) (Hwl : w_wallets w !! b_walletId b = Some wl)
    (Hpos : 0 < b_amount b) (Hsolvent : 0 <= w_balance wl) (Hk : w_ledger w !! KRefund (b_id b) = None) :
  if has_status active b then
    exists res w' row, run (cancelBet Ledger.LedgerService E u p) w = (Ok res, w') /\
      br_ok res = true /\ br_balance res = Some (w_balance wl + b_amount b) /\
      w_bets w' = <[b_id b := set_settled cancelled (w_now w) b]> (w_bets w) /\
      w_ledger w' = <[KRefund (b_id b) := row]> (w_ledger w) /\ l_amount row = b_amount b /\
      Ledger.balance w' (b_walletId b) = Some (w_balance wl + b_amount b)
  else run (cancelBet Ledger.LedgerService E u p) w = (Ok (bet_fail "no_active_bet" p), w).
Proof.
  unfold cancelBet. rewrite run_bind, Hview. cbn [in_phase ps_phase ps_roundId]. change (phase_eqb Betting Betting) with true. cbv iota.
  rewrite run_bind, (run_bet_with_wallet _ _ _ _ b wl) by done.
  destruct (has_status active b) eqn:Hs; cbn [negb]; [|done].
  rewrite run_bind. cbn [run Date_now gets atom fst snd].
  rewrite run_bind, (run_claim _ _ _ b) by (done || by apply (slot_has_row rid u p)). change (1 =? 0) with false. cbv iota.
  set (w1 := set_bets _ w).
  destruct (run_credit_fresh (b_walletId b) (b_amount b) Refund (KRefund (b_id b)) (Some (b_id b)) wl w1) as (row & H1 & H2 & Hr); try done.
  rewrite run_bind. cbn [wp_credit Ledger.LedgerService]. rewrite Hr.
  eexists _, _, row. split; [done|]. split_and!; try done. unfold Ledger.balance. cbn. by rewrite lookup_insert_eq.
Qed.

(** A bet of 120 placed in [bet_world]. *)
Definition staked_world : world := (run (place 120) bet_world).2.

Lemma staked_keyed w : (forall id b, (id, b) ∈ map_to_list (w_bets w) -> b_id b = id) -> keyed w.
Proof. intros H id b Hb. by apply H, elem_of_map_to_list. Qed.

Ltac keyed_tac := apply staked_keyed; intros ? ? Hin; vm_compute in Hin; repeat (apply elem_of_cons in Hin as [[= -> ->]|Hin]; [done|]); by apply elem_of_nil in Hin.

Lemma cancelBet_refunds_stake_witness :
  exists res w' row, run (cancelBet Ledger.LedgerService (BetSafety.seen Betting 100) 7%N PanelA) staked_world = (Ok res, w') /\
      br_ok res = true /\ l_amount row = 120 /\ Ledger.balance w' 1%N = Some 500.
Proof.
  destruct (bet_findUnique_slot 100%N 7%N PanelA staked_world) as [b|] eqn:Hb; [|by vm_compute in Hb].
  pose proof (fun H => cancelBet_refunds_stake (BetSafety.seen Betting 100) 7%N PanelA 100%N staked_world b (mk_wallet 7%N "usd" 380)
    eq_refl eq_refl H Hb) as T. vm_compute in Hb. injection Hb as <-.
  destruct T as (res & w' & row & Hr & H1 & _ & _ & _ & H2 & H3); [keyed_tac|by vm_compute..|].
  exists res, w', row. by split_and!.
Defined.

(** ** Cashing out *)

(** Where a manual or automatic cash-out takes its multiplier. *)
Definition multiplier_of (E : EngineView) (at_ : option Z) : prog world Z :=
  match at_ with Some m => mret m | None => currentMultiplier end.

(** C6: A cash-out below the crash pays exactly the capped floor of stake times
    multiplier, once: the active bet of a running round becomes cashed out at
    that multiplier and payout, one credit of the payout is posted and the
    balance rises by it.  At or above the crash, out of the running phase, or
    for a bet that is not active, no table changes. *)
Theorem cashOut_pays_floor E risk u p at_ m rid w b wl r
    (Hf : w_faults w = []) (Hview : run getPublicState w = (Ok (Some {| ps_phase := Running; ps_roundId := rid |}), w))
    (Hmult : run (multiplier_of E at_) w = (Ok m, w))
    (Hkeyed : keyed w) (Hb : bet_findUnique_slot rid u p w = Some b) (Hwl : w_wallets w !! b_walletId b = Some wl)
    (Hr : w_rounds w !! b_roundId b = Some r) (Hstake : 0 <= b_amount b) (Hm : 0 <= m) (Hsolvent : 0 <= w_balance wl)
    (Hk : w_ledger w !! KPayout (b_id b) = None) :
  let house := Risk.maxWinPerBet risk in
  let payout := (b_amount b * m / 100) `min` (nullish (b_maxWinPerBet b) house `min` house) in
  0 < payout ->
  if has_status active b && phase_eqb (r_status r) Running && (m <? r_crashPoint r) then
    exists res w' row, run (cashOut Ledger.LedgerService E risk u p at_) w = (Ok res, w') /\
      co_ok res = true /\ co_pending res = false /\ co_multiplier res = Some m /\ co_payout res = Some payout /\
      co_balance res = Some (w_balance wl + payout) /\
      w_bets w' = <[b_id b := set_payoutTxId (TxLedger (l_id row)) (set_cashed_out m payout (w_now w) b)]> (w_bets w) /\
      w_ledger w' = <[KPayout (b_id b) := row]> (w_ledger w) /\ l_amount row = payout /\
      Ledger.balance w' (b_walletId b) = Some (w_balance wl + payout)
  else exists res, run (cashOut Ledger.LedgerService E risk u p at_) w = (Ok res, w) /\ co_ok res = false.
Proof.
  intros house payout Hpay.
  assert (Epay : payoutOf risk b m = payout) by (unfold payoutOf; rewrite Risk.capPayout_min, Money.floorPayout_div by done; reflexivity).
  unfold cashOut. rewrite run_bind. cbn [run Date_now gets atom fst snd]. rewrite run_bind, Hview.
  cbn [in_phase ps_phase ps_roundId]. change (phase_eqb Running Running) with true. cbv iota.
  rewrite run_bind. fold (multiplier_of E at_). rewrite Hmult. rewrite run_bind, (run_bet_with_round _ _ _ _ b wl r) by done.
  destruct (has_status active b) eqn:Hs; cbn [negb andb]; [|by eexists].
  destruct (phase_eqb (r_status r) Running); cbn [negb orb andb]; [|by eexists].
  destruct (Z.ltb_spec m (r_crashPoint r)), (Z.leb_spec (r_crashPoint r) m); try lia; [|by eexists].
  rewrite run_bind. cbn [run Date_now gets atom fst snd]. rewrite Epay.
  rewrite run_bind, (run_claim _ _ _ b) by (done || by apply (slot_has_row rid u p)). change (1 =? 0) with false. cbv iota.
  set (w1 := set_bets _ w). unfold payWin. rewrite run_bind, run_try, run_bind. cbn [wp_credit Ledger.LedgerService].
  destruct (run_credit_fresh (b_walletId b) payout PayoutCredit (KPayout (b_id b)) (Some (b_id b)) wl w1) as (row & H1 & H2 & Hc); try done.
  rewrite Hc. cbn [run mret prog_mret]. rewrite run_bind. unfold bet_update. rewrite run_db_nofault by done.
  cbn [w_bets w1 set_bets Ledger.posted bump_uuid set_ledger set_wallets]. rewrite lookup_insert_eq.
  rewrite run_bind. unfold profile_loot, db_set. rewrite run_db_nofault by done. cbn [fst snd].
  eexists _, _, row. split; [reflexivity|]. split_and!; try done; cbn.
  - by rewrite insert_insert_eq.
  - unfold Ledger.balance. cbn. by rewrite lookup_insert_eq.
Qed.

Definition running_world : world :=
  set_rounds {[ 100%N := BetSafety.sample_round ]} staked_world.

Lemma cashOut_pays_floor_witness :
  exists res w' row, run (cashOut Ledger.LedgerService (BetSafety.seen Running 200) Risk.default_limits 7%N PanelA None) running_world = (Ok res, w') /\
    co_ok res = true /\ co_payout res = Some 240 /\ l_amount row = 240 /\ Ledger.balance w' 1%N = Some 620.
Proof.
  destruct (bet_findUnique_slot 100%N 7%N PanelA running_world) as [b|] eqn:Hb; [|by vm_compute in Hb].
  pose proof (fun H => cashOut_pays_floor (BetSafety.seen Running 200) Risk.default_limits 7%N PanelA None 200 100%N running_world b
    (mk_wallet 7%N "usd" 380) BetSafety.sample_round eq_refl eq_refl eq_refl H Hb) as T. vm_compute in Hb. injection Hb as <-.
  destruct T as (res & w' & row & Hr & H1 & _ & _ & H2 & _ & _ & _ & H3 & H4); [keyed_tac|by vm_compute..|].
  exists res, w', row. by split_and!.
Defined.

(** ** Settling a round *)

(** Settling a round busts exactly the bets still active in it: each of them
    becomes busted now, every other bet and every other table is untouched, and
    the losers reported are those bets, so settling again changes nothing. *)
Theorem settleRound_busts_active rid w (Hf : w_faults w = []) :
  exists losers w', run (settleRound rid) w = (Ok losers, w') /\
    (forall id, w_bets w' !! id = (fun b => if active_in rid b then set_settled busted (w_now w) b else b) <$> w_bets w !! id) /\
    losers = (fun b => (b_userId b, b_panel b)) <$> bets_where (active_in rid) w /\
    w_ledger w' = w_ledger w /\ w_wallets w' = w_wallets w /\ w_rounds w' = w_rounds w /\
    run (settleRound rid) w' = (Ok [], w').
Proof.
  unfold settleRound. rewrite run_bind, run_db_get by done.
  set (f := fun b => if active_in rid b then set_settled busted (w_now w) b else b).
  assert (Hnone : forall v, w_faults v = [] -> bets_where (active_in rid) v = [] -> run (settleRound rid) v = (Ok [], v)).
  { intros v Fv Ev. unfold settleRound. rewrite run_bind, run_db_get, Ev by done. done. }
  destruct (bets_where (active_in rid) w) as [|b0 act] eqn:Eact.
  - exists [], w. split; [done|]. split_and!; try done; [|by rewrite run_bind, run_db_get, Eact by done].
    intros id. destruct (w_bets w !! id) as [b|] eqn:Hb; [|done]. cbn. f_equal. unfold f.
    destruct (active_in rid b) eqn:Ha; [|done]. exfalso. apply (not_elem_of_nil b). rewrite <- Eact.
    apply bets_where_elem. eauto.
  - rewrite <- Eact. rewrite run_bind. cbn [run Date_now gets atom fst snd]. rewrite run_bind. unfold bets_updateMany.
    rewrite run_db_nofault by done. eexists _, _. split; [reflexivity|]. cbn [w_bets set_bets fst snd].
    split; [intros id; by rewrite lookup_fmap|]. split_and!; try done.
    apply Hnone; [done|]. apply elem_of_nil_inv. intros x Hx.
    apply bets_where_elem in Hx as [[id Hid] Hx]. cbn in Hid. rewrite lookup_fmap in Hid.
    destruct (w_bets w !! id) as [y|]; simplify_eq/=. destruct (active_in rid y) eqn:Hy; [|congruence].
    unfold active_in, has_status in Hx. cbn in Hx. by rewrite andb_false_r in Hx.
Qed.

Lemma settleRound_busts_active_witness :
  exists losers w', run (settleRound 100%N) running_world = (Ok losers, w') /\
    losers = [(7%N, PanelA)] /\ run (settleRound 100%N) w' = (Ok [], w').
Proof.
  destruct (settleRound_busts_active 100%N running_world eq_refl) as (l & w' & H1 & _ & H2 & _ & _ & _ & H3).
  exists l, w'. split; [exact H1|]. split; [|exact H3]. rewrite H2. vm_compute. reflexivity.
Defined.

(** ** Voiding *)

Lemma run_debit_fresh wid amt ty k ref wl w :
  w_faults w = [] -> 0 < amt -> w_wallets w !! wid = Some wl -> w_ledger w !! k = None ->
  if w_balance wl <? amt then run (Ledger.debit wid amt ty k ref) w = (Raise Ledger.INSUFFICIENT, w)
  else exists row, l_amount row = - amt /\ l_walletId row = wid /\
    run (Ledger.debit wid amt ty k ref) w =
    (Ok {| tx_txId := TxLedger (l_id row); tx_balanceAfter := w_balance wl - amt |}, Ledger.posted w wid wl (w_balance wl - amt) k row).
Proof.
  intros F Ha Hwl Hk. rewrite Ledger.debit_run, Ledger.move_run by done. rewrite Hk, Hwl. cbn zeta.
  replace (w_balance wl + -1 * amt) with (w_balance wl - amt) by lia.
  destruct (Z.ltb_spec (w_balance wl) amt), (Z.ltb_spec (w_balance wl - amt) 0); try lia; [done|].
  eexists. split; [|split; [|reflexivity]]; done.
Qed.

(** The money a void has moved: the refund, and the reclaim of a payout. *)
Definition reversed (b : bet) (bal : Z) (w w' : world) : Prop :=
  (exists row, w_ledger w' !! KVoidRefund (b_id b) = Some row /\ l_amount row = b_amount b /\ l_walletId row = b_walletId b) /\
  (if 0 <? b_payout b then exists row, w_ledger w' !! KVoidReclaim (b_id b) = Some row /\ l_amount row = - b_payout b /\ l_walletId row = b_walletId b
   else w_ledger w' !! KVoidReclaim (b_id b) = w_ledger w !! KVoidReclaim (b_id b)) /\
  (forall k, k <> KVoidRefund (b_id b) -> k <> KVoidReclaim (b_id b) -> w_ledger w' !! k = w_ledger w !! k) /\
  Ledger.balance w' (b_walletId b) = Some (bal - b_payout b + b_amount b).

Definition same_but_money (w w' : world) : Prop :=
  w_bets w' = w_bets w /\ w_faults w' = [] /\ w_audit w' = w_audit w /\ w_rounds w' = w_rounds w.

Lemma run_reversals b wl w :
  w_faults w = [] -> w_wallets w !! b_walletId b = Some wl -> 0 < b_amount b -> 0 <= b_payout b -> 0 <= w_balance wl ->
  w_ledger w !! KVoidRefund (b_id b) = None -> w_ledger w !! KVoidReclaim (b_id b) = None ->
  if w_balance wl <? b_payout b then run (performVoidReversals Ledger.LedgerService b) w = (Raise Ledger.INSUFFICIENT, w)
  else exists w', run (performVoidReversals Ledger.LedgerService b) w = (Ok tt, w') /\ same_but_money w w' /\ reversed b (w_balance wl) w w'.
Proof.
  intros F Hwl Ha Hp Hbal Hk1 Hk2. unfold performVoidReversals.
  destruct (Z.ltb_spec 0 (b_payout b)) as [Hpos|Hzero]; cbn [when].
  - rewrite run_bind. cbn [wp_reverse Ledger.LedgerService]. unfold Ledger.reverse. cbn [reclaim_params refund_params rp_originalDirection rp_amount rp_type rp_reverseKey rp_ref].
    pose proof (run_debit_fresh (b_walletId b) (b_payout b) PayoutCredit (KVoidReclaim (b_id b)) (Some (b_id b)) wl w F Hpos Hwl Hk2) as Hd.
    rewrite run_bind. destruct (Z.ltb_spec (w_balance wl) (b_payout b)); [by rewrite Hd|].
    destruct Hd as (row1 & A1 & B1 & ->). cbn [run mret prog_mret]. set (w1 := Ledger.posted w _ _ _ _ _).
    destruct (run_credit_fresh (b_walletId b) (b_amount b) Refund (KVoidRefund (b_id b)) (Some (b_id b))
      (mk_wallet (w_userId wl) (w_currency wl) (w_balance wl - b_payout b)) w1) as (row2 & A2 & B2 & Hc);
      [done|done|cbn; lia|cbn; by rewrite lookup_insert_eq|cbn; by rewrite lookup_insert_ne by done|].
    rewrite run_bind, Hc. eexists. split; [reflexivity|]. split; [done|]. unfold reversed. cbn.
    destruct (Z.ltb_spec 0 (b_payout b)); [|lia]. split_and!.
    + exists row2. by rewrite lookup_insert_eq.
    + exists row1. by rewrite lookup_insert_ne, lookup_insert_eq by done.
    + intros k ??. by rewrite !lookup_insert_ne by done.
    + unfold Ledger.balance. cbn. by rewrite lookup_insert_eq.
  - destruct (Z.ltb_spec (w_balance wl) (b_payout b)); [lia|]. rewrite run_bind. cbn [run mret prog_mret wp_reverse Ledger.LedgerService].
    destruct (run_credit_fresh (b_walletId b) (b_amount b) Refund (KVoidRefund (b_id b)) (Some (b_id b)) wl w) as (row2 & A2 & B2 & Hc); try done.
    unfold Ledger.reverse. cbn [refund_params rp_originalDirection rp_amount rp_type rp_reverseKey rp_ref].
    rewrite run_bind, Hc. eexists. split; [reflexivity|]. split; [done|]. unfold reversed. cbn.
    destruct (Z.ltb_spec 0 (b_payout b)); [lia|]. split_and!.
    + exists row2. by rewrite lookup_insert_eq.
    + by rewrite lookup_insert_ne by done.
    + intros k ??. by rewrite lookup_insert_ne by done.
    + unfold Ledger.balance. cbn. rewrite lookup_insert_eq. cbn. f_equal. lia.
Qed.

Lemma run_audit len e w : w_faults w = [] ->
  exists w', run (Audit.record len e) w = (Ok tt, w') /\ w_bets w' = w_bets w /\ w_faults w' = [] /\
    w_rounds w' = w_rounds w /\ w_ledger w' = w_ledger w /\ w_wallets w' = w_wallets w.
Proof.
  intros F. unfold Audit.record. rewrite run_try. unfold db_set. rewrite run_db_nofault by done.
  eexists. split; [reflexivity|]. by split_and!.
Qed.

(** C12: Voiding a settled bet leaves it as if never placed.  Its payout, if any,
    is taken back and its stake refunded, one row each; the bet becomes voided,
    and voiding again changes nothing.  When the winnings are spent the void is
    refused and no money moves; the bet stays claimed for the reconciler. *)
Theorem voidBet_reverses_fully len op b reason w wl
    (Hf : w_faults w = []) (Hb : w_bets w !! b_id b = Some b) (Hop : b_operatorId b = Some op)
    (Hst : b_status b = busted \/ b_status b = cashed_out) (Hwl : w_wallets w !! b_walletId b = Some wl)
    (Hpos : 0 < b_amount b) (Hpay : 0 <= b_payout b) (Hsolvent : 0 <= w_balance wl)
    (Hk1 : w_ledger w !! KVoidRefund (b_id b) = None) (Hk2 : w_ledger w !! KVoidReclaim (b_id b) = None) :
  if w_balance wl <? b_payout b then
    exists w', run (voidBet Ledger.LedgerService len op (b_id b) reason) w = (Raise Ledger.INSUFFICIENT, w') /\
      w_ledger w' = w_ledger w /\ w_wallets w' = w_wallets w /\
      w_bets w' = <[b_id b := set_status voiding b]> (w_bets w)
  else exists res w', run (voidBet Ledger.LedgerService len op (b_id b) reason) w = (Ok res, w') /\
      vr_status res = voided /\ vr_reversed res = true /\
      w_bets w' = <[b_id b := set_status voided b]> (w_bets w) /\ reversed b (w_balance wl) w w' /\
      run (voidBet Ledger.LedgerService len op (b_id b) reason) w' =
        (Ok (void_result (set_status voided b) voided false (BigInt_toString (b_payout b))), w').
Proof.
  unfold voidBet. rewrite run_bind, run_db_get, Hb by done.
  assert (Ho : forall b', b_operatorId b' = Some op -> opt_eqb (b_operatorId b') (Some op) = true) by (intros b' ->; by apply bool_decide_eq_true_2).
  rewrite Ho by done. cbn [negb].
  replace (match b_status b with busted | cashed_out => _ | _ => _ end) with (claimVoid Ledger.LedgerService len op reason b)
    by (by destruct Hst as [-> | ->]).
  unfold claimVoid. rewrite run_bind, (run_claim _ _ _ b) by (done || apply bool_decide_eq_true; done).
  change (1 =? 0) with false. cbv iota. set (w1 := set_bets _ w). unfold voidClaimed. rewrite run_bind.
  pose proof (run_reversals b wl w1 Hf Hwl Hpos Hpay Hsolvent Hk1 Hk2) as Hrev.
  destruct (Z.ltb_spec (w_balance wl) (b_payout b)).
  { rewrite Hrev. eexists. split; [reflexivity|]. by split_and!. }
  destruct Hrev as (w2 & -> & (HB & F2 & HA & HR) & Hrev). rewrite run_bind.
  rewrite (run_claim _ _ _ (set_status voiding b)) by (done || (rewrite HB; apply lookup_insert_eq)).
  rewrite run_bind. cbn [run emit atom fst snd]. rewrite run_bind.
  set (w3 := set_events _ _). destruct (run_audit len (void_audit op reason b) w3 F2) as (w4 & -> & HB4 & F4 & HR4 & HL4 & HW4).
  assert (HB' : w_bets w4 = <[b_id b := set_status voided b]> (w_bets w)).
  { rewrite HB4. cbn. rewrite HB. cbn. by rewrite insert_insert_eq. }
  eexists _, w4. split; [reflexivity|]. split; [done|]. split; [done|]. split; [exact HB'|]. split.
  - unfold reversed, Ledger.balance in *. rewrite HL4, HW4. exact Hrev.
  - rewrite run_bind, run_db_get by done. rewrite HB', lookup_insert_eq. rewrite Ho by done. done.
Qed.

(** The winning bet of [cashOut], then its operator voids it. *)
Definition won_world : world :=
  (run (cashOut Ledger.LedgerService (BetSafety.seen Running 200) Risk.default_limits 7%N PanelA None) running_world).2.

Lemma voidBet_reverses_fully_witness :
  exists res w', run (voidBet Ledger.LedgerService (fun _ => 0) 5%N 0%N None) won_world = (Ok res, w') /\
    vr_status res = voided /\ Ledger.balance w' 1%N = Some 500.
Proof.
  destruct (w_bets won_world !! 0%N) as [b|] eqn:Hb; [|by vm_compute in Hb].
  pose proof (fun Hid => voidBet_reverses_fully (fun _ => 0) 5%N b None won_world (mk_wallet 7%N "usd" 620) eq_refl Hid) as T.
  assert (Hid : w_bets won_world !! b_id b = Some b) by (rewrite <- Hb; f_equal; vm_compute in Hb; by injection Hb as <-).
  specialize (T Hid). vm_compute in Hb. injection Hb as <-.
  destruct T as (res & w' & Hr & H1 & _ & _ & H2 & _); [reflexivity|by right|by vm_compute..|].
  exists res, w'. split; [exact Hr|]. split; [exact H1|]. apply H2.
Defined.

(** ** What a fault or a crash leaves behind *)

Definition all_sweeps : prog world unit :=
  _ ← reconcilePendingPayouts Ledger.LedgerService NaN 100;
  _ ← reconcileVoidingBets Ledger.LedgerService 100; mret tt.

(** The refund of a cancelled bet is lost when its credit fails: the claim is
    already terminal, so no retry, sweep or reconciler sees it. *)
Theorem failed_refund_is_lost :
  let w := set_faults [NoFault; NoFault; FailBefore] staked_world in
  let w1 := (run (cancelBet Ledger.LedgerService (BetSafety.seen Betting 100) 7%N PanelA) w).2 in
  let w2 := (run (cancelBet Ledger.LedgerService (BetSafety.seen Betting 100) 7%N PanelA) w1).2 in
  let w3 := (run all_sweeps w2).2 in
  (b_status <$> w_bets w3 !! 0%N) = Some cancelled /\ w_ledger w3 !! KRefund 0%N = None /\ Ledger.balance w3 1%N = Some 380.
Proof. vm_compute. by split_and!. Qed.

(** A win is lost when the process dies between its claim and its credit: the
    bet is cashed out, a state the payout reconciler does not select. *)
Theorem crash_after_claim_loses_win :
  let cash := forget (cashOut Ledger.LedgerService (BetSafety.seen Running 200) Risk.default_limits 7%N PanelA None) in
  let r := schedule_pool (replicate 4 0)%nat running_world [cash] in
  let w := (run all_sweeps r.1).2 in
  (b_status <$> w_bets w !! 0%N) = Some cashed_out /\ (b_payout <$> w_bets w !! 0%N) = Some 240 /\
  w_ledger w !! KPayout 0%N = None /\ Ledger.balance w 1%N = Some 380.
Proof. vm_compute. by split_and!. Qed.
End BetFlow.
