(* ===== verification/ReportTruth.v ===== *)
(** * What a transaction status says of the journal

    [transactionStatus] of operator/reporting.service.ts over the worlds the
    bet service (game/bets.service.ts) can reach: a money move that is in the
    journal is never reported as not having happened; the converse fails in the
    two runs shown at the end. *)

From S2P Require Import Prelude Effects Js Dates Money Schema Wallet Ledger Keys ReportQuery Launch Sessions Reporting ReportSafety ReportPages Bets BetSafety BetFlow.
Import Reporting.

Open Scope Z_scope.

Module ReportTruth.
Section reach.
Context `{UuidColumn} (Decimal_toString : Z -> string).

(** The answer about a bet of the operator. *)
Lemma run_status_own op id b w : w_faults w = [] -> uuid_column (Keys.uuid_string id) = Some id ->
  w_bets w !! id = Some b -> b_operatorId b = Some op ->
  exists r, run (transactionStatus Decimal_toString op (Keys.ByBetId (Keys.uuid_string id))) w = (Ok r, w) /\
    ts_status r = b_status b /\ ts_debitState r = debitStateOf (b_status b) /\ ts_refundState r = refundStateOf (b_status b) /\
    ts_payoutState r = payoutStateOf (b_status b) /\ ts_debitTxId r = b_debitTxId b /\
    ts_stake r = Money.minorUnitsToString (b_amount b) /\ ts_payout r = Money.minorUnitsToString (b_payout b).
Proof.
  intros Hf Hcol Hb Hop. unfold transactionStatus. rewrite run_bind, ReportPages.run_find_transaction by done.
  cbn [ReportPages.lookup_tx]. rewrite Hcol. cbn [fmap option_fmap option_map]. rewrite Hb, Hop.
  unfold opt_eqb. rewrite bool_decide_eq_true_2 by done. cbn [negb].
  rewrite run_bind, run_db_get by done. eexists. split; [reflexivity|]. by split_and!.
Qed.

End reach.

#[local] Existing Instance Ledger.LedgerService_laws.

Definition one_column : UuidColumn := fun s => if eqb_str s (Keys.uuid_string 0) then Some 0%N else None.

(** The status the operator 5 is told of the sample bet. *)
Definition told (w : world) : option (RefundState * PayoutState) :=
  match (run (@transactionStatus one_column (fun _ => "x"%string) 5 (Keys.ByBetId (Keys.uuid_string 0))) w).1 with
  | Ok r => Some (ts_refundState r, ts_payoutState r)
  | Raise _ => None
  end.


(** A refund the status calls completed may never have been posted: its credit
    failed after the bet became terminal, and no sweep retries it. *)
Theorem refund_told_not_posted :
  let w := set_faults [NoFault; NoFault; FailBefore] BetFlow.staked_world in
  let w1 := (run (Bets.cancelBet Ledger.LedgerService (BetSafety.seen Betting 100) 7%N PanelA) w).2 in
  let w2 := (run BetFlow.all_sweeps w1).2 in
  told w2 = Some (RefundApplied, PayoutNone) /\ w_ledger w2 !! KRefund 0%N = None.
Proof. vm_compute. by split. Qed.

(** And a win it calls paid may never have been: the process died between the
    claim and the credit. *)
Theorem payout_told_not_posted :
  let cash := forget (Bets.cashOut Ledger.LedgerService (BetSafety.seen Running 200) Risk.default_limits 7%N PanelA None) in
  let r := schedule_pool (replicate 4 0)%nat BetFlow.running_world [cash] in
  let w := (run BetFlow.all_sweeps r.1).2 in
  told w = Some (RefundNone, PayoutPaid) /\ w_ledger w !! KPayout 0%N = None.
Proof. vm_compute. by split. Qed.
End ReportTruth.
