(* ===== verification/Reconcile.v ===== *)
(** * The reconciliation gate

    [scripts/reconcile-check.ts], the script run on the database after a soak:
    its queries, its checks and its exit code.  The strings it prints are not
    modelled; a check is known by the number its name starts with.  Proved: over
    the worlds the bet service reaches on the internal ledger, the exact
    condition under which the script passes; and, on concrete runs, which
    losses it sees, which it does not, and an alarm without a loss. *)

From Stdlib Require Import QArith.
From S2P Require Import Prelude Effects Js Money Schema Wallet Ledger AuditLog Bets BetSafety BetFlow.

Open Scope Z_scope.

#[local] Set Warnings "-clear-no-such-hyp".

Record Check := mk_check { ck_name : string; ck_ok : bool; ck_warn : bool }.

Module Reconcile.
#[local] Existing Instance Ledger.LedgerService_laws.

Section script.
(** The column [created_at] of the ledger, which no service reads. *)
Context (created_at : idem_key -> Z).

Definition ledger_rows (w : world) : list ledger_row := (map_to_list (w_ledger w)).*2.
Definition has_type (t : ledger_type) (r : ledger_row) : bool := bool_decide (l_type r = t).
Definition internal (b : bet) : bool := bool_decide (b_operatorId b = None).

(** [SUM(l.amount)] over the rows a condition selects. *)
Definition sum_rows (P : ledger_row -> bool) (w : world) : Z := sumZ l_amount (List.filter P (ledger_rows w)).

(** [JOIN game_bets b ON b.id = l.ref_id ... AND b.operator_id IS NULL] *)
Definition joins_internal (w : world) (r : ledger_row) : bool :=
  match l_refId r ≫= (w_bets w !!.) with Some b => internal b | None => false end.

(** [EXISTS (SELECT 1 FROM ledger_transactions d WHERE d.ref_id = b.id AND d.type = 'bet_debit')] *)
Definition has_debit (w : world) (ref : option uuid) : bool :=
  existsb (fun d => has_type BetDebit d && opt_eqb (l_refId d) ref) (ledger_rows w).

Definition sumOf (t : ledger_type) (w : world) : Z := sum_rows (has_type t) w.
Definition live_debit (w : world) : Z := sum_rows (fun r => has_type BetDebit r && joins_internal w r) w.
Definition live_refund (w : world) : Z :=
  sum_rows (fun r => has_type Refund r && joins_internal w r && has_debit w (l_refId r)) w.
Definition live_payout (w : world) : Z := sum_rows (fun r => has_type PayoutCredit r && joins_internal w r) w.

(** [bet.aggregate({ where: { operatorId: null, status }, _sum })] *)
Definition internal_sum (P : bet_status -> bool) (f : bet -> Z) (w : world) : Z :=
  sumZ f (bets_where (fun b => internal b && P (b_status b)) w).
Definition is_status (s t : bet_status) : bool := bool_decide (t = s).

(** [ORDER BY l.created_at DESC, l.id DESC LIMIT 1] *)
Definition newer (a b : idem_key * ledger_row) : bool :=
  (created_at a.1 <? created_at b.1) || (created_at a.1 =? created_at b.1) && (l_id a.2 <? l_id b.2)%N.
Definition latest (rows : list (idem_key * ledger_row)) : option (idem_key * ledger_row) :=
  fold_left (fun best r => match best with
                           | None => Some r
                           | Some a => if newer a r then Some r else best
                           end) rows None.
Definition rows_of_wallet (id : uuid) (w : world) : list (idem_key * ledger_row) :=
  List.filter (fun kr => bool_decide (l_walletId kr.2 = id)) (map_to_list (w_ledger w)).

(** The wallets with ledger activity: balance and newest [balance_after]. *)
Definition bal_rows (w : world) : list (Z * Z) :=
  omap (fun '(id, wl) => kr ← latest (rows_of_wallet id w); Some (w_balance wl, l_balanceAfter kr.2))
    (map_to_list (w_wallets w)).

(** [new Set(payout_credit rows' idempotencyKey).has(`bet:${id}:payout`)] *)
Definition has_payout_key (keys : list idem_key) (id : uuid) : bool := bool_decide (KPayout id ∈ keys).
Definition payout_keys (w : world) : list idem_key :=
  (List.filter (fun kr => has_type PayoutCredit kr.2) (map_to_list (w_ledger w))).*1.

Definition unresolved (r : rollback_row) : bool := bool_decide (rb_status_ r ∈ [RbPending; RbDraining]).

(** The queries, in the order of the script, and the checks made of them. *)
Definition main : prog world (list Check) :=
  operatorBets ← bets_count (fun b => negb (internal b));
  byType ← db_get (fun w t => sumOf t w);
  liveDebit ← db_get live_debit;
  liveRefund ← db_get live_refund;
  livePayout ← db_get live_payout;
  heldStakes ← db_get (internal_sum BetStatus.isWageredStatus b_amount);
  bustedStake ← db_get (internal_sum (is_status busted) b_amount);
  cashedStake ← db_get (internal_sum (is_status cashed_out) b_amount);
  let debitNetOfRefunds := - liveDebit - liveRefund in
  let check1a := mk_check "1a" (debitNetOfRefunds =? heldStakes) false in
  paidPayouts ← db_get (internal_sum (is_status cashed_out) b_payout);
  let check1b := mk_check "1b" (livePayout =? paidPayouts) false in
  balRows ← db_get bal_rows;
  let balMismatches := List.filter (fun '(balance, balance_after) => negb (balance =? balance_after)) balRows in
  let check2 := mk_check "2" (bool_decide (length balMismatches = 0%nat)) false in
  cashedOut ← db_get (bets_where (fun b => internal b && is_status cashed_out (b_status b)));
  payoutKeys ← db_get payout_keys;
  let missingLedger := List.filter (fun b => (0 <? b_payout b) && negb (has_payout_key payoutKeys (b_id b))) cashedOut in
  let missingTxId := List.filter (fun b => bool_decide (b_payoutTxId b = None)) cashedOut in
  let check3 := mk_check "3" (bool_decide (length missingLedger = 0%nat)) false in
  let check3b := mk_check "3b" (bool_decide (length missingTxId = 0%nat)) true in
  bustedBets ← db_get (bets_where (fun b => internal b && is_status busted (b_status b)));
  let paidBusted := List.filter (fun b => has_payout_key payoutKeys (b_id b)) bustedBets in
  let check4 := mk_check "4" (bool_decide (length paidBusted = 0%nat)) false in
  reservingSlots ← bets_count (fun b => bool_decide (b_status b ∈ [reserving; cancelling; voiding]));
  pendingPayouts ← bets_count (Bets.has_status payout_pending);
  let check5 := mk_check "5" ((reservingSlots =? 0) && (pendingPayouts =? 0)) false in
  pendingRollbacks ← db_get (fun w => Z.of_nat (length (List.filter unresolved (w_rollbacks w))));
  let check6 := mk_check "6" (pendingRollbacks =? 0) false in
  mret [check1a; check1b; check2; check3; check3b; check4; check5; check6].

(** [if (!c.warn) allOk = allOk && c.ok] *)
Definition all_ok (checks : list Check) : bool :=
  fold_left (fun allOk c => if ck_warn c then allOk else allOk && ck_ok c) checks true.

(** The exit code of the process. *)
Definition reconcile : prog world Z :=
  try_catch (checks ← main; mret (if all_ok checks then 0 else 1)) (fun _ => mret 2).

(** ** What every posting keeps of the journal *)

(** The type and the reference a key is posted with. *)
Definition meaning (k : idem_key) (r : ledger_row) : Prop :=
  match k with
  | KDebit _ _ _ => l_type r = BetDebit /\ is_Some (l_refId r)
  | KPayout id | KVoidReclaim id => l_type r = PayoutCredit /\ l_refId r = Some id
  | KRefund id | KRestartRefund id | KVoidRefund id => l_type r = Refund /\ l_refId r = Some id
  | KDemoReset _ => l_type r = Adjustment
  end.

(** Rows mean what their key says; the last row drawn of a wallet carries its
    balance. *)
Record journal_ok (w : world) : Prop := {
  jo_fresh k r : w_ledger w !! k = Some r -> (l_id r < w_uuid w)%N;
  jo_meaning k r : w_ledger w !! k = Some r -> meaning k r;
  jo_distinct k k' r r' : w_ledger w !! k = Some r -> w_ledger w !! k' = Some r' -> l_id r = l_id r' -> k = k';
  jo_last k r wl : w_ledger w !! k = Some r -> w_wallets w !! l_walletId r = Some wl ->
    (forall k' r', w_ledger w !! k' = Some r' -> l_walletId r' = l_walletId r -> (l_id r' <= l_id r)%N) ->
    l_balanceAfter r = w_balance wl
}.

Definition journal_step (w w' : world) : Prop := journal_ok w -> journal_ok w'.

(** A statement that writes neither the ledger nor a wallet. *)
Lemma journal_env w w' : w_ledger w' = w_ledger w -> w_wallets w' = w_wallets w -> (w_uuid w <= w_uuid w')%N -> journal_step w w'.
Proof.
  intros El Ew Hu []. split; rewrite ?El, ?Ew; try done. intros k r Hk. apply jo_fresh0 in Hk. lia.
Qed.

#[export] Instance journal_step_rel : TableRel journal_step.
Proof.
  split; [split|].
  - by intros w H.
  - intros x y z H1 H2 H. auto.
  - unfold tables_eq. intros w w' ?. destruct_and!. by apply journal_env.
Qed.

Lemma journal_post wid amt ty k ref :
  (forall i bal, meaning k (mk_ledger i wid ty amt bal ref)) -> Ledger.commits_as journal_step wid amt ty k ref.
Proof.
  intros Hm w r w' [(row & _ & _ & T)|(wl & i & Hk & Hwl & Hpos & _ & Hi & T)]%Ledger.record_tx_ok; [by apply table_env|].
  intros [Hf Hmean Hd Hlast].
  assert (Hu : (l_id (mk_ledger i wid ty amt (w_balance wl + amt) ref) = i)%N) by done.
  unfold tables_eq in T. cbn [w_ledger w_wallets set_ledger set_wallets] in T. destruct_and!.
  assert (El : w_ledger w' = <[k:=mk_ledger i wid ty amt (w_balance wl + amt) ref]> (w_ledger w)) by done.
  assert (Ew : w_wallets w' = <[wid:=mk_wallet (w_userId wl) (w_currency wl) (w_balance wl + amt)]> (w_wallets w)) by done.
  assert (Hold : forall k' r', w_ledger w !! k' = Some r' -> (l_id r' < i)%N) by (intros k' r' Hr'; apply Hf in Hr'; lia).
  split; rewrite El.
  - intros k' r'. destruct (decide (k = k')) as [<-|Hne]; [rewrite lookup_insert_eq; intros [= <-]; cbn; lia|].
    rewrite lookup_insert_ne by done. intros Hr'. apply Hold in Hr'. lia.
  - intros k' r'. destruct (decide (k = k')) as [<-|Hne]; [rewrite lookup_insert_eq; by intros [= <-]|].
    rewrite lookup_insert_ne by done. apply Hmean.
  - intros k1 k2 r1 r2. destruct (decide (k = k1)) as [<-|Hk1], (decide (k = k2)) as [<-|Hk2];
      rewrite ?lookup_insert_eq, ?lookup_insert_ne by done; [done|..].
    + intros [= <-] Hk2' Hid. apply Hold in Hk2'. cbn in Hid. lia.
    + intros Hk1' [= <-] Hid. apply Hold in Hk1'. cbn in Hid. lia.
    + apply Hd.
  - rewrite Ew. intros k' r' wl'. destruct (decide (k = k')) as [<-|Hne].
    + rewrite lookup_insert_eq. intros [= <-]. cbn. rewrite lookup_insert_eq. by intros [= <-] _.
    + rewrite lookup_insert_ne by done. intros Hr'. destruct (decide (wid = l_walletId r')) as [Ewid|Hw].
      * intros _ Hmax. specialize (Hmax k (mk_ledger i wid ty amt (w_balance wl + amt) ref) (lookup_insert_eq _ _ _) Ewid).
        apply Hold in Hr'. cbn in Hmax. lia.
      * rewrite lookup_insert_ne by done. intros Hwl' Hmax. apply (Hlast k' r' wl' Hr' Hwl'). intros k2 r2 Hr2 Hw2.
        apply (Hmax k2 r2); [|done]. rewrite lookup_insert_ne; [done|]. intros <-. congruence.
Qed.

Lemma journal_db {A} (f : world -> res A * world) :
  (forall w, w_ledger (f w).2 = w_ledger w /\ w_wallets (f w).2 = w_wallets w /\ w_uuid (f w).2 = w_uuid w) ->
  steps_in journal_step (db f).
Proof. intros Hf. apply steps_db; [apply _|]. intros w. destruct (Hf w) as (? & ? & Hu). apply journal_env; [done..|by rewrite Hu]. Qed.

Lemma journal_reserve risk q rg r id wl amt : steps_in journal_step (Bets.reserve_tx risk q rg r id wl amt).
Proof.
  unfold Bets.reserve_tx, Bets.session_caps, Bets.sessionAccounting, Bets.recordRgBlock. steps.
  apply journal_db. intros w. by repeat case_match.
Qed.

(** The bet service posts under keys that mean what they say. *)
Section bets.
Context (E : EngineView) `{!ViewLaws E} (risk : Risk.RiskLimits) (sl : json -> Z) (thr1 thr2 : jsnum).

Lemma journal_rows P f : steps_in journal_step (bets_updateMany P f).
Proof using Type. by apply journal_db. Qed.
Lemma journal_row id P f : steps_in journal_step (bet_updateMany_id id P f).
Proof using Type. apply journal_db. intros w. by repeat case_match. Qed.
Lemma journal_update id f : steps_in journal_step (bet_update id f).
Proof using Type. apply journal_db. intros w. by repeat case_match. Qed.
Lemma journal_delete id : steps_in journal_step (bet_delete id).
Proof using Type. apply journal_db. intros w. by repeat case_match. Qed.
Lemma journal_loot u p m : steps_in journal_step (Bets.profile_loot u p m).
Proof using Type. by apply journal_db. Qed.
Lemma journal_read {A} (f : world -> res A * world) : (forall w, (f w).2 = w) -> steps_in journal_step (db f).
Proof using Type. intros Hf. apply journal_db. intros w. by rewrite Hf. Qed.
Lemma journal_audit e : steps_in journal_step (Audit.record sl e).
Proof using Type. apply steps_try; [|intros; steps]. apply steps_db_set; [apply _|]. intros w. by apply journal_env. Qed.
Lemma journal_view {A} (p : prog world A) : steps_in eq p -> steps_in journal_step p.
Proof using Type. apply steps_mono. by intros w w' <-. Qed.
Lemma journal_state : steps_in journal_step getPublicState.
Proof using ViewLaws0. apply journal_view, view_state_pure. Qed.
Lemma journal_mult : steps_in journal_step currentMultiplier.
Proof using ViewLaws0. apply journal_view, view_mult_pure. Qed.
Lemma journal_tx q rg r id wl amt : steps_in journal_step (db_transaction (Bets.reserve_tx risk q rg r id wl amt)).
Proof using Type.
  apply steps_transaction; [apply _|]. intros w a w' Er.
  pose proof (run_steps_in _ _ w (journal_reserve risk q rg r id wl amt)) as H. by rewrite Er in H.
Qed.
#[local] Hint Resolve journal_rows journal_row journal_update journal_delete journal_loot journal_audit
  journal_state journal_mult journal_tx : vr_steps.

Lemma journal_reverse wid p : (forall i amt bal, meaning (rp_reverseKey p) (mk_ledger i wid (rp_type p) amt bal (rp_ref p))) ->
  steps_in journal_step (Ledger.reverse wid p).
Proof using Type. intros Hm. apply Ledger.steps_reverse_as; [apply _|]. intros amt. by apply journal_post. Qed.
Lemma journal_debit wid amt k ref : (forall i a bal, meaning k (mk_ledger i wid BetDebit a bal ref)) ->
  steps_in journal_step (Ledger.debit wid amt BetDebit k ref).
Proof using Type. intros Hm. apply Ledger.steps_debit_as; [apply _|]. by apply journal_post. Qed.
Lemma journal_credit wid amt ty k ref : (forall i a bal, meaning k (mk_ledger i wid ty a bal ref)) ->
  steps_in journal_step (Ledger.credit wid amt ty k ref).
Proof using Type. intros Hm. apply Ledger.steps_credit_as; [apply _|]. by apply journal_post. Qed.

(** Open the programs of the bet service. *)
Ltac open :=
  unfold Bets.placeBet, Bets.placeInRound, Bets.reserve, Bets.debitAndActivate, Bets.cancelBet, Bets.cashOut,
    Bets.payWin, Bets.evaluateAutoCashouts, Bets.settleRound, Bets.voidBet, Bets.claimVoid, Bets.voidClaimed,
    Bets.reconcileVoidingBets, Bets.finishVoid, Bets.performVoidReversals, Bets.reconcilePendingPayouts,
    Bets.finishPayout, Bets.reportPendingBacklog, Bets.reportReservingBacklog, Bets.backlog, Bets.rg_gate,
    Bets.rg_refuse, Bets.recordRejected, Bets.recordRgBlock, Bets.recordError, Bets.walletFor,
    Bets.wallet_findUniqueOrThrow, Bets.wallet_findFirstOrThrow, Bets.bet_with_wallet, Bets.bet_with_round, bets_count;
  cbn [wp_debit wp_credit wp_rollback wp_reverse wp_getBalance Ledger.LedgerService].
Ltac close :=
  lazymatch goal with
  | |- steps_in _ (Ledger.reverse _ _) => by apply journal_reverse
  | |- steps_in _ (Ledger.credit _ _ _ _ _) => by apply journal_credit
  | |- steps_in _ (Ledger.debit _ _ _ _ _) => apply journal_debit; by eexists
  | |- steps_in _ (db _) => apply journal_read; intros w; by repeat case_match
  end.

Lemma journal_activate left p id amt tx ccy : steps_in journal_step (Bets.activate left p id amt tx ccy).
Proof using Type. induction left as [|n IH]; cbn [Bets.activate]; open; steps. Qed.
#[local] Hint Resolve journal_activate : vr_steps.

Lemma journal_placeInRound q r amt : steps_in journal_step (Bets.placeInRound Ledger.LedgerService risk q r amt).
Proof using All. open. steps; close. Qed.
Lemma journal_cancelBet u p : steps_in journal_step (Bets.cancelBet Ledger.LedgerService E u p).
Proof using All. open. steps; close. Qed.
Lemma journal_cashOut u p m : steps_in journal_step (Bets.cashOut Ledger.LedgerService E risk u p m).
Proof using All. open. steps; close. Qed.
Lemma journal_reversals b : steps_in journal_step (Bets.performVoidReversals Ledger.LedgerService b).
Proof using All.
  unfold Bets.performVoidReversals. cbn [wp_reverse Ledger.LedgerService].
  apply steps_bind; [apply steps_when|intros []]; by apply journal_reverse.
Qed.
#[local] Hint Resolve journal_reversals : vr_steps.
Lemma journal_void o b reason : steps_in journal_step (Bets.voidBet Ledger.LedgerService sl o b reason).
Proof using All. unfold Bets.voidBet, Bets.claimVoid, Bets.voidClaimed. steps. Qed.
Lemma journal_finishVoid n b : steps_in journal_step (Bets.finishVoid Ledger.LedgerService n b).
Proof using All. unfold Bets.finishVoid, Bets.recordError. steps. Qed.
Lemma journal_finishPayout n b : steps_in journal_step (Bets.finishPayout Ledger.LedgerService n b).
Proof using All. open. steps; close. Qed.
#[local] Hint Resolve journal_placeInRound journal_cancelBet journal_cashOut journal_void journal_finishVoid journal_finishPayout : vr_steps.
Lemma journal_serve r : steps_in journal_step (Bets.serve Ledger.LedgerService E risk sl thr1 thr2 r).
Proof using All.
  destruct r; cbn [Bets.serve]; try apply steps_forget; try solve [eauto 2 with vr_steps]; open; steps; close.
Qed.
End bets.

(** ** What the sums mean, bet by bet *)

Definition of_bet (id : uuid) (r : ledger_row) : bool := opt_eqb (l_refId r) (Some id).
Definition journaled (t : ledger_type) (w : world) (id : uuid) : Z := sum_rows (fun r => has_type t r && of_bet id r) w.

(** What the journal still holds of a bet's stake, and what it has paid on it. *)
Definition net_stake (w : world) (b : bet) : Z :=
  - journaled BetDebit w (b_id b) - (if has_debit w (Some (b_id b)) then journaled Refund w (b_id b) else 0).
Definition net_payout (w : world) (b : bet) : Z := journaled PayoutCredit w (b_id b).
Definition over_internal (f : bet -> Z) (w : world) : Z := sumZ f (bets_where internal w).

Lemma over_internal_map f w : over_internal f w = sum_map (fun b => if internal b then f b else 0) (w_bets w).
Proof. unfold over_internal, bets_where. by rewrite sumZ_filter, sum_map_list. Qed.

(** A sum over the join is the sum over the bets of what is theirs. *)
Lemma sum_join (P : ledger_row -> bool) w : BetFlow.keyed w ->
  sum_rows (fun r => P r && joins_internal w r) w =
  over_internal (fun b => sum_rows (fun r => P r && of_bet (b_id b) r) w) w.
Proof.
  intros Hk. rewrite over_internal_map. unfold sum_rows. generalize (ledger_rows w) as rows.
  induction rows as [|r rows IH]; cbn [List.filter sumZ].
  - symmetry. apply sum_map_zero. intros. by case_match.
  - transitivity ((if P r && joins_internal w r then l_amount r else 0) +
      sumZ l_amount (List.filter (fun r => P r && joins_internal w r) rows)); [by case_match|].
    rewrite IH. clear IH.
    set (one := fun b => if internal b then (if P r && of_bet (b_id b) r then l_amount r else 0) else 0).
    transitivity (sum_map one (w_bets w) + sum_map (fun b => if internal b then
      sumZ l_amount (List.filter (fun r => P r && of_bet (b_id b) r) rows) else 0) (w_bets w)).
    + f_equal. unfold joins_internal. destruct (l_refId r) as [id|] eqn:Er; cbn [mbind option_bind].
      * rewrite (sum_map_single one _ id).
        -- destruct (w_bets w !! id) as [b|] eqn:Eb; [|by rewrite andb_false_r].
           unfold one, of_bet, opt_eqb. rewrite Er, (Hk id b Eb), bool_decide_eq_true_2, andb_true_r by done.
           by destruct (P r), (internal b).
        -- intros j b Hj Hne. unfold one, of_bet, opt_eqb. rewrite Er, (Hk j b Hj), bool_decide_eq_false_2 by congruence.
           rewrite andb_false_r. by case_match.
      * rewrite andb_false_r. symmetry. apply sum_map_zero. intros j b Hj. unfold one, of_bet, opt_eqb.
        rewrite Er, bool_decide_eq_false_2, andb_false_r by done. by case_match.
    + rewrite <- sum_map_add, !sum_map_list. apply sumZ_ext. intros b.
      unfold one. destruct (internal b); [|done]. by destruct (P r && of_bet (b_id b) r).
Qed.

Lemma live_stake w : BetFlow.keyed w -> - live_debit w - live_refund w = over_internal (net_stake w) w.
Proof.
  intros Hk. unfold live_debit, live_refund. rewrite (sum_join (has_type BetDebit) w Hk).
  transitivity (- over_internal (fun b => journaled BetDebit w (b_id b)) w -
    over_internal (fun b => sum_rows (fun r => has_type Refund r && has_debit w (l_refId r) && of_bet (b_id b) r) w) w).
  - f_equal. rewrite <- (sum_join _ w Hk). unfold sum_rows. f_equal. apply List.filter_ext. intros r.
    by rewrite <- !andb_assoc, (andb_comm (joins_internal w r)).
  - unfold over_internal. induction (bets_where internal w) as [|b bs IH]; cbn [sumZ]; [done|].
    rewrite <- IH. clear IH. unfold net_stake.
    enough (sum_rows (fun r => has_type Refund r && has_debit w (l_refId r) && of_bet (b_id b) r) w =
      if has_debit w (Some (b_id b)) then journaled Refund w (b_id b) else 0) by lia.
    unfold journaled, sum_rows. rewrite !sumZ_filter. transitivity (sumZ (fun r => if has_debit w (Some (b_id b))
      then (if has_type Refund r && of_bet (b_id b) r then l_amount r else 0) else 0) (ledger_rows w)).
    + apply sumZ_ext. intros r. unfold of_bet, opt_eqb.
      case_bool_decide as Hr; [rewrite Hr|]; rewrite ?andb_true_r, ?andb_false_r;
        destruct (has_debit w (Some (b_id b))); rewrite ?andb_true_r, ?andb_false_r; done.
    + destruct (has_debit w (Some (b_id b))); [done|]. by induction (ledger_rows w).
Qed.

Lemma live_payouts w : BetFlow.keyed w -> live_payout w = over_internal (net_payout w) w.
Proof. apply (sum_join (has_type PayoutCredit)). Qed.

(** ** The checks *)

Lemma newer_spec a b : newer a b = true <->
  created_at a.1 < created_at b.1 \/ created_at a.1 = created_at b.1 /\ (l_id a.2 < l_id b.2)%N.
Proof. unfold newer. rewrite orb_true_iff, andb_true_iff, Z.ltb_lt, Z.eqb_eq, N.ltb_lt. done. Qed.

Lemma latest_max rows a : latest rows = Some a -> a ∈ rows /\ forall b, b ∈ rows -> newer a b = false.
Proof.
  unfold latest. assert (Hgen : forall l best, fold_left (fun best r => match best with
      | None => Some r | Some a => if newer a r then Some r else best end) l best = Some a ->
    (a ∈ l \/ best = Some a) /\ (forall b, b ∈ l -> newer a b = false) /\ (forall b, best = Some b -> newer a b = false)).
  { induction l as [|r l IH]; intros best; cbn [fold_left].
    - intros ->. split; [by right|]. split; [intros b Hb; by apply elem_of_nil in Hb|]. intros b [= ->].
      destruct (newer b b) eqn:E; [|done]. apply newer_spec in E. lia.
    - intros (Hin & Hl & Hb)%IH. destruct best as [x|]; [destruct (newer x r) eqn:Ex|].
      + split; [destruct Hin as [?|[= ->]]; [left; by right|left; by left]|].
        specialize (Hb r eq_refl). split.
        * intros b [->|Hb']%elem_of_cons; [done|by apply Hl].
        * intros b [= ->]. destruct (newer a b) eqn:E; [|done]. apply newer_spec in E, Ex.
          assert (newer a r = true); [apply newer_spec; lia|congruence].
      + specialize (Hb x eq_refl). split; [destruct Hin as [?|[= ->]]; [left; by right|by right]|]. split.
        * intros b [->|Hb']%elem_of_cons; [|by apply Hl]. destruct (newer a r) eqn:E; [|done]. apply newer_spec in E.
          assert (newer x r = true \/ newer a x = true) as [?|?]; [rewrite !newer_spec; lia|congruence..].
        * by intros b [= ->].
      + split; [destruct Hin as [?|[= ->]]; [left; by right|left; by left]|]. split; [|done].
        intros b [->|Hb']%elem_of_cons; [by apply Hb|by apply Hl]. }
  intros (Hin & Hl & _)%Hgen. destruct Hin as [?|?]; [by split|done].
Qed.

Lemma filter_nil_iff {A} (P : A -> bool) l : length (List.filter P l) = 0%nat <-> forall x, x ∈ l -> P x = false.
Proof.
  rewrite length_zero_iff_nil. induction l as [|x l IH]; cbn [List.filter].
  - split; [|done]. intros _ x Hx. by apply elem_of_nil in Hx.
  - destruct (P x) eqn:E.
    + split; [done|]. intros H. specialize (H x (list_elem_of_here _ _)). congruence.
    + rewrite IH. split; [intros H y [->|Hy]%elem_of_cons; auto|]. intros H y Hy. apply H. by right.
Qed.

(** The column orders a wallet's rows as they were posted. *)
Definition in_order (w : world) : Prop := forall k k' r r',
  w_ledger w !! k = Some r -> w_ledger w !! k' = Some r' -> l_walletId r = l_walletId r' ->
  (l_id r < l_id r')%N -> created_at k < created_at k'.

Definition in_orderb (w : world) : bool :=
  let rows := map_to_list (w_ledger w) in
  forallb (fun a => forallb (fun b => implb (bool_decide (l_walletId a.2 = l_walletId b.2) && (l_id a.2 <? l_id b.2)%N)
    (created_at a.1 <? created_at b.1)) rows) rows.

Lemma in_orderb_ok w : in_orderb w = true -> in_order w.
Proof.
  unfold in_orderb. rewrite forallb_forall. intros H k k' r r' Hk Hk' Hw Hlt.
  apply elem_of_map_to_list, list_elem_of_In in Hk, Hk'. specialize (H _ Hk). rewrite forallb_forall in H.
  specialize (H _ Hk'). cbn in H. rewrite bool_decide_eq_true_2 in H by done. apply N.ltb_lt in Hlt. rewrite Hlt in H.
  by apply Z.ltb_lt.
Qed.

Lemma balances_agree w : journal_ok w -> in_order w ->
  length (List.filter (fun '(balance, balance_after) => negb (balance =? balance_after)) (bal_rows w)) = 0%nat.
Proof.
  intros HJ Hord. apply filter_nil_iff. intros [x y] Hin. apply negb_false_iff, Z.eqb_eq.
  apply list_elem_of_omap in Hin as ([id wl] & Hwl & Hl). apply elem_of_map_to_list in Hwl.
  destruct (latest (rows_of_wallet id w)) as [[k r]|] eqn:El; [|done]. cbn in Hl. injection Hl as <- <-.
  apply latest_max in El as [Hin Hmax].
  assert (Hrow : forall k' r', (k', r') ∈ rows_of_wallet id w <-> w_ledger w !! k' = Some r' /\ l_walletId r' = id).
  { intros k' r'. unfold rows_of_wallet. rewrite list_elem_of_In, filter_In, <- list_elem_of_In, elem_of_map_to_list, bool_decide_eq_true. done. }
  apply Hrow in Hin as [Hk <-]. symmetry.
  apply (jo_last w HJ k r wl Hk Hwl). intros k' r' Hk' Hw'. apply N.le_ngt. intros Hlt.
  pose proof (Hord k k' r r' Hk Hk' (eq_sym Hw') Hlt) as Hc.
  assert (newer (k, r) (k', r') = true) by (apply newer_spec; cbn; lia).
  rewrite Hmax in H; [done|]. by apply Hrow.
Qed.

Lemma payout_key_has w id : has_payout_key (payout_keys w) id = true <->
  exists r, w_ledger w !! KPayout id = Some r /\ l_type r = PayoutCredit.
Proof.
  unfold has_payout_key, payout_keys. rewrite bool_decide_eq_true, list_elem_of_fmap. split.
  - intros ([k r] & Hk & Hin). cbn in Hk. subst k. apply list_elem_of_In, filter_In in Hin as [Hin Ht].
    apply list_elem_of_In, elem_of_map_to_list in Hin. apply bool_decide_eq_true in Ht. by exists r.
  - intros (r & Hr & Ht). exists (KPayout id, r). split; [done|]. apply list_elem_of_In, filter_In.
    split; [by apply list_elem_of_In, elem_of_map_to_list|]. by apply bool_decide_eq_true.
Qed.

Lemma count_zero P w : (Z.of_nat (length (bets_where P w)) =? 0) = true <-> forall id b, w_bets w !! id = Some b -> P b = false.
Proof.
  rewrite Z.eqb_eq. unfold bets_where. assert (Hn : forall n, Z.of_nat n = 0 <-> n = 0%nat) by lia. rewrite Hn, filter_nil_iff. split.
  - intros H id b Hb. apply H, list_elem_of_fmap. exists (id, b). split; [done|]. by apply elem_of_map_to_list.
  - intros H b ([id b'] & -> & Hin)%list_elem_of_fmap. apply elem_of_map_to_list in Hin. by apply (H id).
Qed.

(** The checks, as conditions on the tables of one moment. *)
Definition checks_of (w : world) : list Check := [
  mk_check "1a" (- live_debit w - live_refund w =? internal_sum BetStatus.isWageredStatus b_amount w) false;
  mk_check "1b" (live_payout w =? internal_sum (is_status cashed_out) b_payout w) false;
  mk_check "2" (bool_decide (length (List.filter (fun '(balance, balance_after) => negb (balance =? balance_after)) (bal_rows w)) = 0%nat)) false;
  mk_check "3" (bool_decide (length (List.filter (fun b => (0 <? b_payout b) && negb (has_payout_key (payout_keys w) (b_id b)))
    (bets_where (fun b => internal b && is_status cashed_out (b_status b)) w)) = 0%nat)) false;
  mk_check "3b" (bool_decide (length (List.filter (fun b => bool_decide (b_payoutTxId b = None))
    (bets_where (fun b => internal b && is_status cashed_out (b_status b)) w)) = 0%nat)) true;
  mk_check "4" (bool_decide (length (List.filter (fun b => has_payout_key (payout_keys w) (b_id b))
    (bets_where (fun b => internal b && is_status busted (b_status b)) w)) = 0%nat)) false;
  mk_check "5" ((Z.of_nat (length (bets_where (fun b => bool_decide (b_status b ∈ [reserving; cancelling; voiding])) w)) =? 0) &&
    (Z.of_nat (length (bets_where (Bets.has_status payout_pending) w)) =? 0)) false;
  mk_check "6" (Z.of_nat (length (List.filter unresolved (w_rollbacks w))) =? 0) false].

Lemma run_reconcile w : w_faults w = [] -> run reconcile w = (Ok (if all_ok (checks_of w) then 0 else 1), w).
Proof.
  intros Hf. unfold reconcile. rewrite run_try, run_bind.
  enough (E : run main w = (Ok (checks_of w), w)) by by rewrite E.
  unfold main, bets_count. do 16 (rewrite run_bind, run_db_get by done; cbv beta zeta). reflexivity.
Qed.

Lemma cashed_paid w : (forall id b, w_bets w !! id = Some b -> b_id b = id) ->
  bool_decide (length (List.filter (fun b => (0 <? b_payout b) && negb (has_payout_key (payout_keys w) (b_id b)))
    (bets_where (fun b => internal b && is_status cashed_out (b_status b)) w)) = 0%nat) = true <->
  forall id b, w_bets w !! id = Some b -> b_operatorId b = None -> b_status b = cashed_out -> 0 < b_payout b ->
    has_payout_key (payout_keys w) id = true.
Proof.
  intros Hk. rewrite bool_decide_eq_true, filter_nil_iff. split.
  - intros H id b Hb Hop Hst Hpos. destruct (has_payout_key _ _) eqn:E; [done|].
    assert (Hin : b ∈ bets_where (fun b => internal b && is_status cashed_out (b_status b)) w).
    { apply bets_where_elem. split; [by exists id|]. unfold internal, is_status. by rewrite !bool_decide_eq_true_2. }
    apply H in Hin. rewrite (Hk id b Hb), E in Hin. apply Z.ltb_lt in Hpos. by rewrite Hpos in Hin.
  - intros H b Hin. apply bets_where_elem in Hin as [[id Hb] Hp]. apply andb_true_iff in Hp as [Hi Hs].
    apply bool_decide_eq_true in Hi, Hs. destruct (0 <? b_payout b) eqn:Ep; [|done]. apply Z.ltb_lt in Ep.
    by rewrite (Hk id b Hb), (H id b Hb Hi Hs Ep).
Qed.

(** The state the script looks for when it says "drained". *)
Definition drained (w : world) : Prop :=
  (forall id b, w_bets w !! id = Some b -> b_status b ∉ [reserving; cancelling; voiding; payout_pending]) /\
  (forall r, r ∈ w_rollbacks w -> rb_status_ r = RbConfirmed).

Lemma drained_checks w :
  (Z.of_nat (length (bets_where (fun b => bool_decide (b_status b ∈ [reserving; cancelling; voiding])) w)) =? 0) &&
    (Z.of_nat (length (bets_where (Bets.has_status payout_pending) w)) =? 0) = true /\
  (Z.of_nat (length (List.filter unresolved (w_rollbacks w))) =? 0) = true <-> drained w.
Proof.
  rewrite andb_true_iff, !count_zero, Z.eqb_eq. assert (Hn : forall n, Z.of_nat n = 0 <-> n = 0%nat) by lia.
  rewrite Hn, filter_nil_iff. unfold drained. split.
  - intros [[H1 H2] H3]. split.
    + intros id b Hb. specialize (H1 id b Hb). specialize (H2 id b Hb). apply bool_decide_eq_false in H1, H2. set_solver.
    + intros r Hr. apply H3, bool_decide_eq_false in Hr. destruct (rb_status_ r); set_solver.
  - intros [H1 H2]. split; [split|].
    + intros id b Hb. specialize (H1 id b Hb). apply bool_decide_eq_false. set_solver.
    + intros id b Hb. specialize (H1 id b Hb). apply bool_decide_eq_false. set_solver.
    + intros r Hr. unfold unresolved. by rewrite (H2 r Hr).
Qed.

(** The internal book, as the script means it: what the journal holds of the
    stakes is what the bets say is held, what it paid is what they say was paid,
    every win is posted in full to its wallet, nothing is left in transit. *)
Definition books_balance (w : world) : Prop :=
  over_internal (net_stake w) w = internal_sum BetStatus.isWageredStatus b_amount w /\
  over_internal (net_payout w) w = internal_sum (is_status cashed_out) b_payout w /\
  (forall id b, w_bets w !! id = Some b -> b_operatorId b = None -> b_status b = cashed_out -> 0 < b_payout b ->
     exists row, w_ledger w !! KPayout id = Some row /\ l_walletId row = b_walletId b /\ l_amount row = b_payout b) /\
  drained w.

Section reached.
Context (risk : Risk.RiskLimits) (w : world) (HI : BetSafety.Inv risk w ∅) (HJ : journal_ok w).

Lemma reached_keyed : BetFlow.keyed w.
Proof using HI. intros id b Hb. apply (BetSafety.ok_id _ _ _ _ (BetSafety.inv_bets _ _ _ HI id b Hb)). Qed.

(** A payout row is the payout of a claimed win. *)
Lemma paid_in_full id : has_payout_key (payout_keys w) id = true <->
  exists b, w_bets w !! id = Some b /\ exists row : ledger_row, is_Some (b_cashoutMult b) /\
    w_ledger w !! KPayout id = Some row /\ l_walletId row = b_walletId b /\ l_amount row = b_payout b.
Proof using HI HJ.
  rewrite payout_key_has. split.
  - intros (r & Hr & _). destruct (BetSafety.inv_rows _ _ _ HI _ _ Hr) as (b & Hb & Hc & Hw & Ha). by eauto 10.
  - intros (b & _ & row & _ & Hr & _). exists row. split; [done|]. apply (jo_meaning w HJ _ _ Hr).
Qed.

Lemma no_paid_bust : bool_decide (length (List.filter (fun b => has_payout_key (payout_keys w) (b_id b))
    (bets_where (fun b => internal b && is_status busted (b_status b)) w)) = 0%nat) = true.
Proof using HI HJ.
  apply bool_decide_eq_true, filter_nil_iff. intros b Hin.
  apply bets_where_elem in Hin as [[id Hb] Hp]. apply andb_true_iff in Hp as [_ Hs]. apply bool_decide_eq_true in Hs.
  rewrite (reached_keyed id b Hb). apply not_true_iff_false. intros (b' & Hb' & row & [m Hm] & _)%paid_in_full.
  assert (b' = b) as -> by congruence.
  destruct (BetSafety.ok_claimed _ _ _ _ (BetSafety.inv_bets _ _ _ HI id b Hb) m Hm) as [Hw _]. by rewrite Hs in Hw.
Qed.

Lemma verdict : in_order w -> all_ok (checks_of w) = true <-> books_balance w.
Proof using All.
  intros Hord. pose proof reached_keyed as Hk. unfold all_ok, checks_of, books_balance. cbn [fold_left ck_ok ck_warn].
  rewrite <- drained_checks, !andb_true_iff, !Z.eqb_eq, live_stake, live_payouts, no_paid_bust, cashed_paid by done.
  rewrite (bool_decide_eq_true_2 _ (balances_agree w HJ Hord)).
  assert (Hpaid : (forall id b, w_bets w !! id = Some b -> b_operatorId b = None -> b_status b = cashed_out -> 0 < b_payout b ->
      has_payout_key (payout_keys w) id = true) <->
    (forall id b, w_bets w !! id = Some b -> b_operatorId b = None -> b_status b = cashed_out -> 0 < b_payout b ->
      exists row, w_ledger w !! KPayout id = Some row /\ l_walletId row = b_walletId b /\ l_amount row = b_payout b)).
  { split; intros H id b Hb Hop Hst Hpos; specialize (H id b Hb Hop Hst Hpos).
    - apply paid_in_full in H as (b' & Hb' & row & _ & Hrow). assert (b' = b) as -> by congruence. by exists row.
    - destruct H as (row & Hr & _). apply payout_key_has. exists row. split; [done|]. apply (jo_meaning w HJ _ _ Hr). }
  rewrite Hpaid. tauto.
Qed.
End reached.

(** Both invariants hold wherever the clients of the bet service go. *)
Lemma reached_ok risk sl thr1 thr2 cs w w' ps'
    (Hsane : BetSafety.sane risk) (Hcs : Forall (fun c => BetSafety.sane_request (BetSafety.cl_request c)) cs)
    (HI : BetSafety.Inv risk w ∅) (HJ : journal_ok w)
    (Hsteps : pool_steps w (BetSafety.run_client Ledger.LedgerService risk sl thr1 thr2 <$> cs) w' ps') :
  BetSafety.Inv risk w' ∅ /\ journal_ok w'.
Proof.
  split; [by destruct (BetSafety.clients_inv Ledger.LedgerService risk sl thr1 thr2 cs w w' ps' Hsane Hcs HI Hsteps)|].
  apply (pool_steps_in journal_step _ _ _ _ Hsteps); [|done]. apply Forall_fmap, Forall_true. intros c.
  apply journal_serve, BetSafety.cl_laws.
Qed.

End script.

(** *** Concrete books *)

Definition guest_args (p : panel) (amount : Z) : PlaceArgs := {|
  q_userId := 7%N; q_panel := p; q_amount := Fin (inject_Z amount); q_autoCashout := None; q_walletId := Some 1%N;
  q_limits := None; q_demo := false; q_rgCtx := None; q_operatorId := None |}.
Definition guest_clients : list BetSafety.client :=
  [BetSafety.ask Betting 100 (Bets.RPlace (guest_args PanelA 120)); BetSafety.ask Betting 100 (Bets.RCancel 7%N PanelA)].
Definition guest_end : world * list (prog world unit) :=
  schedule_pool (replicate 30 0 ++ replicate 30 1)%nat BetSafety.sample_world (BetSafety.run_sample <$> guest_clients).

(** Debits first, as they happen. *)
Definition debits_first (k : idem_key) : Z := match k with KDebit _ _ _ => 0 | _ => 1 end.

Lemma empty_journal w : w_ledger w = ∅ -> journal_ok w.
Proof. intros E. split; rewrite E; intros *; by rewrite lookup_empty. Qed.


Definition guest_place (p : panel) (stake : Z) : prog world unit :=
  forget (Bets.placeBet Ledger.LedgerService (BetSafety.seen Betting 100) Risk.default_limits (guest_args p stake)).
Definition guest_cancel (p : panel) : prog world unit :=
  forget (Bets.cancelBet Ledger.LedgerService (BetSafety.seen Betting 100) 7%N p).
Definition with_faults (fs : list fault) (p : prog world unit) (w : world) : world := set_faults [] (run p (set_faults fs w)).2.
Definition settled (w : world) : world := (run (forget (Bets.settleRound 100%N)) w).2.
Definition exit_code (created_at : idem_key -> Z) (w : world) : res Z := (run (reconcile created_at) w).1.

(** The losses the bet service allows on its own are seen: a bet funded by a
    smaller debit, a refund that was never posted, a win that was never paid. *)
Theorem losses_are_flagged :
  let staked := with_faults [] (guest_place PanelA 120) BetFlow.bet_world in
  let underfunded := with_faults [] (guest_place PanelA 450)
    (with_faults (replicate 6 NoFault ++ [FailAfter]) (guest_place PanelA 10) BetFlow.bet_world) in
  let unrefunded := with_faults [NoFault; NoFault; FailBefore] (guest_cancel PanelA) staked in
  let unpaid := (schedule_pool (replicate 4 0)%nat (set_rounds {[ 100%N := BetSafety.sample_round ]} staked)
    [forget (Bets.cashOut Ledger.LedgerService (BetSafety.seen Running 200) Risk.default_limits 7%N PanelA None)]).1 in
  exit_code debits_first (settled staked) = Ok 0 /\ exit_code debits_first (settled underfunded) = Ok 1 /\
  exit_code debits_first (settled unrefunded) = Ok 1 /\ exit_code debits_first (settled unpaid) = Ok 1.
Proof. vm_compute. by split_and!. Qed.

(** Two errors of the same amount pass: the stake of 120 on one panel was never
    refunded, and the bet on the other is held for a debit its id does not have. *)
Theorem offsetting_losses_pass :
  let staked := with_faults [] (guest_place PanelA 120) BetFlow.bet_world in
  let unrefunded := with_faults [NoFault; NoFault; FailBefore] (guest_cancel PanelA) staked in
  let lost_ack := with_faults (replicate 6 NoFault ++ [FailAfter]) (guest_place PanelB 120) unrefunded in
  let w := settled (with_faults [] (guest_place PanelB 120) lost_ack) in
  let stamps k := match k with KDebit _ _ PanelB => 1 | _ => 0 end in
  exit_code stamps w = Ok 0 /\
  (b_status <$> w_bets w !! 0%N) = Some cancelled /\ w_ledger w !! KRefund 0%N = None /\
  (net_stake w <$> bets_where internal w) = [0; 120].
Proof. vm_compute. by split_and!. Qed.

(** A cancelled bet's two rows, written in the same millisecond. *)
Definition same_ms_world (debitRow refundRow : uuid) : world :=
  set_bets {[ 0%N := mk_bet 0%N 100%N 7%N 1%N PanelA 120 None cancelled None 0 false None "USD" None (Some (TxLedger debitRow)) None 0 (Some 0) ]}
  (set_wallets {[ 1%N := mk_wallet 7%N "usd" 500 ]}
  (set_ledger (<[ KDebit 100%N 7%N PanelA := mk_ledger debitRow 1%N BetDebit (-120) 380 (Some 0%N) ]>
    {[ KRefund 0%N := mk_ledger refundRow 1%N Refund 120 500 (Some 0%N) ]}) empty_world)).

(** The ids, which are random, then decide which row is the newest, and half of
    the time the ledger is accused of a wrong balance. *)
Theorem same_millisecond_false_alarm :
  exit_code (fun _ => 0) (same_ms_world 3%N 9%N) = Ok 0 /\ exit_code (fun _ => 0) (same_ms_world 9%N 3%N) = Ok 1.
Proof. vm_compute. by split. Qed.
End Reconcile.
