(* ===== verification/Soak.v ===== *)
(** * The soak under failures and the failover drill

    [load/recon-soak.ts] kills the leader again and again while clients play, and
    compares the books before and after; [load/failover-drill.ts] kills it once in
    the middle of a round, and measures how long the ticks stop and what became of
    the bets.  Modelled: the snapshot, the verdicts, the exit codes and the
    measurement of the gap.  The child processes and the sockets are the argument
    [drive], any program that changes the world between the two snapshots. *)

From Stdlib Require Import QArith.
From S2P Require Import Prelude Effects Js Money Schema Wallet Ledger Bets BetSafety BetFlow Reconcile.

Open Scope Z_scope.

#[local] Set Warnings "-clear-no-such-hyp".

Module Soak.
#[local] Existing Instance Ledger.LedgerService_laws.

Record Residuals := mk_residuals {
  debitResidual : Z; payoutResidual : Z; balanceMismatches : Z; reservingBacklog : Z; pendingBacklog : Z;
  cashedOut : Z; busted_ : Z; missingPayoutLedger : Z; paidBusted : Z
}.

Definition len {A} (l : list A) : Z := Z.of_nat (length l).

Section soak.
(** The column [created_at] of the ledger, which no service reads. *)
Context (created_at : idem_key -> Z).

(** [q(type, ledgerType)]: the rows of a type that join an internal bet. *)
Definition q (t : ledger_type) (w : world) : Z :=
  Reconcile.sum_rows (fun r => Reconcile.has_type t r && Reconcile.joins_internal w r) w.

Definition mismatch (r : Z * Z) : bool := negb (r.1 =? r.2).
Definition unpaid (keys : list idem_key) (b : bet) : bool := (0 <? b_payout b) && negb (Reconcile.has_payout_key keys (b_id b)).

Definition snapshotResiduals : prog world Residuals :=
  liveDebit ← db_get (q BetDebit);
  liveRefund ← db_get (q Refund);
  livePayout ← db_get (q PayoutCredit);
  heldStakes ← db_get (Reconcile.internal_sum BetStatus.isWageredStatus b_amount);
  paidPayouts ← db_get (Reconcile.internal_sum (Reconcile.is_status cashed_out) b_payout);
  balRows ← db_get (fun w => List.filter mismatch (Reconcile.bal_rows created_at w));
  reservingBacklog ← bets_count (fun b => bool_decide (b_status b ∈ [reserving; cancelling]));
  pendingBacklog ← bets_count (Bets.has_status payout_pending);
  cashedOut ← bets_count (fun b => Reconcile.internal b && Reconcile.is_status cashed_out (b_status b));
  busted_ ← bets_count (fun b => Reconcile.internal b && Reconcile.is_status busted (b_status b));
  cashedRows ← db_get (bets_where (fun b => Reconcile.internal b && Reconcile.is_status cashed_out (b_status b)));
  bustedRows ← db_get (bets_where (fun b => Reconcile.internal b && Reconcile.is_status busted (b_status b)));
  payoutKeys ← db_get Reconcile.payout_keys;
  mret (mk_residuals (heldStakes - (- liveDebit - liveRefund)) (livePayout - paidPayouts) (len balRows)
    reservingBacklog pendingBacklog cashedOut busted_
    (len (List.filter (unpaid payoutKeys) cashedRows))
    (len (List.filter (fun b => Reconcile.has_payout_key payoutKeys (b_id b)) bustedRows))).

(** [TRUNCATE TABLE ledger_transactions, game_bets, game_rounds CASCADE]; no other
    table refers to one of these. *)
Definition truncate_play_tables : prog world unit := db_set (fun w => set_ledger ∅ (set_bets ∅ (set_rounds ∅ w))).

Record deltas := mk_deltas { dDebit : Z; dPayout : Z; dMissingPayout : Z; dPaidBusted : Z }.
Definition deltas_of (before after : Residuals) : deltas := {|
  dDebit := debitResidual after - debitResidual before;
  dPayout := payoutResidual after - payoutResidual before;
  dMissingPayout := missingPayoutLedger after - missingPayoutLedger before;
  dPaidBusted := paidBusted after - paidBusted before |}.

Definition clean (before after : Residuals) : bool :=
  let d := deltas_of before after in
  let deltaOk := (dDebit d =? 0) && (dPayout d =? 0) && (dMissingPayout d =? 0) && (dPaidBusted d =? 0) in
  let absoluteOk := (balanceMismatches after =? 0) && (reservingBacklog after =? 0) && (pendingBacklog after =? 0) in
  deltaOk && absoluteOk.

(** The exit code.  [drive] boots the nodes, plays, kills and drains; it answers
    whether the nodes came up. *)
Definition main (RESET_DB : bool) (drive : prog world bool) : prog world Z :=
  try_catch (
    _ ← when RESET_DB truncate_play_tables;
    before ← snapshotResiduals;
    healthy ← drive;
    if negb healthy then mret 2
    else
      after ← snapshotResiduals;
      mret (if clean before after then 0 else 1))
    (fun _ => mret 2).

(** ** What the soak compares *)

(** The stakes the bets say are held beyond what the journal still holds, and
    the payouts the journal made beyond what the bets say; refunds count whether
    or not the bet was debited. *)
Definition journal_stake (w : world) (b : bet) : Z :=
  - Reconcile.journaled BetDebit w (b_id b) - Reconcile.journaled Refund w (b_id b).
Definition stake_gap (w : world) : Z :=
  Reconcile.internal_sum BetStatus.isWageredStatus b_amount w - Reconcile.over_internal (journal_stake w) w.
Definition payout_gap (w : world) : Z :=
  Reconcile.over_internal (Reconcile.net_payout w) w - Reconcile.internal_sum (Reconcile.is_status cashed_out) b_payout w.
(** The won bets whose payout was never posted. *)
Definition never_paid (w : world) : list bet :=
  List.filter (unpaid (Reconcile.payout_keys w)) (bets_where (fun b => Reconcile.internal b && Reconcile.is_status cashed_out (b_status b)) w).
Definition settled_down (w : world) : Prop :=
  forall id b, w_bets w !! id = Some b -> b_status b ∉ [reserving; cancelling; payout_pending].

(** The residuals, as sums over the tables of one moment. *)
Definition residuals_of (w : world) : Residuals :=
  let cashed := bets_where (fun b => Reconcile.internal b && Reconcile.is_status cashed_out (b_status b)) w in
  let lost := bets_where (fun b => Reconcile.internal b && Reconcile.is_status busted (b_status b)) w in
  mk_residuals (Reconcile.internal_sum BetStatus.isWageredStatus b_amount w - (- q BetDebit w - q Refund w))
    (q PayoutCredit w - Reconcile.internal_sum (Reconcile.is_status cashed_out) b_payout w)
    (len (List.filter mismatch (Reconcile.bal_rows created_at w)))
    (len (bets_where (fun b => bool_decide (b_status b ∈ [reserving; cancelling])) w))
    (len (bets_where (Bets.has_status payout_pending) w)) (len cashed) (len lost)
    (len (never_paid w)) (len (List.filter (fun b => Reconcile.has_payout_key (Reconcile.payout_keys w) (b_id b)) lost)).

Lemma run_snapshot w : w_faults w = [] -> run snapshotResiduals w = (Ok (residuals_of w), w).
Proof. intros Hf. unfold snapshotResiduals, bets_count. do 13 (rewrite run_bind, run_db_get by done; cbv beta zeta). reflexivity. Qed.

Lemma q_by_bet t w : BetFlow.keyed w -> q t w = Reconcile.over_internal (fun b => Reconcile.journaled t w (b_id b)) w.
Proof. apply (Reconcile.sum_join (Reconcile.has_type t)). Qed.

Lemma residual_stake w : BetFlow.keyed w -> debitResidual (residuals_of w) = stake_gap w.
Proof.
  intros Hk. cbn [residuals_of debitResidual]. unfold stake_gap. rewrite !q_by_bet by done.
  unfold Reconcile.over_internal. generalize (bets_where Reconcile.internal w) as l.
  enough (forall l, - sumZ (fun b => Reconcile.journaled BetDebit w (b_id b)) l - sumZ (fun b => Reconcile.journaled Refund w (b_id b)) l =
    sumZ (journal_stake w) l) by (intros l; specialize (H l); lia).
  induction l as [|b l IH]; [done|]. cbn [sumZ]. unfold journal_stake at 1. lia.
Qed.

Lemma len_zero {A} (l : list A) : len l = 0 <-> length l = 0%nat.
Proof. unfold len. lia. Qed.

Lemma backlogs_zero w : (reservingBacklog (residuals_of w) =? 0) && (pendingBacklog (residuals_of w) =? 0) = true <-> settled_down w.
Proof.
  cbn [residuals_of reservingBacklog pendingBacklog]. unfold len. rewrite andb_true_iff, !Reconcile.count_zero. unfold settled_down. split.
  - intros [H1 H2] id b Hb. specialize (H1 id b Hb). specialize (H2 id b Hb). apply bool_decide_eq_false in H1, H2. set_solver.
  - intros H. split; intros id b Hb; specialize (H id b Hb); apply bool_decide_eq_false; set_solver.
Qed.

Lemma clean_iff before after : clean before after = true <->
  debitResidual after = debitResidual before /\ payoutResidual after = payoutResidual before /\
  missingPayoutLedger after = missingPayoutLedger before /\ paidBusted after = paidBusted before /\
  balanceMismatches after = 0 /\ (reservingBacklog after =? 0) && (pendingBacklog after =? 0) = true.
Proof. unfold clean, deltas_of. cbn. rewrite !andb_true_iff, !Z.eqb_eq. lia. Qed.

Section reached.
Context (risk : Risk.RiskLimits) (w : world) (HI : BetSafety.Inv risk w ∅) (HJ : Reconcile.journal_ok w).

Lemma residual_busts : paidBusted (residuals_of w) = 0.
Proof using HI HJ.
  cbn [residuals_of paidBusted]. apply len_zero. pose proof (Reconcile.no_paid_bust risk w HI HJ) as H. by apply bool_decide_eq_true in H.
Qed.

Lemma residual_payout : payoutResidual (residuals_of w) = payout_gap w.
Proof using HI. cbn [residuals_of payoutResidual]. unfold payout_gap. by rewrite <- Reconcile.live_payouts by apply (Reconcile.reached_keyed risk w HI). Qed.

Lemma residual_balances : Reconcile.in_order created_at w -> balanceMismatches (residuals_of w) = 0.
Proof using HJ.
  intros Hord. cbn [residuals_of balanceMismatches]. apply len_zero. rewrite <- (Reconcile.balances_agree created_at w HJ Hord).
  f_equal. apply List.filter_ext. by intros [].
Qed.
End reached.

(** The soak is exact over the worlds the bet service reaches on the internal
    ledger: whatever the clients did between the two snapshots, it exits with 0
    when they left the gap between the bets and the journal as it was, posted
    the payout of every win they made (or one for each they did not), and left no bet in a
    transient status the soak looks at; and with 1 otherwise. *)
Theorem soak_exact risk sl thr1 thr2 cs drive w w' ps'
    (Hsane : BetSafety.sane risk) (Hcs : Forall (fun c => BetSafety.sane_request (BetSafety.cl_request c)) cs)
    (HI : BetSafety.Inv risk w ∅) (HJ : Reconcile.journal_ok w) (Hf : w_faults w = [])
    (Hsteps : pool_steps w (BetSafety.run_client Ledger.LedgerService risk sl thr1 thr2 <$> cs) w' ps')
    (Hdrive : run drive w = (Ok true, w')) (Hf' : w_faults w' = []) (Hord : Reconcile.in_order created_at w') :
  let passes := stake_gap w' = stake_gap w /\ payout_gap w' = payout_gap w /\
    length (never_paid w') = length (never_paid w) /\ settled_down w' in
  exists code, run (main false drive) w = (Ok code, w') /\ (code = 0 /\ passes \/ code = 1 /\ ~ passes).
Proof.
  destruct (Reconcile.reached_ok created_at risk sl thr1 thr2 cs w w' ps' Hsane Hcs HI HJ Hsteps) as [HI' HJ'].
  intros passes. exists (if clean (residuals_of w) (residuals_of w') then 0 else 1). split.
  { unfold main. rewrite run_try. cbn [when]. rewrite run_bind, run_ret, run_bind, run_snapshot by done. cbv beta iota.
    rewrite run_bind, Hdrive. cbn [negb]. by rewrite run_bind, run_snapshot by done. }
  enough (H : clean (residuals_of w) (residuals_of w') = true <-> passes) by (destruct (clean _ _); naive_solver).
  rewrite clean_iff, (residual_balances w' HJ' Hord), (residual_busts risk w HI HJ), (residual_busts risk w' HI' HJ'), backlogs_zero.
  rewrite (residual_payout risk w HI), (residual_payout risk w' HI'). rewrite !residual_stake by (eapply Reconcile.reached_keyed; eassumption).
  unfold passes. cbn [residuals_of missingPayoutLedger]. unfold len. rewrite Nat2Z.inj_iff. tauto.
Qed.
End soak.

(** *** Concrete soaks *)

Definition drive_to (w : world) : prog world bool := atom (fun _ => (true, w)).

Lemma soak_exact_witness :
  run (main Reconcile.debits_first false (drive_to Reconcile.guest_end.1)) BetSafety.sample_world = (Ok 0, Reconcile.guest_end.1) /\
  stake_gap Reconcile.guest_end.1 = stake_gap BetSafety.sample_world /\ settled_down Reconcile.guest_end.1.
Proof.
  assert (E : run (main Reconcile.debits_first false (drive_to Reconcile.guest_end.1)) BetSafety.sample_world = (Ok 0, Reconcile.guest_end.1))
    by (vm_compute; reflexivity).
  split; [exact E|].
  destruct (soak_exact Reconcile.debits_first Risk.default_limits (fun _ => 0) NaN NaN Reconcile.guest_clients
    (drive_to Reconcile.guest_end.1) BetSafety.sample_world Reconcile.guest_end.1 Reconcile.guest_end.2 BetSafety.default_sane
    ltac:(repeat constructor) BetSafety.sample_inv) as (code & Hr & Hc).
  - by apply Reconcile.empty_journal.
  - reflexivity.
  - exact (schedule_pool_steps _ _ _).
  - reflexivity.
  - vm_compute. reflexivity.
  - apply Reconcile.in_orderb_ok. vm_compute. reflexivity.
  - rewrite E in Hr. apply (f_equal fst) in Hr. change (Ok (A := Z) 0 = Ok code) in Hr. injection Hr as <-.
    destruct Hc as [[_ (Hs & _ & _ & Hd)]|[Hc _]]; [by split|discriminate Hc].
Defined.

(** An operator's bet whose void was claimed and never finished: the gate waits
    for it, the soak looks at the other two transient statuses only. *)
Definition stuck_void : world :=
  set_bets {[ 0%N := mk_bet 0%N 100%N 7%N 1%N PanelA 120 None voiding None 0 false (Some 3%N) "USD" None
                       (Some (TxOperator "t1")) None 0 (Some 0) ]} BetFlow.bet_world.

Theorem stuck_void_passes_soak :
  (run (main Reconcile.debits_first false (drive_to stuck_void)) stuck_void).1 = Ok 0 /\
  Reconcile.exit_code Reconcile.debits_first stuck_void = Ok 1.
Proof. vm_compute. by split. Qed.
End Soak.

Module Drill.
Section drill.
(** [CFG.FAILOVER_SLA_MS] *)
Context (FAILOVER_SLA_MS : Z).

Record tick := mk_tick { t_at : Z; t_roundId : uuid }.

(** [Math.max(...clients.map((c) => c.lastTickAt).filter((t) => t > 0), 0)] *)
Definition lastTick (clients : list (list tick)) : Z :=
  foldr Z.max 0 (List.filter (fun t => 0 <? t) ((fun ticks => match last ticks with Some k => t_at k | None => 0 end) <$> clients)).

(** One poll of the clients of the surviving node: the first tick past the kill
    of the first client that has one. *)
Fixpoint poll (killAt : Z) (survivors : list (list tick)) : option tick :=
  match survivors with
  | [] => None
  | ticks :: rest => match List.find (fun k => killAt <? t_at k) ticks with Some k => Some k | None => poll killAt rest end
  end.
(** The polls up to the deadline. *)
Fixpoint measure (killAt : Z) (polls : list (list (list tick))) : option tick :=
  match polls with
  | [] => None
  | survivors :: rest => match poll killAt survivors with Some k => Some k | None => measure killAt rest end
  end.
Definition tickGapMs (lastTickBeforeKill : Z) (first : option tick) : Z :=
  match first with Some k => if 0 <? t_at k then t_at k - lastTickBeforeKill else -1 | None => -1 end.

Definition status_of (roundId : uuid) (w : world) : option phase :=
  match w_rounds w !! roundId with Some r => Some (r_status r) | None => None end.

(** At most one read of the round every 250 ms during 20 seconds. *)
Fixpoint wait_settled (roundId : uuid) (reads : nat) : prog world (option phase) :=
  match reads with
  | O => mret None
  | S n =>
    r ← db_get (status_of roundId);
    if bool_decide (r = Some Completed) then mret r
    else last ← wait_settled roundId n; mret (match n with O => r | _ => last end)
  end.
Definition SETTLE_READS : nat := 80.

Definition with_status (s : bet_status) (rows : list bet) : Z := Soak.len (List.filter (Bets.has_status s) rows).
Definition restart_refunds (rows : list bet) (w : world) : Z :=
  Soak.len (List.filter (fun kr => Reconcile.has_type Refund kr.2 && bool_decide (kr.1 ∈ (fun b => KRestartRefund (b_id b)) <$> rows))
    (map_to_list (w_ledger w))).

(** From the kill on: the exit code. *)
Definition verdict (roundId : uuid) (gap : Z) : prog world Z :=
  try_catch (
    finalStatus ← wait_settled roundId SETTLE_READS;
    betRows ← db_get (bets_where (fun b => bool_decide (b_roundId b = roundId)));
    refundKeys ← db_get (restart_refunds betRows);
    let settledRideThrough := with_status cashed_out betRows + with_status busted betRows in
    let wasResumed := bool_decide (finalStatus = Some Completed) && (refundKeys =? 0) && (with_status cancelled betRows =? 0) &&
      (0 <? settledRideThrough) in
    let timingOk := (0 <=? gap) && (gap <? FAILOVER_SLA_MS) in
    mret (if timingOk && wasResumed then 0 else 1))
    (fun _ => mret 2).

(** ** The verdict *)

Lemma read_settled roundId n w : w_faults w = [] ->
  exists r, run (wait_settled roundId n) w = (Ok r, w) /\
    (r = Some Completed <-> n <> O /\ status_of roundId w = Some Completed).
Proof.
  intros Hf. induction n as [|n (r & IH & Hr)]; [exists None; split; [done|naive_solver]|].
  cbn [wait_settled]. rewrite run_bind, run_db_get by done. case_bool_decide as Hc.
  - exists (Some Completed). rewrite Hc. split; [done|naive_solver].
  - rewrite run_bind, IH. eexists. split; [reflexivity|]. destruct n; naive_solver.
Qed.

Lemma with_status_zero s rows : with_status s rows = 0 <-> forall b, b ∈ rows -> b_status b <> s.
Proof.
  unfold with_status. rewrite Soak.len_zero, Reconcile.filter_nil_iff. unfold Bets.has_status.
  split; intros H b Hb; specialize (H b Hb); rewrite ?bool_decide_eq_false in *; done.
Qed.

Lemma with_status_nonneg s rows : 0 <= with_status s rows.
Proof. unfold with_status, Soak.len. lia. Qed.

Lemma restart_refunds_zero rows w : restart_refunds rows w = 0 <->
  forall b r, b ∈ rows -> w_ledger w !! KRestartRefund (b_id b) = Some r -> l_type r <> Refund.
Proof.
  unfold restart_refunds. rewrite Soak.len_zero, Reconcile.filter_nil_iff. split.
  - intros H b r Hb Hr Ht. specialize (H (KRestartRefund (b_id b), r)). rewrite elem_of_map_to_list in H. specialize (H Hr).
    apply andb_false_iff in H as [H|H]; apply bool_decide_eq_false in H; [done|]. apply H. cbn. apply list_elem_of_fmap. by exists b.
  - intros H [k r] Hk%elem_of_map_to_list. apply andb_false_iff. cbn. destruct (decide (l_type r = Refund)) as [Ht|Ht].
    + right. apply bool_decide_eq_false. intros (b & -> & Hb)%list_elem_of_fmap. by apply (H b r).
    + left. by apply bool_decide_eq_false.
Qed.

(** The drill's verdict on the tables it reads: it exits with 0 when the ticks
    came back within the bound and the killed round completed with at least one bet
    settled and none cancelled or refunded by a restart, and with 1 otherwise. *)
Theorem drill_exact roundId gap w (Hf : w_faults w = []) :
  let of_round b := exists id, w_bets w !! id = Some b /\ b_roundId b = roundId in
  let resumed := status_of roundId w = Some Completed /\
    (forall b, of_round b -> b_status b <> cancelled) /\
    (forall b r, of_round b -> w_ledger w !! KRestartRefund (b_id b) = Some r -> l_type r <> Refund) /\
    (exists b, of_round b /\ (b_status b = cashed_out \/ b_status b = busted)) in
  exists code, run (verdict roundId gap) w = (Ok code, w) /\
    (code = 0 /\ (0 <= gap < FAILOVER_SLA_MS /\ resumed) \/ code = 1 /\ ~ (0 <= gap < FAILOVER_SLA_MS /\ resumed)).
Proof.
  intros of_round resumed. set (rows := bets_where (fun b => bool_decide (b_roundId b = roundId)) w).
  assert (Hrow : forall b, b ∈ rows <-> of_round b).
  { intros b. unfold rows, of_round. rewrite bets_where_elem, bool_decide_eq_true. naive_solver. }
  destruct (read_settled roundId SETTLE_READS w Hf) as (r & Er & Hr).
  unfold verdict. rewrite run_try, run_bind, Er, run_bind, run_db_get by done. fold rows.
  rewrite run_bind, run_db_get by done. cbv zeta. rewrite run_ret.
  assert (Hset : 0 < with_status cashed_out rows + with_status busted rows <->
    exists b, of_round b /\ (b_status b = cashed_out \/ b_status b = busted)).
  { pose proof (with_status_nonneg cashed_out rows). pose proof (with_status_nonneg busted rows). split.
    - intros Hpos. destruct (decide (Exists (fun b => b_status b = cashed_out \/ b_status b = busted) rows)) as [He|Hn].
      + apply Exists_exists in He as (b & Hb & Hs). exists b. by rewrite <- Hrow.
      + rewrite <- Forall_Exists_neg, Forall_forall in Hn.
        assert (with_status cashed_out rows = 0) by (apply with_status_zero; naive_solver).
        assert (with_status busted rows = 0) by (apply with_status_zero; naive_solver). lia.
    - intros (b & Hb%Hrow & Hs). destruct (decide (with_status cashed_out rows = 0)) as [Z1|]; [|lia].
      destruct (decide (with_status busted rows = 0)) as [Z2|]; [|lia]. rewrite with_status_zero in Z1, Z2. naive_solver. }
  eexists. split; [reflexivity|]. destruct (_ && _) eqn:E; [left|right]; (split; [done|]).
  - rewrite !andb_true_iff, bool_decide_eq_true, !Z.eqb_eq, Z.leb_le, !Z.ltb_lt, restart_refunds_zero, with_status_zero in E.
    destruct E as [[? ?] [[[? ?] ?] ?]]. split; [lia|]. unfold resumed. rewrite <- Hset. naive_solver.
  - intros [Hg (H1 & H2 & H3 & H4)]. apply not_true_iff_false in E. apply E.
    rewrite !andb_true_iff, bool_decide_eq_true, !Z.eqb_eq, Z.leb_le, !Z.ltb_lt, restart_refunds_zero, with_status_zero.
    rewrite Hset. naive_solver.
Qed.

Lemma poll_found killAt survivors k : poll killAt survivors = Some k -> killAt < t_at k /\ exists ticks, ticks ∈ survivors /\ k ∈ ticks.
Proof.
  induction survivors as [|ticks rest IH]; [done|]. cbn [poll]. destruct (List.find _ ticks) as [k'|] eqn:Ef.
  - intros [= <-]. apply List.find_some in Ef as [Hin Hlt%Z.ltb_lt]. split; [done|]. exists ticks. split; [left|by apply list_elem_of_In].
  - intros (Hk & ts & Hts & ?)%IH. split; [done|]. exists ts. split; [by right|done].
Qed.

(** The gap measured runs to a tick some surviving client really received after
    the kill. *)
Lemma measure_found killAt polls k : measure killAt polls = Some k ->
  killAt < t_at k /\ exists survivors ticks, survivors ∈ polls /\ ticks ∈ survivors /\ k ∈ ticks.
Proof.
  induction polls as [|survivors rest IH]; [done|]. cbn [measure]. destruct (poll killAt survivors) as [k'|] eqn:Ep.
  - intros [= <-]. apply poll_found in Ep as (? & ts & ? & ?). split; [done|]. exists survivors, ts. split; [left|done].
  - intros (? & s & ts & ? & ? & ?)%IH. split; [done|]. exists s, ts. split; [by right|done].
Qed.

(** That tick need not come from the survivor.  One the dead leader had already
    published, delivered a moment after the kill, ends the measure: the drill
    reports a gap of 125 ms for ticks that stopped for 30 seconds. *)
Theorem late_tick_hides_gap :
  let before := [[mk_tick 9880 1%N]; [mk_tick 9880 1%N]] in
  let late := [[mk_tick 9880 1%N; mk_tick 10005 1%N]] in
  let back := [[mk_tick 9880 1%N; mk_tick 10005 1%N; mk_tick 40005 1%N]] in
  tickGapMs (lastTick before) (measure 10000 [late; back]) = 125.
Proof. by vm_compute. Qed.
End drill.

(** The drill confirms a failover of the toy round. *)
Definition killed_world (s : bet_status) : world :=
  set_rounds {[ 100%N := mk_round 100%N 5%N 0 200 Completed 0 None None None None 0 ]}
  (set_bets {[ 0%N := mk_bet 0%N 100%N 7%N 1%N PanelA 120 None s None 0 false None "USD" None None None 0 (Some 0) ]} empty_world).

Lemma drill_exact_witness : run (verdict 5000 100%N 1900) (killed_world busted) = (Ok 0, killed_world busted) /\
  status_of 100%N (killed_world busted) = Some Completed.
Proof.
  assert (E : run (verdict 5000 100%N 1900) (killed_world busted) = (Ok 0, killed_world busted)) by (vm_compute; reflexivity).
  split; [exact E|]. destruct (drill_exact 5000 100%N 1900 (killed_world busted) eq_refl) as (code & Hr & Hc).
  rewrite E in Hr. apply (f_equal fst) in Hr. change (Ok (A := Z) 0 = Ok code) in Hr. injection Hr as <-.
  destruct Hc as [[_ [_ [H _]]]|[Hc _]]; [exact H|discriminate Hc].
Defined.

(** A round whose only bet was won and is still waiting for its operator's
    confirmation counts as not resumed. *)
Theorem owed_win_not_confirmed : (run (verdict 5000 100%N 1900) (killed_world payout_pending)).1 = Ok 1.
Proof. by vm_compute. Qed.
End Drill.
