(* ===== verification/LoadStats.v ===== *)
(** * What the load harness measures

    [load/ws-load.ts]: the latency histogram and its percentiles, the simulated
    player, the guard against a starved generator, the paced ramp, the split of
    the clients over the workers, and the capacity it reads off a ramp.  Times are
    the arguments of the events; a product [p * total] is exact.  The raw samples
    kept for debugging, the scraped text and the printed report are not modelled. *)

From Stdlib Require Import QArith Sorted.
From S2P Require Import Prelude Effects Js Schema.

Open Scope Z_scope.

#[local] Set Warnings "-clear-no-such-hyp".

Module Load.

(** ** Histograms *)

(** A bound in milliseconds; [None] is [Infinity]. *)
Abbreviation bound := (option Z) (only parsing).
Definition le_bound (ms : Z) (b : bound) : bool := match b with Some z => ms <=? z | None => true end.

Definition BUCKETS_MS : list bound :=
  (Some <$> [1; 2; 3; 5; 8; 13; 21; 34; 55; 89; 144; 200; 300; 500; 800; 1300; 2100; 3400; 5500]) ++ [None].

Definition emptyHist : list Z := replicate 20 0.

(** The last bucket takes what no bound admits. *)
Fixpoint observe (bs : list bound) (h : list Z) (ms : Z) : list Z :=
  match bs, h with
  | [_], [c] => [c + 1]
  | b :: bs, c :: h => if le_bound ms b then (c + 1) :: h else c :: observe bs h ms
  | _, _ => h
  end.
Definition histObserve : list Z -> Z -> list Z := observe BUCKETS_MS.

Fixpoint histMerge (into from : list Z) : list Z :=
  match into, from with
  | a :: into, b :: from => (a + b) :: histMerge into from
  | _, _ => into
  end.

Definition histCount (h : list Z) : Z := sumZ id h.

Fixpoint percentile (bs : list bound) (h : list Z) (target : Q) (cum : Z) : bound :=
  match bs, h with
  | b :: bs, c :: h => if Qle_bool target (inject_Z (cum + c)) then b else percentile bs h target (cum + c)
  | _, _ => None
  end.
Definition histPercentile (h : list Z) (p : Q) : bound :=
  let total := histCount h in
  if total =? 0 then Some 0 else percentile BUCKETS_MS h (p * inject_Z total) 0.

(** [serverPercentile], over the cumulative buckets of a scrape. *)
Fixpoint cumulative (buckets : list (bound * Z)) (target : Q) : option bound :=
  match buckets with
  | [] => None
  | (le, v) :: rest =>
    if Qle_bool target (inject_Z v) then Some le
    else match rest with [] => Some le | _ => cumulative rest target end
  end.
Definition serverPercentile (buckets : list (bound * Z)) (total : Z) (p : Q) : bound :=
  if total =? 0 then Some 0
  else match cumulative buckets (p * inject_Z total) with Some le => le | None => Some 0 end.

(** ** The sliding window of the live series *)

Definition RECENT_CAP : nat := 2000.
Definition recent_push (r : list Z) (ms : Z) : list Z :=
  let r := r ++ [ms] in if (RECENT_CAP <? length r)%nat then tail r else r.
Definition recentP99 (r : list Z) : Z :=
  match r with
  | [] => 0
  | _ => nth (Nat.min (length r - 1) (length r * 99 / 100)) (merge_sort Z.le r) 0
  end.

(** ** The guard against a starved generator *)

Record lag_guard := mk_lag { lg_last : Z; lg_highStreak : nat; lg_max : Z; lg_suspect : bool }.
Definition lag_tick (LAG_WARN_MS : Z) (g : lag_guard) (now : Z) : lag_guard :=
  let lag := now - lg_last g - 20 in
  let max := if lg_max g <? lag then lag else lg_max g in
  if LAG_WARN_MS <? lag then
    let streak := S (lg_highStreak g) in mk_lag now streak max (lg_suspect g || (5 <=? streak)%nat)
  else mk_lag now 0 max (lg_suspect g).

(** ** The workers *)

(** [base + (i < rem ? 1 : 0)] for each worker. *)
Definition slices (CLIENTS WORKERS : nat) : list nat :=
  (fun i => (CLIENTS / WORKERS + if (i <? CLIENTS mod WORKERS)%nat then 1 else 0)%nat) <$> seq 0 WORKERS.

Record counts := mk_counts {
  connected : Z; connectErrors : Z; authErrors : Z; betAccepted : Z; betRejected : Z;
  cashoutAccepted : Z; cashoutRejected : Z; n_busted : Z; ackTimeouts : Z; ticks : Z
}.
Definition no_counts : counts := mk_counts 0 0 0 0 0 0 0 0 0 0.
Definition add_counts (a b : counts) : counts :=
  mk_counts (connected a + connected b) (connectErrors a + connectErrors b) (authErrors a + authErrors b)
    (betAccepted a + betAccepted b) (betRejected a + betRejected b) (cashoutAccepted a + cashoutAccepted b)
    (cashoutRejected a + cashoutRejected b) (n_busted a + n_busted b) (ackTimeouts a + ackTimeouts b) (ticks a + ticks b).

Record worker := mk_worker {
  k_counts : counts; k_place : list Z; k_cash : list Z; k_busted : list Z; k_recentPlace : list Z; k_recentCash : list Z;
  k_rejectReasons : gmap string Z; k_tickGapHist : list Z; k_maxTickGapMs : Z; k_windowTickGapMax : Z
}.
Definition new_worker : worker := mk_worker no_counts emptyHist emptyHist emptyHist [] [] ∅ emptyHist 0 0.

Definition count (d : counts) (k : worker) : worker :=
  mk_worker (add_counts (k_counts k) d) (k_place k) (k_cash k) (k_busted k) (k_recentPlace k) (k_recentCash k)
    (k_rejectReasons k) (k_tickGapHist k) (k_maxTickGapMs k) (k_windowTickGapMax k).
Definition obs_place (ms : Z) (k : worker) : worker :=
  mk_worker (k_counts k) (histObserve (k_place k) ms) (k_cash k) (k_busted k) (recent_push (k_recentPlace k) ms) (k_recentCash k)
    (k_rejectReasons k) (k_tickGapHist k) (k_maxTickGapMs k) (k_windowTickGapMax k).
Definition obs_cash (ms : Z) (k : worker) : worker :=
  mk_worker (k_counts k) (k_place k) (histObserve (k_cash k) ms) (k_busted k) (k_recentPlace k) (recent_push (k_recentCash k) ms)
    (k_rejectReasons k) (k_tickGapHist k) (k_maxTickGapMs k) (k_windowTickGapMax k).
Definition obs_busted (ms : Z) (k : worker) : worker :=
  mk_worker (k_counts k) (k_place k) (k_cash k) (histObserve (k_busted k) ms) (k_recentPlace k) (k_recentCash k)
    (k_rejectReasons k) (k_tickGapHist k) (k_maxTickGapMs k) (k_windowTickGapMax k).
Definition rejected (reason : string) (k : worker) : worker :=
  mk_worker (k_counts k) (k_place k) (k_cash k) (k_busted k) (k_recentPlace k) (k_recentCash k)
    (<[ reason := default 0 (k_rejectReasons k !! reason) + 1 ]> (k_rejectReasons k))
    (k_tickGapHist k) (k_maxTickGapMs k) (k_windowTickGapMax k).
Definition obs_gap (gap : Z) (sameRound : bool) (k : worker) : worker :=
  mk_worker (k_counts k) (k_place k) (k_cash k) (k_busted k) (k_recentPlace k) (k_recentCash k) (k_rejectReasons k)
    (histObserve (k_tickGapHist k) gap) (if k_maxTickGapMs k <? gap then gap else k_maxTickGapMs k)
    (if sameRound && (k_windowTickGapMax k <? gap) then gap else k_windowTickGapMax k).

(** *** One simulated player *)

Record player := mk_player {
  lastBetRound : option uuid; activeRound : option uuid; cashedThisRound : bool;
  lastTickAt : Z; lastTickRoundId : option uuid; crashSeenAt : Z
}.
Definition new_player : player := mk_player None None false 0 None 0.

(** What the socket delivers.  An acknowledgement carries the time it took, and
    nothing when it timed out. *)
Inductive inbound :=
| Connect | ConnectError
| RoundState (ph : phase) (roundId : uuid)
| PlaceAck (roundId : uuid) (dt : Z) (r : option (bool * option string))
| Tick (roundId : uuid) (multiplier now : Z)
| CashAck (dt : Z) (r : option bool)
| CashoutAccepted
| RoundCrashed (roundId : uuid) (now : Z)
| BetBusted (now : Z).

Inductive outbound := PlaceBet (roundId : uuid) (amount : Z) (autoCashout : option Z) | CashOut.

(** Multipliers are in cents. *)
Record config := mk_config { BET_AMOUNT : Z; CASHOUT_AT : Z; willBet : bool }.

Section player.
Context (cfg : config).

Definition receive (stop : bool) (m : inbound) (c : player) (k : worker) : player * worker * list outbound :=
  match m with
  | Connect => (c, count (mk_counts 1 0 0 0 0 0 0 0 0 0) k, [])
  | ConnectError => (c, count (mk_counts 0 1 0 0 0 0 0 0 0 0) k, [])
  | RoundState ph roundId =>
    if stop then (c, k, [])
    else if phase_eqb ph Betting && willBet cfg && negb (opt_eqb (lastBetRound c) (Some roundId)) then
      (mk_player (Some roundId) (activeRound c) false (lastTickAt c) (lastTickRoundId c) (crashSeenAt c), k,
       [PlaceBet roundId (BET_AMOUNT cfg) (if 100 <? CASHOUT_AT cfg then Some (CASHOUT_AT cfg) else None)])
    else (c, k, [])
  | PlaceAck _ _ None => (c, count (mk_counts 0 0 0 0 0 0 0 0 1 0) k, [])
  | PlaceAck roundId dt (Some (true, _)) =>
    (mk_player (lastBetRound c) (Some roundId) (cashedThisRound c) (lastTickAt c) (lastTickRoundId c) (crashSeenAt c),
     count (mk_counts 0 0 0 1 0 0 0 0 0 0) (obs_place dt k), [])
  | PlaceAck _ dt (Some (false, reason)) =>
    (c, rejected (default "unknown"%string reason) (count (mk_counts 0 0 0 0 1 0 0 0 0 0) (obs_place dt k)), [])
  | Tick roundId multiplier now =>
    let k := count (mk_counts 0 0 0 0 0 0 0 0 0 1) k in
    let k := if 0 <? lastTickAt c then obs_gap (now - lastTickAt c) (opt_eqb (lastTickRoundId c) (Some roundId)) k else k in
    let cash := (CASHOUT_AT cfg <=? 100) && opt_eqb (activeRound c) (Some roundId) && negb (cashedThisRound c) && (120 <=? multiplier) in
    (mk_player (lastBetRound c) (activeRound c) (cashedThisRound c || cash) now (Some roundId) (crashSeenAt c), k,
     if cash then [CashOut] else [])
  | CashAck _ None => (c, count (mk_counts 0 0 0 0 0 0 0 0 1 0) k, [])
  | CashAck dt (Some ok) =>
    let k := obs_cash dt k in
    (c, if ok then k else count (mk_counts 0 0 0 0 0 0 1 0 0 0) k, [])
  | CashoutAccepted =>
    (mk_player (lastBetRound c) None true (lastTickAt c) (lastTickRoundId c) (crashSeenAt c),
     count (mk_counts 0 0 0 0 0 1 0 0 0 0) k, [])
  | RoundCrashed roundId now =>
    (if opt_eqb (activeRound c) (Some roundId)
     then mk_player (lastBetRound c) (activeRound c) (cashedThisRound c) (lastTickAt c) (lastTickRoundId c) now else c, k, [])
  | BetBusted now =>
    let k := count (mk_counts 0 0 0 0 0 0 0 1 0 0) k in
    (mk_player (lastBetRound c) None (cashedThisRound c) (lastTickAt c) (lastTickRoundId c) (if 0 <? crashSeenAt c then 0 else crashSeenAt c),
     if 0 <? crashSeenAt c then obs_busted (now - crashSeenAt c) k else k, [])
  end.

(** A worker's players, the messages they receive in order, and what they send. *)
Definition deliver (st : gmap nat player * worker * list (nat * outbound)) (m : nat * bool * inbound) :=
  let '(players, k, sent) := st in
  let '(i, stop, msg) := m in
  let '(c, k, out) := receive stop msg (default new_player (players !! i)) k in
  (<[ i := c ]> players, k, sent ++ ((i,.) <$> out)).
Definition play (ms : list (nat * bool * inbound)) := fold_left deliver ms (∅, new_worker, []).
End player.

(** *** The paced ramp: one firing of its timer, one auth done *)

Record ramp := mk_ramp { ra_credit : Q; ra_started : nat; ra_inFlight : nat; ra_launched : nat; ra_authErrors : nat; ra_done : bool }.
Definition ramp_start : ramp := mk_ramp 0 0 0 0 0 false.

Section ramp.
Context (AUTH_CONCURRENCY sliceSize : nat) (perStep : Q).

(** [while (credit >= 1 && started < sliceSize && inFlight < AUTH_CONCURRENCY)], a
    turn per client left to start. *)
Fixpoint release (turns : nat) (r : ramp) : ramp :=
  match turns with
  | O => r
  | S turns =>
    if Qle_bool 1 (ra_credit r) && (ra_started r <? sliceSize)%nat && (ra_inFlight r <? AUTH_CONCURRENCY)%nat
    then release turns (mk_ramp (ra_credit r - 1) (S (ra_started r)) (S (ra_inFlight r)) (ra_launched r) (ra_authErrors r) (ra_done r))
    else r
  end.

Inductive ramp_step (r : ramp) : ramp -> Prop :=
| ramp_stop : ra_done r = false -> (sliceSize <= ra_started r)%nat ->
    ramp_step r (mk_ramp (ra_credit r) (ra_started r) (ra_inFlight r) (ra_launched r) (ra_authErrors r) true)
| ramp_fire : ra_done r = false -> (ra_started r < sliceSize)%nat ->
    ramp_step r (release (sliceSize - ra_started r)
      (mk_ramp (ra_credit r + perStep) (ra_started r) (ra_inFlight r) (ra_launched r) (ra_authErrors r) false))
| ramp_token n : ra_inFlight r = S n ->
    ramp_step r (mk_ramp (ra_credit r) (ra_started r) n (S (ra_launched r)) (ra_authErrors r) (ra_done r))
| ramp_refused n : ra_inFlight r = S n ->
    ramp_step r (mk_ramp (ra_credit r) (ra_started r) n (ra_launched r) (S (ra_authErrors r)) (ra_done r)).
End ramp.

(** *** The capacity read off a ramp *)

Record sample := mk_sample {
  tMs : Z; wsConn : Z; launched : Z; placeP99 : Z; serverP99 : bound; tickGap : Z; lag : Z; suspect : bool; acceptRate : Q
}.
Definition acceptRateOf (accepted timeouts : Z) : Q :=
  if 0 <? accepted + timeouts then inject_Z accepted / inject_Z (accepted + timeouts) else 1%Q.

Definition healthy (TICK_GAP_WARN_MS : Z) (s : sample) : bool :=
  match serverP99 s with Some v => (v <? 0) || (v <=? 200) | None => false end &&
  (tickGap s <=? TICK_GAP_WARN_MS) && negb (suspect s) && Qle_bool (98 # 100) (acceptRate s).

Fixpoint knee (warn : Z) (series : list sample) (lastHealthy firstBad : option sample) : option sample * option sample :=
  match series with
  | [] => (lastHealthy, firstBad)
  | s :: rest =>
    if healthy warn s then knee warn rest (Some s) firstBad
    else knee warn rest lastHealthy (match firstBad with Some b => Some b | None => Some s end)
  end.

(** ** Percentiles *)

(** The samples a bound admits. *)
Definition at_most (b : bound) (xs : list Z) : Z := Z.of_nat (length (List.filter (fun x => le_bound x b) xs)).
Definition prefix (h : list Z) (i : nat) : Z := sumZ id (take (S i) h).
Lemma prefix_here c h : prefix (c :: h) 0 = c.
Proof. unfold prefix. cbn [take sumZ]. rewrite Z.add_0_r. done. Qed.
Lemma prefix_further c h i : prefix (c :: h) (S i) = c + prefix h i.
Proof. done. Qed.
Definition observed (xs : list Z) : list Z := fold_left histObserve xs emptyHist.

(** Bounds in increasing order, the last one infinite. *)
Fixpoint graded (bs : list bound) : Prop :=
  match bs with
  | [] => False
  | [b] => b = None
  | b :: bs => Forall (fun b' => forall x, le_bound x b = true -> le_bound x b' = true) bs /\ graded bs
  end.

Lemma buckets_graded : graded BUCKETS_MS.
Proof. cbn. repeat (split; [repeat (constructor; [intros x; cbn; lia|]); constructor|]). done. Qed.

Lemma observe_length bs h ms : length (observe bs h ms) = length h.
Proof.
  revert h. induction bs as [|b bs IH]; intros h; [done|]. destruct h as [|c h]; [by destruct bs|].
  cbn [observe]. destruct bs as [|b' bs], h as [|c' h]; cbn [length]; try done;
    (destruct (le_bound ms b); cbn [length]; [done|]; f_equal; apply (IH (_ :: _)) || done).
Qed.

Lemma observe_cons b b' bs c h ms :
  observe (b :: b' :: bs) (c :: h) ms = if le_bound ms b then (c + 1) :: h else c :: observe (b' :: bs) h ms.
Proof. done. Qed.

Lemma prefix_observe bs h x i b : graded bs -> length h = length bs -> bs !! i = Some b ->
  prefix (observe bs h x) i = prefix h i + (if le_bound x b then 1 else 0).
Proof.
  revert h i. induction bs as [|b0 bs IH]; intros h i Hg Hl Hi; [done|]. destruct h as [|c h]; [done|].
  destruct bs as [|b1 bs].
  - destruct h; [|done]. destruct i; [|done]. cbn in Hg, Hi. injection Hi as <-. subst b0. cbn [observe le_bound]. by rewrite !prefix_here.
  - destruct Hg as [Hfa Hg]. rewrite observe_cons. destruct (le_bound x b0) eqn:Ex.
    + assert (Hb : le_bound x b = true).
      { destruct i; [by injection Hi as <-|]. rewrite Forall_lookup in Hfa. by apply (Hfa i b Hi). }
      rewrite Hb. destruct i; rewrite ?prefix_here, ?prefix_further; lia.
    + destruct i as [|i].
      * injection Hi as <-. rewrite Ex, !prefix_here. lia.
      * rewrite !prefix_further, (IH h i Hg ltac:(by injection Hl) Hi). lia.
Qed.

Lemma merge_length into from : length (histMerge into from) = length into.
Proof. revert from. induction into as [|a into IH]; intros [|b from]; cbn; [done..|]. by rewrite IH. Qed.

Lemma prefix_merge into from i : length into = length from -> prefix (histMerge into from) i = prefix into i + prefix from i.
Proof.
  revert from i. induction into as [|a into IH]; intros [|b from] i Hl; try done.
  injection Hl as Hl. cbn [histMerge]. destruct i as [|i]; [by rewrite !prefix_here|].
  rewrite !prefix_further, (IH from i Hl). lia.
Qed.

Lemma observed_length xs : length (observed xs) = 20%nat.
Proof.
  unfold observed. change 20%nat with (length emptyHist). generalize emptyHist as h.
  induction xs as [|x xs IH]; intros h; [done|]. cbn [fold_left]. rewrite IH. apply observe_length.
Qed.

Lemma prefix_zero i : prefix emptyHist i = 0.
Proof.
  unfold prefix, emptyHist. rewrite take_replicate. generalize (S i `min` 20)%nat as n. by induction n.
Qed.

Lemma prefix_observed xs i b : BUCKETS_MS !! i = Some b -> prefix (observed xs) i = at_most b xs.
Proof.
  intros Hi. unfold observed. rewrite <- (Z.add_0_l (at_most b xs)), <- (prefix_zero i).
  assert (Hl : length emptyHist = 20%nat) by done. revert Hl. generalize emptyHist as h.
  induction xs as [|x xs IH]; intros h Hl; cbn [fold_left]; [unfold at_most; cbn [List.filter length]; lia|].
  rewrite IH by (unfold histObserve; by rewrite observe_length). unfold histObserve.
  rewrite (prefix_observe BUCKETS_MS h x i b buckets_graded Hl Hi). unfold at_most. cbn [List.filter]. destruct (le_bound x b); cbn [length]; lia.
Qed.

Lemma merged_prefix (reports : list (list Z)) i b : BUCKETS_MS !! i = Some b ->
  prefix (fold_left histMerge (observed <$> reports) emptyHist) i = at_most b (concat reports) /\
  length (fold_left histMerge (observed <$> reports) emptyHist) = 20%nat.
Proof.
  intros Hi. assert (Hgen : forall h, length h = 20%nat ->
    prefix (fold_left histMerge (observed <$> reports) h) i = prefix h i + at_most b (concat reports) /\
    length (fold_left histMerge (observed <$> reports) h) = 20%nat).
  { induction reports as [|xs reports IH]; intros h Hh; [split; [unfold at_most; cbn [fmap list_fmap concat fold_left List.filter length]; lia|done]|]. cbn [fmap list_fmap fold_left concat].
    destruct (IH (histMerge h (observed xs))) as [-> ->]; [by rewrite merge_length|]. split; [|done].
    rewrite prefix_merge, (prefix_observed xs i b Hi) by (by rewrite observed_length). unfold at_most. rewrite List.filter_app, length_app. lia. }
  destruct (Hgen emptyHist eq_refl) as [-> ->]. by rewrite prefix_zero.
Qed.

(** The walk stops at the first bucket whose prefix reaches the target. *)
Lemma percentile_stops bs h (target : Q) cum i b : length h = length bs -> bs !! i = Some b ->
  Qle_bool target (inject_Z (cum + prefix h i)) = true ->
  (forall j, (j < i)%nat -> Qle_bool target (inject_Z (cum + prefix h j)) = false) ->
  percentile bs h target cum = b.
Proof.
  revert h cum i. induction bs as [|b0 bs IH]; intros h cum i Hl Hi Ht Hb; [done|]. destruct h as [|c h]; [done|].
  cbn [percentile]. assert (E : forall j, cum + prefix (c :: h) (S j) = cum + c + prefix h j).
  { intros j. rewrite prefix_further. lia. }
  destruct i as [|i].
  - injection Hi as <-. replace (cum + c) with (cum + prefix (c :: h) 0) by (by rewrite prefix_here). by rewrite Ht.
  - replace (Qle_bool target (inject_Z (cum + c))) with false.
    + apply (IH h (cum + c) i); [by injection Hl|done|by rewrite <- E|]. intros j Hj. rewrite <- E. apply Hb. lia.
    + symmetry. rewrite <- (Hb 0%nat ltac:(lia)). by rewrite prefix_here.
Qed.

(** [x] is the [p]-quantile: the least time at least a share [p] of the samples
    do not exceed. *)
Definition reaches (p : Q) (xs : list Z) (x : Z) : bool := Qle_bool (p * inject_Z (Z.of_nat (length xs))) (inject_Z (at_most (Some x) xs)).
Definition is_quantile (p : Q) (xs : list Z) (x : Z) : Prop :=
  reaches p xs x = true /\ forall y, y < x -> reaches p xs y = false.

(** The first bound that admits a time. *)
Definition bucket_of (x : Z) : bound := default None (List.find (le_bound x) BUCKETS_MS).

Lemma at_most_all xs : at_most None xs = Z.of_nat (length xs).
Proof. unfold at_most. do 2 f_equal. induction xs as [|x xs IH]; [done|]. cbn. by f_equal. Qed.

Lemma at_most_mono a b xs : (forall x, le_bound x a = true -> le_bound x b = true) -> at_most a xs <= at_most b xs.
Proof.
  intros H. unfold at_most. apply inj_le. induction xs as [|x xs IH]; cbn [List.filter]; [done|].
  destruct (le_bound x a) eqn:Ea; [rewrite (H x Ea); cbn; lia|]. destruct (le_bound x b); cbn; lia.
Qed.

Lemma reach_mono (t : Q) a b : a <= b -> Qle_bool t (inject_Z a) = true -> Qle_bool t (inject_Z b) = true.
Proof. intros Hab H. apply Qle_bool_iff in H. apply Qle_bool_iff. eapply Qle_trans; [exact H|]. by rewrite <- Zle_Qle. Qed.

Lemma find_index {A} (P : A -> bool) l a : List.find P l = Some a ->
  exists i, l !! i = Some a /\ P a = true /\ forall j b, (j < i)%nat -> l !! j = Some b -> P b = false.
Proof.
  induction l as [|x l IH]; [done|]. cbn [List.find]. destruct (P x) eqn:Ex.
  - intros [= <-]. exists 0%nat. split; [done|]. split; [done|]. lia.
  - intros (i & Hi & Ha & Hb)%IH. exists (S i). split; [done|]. split; [done|]. intros [|j] b Hj; [by intros [= <-]|].
    intros Hl. apply (Hb j b); [lia|done].
Qed.

(** The percentile the harness prints over all its workers is the bound of the
    bucket the true quantile of all samples falls in: an upper bound, and the
    tightest one the buckets allow. *)
Theorem percentile_exact (reports : list (list Z)) (p : Q) (x : Z)
    (Hn : concat reports <> []) (Hx : is_quantile p (concat reports) x) :
  histPercentile (fold_left histMerge (observed <$> reports) emptyHist) p = bucket_of x /\ le_bound x (bucket_of x) = true.
Proof.
  set (xs := concat reports) in *. set (h := fold_left _ _ _).
  assert (Hpre : forall i b, BUCKETS_MS !! i = Some b -> prefix h i = at_most b xs) by (intros i b Hi; by apply merged_prefix).
  assert (Hlen : length h = 20%nat) by (by apply (merged_prefix reports 0 (Some 1))).
  assert (Htot : histCount h = Z.of_nat (length xs)).
  { transitivity (prefix h 19); [unfold histCount, prefix; by rewrite take_ge by lia|]. rewrite (Hpre 19%nat None eq_refl).
    apply at_most_all. }
  destruct (List.find (le_bound x) BUCKETS_MS) as [b|] eqn:Ef.
  2: { exfalso. assert (Hlast : None ∈ BUCKETS_MS) by (vm_compute; do 19 right; left). apply list_elem_of_In in Hlast.
       by specialize (List.find_none _ _ Ef None Hlast). }
  assert (Hbx : bucket_of x = b) by (unfold bucket_of; by rewrite Ef). rewrite Hbx.
  apply find_index in Ef as (i & Hi & Hb & Hbelow). split; [|done].
  unfold histPercentile. rewrite Htot. destruct (Z.eqb_spec (Z.of_nat (length xs)) 0) as [E|_]; [destruct xs; [done|cbn in E; lia]|].
  destruct Hx as [Hr Hmin]. apply (percentile_stops _ _ _ _ i); [by rewrite Hlen|done|..].
  - rewrite Z.add_0_l, (Hpre i b Hi). eapply reach_mono; [|exact Hr]. apply at_most_mono. intros y Hy.
    destruct b as [z|]; [|done]. cbn in *. lia.
  - intros j Hj. destruct (lookup_lt_is_Some_2 BUCKETS_MS j) as [b' Hb']; [apply lookup_lt_Some in Hi; lia|].
    rewrite Z.add_0_l, (Hpre j b' Hb'). specialize (Hbelow j b' Hj Hb'). destruct b' as [z|]; [|done].
    apply (Hmin z). cbn in Hbelow. lia.
Qed.

Lemma percentile_exact_witness :
  is_quantile (9 # 10) [7; 40; 3; 9; 250; 12; 8; 90; 4; 31] 90 /\
  histPercentile (fold_left histMerge (observed <$> [[7; 40; 3; 9]; []; [250; 12; 8; 90; 4; 31]]) emptyHist) (9 # 10) = Some 144.
Proof.
  assert (Hq : is_quantile (9 # 10) [7; 40; 3; 9; 250; 12; 8; 90; 4; 31] 90).
  { split; [reflexivity|]. intros y Hy. apply not_true_iff_false. intros Hr. assert (Hle : at_most (Some y) [7; 40; 3; 9; 250; 12; 8; 90; 4; 31] <= 8).
    { etransitivity; [apply (at_most_mono _ (Some 89))|vm_compute; discriminate]. intros x. cbn. lia. }
    apply (reach_mono _ _ 8) in Hr; [|exact Hle]. discriminate Hr. }
  split; [exact Hq|].
  exact (proj1 (percentile_exact [[7; 40; 3; 9]; []; [250; 12; 8; 90; 4; 31]] (9 # 10) 90 ltac:(discriminate) Hq)).
Defined.

(** The scraped routine and the client's agree on the same distribution. *)
Fixpoint cumulate (bs : list bound) (h : list Z) (cum : Z) : list (bound * Z) :=
  match bs, h with
  | b :: bs, c :: h => (b, cum + c) :: cumulate bs h (cum + c)
  | _, _ => []
  end.

Lemma cumulative_percentile bs h target cum : length h = length bs -> bs <> [] -> last bs = Some None ->
  cumulative (cumulate bs h cum) target = Some (percentile bs h target cum).
Proof.
  revert h cum. induction bs as [|b bs IH]; intros h cum Hl Hne Hlast; [done|]. destruct h as [|c h]; [done|].
  injection Hl as Hl. cbn [cumulate cumulative percentile]. destruct (Qle_bool _ _); [done|].
  destruct bs as [|b' bs]; [destruct h; [cbn in Hlast; by injection Hlast as ->|done]|]. destruct h as [|c' h]; [done|].
  rewrite <- (IH (c' :: h) (cum + c)) by done. done.
Qed.

Theorem server_percentile_agrees h p : length h = 20%nat ->
  serverPercentile (cumulate BUCKETS_MS h 0) (histCount h) p = histPercentile h p.
Proof. intros Hl. unfold serverPercentile, histPercentile. case_match; [done|]. by rewrite cumulative_percentile. Qed.

(** ** The live window *)

Lemma recent_window xs : fold_left recent_push xs [] = drop (length xs - RECENT_CAP) xs.
Proof.
  induction xs as [|x xs IH] using rev_ind; [done|]. rewrite fold_left_app, IH. cbn [fold_left]. unfold recent_push.
  rewrite !length_app, length_drop. cbn [length]. destruct (RECENT_CAP <? _)%nat eqn:E.
  - apply Nat.ltb_lt in E. replace (length xs + 1 - RECENT_CAP)%nat with (S (length xs - RECENT_CAP)) by lia.
    rewrite <- (drop_app_le xs [x]) by lia. change (tail ?l) with (drop 1 l). rewrite drop_drop. f_equal. lia.
  - apply Nat.ltb_ge in E. replace (length xs + 1 - RECENT_CAP)%nat with (length xs - RECENT_CAP)%nat by lia.
    by rewrite drop_app_le by lia.
Qed.

(** ** The starvation guard *)

(** The last [n] of a list are high. *)
Definition trailing (P : Z -> bool) (n : nat) (l : list Z) : Prop := exists pre run, l = pre ++ run /\ length run = n /\ Forall (fun x => P x = true) run.
(** Five in a row. *)
Definition starved (P : Z -> bool) (l : list Z) : Prop := exists pre suf, l = pre ++ suf /\ trailing P 5 pre.

Lemma trailing_zero P l : trailing P 0 l.
Proof. exists l, []. split; [by rewrite app_nil_r|done]. Qed.

Lemma trailing_snoc P n l x : trailing P (S n) (l ++ [x]) <-> P x = true /\ trailing P n l.
Proof.
  split.
  - intros (pre & run & E & Hl & Hr). destruct run as [|y run' _] using rev_ind; [done|].
    rewrite app_assoc in E. apply app_inj_tail in E as [-> ->]. rewrite length_app in Hl. cbn in Hl.
    apply Forall_app in Hr as [Hr Hx]. split; [by inversion Hx|]. exists pre, run'. split; [done|]. split; [lia|done].
  - intros [Hx (pre & run & -> & Hl & Hr)]. exists pre, (run ++ [x]). rewrite app_assoc, length_app. cbn.
    split; [done|]. split; [lia|]. apply Forall_app. split; [done|by constructor].
Qed.

Lemma starved_snoc P l x : starved P (l ++ [x]) <-> starved P l \/ trailing P 5 (l ++ [x]).
Proof.
  split.
  - intros (pre & suf & E & Ht). destruct suf as [|y suf _] using rev_ind; [right; by rewrite E, app_nil_r|].
    rewrite app_assoc in E. apply app_inj_tail in E as [-> ->]. left. by exists pre, suf.
  - intros [(pre & suf & -> & Ht)|Ht]; [exists pre, (suf ++ [x]); by rewrite app_assoc|]. exists (l ++ [x]), []. by rewrite app_nil_r.
Qed.

(** The overshoot of each firing of a timer started at [start]. *)
Fixpoint lags (start : Z) (nows : list Z) : list Z :=
  match nows with [] => [] | now :: rest => (now - start - 20) :: lags now rest end.

Lemma lags_snoc start nows now : lags start (nows ++ [now]) = lags start nows ++ [now - default start (last nows) - 20].
Proof.
  revert start. induction nows as [|x nows IH]; intros start; [done|]. cbn [lags app]. rewrite IH, last_cons. cbn [app].
  by destruct (last nows).
Qed.

(** A generator is called suspect exactly when five consecutive firings were late
    by more than the bound. *)
Theorem suspect_iff_starved warn start nows :
  lg_suspect (fold_left (lag_tick warn) nows (mk_lag start 0 0 false)) = true <-> starved (Z.ltb warn) (lags start nows).
Proof.
  set (run := fun nows => fold_left (lag_tick warn) nows (mk_lag start 0 0 false)). fold (run nows).
  enough (H : lg_last (run nows) = default start (last nows) /\
    (forall n, trailing (Z.ltb warn) n (lags start nows) <-> (n <= lg_highStreak (run nows))%nat) /\
    (lg_suspect (run nows) = true <-> starved (Z.ltb warn) (lags start nows))) by apply H.
  induction nows as [|now nows (IHl & IHt & IHs)] using rev_ind.
  - split; [done|]. split.
    + intros [|n]; [split; [lia|intros _; apply trailing_zero]|]. split; [|cbn; lia].
      intros (pre & r & E & Hl & _). destruct pre, r; done.
    + split; [done|]. intros (pre & suf & E & (p & r & -> & Hl & _)). destruct p, r; done.
  - assert (E : run (nows ++ [now]) = lag_tick warn (run nows) now) by (unfold run; by rewrite fold_left_app).
    rewrite E, lags_snoc, last_snoc, starved_snoc. unfold lag_tick. rewrite IHl. cbn [default].
    set (lag := now - default start (last nows) - 20) in *. destruct (warn <? lag) eqn:El; cbn [lg_last lg_highStreak lg_suspect].
    + assert (Ht : forall n, trailing (Z.ltb warn) n (lags start nows ++ [lag]) <-> (n <= S (lg_highStreak (run nows)))%nat).
      { intros [|n]; [split; [lia|intros _; apply trailing_zero]|]. rewrite trailing_snoc, IHt. split; [lia|intros; split; [done|lia]]. }
      split; [done|]. split; [done|]. rewrite orb_true_iff, Nat.leb_le, IHs, <- Ht. done.
    + split; [done|]. split.
      * intros [|n]; [split; [lia|intros _; apply trailing_zero]|]. rewrite trailing_snoc. split; [intros [? _]; congruence|lia].
      * rewrite IHs. split; [by left|]. intros [H|[? _]%trailing_snoc]; [done|congruence].
Qed.

(** ** The split *)

Lemma sum_slices q r n k : foldr Nat.add 0%nat ((fun i => (q + if (i <? r)%nat then 1 else 0)%nat) <$> seq k n) = (n * q + (Nat.min r (k + n) - Nat.min r k))%nat.
Proof.
  revert k. induction n as [|n IH]; intros k; [cbn; lia|].
  rewrite <- cons_seq, fmap_cons. cbn [foldr]. rewrite IH.
  destruct (k <? r)%nat eqn:E; [apply Nat.ltb_lt in E|apply Nat.ltb_ge in E]; lia.
Qed.

(** Every client runs on one worker, and no worker has two more than another. *)
Theorem slices_even CLIENTS WORKERS : (0 < WORKERS)%nat ->
  foldr Nat.add 0%nat (slices CLIENTS WORKERS) = CLIENTS /\ length (slices CLIENTS WORKERS) = WORKERS /\
  forall a b, a ∈ slices CLIENTS WORKERS -> b ∈ slices CLIENTS WORKERS -> (a <= b + 1)%nat.
Proof.
  intros Hw. pose proof (Nat.div_mod CLIENTS WORKERS ltac:(lia)) as Hd. pose proof (Nat.mod_upper_bound CLIENTS WORKERS ltac:(lia)).
  unfold slices. rewrite sum_slices, length_fmap, length_seq. split; [lia|]. split; [done|].
  intros a b (i & -> & _)%list_elem_of_fmap (j & -> & _)%list_elem_of_fmap. repeat case_match; lia.
Qed.

(** ** The knee *)

Lemma knee_scan warn series l b :
  knee warn series l b =
  (match last (List.filter (healthy warn) series) with Some s => Some s | None => l end,
   match b with Some s => Some s | None => head (List.filter (fun s => negb (healthy warn s)) series) end).
Proof.
  revert l b. induction series as [|s series IH]; intros l b; cbn [knee List.filter]; [by destruct b|].
  destruct (healthy warn s) eqn:E; cbn [negb]; rewrite IH.
  - f_equal. rewrite last_cons. by destruct (last _).
  - f_equal. by destruct b.
Qed.

(** "The conservative ceiling" is the last healthy sample, which may come after
    the knee and at more connections than it: a ramp that degrades at 200
    players and recovers while it goes on is reported to carry 300. *)
Theorem ceiling_past_the_knee :
  let at_ t n gap := mk_sample t n n 30 (Some 50) gap 5 false 1 in
  let '(ceiling, bad) := knee 1000 [at_ 5000 100 120; at_ 10000 200 4000; at_ 15000 300 130; at_ 20000 400 6000] None None in
  (wsConn <$> ceiling) = Some 300 /\ (wsConn <$> bad) = Some 200.
Proof. by vm_compute. Qed.

(** ** The ramp *)

Section ramp_safety.
Context (AUTH_CONCURRENCY sliceSize : nat) (perStep : Q).

Record ramp_ok (r : ramp) : Prop := {
  ro_started : (ra_started r <= sliceSize)%nat;
  ro_inFlight : (ra_inFlight r <= AUTH_CONCURRENCY)%nat;
  ro_account : (ra_launched r + ra_authErrors r + ra_inFlight r = ra_started r)%nat;
  ro_done : ra_done r = true -> ra_started r = sliceSize
}.

Lemma release_ok n r : ra_done r = false -> ramp_ok r -> ramp_ok (release AUTH_CONCURRENCY sliceSize n r).
Proof.
  revert r. induction n as [|n IH]; intros r Hd Hr; [done|]. cbn [release]. destruct (_ && _) eqn:E; [|done].
  apply IH; [done|]. rewrite !andb_true_iff, !Nat.ltb_lt in E. destruct E as [[_ ?] ?], Hr. split; cbn; [lia..|congruence].
Qed.

(** One turn per client left to start is enough: the loop has ended by its own
    condition. *)
Lemma release_complete r : let r' := release AUTH_CONCURRENCY sliceSize (sliceSize - ra_started r) r in
  Qle_bool 1 (ra_credit r') && (ra_started r' <? sliceSize)%nat && (ra_inFlight r' <? AUTH_CONCURRENCY)%nat = false.
Proof.
  cbv zeta. remember (sliceSize - ra_started r)%nat as n eqn:En. revert r En. induction n as [|n IH]; intros r En; cbn [release].
  - destruct (Nat.ltb_spec (ra_started r) sliceSize); [lia|]. by rewrite andb_false_r.
  - destruct (Qle_bool 1 (ra_credit r) && (ra_started r <? sliceSize)%nat && (ra_inFlight r <? AUTH_CONCURRENCY)%nat) eqn:E; [|exact E].
    apply IH. cbn. lia.
Qed.

(** However the authentications interleave with the timer: the ramp never has
    more of them under way than allowed, loses none, and when it says it is done
    it has started every client. *)
Theorem ramp_safe r : rtc (ramp_step AUTH_CONCURRENCY sliceSize perStep) ramp_start r -> ramp_ok r.
Proof.
  intros H. assert (H0 : ramp_ok ramp_start) by (split; cbn; lia || done). revert H0. induction H as [r|r r1 r2 Hs _ IH]; [done|].
  intros Hr. apply IH. clear IH. destruct Hs as [Hd Hle|Hd Hlt|n Hn|n Hn].
  - destruct Hr. split; cbn; lia.
  - apply release_ok; [done|]. destruct Hr. split; cbn; [done..|congruence].
  - destruct Hr. split; cbn; [lia..|done].
  - destruct Hr. split; cbn; [lia..|done].
Qed.
End ramp_safety.

Lemma ramp_safe_witness : rtc (ramp_step 1 2 (3 # 2)) ramp_start (mk_ramp (1 # 2) 1 0 1 0 false) /\
  ramp_ok 1 2 (mk_ramp (1 # 2) 1 0 1 0 false).
Proof.
  assert (H : rtc (ramp_step 1 2 (3 # 2)) ramp_start (mk_ramp (1 # 2) 1 0 1 0 false)).
  { eapply rtc_l; [apply ramp_fire; [reflexivity|cbn; lia]|]. eapply rtc_l; [eapply ramp_token; reflexivity|]. apply rtc_refl. }
  split; [exact H|]. exact (ramp_safe 1 2 (3 # 2) _ H).
Defined.

(** ** The players' accounts *)

Lemma observe_count bs h ms : bs <> [] -> length h = length bs -> histCount (observe bs h ms) = histCount h + 1.
Proof.
  unfold histCount. revert h. induction bs as [|b bs IH]; intros h Hne Hl; [done|]. destruct h as [|c h]; [done|]. injection Hl as Hl.
  destruct bs as [|b' bs]; [destruct h; [cbn; unfold id; lia|done]|]. rewrite observe_cons. destruct (le_bound ms b).
  - cbn [sumZ]. unfold id at 1 3. lia.
  - cbn [sumZ]. rewrite IH by done. cbn [sumZ]. lia.
Qed.

(** What a worker's numbers have to do with each other: every answered bet was
    timed and every refusal has its reason; a bust is timed at most once, a gap
    has its tick. *)
Record accounts (k : worker) : Prop := {
  ac_hists : length (k_place k) = 20%nat /\ length (k_cash k) = 20%nat /\ length (k_busted k) = 20%nat /\ length (k_tickGapHist k) = 20%nat;
  ac_place : histCount (k_place k) = betAccepted (k_counts k) + betRejected (k_counts k);
  ac_reasons : sum_map id (k_rejectReasons k) = betRejected (k_counts k);
  ac_busted : histCount (k_busted k) <= n_busted (k_counts k);
  ac_gaps : histCount (k_tickGapHist k) <= ticks (k_counts k);
  ac_refused : cashoutRejected (k_counts k) <= histCount (k_cash k)
}.

Lemma new_accounts : accounts new_worker.
Proof. split; vm_compute; try done; by split_and!. Qed.

Lemma sum_reasons (m : gmap string Z) reason : sum_map id (<[ reason := default 0 (m !! reason) + 1 ]> m) = sum_map id m + 1.
Proof.
  destruct (m !! reason) as [n|] eqn:E; cbn [default].
  - rewrite (sum_map_update id m reason n _ E). change (id n) with n. change (id (n + 1)) with (n + 1). lia.
  - rewrite (sum_map_insert id m reason _ E). change (id (0 + 1)) with 1. lia.
Qed.

Lemma hist_step (h : list Z) ms : length h = 20%nat -> length (histObserve h ms) = 20%nat /\ histCount (histObserve h ms) = histCount h + 1.
Proof. intros Hl. unfold histObserve. rewrite observe_length, observe_count by done. done. Qed.

#[local] Arguments histObserve : simpl never.
#[local] Arguments histCount : simpl never.
#[local] Arguments recent_push : simpl never.

Lemma receive_accounts cfg stop m c k : accounts k -> accounts (receive cfg stop m c k).1.2.
Proof.
  intros [(L1 & L2 & L3 & L4) Hp Hr Hb Hg Hc].
  pose proof (fun ms => hist_step _ ms L1) as P1. pose proof (fun ms => hist_step _ ms L2) as P2.
  pose proof (fun ms => hist_step _ ms L3) as P3. pose proof (fun ms => hist_step _ ms L4) as P4.
  destruct m as [| | | r dt [[[|] o]|] | r x now | dt [[|]|] | | | now]; cbn [receive fst snd]; repeat case_match;
    (split; cbn; rewrite ?sum_reasons, ?(proj1 (P1 _)), ?(proj1 (P2 _)), ?(proj1 (P3 _)), ?(proj1 (P4 _)),
      ?(proj2 (P1 _)), ?(proj2 (P2 _)), ?(proj2 (P3 _)), ?(proj2 (P4 _)); [done|lia..]).
Qed.

(** The rounds a player asked to bet on, in order. *)
Definition asked (i : nat) (sent : list (nat * outbound)) : list uuid :=
  omap (fun s => match s with (j, PlaceBet r _ _) => if Nat.eqb i j then Some r else None | _ => None end) sent.
(** No two neighbours are the same. *)
Fixpoint changing (l : list uuid) : Prop :=
  match l with a :: ((b :: _) as l') => a <> b /\ changing l' | _ => True end.

Lemma changing_snoc l r : changing l -> last l <> Some r -> changing (l ++ [r]).
Proof.
  induction l as [|a l IH]; [done|]. destruct l as [|b l]; [cbn; intros _ H; split; [congruence|done]|].
  intros [Hab Hc] Hl. split; [done|]. apply (IH Hc). by rewrite last_cons_cons in Hl.
Qed.

Lemma asked_app i a b : asked i (a ++ b) = asked i a ++ asked i b.
Proof. apply omap_app. Qed.

Lemma asked_out i j out : asked i ((j,.) <$> out) =
  if Nat.eqb i j then omap (fun o => match o with PlaceBet r _ _ => Some r | CashOut => None end) out else [].
Proof.
  unfold asked. induction out as [|o out IH]; [by destruct (Nat.eqb i j)|]. cbn. rewrite IH.
  destruct o; by destruct (Nat.eqb i j).
Qed.

(** A message makes a player ask at most once, and not for the round it asked last. *)
Lemma receive_asks cfg stop m c k :
  let '(c', _, out) := receive cfg stop m c k in
  let rs := omap (fun o => match o with PlaceBet r _ _ => Some r | CashOut => None end) out in
  (rs = [] /\ lastBetRound c' = lastBetRound c) \/ exists r, rs = [r] /\ lastBetRound c' = Some r /\ lastBetRound c <> Some r.
Proof.
  destruct m as [| |ph r| r dt [[[|] o]|] | r x now | dt [[|]|] | |r now| now]; cbn [receive]; try (left; done).
  - destruct stop; [by left|]. destruct (_ && _) eqn:E; [|by left]. right. exists r. split; [done|]. split; [done|].
    apply andb_true_iff in E as [_ E]. apply negb_true_iff in E. intros Hl. rewrite Hl in E. unfold opt_eqb in E.
    by rewrite bool_decide_eq_true_2 in E.
  - left. by case_match.
  - left. by case_match.
Qed.

(** Whatever reaches the sockets and in whatever order: the accounts of a worker
    agree with each other, and no player asks twice in a row to bet on one round. *)
Theorem harness_accounts cfg ms :
  let '(players, k, sent) := play cfg ms in accounts k /\ forall i, changing (asked i sent).
Proof.
  unfold play.
  enough (H : let '(players, k, sent) := fold_left (deliver cfg) ms (∅, new_worker, []) in
    accounts k /\ forall i, changing (asked i sent) /\ last (asked i sent) = lastBetRound (default new_player (players !! i))).
  { destruct (fold_left _ _ _) as [[players k] sent]. destruct H as [Ha H]. split; [done|]. intros i. apply H. }
  induction ms as [|[[j stop] m] ms IH] using rev_ind.
  { cbn. split; [apply new_accounts|]. intros i. by rewrite lookup_empty. }
  rewrite fold_left_app. destruct (fold_left _ ms _) as [[players k] sent]. cbn [fold_left deliver].
  destruct IH as [Ha Hi]. set (c := default new_player (players !! j)).
  pose proof (receive_accounts cfg stop m c k Ha) as Ha'. pose proof (receive_asks cfg stop m c k) as Hs.
  destruct (receive cfg stop m c k) as [[c' k'] out]. split; [done|]. intros i. rewrite asked_app, asked_out.
  destruct (Nat.eqb_spec i j) as [->|Hne].
  - rewrite lookup_insert_eq. change (default new_player (Some c')) with c'. destruct (Hi j) as [Hc Hl]. fold c in Hl.
    destruct Hs as [[-> Hlast]|(r & -> & Hlast & Hnew)].
    + rewrite app_nil_r, Hlast. done.
    + rewrite last_snoc, Hlast. split; [|done]. apply changing_snoc; [done|]. by rewrite Hl.
  - rewrite lookup_insert_ne by done. rewrite app_nil_r. apply Hi.
Qed.
End Load.
