(* ===== verification/OperatorApi.v ===== *)
(** * The operators' HTTP surface

    The controllers an operator's server calls, behind their guards:
    [operator/reporting.controller.ts], [operator/audit-events.controller.ts],
    [operator/operator-sessions.controller.ts], [game/operator-bets.controller.ts],
    [privacy/operator-erasure.controller.ts]; the rate limits of
    [operator/operator-throttler.guard.ts], [common/ip-throttler.guard.ts],
    [auth/auth.controller.ts] and [app.module.ts]; and the answer an exception
    becomes ([observability/all-exceptions.filter.ts]).
    The limiter's counters belong to the framework: whether a request is within
    its budget is a parameter ([Throttler]).  A handler is the service of another
    file behind the decoding of its input.
    Proved: without a write key nothing is written; what a refused request
    learns; what a void's reason can contain; the budgets. *)

From Stdlib Require Import QArith.
From S2P Require Import Prelude Effects Js Dates Money Schema Wallet Ledger Keys AuditLog ReportQuery Launch Sessions Reporting DataErasure OperatorAuth Bets.

Open Scope Z_scope.

#[local] Set Warnings "-clear-no-such-hyp".

(** ** Rate limits *)

(** What the framework's limiter is asked for one request. *)
Record throttle_request := mk_throttle {
  th_tracker : string; th_scope : string; th_limit : jsnum; th_ttl : jsnum
}.

(** The framework's guard: it counts the request, or refuses it. *)
Class Throttler := throttle : throttle_request -> prog world bool.
Class ThrottlerLaws `{Throttler} : Prop := throttle_pure r : steps_in tables_eq (throttle r).

Module Throttle.
(** [Number.isFinite(n) && n >= 1 ? Math.floor(n) : dflt] *)
Definition numEnv (v : option string) (dflt : Z) : Z :=
  let n := js_Number_opt v in
  if js_isFinite n && js_ge n 1 then match n with Fin q => Qfloor_Z q | _ => dflt end else dflt.

Section limits.
Context (process_env : Risk.env).

Definition GUEST_THROTTLE_TTL_MS : Z := numEnv (process_env "GUEST_THROTTLE_TTL_MS") 60000.
Definition GUEST_THROTTLE_LIMIT : Z := numEnv (process_env "GUEST_THROTTLE_LIMIT") 5.
Definition READ_TTL_MS : Z := numEnv (process_env "OPERATOR_READ_THROTTLE_TTL_MS") 60000.
Definition READ_LIMIT : Z := numEnv (process_env "OPERATOR_READ_THROTTLE_LIMIT") 600.
Definition WRITE_TTL_MS : Z := numEnv (process_env "OPERATOR_WRITE_THROTTLE_TTL_MS") 60000.
Definition WRITE_LIMIT : Z := numEnv (process_env "OPERATOR_WRITE_THROTTLE_LIMIT") 60.

(** [Number(process.env.THROTTLE_LIMIT ?? 120)] *)
Definition global_ttl : jsnum := match process_env "THROTTLE_TTL_MS" with Some v => js_Number v | None => js_int 60000 end.
Definition global_limit : jsnum := match process_env "THROTTLE_LIMIT" with Some v => js_Number v | None => js_int 120 end.

(** Which bucket a request counts in. *)
Definition ip_tracker (req : request) : string := extractClientIp req.
Definition getTracker (operatorId : option uuid) (req : request) : string :=
  match operatorId with
  | Some id => ("op:" +:+ Keys.uuid_string id)%string
  | None => ("ip:" +:+ extractClientIp req)%string
  end.

(** The framework's key, with the scope appended. *)
Definition scoped_key (key scope : string) : string := (key +:+ String ":" scope)%string.

Context `{Throttler}.

Definition within_budget (r : throttle_request) : prog world unit :=
  ok ← throttle r; if ok : bool then mret tt else raise TooManyRequests.

Definition ipThrottle (req : request) : prog world unit :=
  within_budget (mk_throttle (ip_tracker req) "" global_limit global_ttl).

Definition handleRequest (requireWrite : bool) (operatorId : option uuid) (req : request) : prog world unit :=
  within_budget (mk_throttle (getTracker operatorId req) (if requireWrite then "w" else "r")
    (js_int (if requireWrite then WRITE_LIMIT else READ_LIMIT)) (js_int (if requireWrite then WRITE_TTL_MS else READ_TTL_MS))).
End limits.

(** ** Budgets *)

Lemma numEnv_pos v dflt : 1 <= dflt -> 1 <= numEnv v dflt.
Proof.
  intros Hd. unfold numEnv. destruct (js_Number_opt v) as [| |q]; [done..|].
  destruct (js_isFinite (Fin q) && js_ge (Fin q) 1) eqn:E; [|done]. apply andb_true_iff in E as [_ Hq].
  cbn in Hq. apply Z.leb_le in Hq. unfold Qfloor_Z.
  apply Z.div_le_lower_bound; lia.
Qed.

Lemma scoped_keys_differ k k' : scoped_key k "r" <> scoped_key k' "w".
Proof.
  assert (Hcons : forall c a z, (String c a +:+ z)%string = String c (a +:+ z)%string) by done.
  assert (Hnil : forall z, (EmptyString +:+ z)%string = z) by done.
  assert (Hlast : forall a b x y, (a +:+ String ":" (String x EmptyString) = b +:+ String ":" (String y EmptyString))%string -> x = y).
  { induction a as [|c a IH]; intros b x y H; destruct b as [|d b]; rewrite ?Hcons, ?Hnil in H.
    - by injection H.
    - injection H as _ H. destruct b as [|? [|? ?]]; rewrite ?Hcons, ?Hnil in H; discriminate H.
    - injection H as _ H. destruct a as [|? [|? ?]]; rewrite ?Hcons, ?Hnil in H; discriminate H.
    - injection H as _ H. by eapply IH. }
  intros H. by apply Hlast in H.
Qed.

(** No environment turns a budget off, and no two callers share one: a limit and
    a window are at least 1 whatever the variables say, two operators count in
    different buckets, an operator never counts in an address's, and the reads of
    a bucket never count as its writes. *)
Theorem budgets_sane (e : Risk.env) :
  (1 <= GUEST_THROTTLE_TTL_MS e /\ 1 <= GUEST_THROTTLE_LIMIT e /\ 1 <= READ_TTL_MS e /\ 1 <= READ_LIMIT e /\
   1 <= WRITE_TTL_MS e /\ 1 <= WRITE_LIMIT e) /\
  (forall a b req req', Keys.uuid_ok a -> Keys.uuid_ok b -> getTracker (Some a) req = getTracker (Some b) req' -> a = b) /\
  (forall a req req', getTracker (Some a) req <> getTracker None req') /\
  (forall k k', scoped_key k "r" <> scoped_key k' "w").
Proof.
  split; [split_and!; by apply numEnv_pos|]. split; [|split].
  - intros a b req req' Ha Hb H. apply (inj (String.append "op:")) in H. by apply Keys.uuid_inj.
  - done.
  - apply scoped_keys_differ.
Qed.

(** The framework refuses a request when its hits exceed the limit.  The global
    limit is read without the check the others have, so a typing error turns it
    off. *)
Theorem global_limit_fails_open :
  let e := fun _ : string => Some "12O"%string in
  global_limit e = NaN /\ (forall hits, js_lt (global_limit e) hits = false) /\ WRITE_LIMIT e = 60.
Proof. by split_and!. Qed.
End Throttle.

(** ** Errors as answers *)

Module Exceptions.
(** [exception instanceof HttpException ? exception.getStatus() : 500] *)
Definition http_status (e : exn) : Z :=
  match e with
  | BadRequest _ => 400 | Unauthorized _ => 401 | Forbidden _ => 403 | NotFound _ => 404
  | Conflict _ => 409 | TooManyRequests => 429 | _ => 500
  end.

Definition payload (e : exn) : string :=
  match e with
  | BadRequest m | Unauthorized m | Forbidden m | NotFound m | Conflict m => m
  | TooManyRequests => "ThrottlerException: Too Many Requests"
  | _ => "Internal server error"
  end.

(** Reported to the error tracker and logged. *)
Definition reported (e : exn) : bool := 500 <=? http_status e.
End Exceptions.

(** ** The controllers *)

Module OperatorApi.
Import Reporting ReportQuery.

(** [z.string().min(lo).max(hi)] and its [.optional()] *)
Definition z_string (lo hi : nat) (v : option json) : option string :=
  match v with
  | Some (JStr s) => if (lo <=? String.length s)%nat && (String.length s <=? hi)%nat then Some s else None
  | _ => None
  end.
Definition z_optional (lo hi : nat) (v : option json) : option (option string) :=
  match v with None => Some None | v => Some <$> z_string lo hi v end.

(** [{ playerId, currency? }] *)
Definition revokeSchema (body : option json) : option (string * option string) :=
  match body with
  | Some (JObj o) =>
      playerId ← z_string 1 256 (assoc_last "playerId" o);
      currency ← z_optional 1 16 (assoc_last "currency" o);
      Some (playerId, currency)
  | _ => None
  end.

(** [eraseSchema.safeParse(body ?? {})]: [{ currency?, reason? }] *)
Definition eraseSchema (body : option json) : option (option string * option string) :=
  match body with
  | None | Some JNull => Some (None, None)
  | Some (JObj o) =>
      currency ← z_optional 1 16 (assoc_last "currency" o);
      reason ← z_optional 0 500 (assoc_last "reason" o);
      Some (currency, reason)
  | _ => None
  end.

(** [code < 0x20 || code === 0x7f ? " " : ch] *)
Definition blank_control (a : ascii) : ascii := if (code a <? 32) || (code a =? 127) then " "%char else a.

(** [.replace(/\s+/g, " ")]; [after] says that the last character was blank. *)
Fixpoint collapse (after : bool) (s : string) : string :=
  match s with
  | EmptyString => EmptyString
  | String a s =>
      if is_space a then (if after then collapse true s else String " " (collapse true s))
      else String a (collapse false s)
  end.

Definition readReason (body : option json) : option string :=
  match body with
  | Some (JObj o) =>
      match assoc_last "reason" o with
      | Some (JStr r) =>
          let cleaned := trim (collapse false (string_map blank_control r)) in
          if nonempty cleaned then Some (slice_to 500 cleaned) else None
      | _ => None
      end
  | _ => None
  end.

(** The reason of a void, as it reaches the log and the audit: at most 500
    characters, none of them a control character of ASCII. *)
Definition printable (a : ascii) : bool := (32 <=? code a) && negb (code a =? 127).

Lemma blank_printable s : all_chars printable (string_map blank_control s) = true.
Proof.
  induction s as [|a s IH]; [done|]. cbn. rewrite IH, andb_true_r. unfold blank_control, printable.
  destruct ((code a <? 32) || (code a =? 127)) eqn:E; [done|]. apply orb_false_iff in E as [E1 E2].
  rewrite E2. apply Z.ltb_ge, Z.leb_le in E1. by rewrite E1.
Qed.

Lemma collapse_printable b s : all_chars printable s = true -> all_chars printable (collapse b s) = true.
Proof.
  revert b. induction s as [|a s IH]; intros b; [done|]. cbn. intros [Ha Hs]%andb_true_iff.
  destruct (is_space a); [destruct b|]; cbn; rewrite ?Ha, IH by done; done.
Qed.

Theorem reason_is_clean body r : readReason body = Some r ->
  nonempty r = true /\ (String.length r <= 500)%nat /\ all_chars printable r = true.
Proof.
  unfold readReason. destruct body as [[| | | | |o]|]; try done. destruct (assoc_last "reason" o) as [[| | |x| |]|]; try done.
  cbv zeta. pose proof (all_chars_trim printable _ (collapse_printable false _ (blank_printable x))) as Hp.
  revert Hp. generalize (trim (collapse false (string_map blank_control x))) as t. intros t Hp.
  destruct (nonempty t) eqn:En; [|done]. intros E. assert (r = slice_to 500 t) as -> by congruence. split; [by destruct t|].
  split; [apply slice_to_short|]. by apply all_chars_slice.
Qed.

Lemma reason_is_clean_witness :
  let body := Some (JObj [("reason"%string, JStr ("player" +:+ String (ascii_of_nat 10) (String (ascii_of_nat 27) "[31m request")))]) in
  readReason body = Some "player [31m request"%string /\ all_chars printable "player [31m request" = true.
Proof. split; [reflexivity|]. by eapply (reason_is_clean (Some (JObj [("reason"%string, JStr ("player" +:+ String (ascii_of_nat 10) (String (ascii_of_nat 27) "[31m request")))]))). Defined.

(** The control characters above ASCII are kept, and one of them (155) starts the
    same terminal sequences as the two characters that are dropped. *)
Theorem c1_controls_survive :
  let csi := String (ascii_of_nat 155) "2J" in
  readReason (Some (JObj [("reason"%string, JStr csi)])) = Some csi.
Proof. reflexivity. Qed.

Inductive answer :=
| ASummary (r : SummaryResponse)
| ADaily (r : DailyResponse)
| ABets (r : BetsResponse)
| ATransaction (r : TransactionStatusResponse)
| AAudit (count : Z) (rows : list EventRow)
| ARevoked (revoked wallets : Z)
| AVoided (r : VoidResult)
| AErased (playerId : string) (r : AnonymizePlayerResult).

(** The endpoints with their input: a query string, path parameters, a body. *)
Inductive route :=
| GetSummary (query : raw_query)
| GetDaily (query : raw_query)
| GetBets (query : raw_query)
| GetTransaction (query : raw_query)
| GetAuditEvents (query : raw_query)
| PostRevoke (body : option json)
| PostVoid (betId : string) (body : option json)
| PostErase (playerId : string) (body : option json).

(** [@RequireWriteScope()] *)
Definition requireWrite (r : route) : bool :=
  match r with PostRevoke _ | PostVoid _ _ | PostErase _ _ => true | _ => false end.

Section controllers.
Context `{UuidColumn} `{Collation} `{Throttler}.
Context (sha256 : string -> string) (hmac256 : string -> string -> string) (process_env : Risk.env).
Context (stringify_length : json -> Z) (Decimal_toString : Z -> string) (implementation : string -> option Z).
Context (W : WalletProvider).

Definition parsed {A} (x : string + A) : prog world A :=
  match x with inr a => mret a | inl m => raise (BadRequest m) end.

Definition void_ (operatorId : uuid) (betId : string) (body : option json) : prog world VoidResult :=
  if negb (Keys.isUuid betId) then raise (BadRequest "invalid betId")
  else match uuid_column betId with
       | Some id => Bets.voidBet W stringify_length operatorId id (readReason body)
       | None => raise (JsError "Inconsistent column data")
       end.

Definition revoke (operatorId : uuid) (body : option json) : prog world (Z * Z) :=
  match revokeSchema body with
  | None => raise (BadRequest "invalid_body")
  | Some (playerId, currency) =>
      GameSession.revokeForOperatorPlayer stringify_length Dates.toISOString (Keys.uuid_string operatorId) playerId currency
  end.

Definition erase (operatorId : uuid) (playerId : string) (body : option json) : prog world AnonymizePlayerResult :=
  if (String.length playerId <? 1)%nat || (256 <? String.length playerId)%nat then raise (BadRequest "invalid_player_id")
  else match eraseSchema body with
       | None => raise (BadRequest "invalid_body")
       | Some (currency, reason) =>
           result ← DataErasure.anonymizePlayer hmac256 stringify_length Dates.toISOString process_env
             (mk_erasure (Keys.uuid_string operatorId) playerId currency ("operator:" +:+ Keys.uuid_string operatorId)%string reason);
           if usersAffected result =? 0 then raise (NotFound "player_not_found") else mret result
       end.

(** The handler of a route, for the operator the guard resolved. *)
Definition handle (operatorId : uuid) (r : route) : prog world answer :=
  match r with
  | GetSummary q => q ← parsed (parseReportQuery implementation q); a ← summary operatorId q; mret (ASummary a)
  | GetDaily q => q ← parsed (parseDailyQuery implementation q); a ← daily operatorId q; mret (ADaily a)
  | GetBets q => q ← parsed (parseBetsQuery implementation q); a ← bets Decimal_toString operatorId q; mret (ABets a)
  | GetTransaction q => q ← parsed (Keys.parseTransactionQuery q);
                        a ← transactionStatus Decimal_toString operatorId q; mret (ATransaction a)
  | GetAuditEvents q => q ← parsed (parseAuditQuery implementation q); a ← auditEvents operatorId q; mret (AAudit a.1 a.2)
  | PostRevoke body => a ← revoke operatorId body; mret (ARevoked a.1 a.2)
  | PostVoid betId body => a ← void_ operatorId betId body; mret (AVoided a)
  | PostErase playerId body => a ← erase operatorId playerId body; mret (AErased playerId a)
  end.

(** A request: the global guard, the key, the operator's budget, the handler. *)
Definition serve (req : request) (r : route) : prog world answer :=
  _ ← Throttle.ipThrottle process_env req;
  operatorId ← Guard.canActivate sha256 hmac256 process_env (requireWrite r) req;
  _ ← Throttle.handleRequest process_env (requireWrite r) (Some operatorId) req;
  handle operatorId r.

(** *** Erasing nobody *)

(** A player the operator does not have is not found, and nothing changes: of
    another operator or of nobody, the answer is the same. *)
Lemma unknown_player_not_found op playerId body w :
  w_faults w = [] -> uuid_column (Keys.uuid_string op) = Some op ->
  (1 <= String.length playerId <= 256)%nat -> is_Some (eraseSchema body) ->
  DataErasure.resolved hmac256 process_env (Keys.uuid_string op) playerId op w = [] ->
  run (erase op playerId body) w = (Raise (NotFound "player_not_found"), w).
Proof using Type.
  intros Hf Hc Hl [[c r] Hb] Hnone. unfold erase.
  rewrite (proj2 (Nat.ltb_ge _ _)), (proj2 (Nat.ltb_ge _ _)), Hb by lia. cbn [orb].
  rewrite run_bind. unfold DataErasure.anonymizePlayer. rewrite run_bind. cbn [e_operatorId e_playerId].
  by rewrite (DataErasure.run_resolve _ _ _ _ op), Hnone by done.
Qed.

Lemma erased_somebody op playerId body w r w' :
  run (erase op playerId body) w = (Ok r, w') -> usersAffected r <> 0.
Proof using Type.
  unfold erase. destruct (_ || _); [done|]. destruct (eraseSchema body) as [[c rs]|]; [|done].
  intros (res & w1 & _ & E)%run_bind_ok. destruct (Z.eqb_spec (usersAffected res) 0); [done|].
  rewrite run_ret in E. by injection E as <- _.
Qed.

(** ** What a key can do *)

Context (HT : ThrottlerLaws).

Lemma throttle_reads r : steps_in tables_eq (Throttle.within_budget r).
Proof using HT. unfold Throttle.within_budget. apply steps_bind; [apply throttle_pure|]. intros []; steps. Qed.

Lemma reads_parsed {A} (x : string + A) : steps_in tables_eq (parsed x).
Proof using Type. unfold parsed. steps. Qed.
Lemma reads_db {A} (f : world -> res A * world) : (forall w, (f w).2 = w) -> steps_in tables_eq (db f).
Proof using Type. intros Hf. apply steps_db; [apply _|]. intros w. by rewrite Hf. Qed.

Lemma reads_text id : steps_in tables_eq (bet_findUnique_text id).
Proof using Type. unfold bet_findUnique_text. apply reads_db. intros w. by repeat case_match. Qed.
#[local] Hint Resolve reads_parsed reads_text : vr_steps.

Lemma reads_transaction q : steps_in tables_eq (find_transaction q).
Proof using Type. unfold find_transaction. destruct q; first [apply reads_text | apply reads_db; intros w; by repeat case_match]. Qed.
#[local] Hint Resolve reads_transaction : vr_steps.

(** The handlers a read key opens only read. *)
Lemma read_handlers operatorId r : requireWrite r = false -> steps_in tables_eq (handle operatorId r).
Proof using Type.
  destruct r; cbn [requireWrite handle]; try discriminate; intros _;
    unfold summary, daily, bets, check_cursor, transactionStatus, auditEvents; steps.
Qed.

(** C17: A read key never writes.  Whatever the route, the request and the
    failures: unless the request carries a key that matches the operator's write
    hash, every table is left as it was, and a route that moves money, ends
    sessions or erases a player answers with an error. *)
Theorem read_keys_never_write (req : request) (r : route) (w : world)
    (Hkey : forall n, ~ Guard.authorized sha256 hmac256 process_env true req w n) :
  tables_eq w (run (serve req r) w).2 /\
  (requireWrite r = true -> exists e, (run (serve req r) w).1 = Raise e).
Proof using HT.
  unfold serve. rewrite run_bind.
  pose proof (run_steps_in _ _ w (throttle_reads (mk_throttle (Throttle.ip_tracker req) "" (Throttle.global_limit process_env) (Throttle.global_ttl process_env)))) as T0.
  change (Throttle.within_budget _) with (Throttle.ipThrottle process_env req) in T0.
  destruct (run (Throttle.ipThrottle process_env req) w) as [[[]|e] w0]; [|by eauto]. cbn [snd] in T0. rewrite run_bind.
  pose proof (run_steps_in _ _ w0 (Guard.canActivate_reads sha256 hmac256 process_env (requireWrite r) req)) as T1.
  destruct (run (Guard.canActivate _ _ _ _ req) w0) as [[n|e] w1] eqn:Eg; cbn [snd] in T1.
  2: { split; [by etrans|by eauto]. }
  destruct (requireWrite r) eqn:Ew.
  { exfalso. apply Guard.canActivate_sound in Eg. apply (Hkey n). unfold Guard.authorized in *.
    unfold tables_eq in T0. destruct_and!. by match goal with E : w_operators w0 = _ |- _ => rewrite <- E end. }
  split; [|done]. etrans; [exact T0|]. etrans; [exact T1|]. apply (run_steps_in tables_eq (_ ← _; _)).
  apply steps_bind; [apply throttle_reads|]. intros []. by apply read_handlers.
Qed.
End controllers.


(** *** A concrete operator *)

#[local] Instance unlimited : Throttler := fun _ => mret true.
Lemma unlimited_laws : ThrottlerLaws.
Proof. intros r. apply steps_ret. Qed.
#[local] Existing Instance two_operators.
#[local] Instance no_collation : Collation := fun _ _ => 0.

Definition keyed_operator : operator :=
  mk_operator true true "launch" ["USD"%string] None [] None None (Some "sha256:readsecret"%string) (Some "sha256:writesecret"%string) "casino" "Casino" None None.
Definition api_world : world := set_operators {[ 7%N := keyed_operator ]} empty_world.
Definition bearing (token : string) : request :=
  mk_request (fun h => if eqb_str h "authorization" then Some (One ("Bearer " +:+ token)%string) else None) (Some "10.0.0.1"%string) None.
Definition read_key : string := ("vrk_" +:+ Keys.uuid_string 7 +:+ ".readsecret")%string.
Definition ask_api (token : string) (r : route) : prog world answer :=
  serve (fun s => s) (fun s _ => s) (fun _ => None) (fun _ => 0) (fun _ => "x"%string) (fun _ => None) Ledger.LedgerService (bearing token) r.

(** The read key opens a report, and erases nobody. *)
Lemma read_keys_never_write_witness :
  (exists n rows, (run (ask_api read_key (GetAuditEvents [])) api_world).1 = Ok (AAudit n rows)) /\
  tables_eq api_world (run (ask_api read_key (PostErase "alice" None)) api_world).2 /\
  exists e, (run (ask_api read_key (PostErase "alice" None)) api_world).1 = Raise e.
Proof.
  split; [exists 0, []; vm_compute; reflexivity|].
  destruct (read_keys_never_write (fun s => s) (fun s _ => s) (fun _ => None) (fun _ => 0) (fun _ => "x"%string) (fun _ => None)
    Ledger.LedgerService unlimited_laws (bearing read_key) (PostErase "alice" None) api_world) as [Ht He].
  - intros n (p & o & h & Hp & Hn & Ho & Hh & Hv & _). vm_compute in Hp. injection Hp as <-.
    vm_compute in Hn. injection Hn as <-. vm_compute in Ho. injection Ho as <-. vm_compute in Hh. injection Hh as <-.
    vm_compute in Hv. discriminate Hv.
  - split; [exact Ht|]. by apply He.
Defined.
End OperatorApi.
