(* ===== verification/PublicApi.v ===== *)
(** * The public reads

    What anyone may ask: the rounds, the leaderboard, the currencies and the
    fairness data ([game/rounds.controller.ts],
    [leaderboard/leaderboard.controller.ts], [common/currency.controller.ts],
    [fairness/fairness.controller.ts]).
    Proved: no answer depends on a seed that is not revealed, nor on the crash
    point of a round that is not over. *)

From Stdlib Require Import QArith.
From S2P Require Import Prelude Effects Js Money Schema Keys Crash AuditLog Launch Fairness.

Open Scope Z_scope.

#[local] Set Warnings "-clear-no-such-hyp".

Module PublicApi.
(** ** The rounds *)

Definition FINISHED : list phase := [Crashed; Settling; Completed].

Definition current {Snapshot} (getPublicState : prog world (option Snapshot)) : prog world (Snapshot + phase * Z) :=
  s ← getPublicState; mret (match s with Some s => inl s | None => inr (Waiting, 100) end).

Definition newer_round (a b : round) : Prop := r_createdAt b <= r_createdAt a.
#[export] Instance newer_round_dec a b : Decision (newer_round a b).
Proof. unfold newer_round. apply _. Defined.

(** [{ id, crashMult, endedAt }] *)
Definition rounds_history : prog world (list (uuid * Z * Z)) :=
  rows ← db_get (fun w => take 30 (merge_sort newer_round
           (List.filter (fun r => bool_decide (r_status r ∈ FINISHED)) (map_to_list (w_rounds w)).*2)));
  mret (List.map (fun r => (r_id r, r_crashPoint r, r_createdAt r)) rows).

(** ** The leaderboard *)

(** [Math.min(Math.max(Number(limit) || 25, 1), 100)] *)
Definition leaderboard_take (limit : option json) : jsnum :=
  match match limit with Some v => json_Number v | None => NaN end with
  | NaN => js_int 25
  | Infinite negative => if negative : bool then js_int 1 else js_int 100
  | Fin q => if Qeq_bool q 0 then js_int 25
             else if Qle_bool q 1 then js_int 1 else if Qle_bool 100 q then js_int 100 else Fin q
  end.

Definition more_wanted (a b : uuid * profile) : Prop :=
  p_biggestMultiplier b.2 < p_biggestMultiplier a.2 \/
  p_biggestMultiplier b.2 = p_biggestMultiplier a.2 /\ p_totalLoot b.2 <= p_totalLoot a.2.
#[export] Instance more_wanted_dec a b : Decision (more_wanted a b).
Proof. unfold more_wanted. apply _. Defined.

(** A [take] that is not a whole number is refused by the client. *)
Definition leaderboard (limit : option json) : prog world (list (uuid * string * Z * Z)) :=
  let take_ := leaderboard_take limit in
  if js_isInteger take_ then
    rows ← db_get (fun w => take (match take_ with Fin q => Z.to_nat (Qfloor_Z q) | _ => 0%nat end)
                              (merge_sort more_wanted (map_to_list (w_profiles w))));
    mret (List.map (fun e => (e.1, p_displayName e.2, p_biggestMultiplier e.2, bigint_to_number (p_totalLoot e.2))) rows)
  else raise (JsError "PrismaClientValidationError").

(** ** Fairness *)

Record revealed_round := mk_revealed {
  rv_roundId : uuid; rv_status : phase; rv_epoch : Z; rv_commitHash : string; rv_saltSource : string;
  rv_targetChain : option string; rv_targetBlock : option Z; rv_seed : string; rv_salt : string; rv_seedHash : string;
  rv_chainIndex : Z; rv_prevSeed : option string; rv_crashPoint : Z; rv_recomputedCrash : Z; rv_matches : bool;
  rv_linkVerified : option bool
}.

Inductive round_answer :=
| Unrevealed (roundId : uuid) (status : phase)
| Revealed (r : revealed_round).

Section fairness.
Context `{UuidColumn} (hmac_sha256 : list Z -> string -> string) (sha256 : list Z -> string).

(** [findUnique] with its includes. *)
Definition round_with_seed (id : string) : prog world (option (round * seed * chain)) :=
  match uuid_column id with
  | None => raise (JsError "Inconsistent column data")
  | Some n =>
      db (fun w => (match w_rounds w !! n with
                    | None => Ok None
                    | Some r =>
                        match List.find (fun s => N.eqb (sd_id s) (r_seedId r)) (w_seeds w) with
                        | None => Raise (JsError "Inconsistent query result")
                        | Some s => match find_chain (sd_chainId s) w with
                                    | None => Raise (JsError "Inconsistent query result")
                                    | Some c => Ok (Some (r, s, c))
                                    end
                        end
                    end, w))
  end.

Definition at_index (chainId : uuid) (index : Z) (s : seed) : bool :=
  N.eqb (sd_chainId s) chainId && (sd_chainIndex s =? index).

(** The one before: [prev?.seed]. *)
Definition prev_seed (s : seed) : prog world (option string) :=
  if 1 <=? sd_chainIndex s
  then db_get (fun w => option_map sd_seed (List.find (at_index (sd_chainId s) (sd_chainIndex s - 1)) (w_seeds w)))
  else mret None.

Definition round (id : string) : prog world round_answer :=
  found ← round_with_seed id;
  match found with
  | None => raise (NotFound "round_not_found")
  | Some (r, s, c) =>
      match sd_revealedAt s with
      | None => mret (Unrevealed (r_id r) (r_status r))
      | Some _ =>
          prev ← prev_seed s;
          match c_salt c with
          | None => raise (JsError "ERR_INVALID_ARG_TYPE")
          | Some salt =>
              let v := Fairness.verify hmac_sha256 sha256 (sd_seed s) salt prev in
              match v.1 with
              | None => raise (JsError "verify")
              | Some crash =>
                  mret (Revealed (mk_revealed (r_id r) (r_status r) (c_epoch c) (c_commitHash c) (c_saltSource c)
                    (c_targetChain c) (bigint_to_number <$> c_targetBlock c) (sd_seed s) salt (sd_seedHash s)
                    (sd_chainIndex s) prev (r_crashPoint r) crash (r_crashPoint r =? crash) v.2))
              end
          end
      end
  end.

(** The column [epoch] has 32 bits. *)
Definition epochSeeds (epoch : string) : prog world Fairness.seed_dump :=
  match js_Number epoch with
  | Fin q as n =>
      if js_isInteger n && js_ge n 0 then
        if 2 ^ 31 <=? Qfloor_Z q then raise (JsError "PrismaClientKnownRequestError")
        else
          out ← Fairness.epochSeeds (Qfloor_Z q);
          match out with Some d => mret d | None => raise (NotFound "epoch_not_found") end
      else raise (BadRequest "invalid_epoch")
  | _ => raise (BadRequest "invalid_epoch")
  end.

(** [z.string().regex(/^[0-9a-f]+$/i)] *)
Definition z_hex (v : option json) : option string :=
  match v with Some (JStr s) => if nonempty s && all_chars is_hex s then Some s else None | _ => None end.

Definition verifySchema (body : option json) : option (string * string * option string) :=
  match body with
  | Some (JObj o) =>
      seed ← z_hex (assoc_last "seed" o);
      salt ← z_min 1 (assoc_last "salt" o);
      prevSeed ← match assoc_last "prevSeed" o with None => Some None | v => Some <$> z_hex v end;
      Some (seed, salt, prevSeed)
  | _ => None
  end.

Definition verify (body : option json) : prog world (option Z * option bool) :=
  match verifySchema body with
  | None => raise (BadRequest "invalid body")
  | Some (seed, salt, prevSeed) => mret (Fairness.verify hmac_sha256 sha256 seed salt prevSeed)
  end.
End fairness.

Section commitment.
Context (env : Risk.env) (provider : SaltProvider) (sha256 : list Z -> string) (rand : N -> string).
Context (stringify_length : json -> Z).

Definition fairness_current : prog world (option Fairness.commit_info) :=
  _ ← Fairness.ensureChain env provider sha256 rand stringify_length;
  Fairness.getCurrentCommit sha256.
End commitment.

(** ** What the public cannot see *)

(** A seed is secret until it is revealed, or the one after it is: its digest is
    the seed before. *)
Definition reveals_before (s t : seed) : bool :=
  is_Some_b (sd_revealedAt t) && at_index (sd_chainId t) (sd_chainIndex t - 1) s.
Definition secret (l : list seed) (s : seed) : bool :=
  negb (is_Some_b (sd_revealedAt s)) && negb (List.existsb (reveals_before s) l).

Definition veil_seed (l : list seed) (s : seed) : seed :=
  if secret l s
  then mk_seed (sd_id s) (sd_chainId s) (sd_chainIndex s) (sd_seedHash s) "" (sd_revealedAt s)
  else s.

Definition is_revealed (l : list seed) (seedId : uuid) : bool :=
  match List.find (fun s => N.eqb (sd_id s) seedId) l with Some s => is_Some_b (sd_revealedAt s) | None => false end.

(** The crash point of a round that is not over is secret as well. *)
Definition veil_round (l : list seed) (r : Schema.round) : Schema.round :=
  if bool_decide (r_status r ∈ FINISHED) || is_revealed l (r_seedId r) then r
  else mk_round (r_id r) (r_seedId r) (r_nonce r) 0 (r_status r) (r_bettingOpensAt r) (r_phaseEndsAt r)
         (r_startedAt r) (r_crashedAt r) (r_settledAt r) (r_createdAt r).

(** What is left of the database for the public. *)
Definition veil (w : world) : world :=
  set_faults (w_faults w)
    (set_rounds (veil_round (w_seeds w) <$> w_rounds w)
      (set_seeds (List.map (veil_seed (w_seeds w)) (w_seeds w))
        (set_chains (w_chains w) empty_world))).

(** A program that sees the veiled world only. *)
Definition blind_at {A} (p : prog world A) (w : world) : Prop :=
  run p (veil w) = ((run p w).1, veil (run p w).2).
Definition blind {A} (p : prog world A) : Prop := forall w, blind_at p w.

Lemma blind_ret {A} (a : A) : blind (mret a).
Proof. done. Qed.
Lemma blind_raise {A} e : blind (raise e : prog world A).
Proof. done. Qed.
Lemma blind_bind_at {A B} (p : prog world A) (k : A -> prog world B) w :
  blind_at p w -> (forall a, blind (k a)) -> blind_at (a ← p; k a) w.
Proof.
  unfold blind_at. intros Hp Hk. rewrite !run_bind, Hp.
  destruct (run p w) as [[a|e] w']; [|done]. cbn [fst snd]. apply Hk.
Qed.
Lemma blind_bind {A B} (p : prog world A) (k : A -> prog world B) :
  blind p -> (forall a, blind (k a)) -> blind (a ← p; k a).
Proof. intros Hp Hk w. by apply blind_bind_at. Qed.

(** A statement that reads, and what is done with its result: the two worlds may
    answer it differently. *)
Lemma blind_read {A B} (f : world -> res A) (k : A -> prog world B) w :
  (forall fs, let v := set_faults fs w in
     let next r := match r with Ok a => k a | Raise e => raise e end in
     run (next (f (veil v))) (veil v) = ((run (next (f v)) v).1, veil (run (next (f v)) v).2)) ->
  blind_at (a ← db (fun w => (f w, w)); k a) w.
Proof.
  intros H. unfold blind_at. rewrite !run_bind. unfold db. rewrite !run_atom_res. unfold db_step. cbn [w_faults veil set_faults].
  assert (forall fs, set_faults fs (veil w) = veil (set_faults fs w)) as Hs by done.
  assert (w = set_faults (w_faults w) w) as Hw by (by destruct w).
  destruct (w_faults w) as [|[] fs]; rewrite ?Hs; try done; cbn [snd].
  - specialize (H []). cbv zeta in H. rewrite <- Hw in H. by destruct (f (veil w)), (f w).
  - specialize (H fs). cbv zeta in H. by destruct (f (veil (set_faults fs w))), (f (set_faults fs w)).
Qed.
Lemma blind_get {A B} (f : world -> A) (k : A -> prog world B) :
  (forall w, f (veil w) = f w) -> (forall a, blind (k a)) -> blind (a ← db_get f; k a).
Proof. intros Hv Hk w. apply (blind_read (fun w => Ok (f w))). intros fs. cbv zeta. rewrite Hv. apply Hk. Qed.
Lemma blind_fold {A B} (l : list A) (body : B -> A -> prog world B) (b : B) :
  (forall b x, blind (body b x)) -> blind (fold_each l body b).
Proof. intros Hb. revert b. induction l as [|x l IH]; intros b; [done|]. by apply blind_bind. Qed.

(** *** The veil on lists *)

Section lists.
Context {A} (P : A -> bool) (f : A -> A).
Hypothesis HP : forall x, P (f x) = P x.

Lemma find_veiled l : List.find P (List.map f l) = option_map f (List.find P l).
Proof using All. induction l as [|x l IH]; [done|]. cbn. rewrite HP. by destruct (P x). Qed.
Lemma filter_veiled_length l : length (List.filter P (List.map f l)) = length (List.filter P l).
Proof using All. induction l as [|x l IH]; [done|]. cbn. rewrite HP. destruct (P x); cbn; congruence. Qed.
Lemma filter_veiled l : (forall x, P x = true -> f x = x) -> List.filter P (List.map f l) = List.filter P l.
Proof using All. intros Hf. induction l as [|x l IH]; [done|]. cbn. rewrite HP. destruct (P x) eqn:E; [|done]. by rewrite IH, Hf. Qed.
End lists.

Lemma veil_seed_fields l s : sd_id (veil_seed l s) = sd_id s /\ sd_chainId (veil_seed l s) = sd_chainId s /\
  sd_chainIndex (veil_seed l s) = sd_chainIndex s /\ sd_revealedAt (veil_seed l s) = sd_revealedAt s /\
  sd_seedHash (veil_seed l s) = sd_seedHash s.
Proof. unfold veil_seed. by destruct (secret l s). Qed.
Lemma veil_round_fields l r : r_id (veil_round l r) = r_id r /\ r_seedId (veil_round l r) = r_seedId r /\
  r_status (veil_round l r) = r_status r /\ r_createdAt (veil_round l r) = r_createdAt r.
Proof. unfold veil_round. by destruct (_ || _). Qed.

Lemma revealed_open l s : is_Some (sd_revealedAt s) -> veil_seed l s = s.
Proof. intros [t E]. unfold veil_seed, secret. by rewrite E. Qed.
Lemma before_open l s t : t ∈ l -> is_Some (sd_revealedAt t) -> at_index (sd_chainId t) (sd_chainIndex t - 1) s = true ->
  veil_seed l s = s.
Proof.
  intros Ht [x E] Hs. unfold veil_seed, secret. rewrite (proj2 (List.existsb_exists (reveals_before s) l)); [by rewrite andb_false_r|].
  exists t. split; [by apply list_elem_of_In|]. unfold reveals_before. by rewrite E, Hs.
Qed.

Lemma revealed_count_veiled w id : Fairness.revealed_count (veil w) id = Fairness.revealed_count w id.
Proof.
  unfold Fairness.revealed_count. cbn [w_seeds veil set_faults set_rounds set_seeds]. f_equal. apply filter_veiled_length.
  intros s. by destruct (veil_seed_fields (w_seeds w) s) as (_ & -> & _ & -> & _).
Qed.

(** *** The routes *)

Section routes.
Context `{UuidColumn} (hmac_sha256 : list Z -> string -> string) (sha256 : list Z -> string).

Lemma blind_history : blind rounds_history.
Proof using Type.
  apply blind_get; [|intros; apply blind_ret]. intros w. change (w_rounds (veil w)) with (veil_round (w_seeds w) <$> w_rounds w). do 2 f_equal.
  rewrite map_to_list_fmap, <- list_fmap_compose.
  change (snd ∘ prod_map id (veil_round (w_seeds w))) with (veil_round (w_seeds w) ∘ @snd uuid Schema.round).
  rewrite list_fmap_compose. apply filter_veiled.
  - intros r. by destruct (veil_round_fields (w_seeds w) r) as (_ & _ & -> & _).
  - intros r Hr. unfold veil_round. by rewrite Hr.
Qed.

Lemma blind_epochs : blind (Fairness.listEpochs sha256).
Proof using Type.
  apply blind_get; [done|]. intros cs. apply blind_fold. intros acc c. apply blind_get; [|intros; apply blind_ret].
  intros w. apply revealed_count_veiled.
Qed.

Lemma blind_commit : blind (Fairness.getCurrentCommit sha256).
Proof using Type.
  apply blind_get; [done|]. intros [c|]; [|apply blind_ret]. apply blind_get; [intros w; apply revealed_count_veiled|].
  intros n. apply blind_get; [done|]. intros; apply blind_ret.
Qed.

Lemma blind_epochSeeds epoch : blind (epochSeeds epoch).
Proof using Type.
  unfold epochSeeds. destruct (js_Number epoch) as [| |q]; [apply blind_raise..|].
  destruct (js_isInteger _ && _); [|apply blind_raise]. destruct (_ <=? _); [apply blind_raise|].
  apply blind_bind; [|intros []; [apply blind_ret|apply blind_raise]].
  apply blind_get; [done|]. intros [c|]; [|apply blind_ret]. apply blind_get; [|intros; apply blind_ret].
  intros w. f_equal. apply filter_veiled.
  - intros s. by destruct (veil_seed_fields (w_seeds w) s) as (_ & -> & _ & -> & _).
  - intros s [_ Hs]%andb_true_iff. apply revealed_open. by destruct (sd_revealedAt s).
Qed.

Lemma blind_prev s w {A} (k : option string -> prog world A) : s ∈ w_seeds w -> is_Some (sd_revealedAt s) ->
  (forall o, blind (k o)) -> blind_at (o ← prev_seed s; k o) w.
Proof using Type.
  intros Hs Hr Hk. unfold prev_seed. destruct (1 <=? sd_chainIndex s); [|by apply Hk].
  unfold db_get. apply (blind_read (fun w => Ok (option_map sd_seed (List.find (at_index (sd_chainId s) (sd_chainIndex s - 1)) (w_seeds w))))).
  intros fs. cbv zeta. cbn [w_seeds veil set_faults set_rounds set_seeds]. rewrite find_veiled.
  2: { intros t. unfold at_index. by destruct (veil_seed_fields (w_seeds w) t) as (_ & -> & -> & _). }
  destruct (List.find _ (w_seeds w)) as [t|] eqn:Ef; cbn [option_map]; [|apply Hk].
  apply List.find_some in Ef as [_ Ef]. rewrite (before_open _ t s) by done. apply Hk.
Qed.

Lemma blind_round id : blind (round hmac_sha256 sha256 id).
Proof using Type.
  unfold round, round_with_seed. destruct (uuid_column id) as [n|]; [|apply blind_raise].
  intros w. apply blind_read. intros fs. cbv zeta. generalize (set_faults fs w). clear w fs. intros w.
  change (w_rounds (veil w)) with (veil_round (w_seeds w) <$> w_rounds w).
  change (w_seeds (veil w)) with (List.map (veil_seed (w_seeds w)) (w_seeds w)).
  change (find_chain ?x (veil w)) with (find_chain x w).
  rewrite lookup_fmap. destruct (w_rounds w !! n) as [r|]; cbn [fmap option_fmap option_map]; [|done].
  destruct (veil_round_fields (w_seeds w) r) as (E1 & E2 & E3 & _). rewrite E2, find_veiled.
  2: { intros s. by destruct (veil_seed_fields (w_seeds w) s) as (-> & _). }
  destruct (List.find _ (w_seeds w)) as [s|] eqn:Ef; cbn [option_map]; [|done].
  destruct (veil_seed_fields (w_seeds w) s) as (_ & F2 & _ & F4 & _). rewrite F2.
  change (find_chain (sd_chainId s) (veil w)) with (find_chain (sd_chainId s) w).
  destruct (find_chain (sd_chainId s) w) as [c|]; [|done]. rewrite F4.
  destruct (sd_revealedAt s) as [t|] eqn:Er; [|by rewrite E1, E3].
  rewrite (revealed_open _ s) by (by rewrite Er).
  assert (veil_round (w_seeds w) r = r) as ->.
  { unfold veil_round, is_revealed. rewrite Ef, Er. by rewrite orb_true_r. }
  apply blind_prev; [|by rewrite Er|].
  - apply List.find_some in Ef as [Ef _]. by apply list_elem_of_In.
  - intros o. destruct (c_salt c); [|apply blind_raise]. destruct (_.1); [apply blind_ret|apply blind_raise].
Qed.

(** The routes that say something about rounds and seeds. *)
Inductive public_route := GetRound (id : string) | GetHistory | GetCommit | GetEpochs | GetEpochSeeds (epoch : string).
Inductive public_answer :=
| ARound (a : round_answer) | AHistory (rows : list (uuid * Z * Z)) | ACommit (c : option Fairness.commit_info)
| AEpochs (l : list Fairness.epoch_info) | ASeeds (d : Fairness.seed_dump).

Definition public (r : public_route) : prog world public_answer :=
  match r with
  | GetRound id => a ← round hmac_sha256 sha256 id; mret (ARound a)
  | GetHistory => a ← rounds_history; mret (AHistory a)
  | GetCommit => a ← Fairness.getCurrentCommit sha256; mret (ACommit a)
  | GetEpochs => a ← Fairness.listEpochs sha256; mret (AEpochs a)
  | GetEpochSeeds epoch => a ← epochSeeds epoch; mret (ASeeds a)
  end.

End routes.

(** *** A concrete database *)

#[local] Existing Instance two_operators.

Definition sample_hmac (key : list Z) (_ : string) : string := match key with [] => "ffffffffffffff" | _ => "0fffffffffffff" end.
Definition sample_sha (_ : list Z) : string := "aa"%string.
Definition sample_round (id seedId : uuid) (crash : Z) (st : phase) : Schema.round :=
  mk_round id seedId 0 crash st 0 None None None None 5.

(** A round over and revealed, and one that runs with the next seed. *)
Definition public_world (next : string) (crash : Z) : world :=
  set_rounds {[ 7%N := sample_round 7 11 1552 Completed; 8%N := sample_round 8 12 crash Running ]}
    (set_seeds [mk_seed 10 1 0 "" "c0" None; mk_seed 11 1 1 "h1" "aa" (Some 5); mk_seed 12 1 2 "h2" next None]
      (set_chains [mk_chain 1 0 "c0" 3 "random" None None (Some "r"%string) ChActive 0 None] empty_world)).

Definition ask_public (r : public_route) (w : world) : res public_answer := (run (public sample_hmac sample_sha r) w).1.


(** The controller says that a round voided by a restart, which is completed and
    never revealed, is disclosed nowhere.  The history lists its crash point, and
    the reveal of the next round carries its seed as the previous one. *)
Definition voided_world : world :=
  set_rounds {[ 7%N := sample_round 7 11 1552 Completed; 8%N := sample_round 8 12 1552 Completed ]}
    (set_seeds [mk_seed 11 1 1 "h1" "aa" None; mk_seed 12 1 2 "h2" "bb" (Some 9)]
      (set_chains [mk_chain 1 0 "c0" 3 "random" None None (Some "r"%string) ChActive 0 None] empty_world)).

Theorem voided_round_disclosed :
  ask_public (GetRound (Keys.uuid_string 7)) voided_world = Ok (ARound (Unrevealed 7%N Completed)) /\
  (exists rows, ask_public GetHistory voided_world = Ok (AHistory rows) /\ (7%N, 1552, 5) ∈ rows) /\
  exists a, ask_public (GetRound (Keys.uuid_string 8)) voided_world = Ok (ARound (Revealed a)) /\
    rv_prevSeed a = Some "aa"%string.
Proof.
  split; [reflexivity|]. split; eexists; (split; [vm_compute; reflexivity|]); [|reflexivity].
  repeat (first [left | right]).
Qed.

(** ** The leaderboard *)

(** At most 100 rows, in order, for every parameter that is a whole number or no
    number. *)
Lemma leaderboard_bounded limit w rows w' :
  run (leaderboard limit) w = (Ok rows, w') -> (length rows <= 100)%nat.
Proof.
  unfold leaderboard. destruct (js_isInteger _); [|done]. intros (l & w1 & E1 & E2)%run_bind_ok.
  rewrite run_ret in E2. assert (rows = List.map (fun e => (e.1, p_displayName e.2, p_biggestMultiplier e.2, bigint_to_number (p_totalLoot e.2))) l) as ->
    by congruence. rewrite length_map. apply run_db_ok in E1 as (fs & E1).
  assert (l = take (match leaderboard_take limit with Fin q => Z.to_nat (Qfloor_Z q) | _ => 0%nat end)
    (merge_sort more_wanted (map_to_list (w_profiles (set_faults fs w))))) as -> by congruence.
  rewrite length_take. enough (match leaderboard_take limit with Fin q => Z.to_nat (Qfloor_Z q) | _ => 0 end <= 100)%nat by lia.
  unfold leaderboard_take. generalize (match limit with Some v => json_Number v | None => NaN end). intros [|[]|q]; try (vm_compute; lia).
  destruct (Qeq_bool q 0); [vm_compute; lia|]. destruct (Qle_bool q 1); [vm_compute; lia|].
  destruct (Qle_bool 100 q) eqn:E; [vm_compute; lia|].
  assert (q < 100)%Q as Hq by (apply Qnot_le_lt; intros Hle%Qle_bool_iff; congruence).
  enough (Qfloor_Z q <= 100) by lia. unfold Qfloor_Z. unfold Qlt in Hq. cbn in Hq.
  apply Z.lt_succ_r, Z.div_lt_upper_bound; lia.
Qed.

(** A fraction passes the clamp and is refused by the client, as an internal
    error. *)
Theorem leaderboard_fraction_fails :
  (run (leaderboard (Some (JStr "1.5"))) empty_world).1 = Raise (JsError "PrismaClientValidationError").
Proof. reflexivity. Qed.
End PublicApi.
