(* ===== verification/PlayerApi.v ===== *)
(** * The players' HTTP surface

    What a browser calls with a token: guests ([auth/auth.service.ts],
    [auth/auth.module.ts], [auth/jwt-auth.guard.ts]), the wallet, the bets, the
    launch and the logout ([wallet/wallet.controller.ts],
    [game/bets.controller.ts], [operator/operator.controller.ts]).  The token
    library is the class [Jwt]; how a text reads as a token is [of_text].
    Proved: a guest plays with what it was given; a player sees its own rows
    only. *)

From Stdlib Require Import QArith.
From S2P Require Import Prelude Effects Js Money Schema Wallet Ledger Keys Launch Sessions SessionSafety OperatorAuth.

Open Scope Z_scope.

#[local] Set Warnings "-clear-no-such-hyp".

Module PlayerApi.

(** ** Guests and tokens *)

Record jwt_options := mk_jwt_options { jo_secret : string; jo_expiresIn : Z (* seconds *) }.

(** The secret is required at boot. *)
Definition buildJwtOptions (process_env : Risk.env) : res jwt_options :=
  match process_env "JWT_SECRET" with
  | Some (String _ _ as secret) => Ok (mk_jwt_options secret (30 * 24 * 60 * 60))
  | _ => Raise (JsError "JWT_SECRET is required")
  end.

Definition STARTING_BALANCE : Z := 10000.
Definition DEMO_CURRENCY : string := "DEMO".

Record guest (Token : Type) := mk_guest {
  gu_token : Token; gu_userId : uuid; gu_username : string; gu_walletId : uuid; gu_currency : string; gu_balance : Z
}.
Arguments mk_guest {Token}.
Arguments gu_token {Token}.
Arguments gu_userId {Token}.
Arguments gu_walletId {Token}.
Arguments gu_username {Token}.
Arguments gu_currency {Token}.
Arguments gu_balance {Token}.

(** What the guard leaves on the request: two claims, as the token has them. *)
Record identity := mk_identity { id_userId : option json; id_walletId : option json }.

Section auth.
Context {Token : Type} `{Jwt Token} (of_text : string -> Token) (options : jwt_options).

Definition guest_name (id : uuid) : string := ("Thief_" +:+ slice_to 8 (Keys.uuid_string id))%string.

(** The user, its wallet and its profile, in one statement. *)
Definition guest_create (id : uuid) (username : string) : prog world (uuid * wallet) :=
  db (fun w =>
    match GameSession.user_by_name username w, w_users w !! id, w_wallets w !! w_uuid w, w_profiles w !! id with
    | None, None, None, None =>
        let wl := mk_wallet id DEMO_CURRENCY STARTING_BALANCE in
        (Ok (w_uuid w, wl),
         bump_uuid (set_profiles (<[id := mk_profile username 0 100]> (w_profiles w))
           (set_wallets (<[w_uuid w := wl]> (w_wallets w))
             (set_users (<[id := mk_user username true None]> (w_users w)) w))))
    | _, _, _, _ => (Raise UniqueViolation, w)
    end).

Definition createGuest : prog world (guest Token) :=
  id ← randomUUID;
  let username := guest_name id in
  wl ← guest_create id username;
  now ← Date_now;
  match signAsync now [("sub", JStr (Keys.uuid_string id)); ("username", JStr username)]%string (jo_secret options)
          (inject_Z (jo_expiresIn options)) None with
  | None => raise (JsError "sign")
  | Some token => mret (mk_guest token id username wl.1 (w_currency wl.2) (bigint_to_number (w_balance wl.2)))
  end.

Definition jwtGuard (req : request) : prog world identity :=
  match headers req "authorization" with
  | Some (One auth) =>
      if startsWith "Bearer " auth then
        now ← Date_now;
        match verifyAsync now (of_text (slice_from 7 auth)) (jo_secret options) with
        | Some payload => mret (mk_identity (claim (Some payload) "sub") (claim (Some payload) "walletId"))
        | None => LaunchToken.unauthorized "invalid_token"
        end
      else LaunchToken.unauthorized "missing_token"
  | Some (Many _) => raise (JsError "auth.startsWith is not a function")
  | None => LaunchToken.unauthorized "missing_token"
  end.
End auth.

(** ** Queries by a claim *)

Section queries.
Context `{UuidColumn}.

(** A claim where a query wants a UUID. *)
Definition column (v : json) : prog world uuid :=
  match v with
  | JStr s => match uuid_column s with Some n => mret n | None => raise (JsError "Inconsistent column data") end
  | _ => raise (JsError "PrismaClientValidationError")
  end.

(** [{ where: { userId } }]: a claim that is absent filters nothing. *)
Definition by_user (userId : option json) : prog world (uuid -> bool) :=
  match userId with
  | None => mret (fun _ => true)
  | Some v => n ← column v; mret (fun u => bool_decide (u = n))
  end.

(** ** The wallet *)

Record tx_row := mk_tx_row {
  tr_id : uuid; tr_type : ledger_type; tr_amount : Z; tr_balanceAfter : Z; tr_refId : option uuid; tr_createdAt : Z
}.

Section wallet.
Context (W : WalletProvider) (created_at : idem_key -> Z).

Definition resolveWallet (i : identity) : prog world (uuid * wallet) :=
  if Launch.truthy (id_walletId i) then
    id ← column (nullish (id_walletId i) JNull);
    w ← Ledger.wallet_findUniqueOrThrow id;
    if match id_userId i with Some (JStr u) => eqb_str u (Keys.uuid_string (w_userId w)) | _ => false end
    then mret (id, w) else raise (Forbidden "wallet_mismatch")
  else
    mine ← by_user (id_userId i);
    db (fun w => match List.find (fun p => mine (w_userId p.2)) (map_to_list (w_wallets w)) with
                 | Some p => (Ok p, w)
                 | None => (Raise RecordNotFound, w)
                 end).

(** [{ currency, balance }] *)
Definition getBalance (i : identity) : prog world (string * Z) :=
  w ← resolveWallet i;
  balance ← wp_getBalance w.1;
  mret (w_currency w.2, bigint_to_number balance).

(** Newest first. *)
Definition later (a b : idem_key * ledger_row) : Prop := created_at b.1 <= created_at a.1.
#[export] Instance later_dec a b : Decision (later a b).
Proof. unfold later. apply _. Defined.

Definition tx_view (kr : idem_key * ledger_row) : tx_row :=
  mk_tx_row (l_id kr.2) (l_type kr.2) (bigint_to_number (l_amount kr.2)) (bigint_to_number (l_balanceAfter kr.2))
    (l_refId kr.2) (created_at kr.1).

Definition rows_of (walletId : uuid) (s : world) : list (idem_key * ledger_row) :=
  take 50 (merge_sort later
    (List.filter (fun kr => bool_decide (l_walletId kr.2 = walletId)) (map_to_list (w_ledger s)))).

Definition transactions (i : identity) : prog world (list tx_row) :=
  w ← resolveWallet i;
  rows ← db_get (rows_of w.1);
  mret (List.map tx_view rows).
End wallet.

(** ** The bets *)

Record bet_view := mk_bet_view {
  bv_id : uuid; bv_roundId : uuid; bv_panel : panel; bv_amount : Z; bv_autoCashout : option Z; bv_status : bet_status;
  bv_cashoutMult : option Z; bv_payout : Z; bv_createdAt : Z
}.

Definition serialize (b : bet) : bet_view :=
  mk_bet_view (b_id b) (b_roundId b) (b_panel b) (bigint_to_number (b_amount b)) (b_autoCashout b) (b_status b)
    (b_cashoutMult b) (bigint_to_number (b_payout b)) (b_createdAt b).

Definition newer_bet (a b : bet) : Prop := b_createdAt b <= b_createdAt a.
#[export] Instance newer_bet_dec a b : Decision (newer_bet a b).
Proof. unfold newer_bet. apply _. Defined.

Definition bets_active (i : identity) : prog world (list bet_view) :=
  mine ← by_user (id_userId i);
  rows ← db_get (fun w => merge_sort newer_bet
           (bets_where (fun b => mine (b_userId b) && bool_decide (b_status b ∈ [active; payout_pending])) w));
  mret (List.map serialize rows).

Definition bets_history (i : identity) : prog world (list bet_view) :=
  mine ← by_user (id_userId i);
  rows ← db_get (fun w => take 50 (merge_sort newer_bet
           (bets_where (fun b => mine (b_userId b) && negb (bool_decide (b_status b ∈ [reserving; cancelling]))) w)));
  mret (List.map serialize rows).
End queries.

(** ** Launches and logouts *)

Section operator.
Context {Token : Type} `{Jwt Token} `{UuidColumn} (of_text : string -> Token).
Context (stringify_length : json -> Z) (toISOString : Z -> string) (process_env : Risk.env) (JWT_SECRET : string).

Definition launchSchema (body : option json) : option string :=
  match body with Some (JObj o) => z_min 10 (assoc_last "token" o) | _ => None end.

Definition launch (body : option json) : prog world (LaunchResult Token) :=
  match launchSchema body with
  | None => raise (BadRequest "invalid_body")
  | Some token => GameSession.openFromToken process_env JWT_SECRET (of_text token)
  end.

Definition closeSession (i : identity) : prog world (bool * Z) :=
  revoked ← (if Launch.truthy (id_walletId i)
             then id ← column (nullish (id_walletId i) JNull);
                  GameSession.revokeForWallet stringify_length toISOString id
             else mret 0);
  mret (true, revoked).
End operator.

(** ** A new guest *)

Section guests.
Context {Token : Type} `{HJ : JwtLaws Token} `{UuidColumn} (of_text : string -> Token).
Context (options : jwt_options) (operator : WalletProvider).

(** The identifiers the next guest draws are new, and the foreign keys hold. *)
Record guest_ready (w : world) : Prop := {
  gr_calm : w_faults w = [];
  gr_column : uuid_column (Keys.uuid_string (w_uuid w)) = Some (w_uuid w);
  gr_user : w_users w !! w_uuid w = None;
  gr_profile : w_profiles w !! w_uuid w = None;
  gr_wallet : w_wallets w !! N.succ (w_uuid w) = None;
  gr_name : GameSession.user_by_name (guest_name (w_uuid w)) w = None;
  gr_owners : forall id wl, w_wallets w !! id = Some wl -> is_Some (w_users w !! w_userId wl);
  gr_sessions : forall id s, w_sessions w !! id = Some s -> is_Some (w_wallets w !! s_walletId s)
}.

Definition guest_world (w : world) : world :=
  bump_uuid (set_profiles (<[w_uuid w := mk_profile (guest_name (w_uuid w)) 0 100]> (w_profiles w))
    (set_wallets (<[N.succ (w_uuid w) := mk_wallet (w_uuid w) DEMO_CURRENCY STARTING_BALANCE]> (w_wallets w))
      (set_users (<[w_uuid w := mk_user (guest_name (w_uuid w)) true None]> (w_users w)) (bump_uuid w)))).

Lemma run_createGuest w token : guest_ready w ->
  signAsync (w_now w) [("sub", JStr (Keys.uuid_string (w_uuid w))); ("username", JStr (guest_name (w_uuid w)))]%string
    (jo_secret options) (inject_Z (jo_expiresIn options)) None = Some token ->
  run (createGuest options) w =
  (Ok (mk_guest token (w_uuid w) (guest_name (w_uuid w)) (N.succ (w_uuid w)) DEMO_CURRENCY 10000), guest_world w).
Proof using Type.
  intros G Hs. unfold createGuest. rewrite run_bind. unfold randomUUID.
  rewrite run_atom. cbn [fst snd]. rewrite run_bind. unfold guest_create. rewrite run_db_nofault by apply G.
  cbn [w_users w_wallets w_profiles w_uuid bump_uuid].
  assert (GameSession.user_by_name (guest_name (w_uuid w)) (bump_uuid w) = None) as -> by apply G.
  rewrite (gr_user _ G), (gr_wallet _ G), (gr_profile _ G). cbn [fst snd]. rewrite run_bind.
  unfold Date_now, gets. rewrite run_atom. cbn [fst snd w_now guest_world bump_uuid set_profiles set_wallets set_users].
  rewrite Hs. done.
Qed.

(** A request whose bearer token is this one. *)
Definition bears (req : request) (token : Token) : Prop :=
  exists s, headers req "authorization" = Some (One ("Bearer " +:+ s)%string) /\ of_text s = token.

Lemma run_jwtGuard req token w : bears req token ->
  run (jwtGuard of_text options req) w =
  match verifyAsync (w_now w) token (jo_secret options) with
  | Some p => (Ok (mk_identity (claim (Some p) "sub") (claim (Some p) "walletId")), w)
  | None => (Raise (Unauthorized "invalid_token"), w)
  end.
Proof using Type.
  intros (s & Hb & Ht). unfold jwtGuard. rewrite Hb. destruct (SessionSafety.slice_prefix "Bearer " s) as [-> Hs].
  change (String.length "Bearer ") with 7%nat in Hs. rewrite Hs, Ht. rewrite run_bind. unfold Date_now, gets. rewrite run_atom.
  cbn [fst snd]. by destruct (verifyAsync _ _ _).
Qed.

Lemma find_unique {A} (P : A -> bool) (l : list A) x :
  x ∈ l -> P x = true -> (forall y, y ∈ l -> P y = true -> y = x) -> List.find P l = Some x.
Proof using Type.
  intros Hx Px Hu. destruct (List.find P l) as [y|] eqn:E.
  - apply List.find_some in E as [Hy Py]. f_equal. apply Hu; [by apply list_elem_of_In|done].
  - apply list_elem_of_In in Hx. pose proof (List.find_none _ _ E _ Hx). congruence.
Qed.

(** Its one wallet is found by the user of its token, and is a demo wallet. *)
Lemma guest_wallet w now i : guest_ready w -> id_userId i = Some (JStr (Keys.uuid_string (w_uuid w))) -> id_walletId i = None ->
  run (resolveWallet i) (set_now now (guest_world w)) =
  (Ok (N.succ (w_uuid w), mk_wallet (w_uuid w) DEMO_CURRENCY STARTING_BALANCE), set_now now (guest_world w)).
Proof using Type.
  intros G Hu Hw. unfold resolveWallet. rewrite Hw, Hu. cbn [Launch.truthy]. rewrite run_bind. unfold by_user, column.
  rewrite (gr_column _ G). rewrite run_bind, !run_ret. rewrite run_db_nofault by apply G.
  erewrite find_unique; [reflexivity|apply elem_of_map_to_list, lookup_insert_eq|by apply bool_decide_eq_true_2|].
  intros [id wl] Hin Hmine. apply bool_decide_eq_true in Hmine. cbn [snd] in Hmine. apply elem_of_map_to_list in Hin.
  cbn [w_wallets set_now guest_world bump_uuid set_profiles set_wallets] in Hin.
  apply lookup_insert_Some in Hin as [[<- <-]|[_ Hin]]; [done|]. exfalso.
  destruct (gr_owners _ G _ _ Hin) as [u E]. rewrite Hmine, (gr_user _ G) in E. done.
Qed.

Lemma guest_is_demo w now : guest_ready w ->
  run (GameSession.isDemoWallet (N.succ (w_uuid w))) (set_now now (guest_world w)) = (Ok true, set_now now (guest_world w)).
Proof using Type.
  intros G. unfold GameSession.isDemoWallet. rewrite run_bind, run_db_get by apply G. cbn [fst snd].
  assert (GameSession.sessions_where (fun s => bool_decide (s_walletId s = N.succ (w_uuid w))) (set_now now (guest_world w)) = []) as ->.
  { unfold GameSession.sessions_where. cbn [w_sessions set_now guest_world bump_uuid set_profiles set_wallets set_users].
    destruct (List.filter _ _) as [|s l] eqn:E; [done|]. exfalso.
    assert (s ∈ s :: l) as Hs by left. rewrite <- E in Hs. apply list_elem_of_In, List.filter_In in Hs as [Hs Hw].
    apply bool_decide_eq_true in Hw. apply list_elem_of_In, list_elem_of_fmap in Hs as ([k s'] & -> & Hs).
    apply elem_of_map_to_list in Hs. destruct (gr_sessions _ G _ _ Hs) as [wl E']. cbn [snd] in Hw.
    rewrite Hw, (gr_wallet _ G) in E'. done. }
  cbn [head]. rewrite run_bind, run_db_get by apply G. cbn [w_wallets set_now guest_world bump_uuid set_profiles set_wallets].
  rewrite lookup_insert_eq. unfold GameSession.username_of. cbn [w_users w_userId set_now guest_world set_users set_profiles set_wallets bump_uuid].
  rewrite lookup_insert_eq. done.
Qed.

(** A guest plays with what it was given.  When the guest's name is free, the
    account is created and its token answered; for thirty days, and not longer,
    the token is its owner's: it finds the wallet of 10000 demo units, through the
    provider that keeps the money of demo wallets, whatever the operators do. *)
Theorem guest_can_play process_env w token (Hboot : buildJwtOptions process_env = Ok options) (G : guest_ready w)
    (Hsign : signAsync (w_now w) [("sub", JStr (Keys.uuid_string (w_uuid w))); ("username", JStr (guest_name (w_uuid w)))]%string
       (jo_secret options) (inject_Z (jo_expiresIn options)) None = Some token) :
  exists g w1, run (createGuest options) w = (Ok g, w1) /\ gu_token g = token /\ gu_balance g = 10000 /\
  forall req now, bears req token ->
    run (i ← jwtGuard of_text options req;
         getBalance (Router.WalletRouter Ledger.LedgerService operator GameSession.isDemoWallet) i) (set_now now w1) =
    (if now / 1000 <? w_now w / 1000 + 30 * 24 * 60 * 60 then Ok (DEMO_CURRENCY, 10000)
     else Raise (Unauthorized "invalid_token"), set_now now w1).
Proof using HJ.
  eexists _, _. split; [by apply run_createGuest|]. split; [done|]. split; [done|]. intros req now Hb.
  assert (jo_expiresIn options = 30 * 24 * 60 * 60) as Hexp.
  { unfold buildJwtOptions in Hboot. destruct (process_env "JWT_SECRET") as [[|a s]|]; [done| |done]. by injection Hboot as <-. }
  destruct (sign_verify _ _ _ _ _ _ Hsign) as (extra & Hextra & _ & _ & Hv).
  rewrite run_bind, (run_jwtGuard req token) by done. rewrite Hv, Hexp. cbn [w_now set_now].
  destruct (now / 1000 <? _); [|done].
  assert (Hc : forall k, k ∉ ["jti"; "iat"; "exp"]%string -> assoc_last k extra = None).
  { intros k Hk. apply LaunchToken.assoc_last_none. intros (e & -> & Hin)%list_elem_of_fmap. rewrite Forall_forall in Hextra. by apply Hk, Hextra. }
  unfold getBalance. rewrite run_bind, guest_wallet; [|done| |].
  - cbn [fst snd w_currency]. unfold wp_getBalance, Router.WalletRouter, Router.getBalance. rewrite run_bind, Router.run_pick, guest_is_demo by done.
    cbn [wp_getBalance Ledger.LedgerService]. unfold Ledger.getBalance, Ledger.wallet_findUniqueOrThrow.
    rewrite run_bind, run_db_nofault by apply G. cbn [w_wallets set_now guest_world bump_uuid set_profiles set_wallets].
    by rewrite lookup_insert_eq.
  - cbn [id_userId]. unfold claim. rewrite LaunchToken.assoc_last_app, Hc by set_solver. done.
  - cbn [id_walletId]. unfold claim. rewrite LaunchToken.assoc_last_app, Hc by set_solver. done.
Qed.
End guests.

(** ** Own rows *)

Section own.
Context `{UuidColumn} (W : WalletProvider) (created_at : idem_key -> Z).

(** The text of a claim names this user: in the column, or as the column prints. *)
Definition names (u : string) (n : uuid) : Prop := uuid_column u = Some n \/ u = Keys.uuid_string n.

Lemma column_ok v n w w' : run (column v) w = (Ok n, w') -> (exists s, v = JStr s /\ uuid_column s = Some n) /\ w' = w.
Proof using Type. destruct v as [| | |s| |]; try done. cbn. destruct (uuid_column s) eqn:E; [|done]. cbn. intros [= <- <-]. eauto. Qed.

Lemma by_user_ok u mine w w' : run (by_user (Some (JStr u))) w = (Ok mine, w') ->
  w' = w /\ forall x, mine x = true -> names u x.
Proof using Type.
  cbn [by_user]. intros (n & w1 & E & E2)%run_bind_ok. apply column_ok in E as [(s & [= <-] & E) ->].
  rewrite run_ret in E2. injection E2 as <- <-. split; [done|]. intros x Hx. apply bool_decide_eq_true in Hx as ->. by left.
Qed.

Lemma resolve_own i u wid wl w w' : id_userId i = Some (JStr u) -> run (resolveWallet i) w = (Ok (wid, wl), w') ->
  w_wallets w !! wid = Some wl /\ names u (w_userId wl) /\ tables_eq w w'.
Proof using Type.
  intros Hu. unfold resolveWallet. rewrite Hu. destruct (Launch.truthy (id_walletId i)).
  - intros (id & w1 & E1 & E)%run_bind_ok. apply column_ok in E1 as [_ ->]. apply run_bind_ok in E as (x & w2 & E1 & E).
    apply Ledger.wallet_find_ok in E1 as [Hx Ht]. destruct (eqb_str u _) eqn:Eu; [|done]. rewrite run_ret in E.
    assert (id = wid /\ x = wl /\ w2 = w') as (<- & <- & <-) by (split_and!; congruence).
    split_and!; [done|by right; apply eqb_str_eq|done].
  - intros (mine & w1 & E1 & E)%run_bind_ok. apply by_user_ok in E1 as [-> Hm]. apply run_db_ok in E as (fs & E).
    destruct (List.find _ _) as [p|] eqn:Ef; [|done]. assert (p = (wid, wl) /\ set_faults fs w = w') as [-> <-] by (split; congruence).
    apply List.find_some in Ef as [Hin Hp]. apply list_elem_of_In, elem_of_map_to_list in Hin.
    split_and!; [done|by apply Hm|apply tables_set_faults].
Qed.

(** A wallet of somebody else in the token is refused. *)
Lemma foreign_wallet_refused i u s wid wl w : w_faults w = [] -> id_userId i = Some (JStr u) -> id_walletId i = Some (JStr s) ->
  nonempty s = true -> uuid_column s = Some wid -> w_wallets w !! wid = Some wl -> u <> Keys.uuid_string (w_userId wl) ->
  run (resolveWallet i) w = (Raise (Forbidden "wallet_mismatch"), w).
Proof using Type.
  intros Hf Hu Hw Hs Hc Hwl Hne. unfold resolveWallet. rewrite Hu, Hw. cbn [Launch.truthy nullish]. rewrite Hs. cbn [column].
  rewrite Hc. rewrite run_bind, run_ret. unfold Ledger.wallet_findUniqueOrThrow. rewrite run_bind, run_db_nofault, Hwl by done.
  cbn [fst snd]. by rewrite (eqb_str_neq u).
Qed.

Lemma bets_own i u (P : bet -> bool) (view : list bet -> list bet) w w' vs : id_userId i = Some (JStr u) ->
  (forall l b, b ∈ view l -> b ∈ l) ->
  run (mine ← by_user (id_userId i);
       (rows ← db_get (fun w => view (bets_where (fun b => mine (b_userId b) && P b) w));
        mret (List.map serialize rows))) w = (Ok vs, w') ->
  forall v, v ∈ vs -> exists id b, w_bets w !! id = Some b /\ names u (b_userId b) /\ P b = true /\ v = serialize b.
Proof using Type.
  intros Hu Hview (mine & w1 & E1 & E)%run_bind_ok. rewrite Hu in E1. apply by_user_ok in E1 as [-> Hm].
  apply run_bind_ok in E as (rows & w2 & E1 & E). rewrite run_ret in E. assert (vs = List.map serialize rows) as -> by congruence.
  apply run_db_ok in E1 as (fs & E1). assert (rows = view (bets_where (fun b => mine (b_userId b) && P b) (set_faults fs w))) as -> by congruence.
  intros v (b & -> & Hb%Hview)%list_elem_of_fmap. unfold bets_where in Hb. apply list_elem_of_In, List.filter_In in Hb as [Hb Hp].
  apply andb_true_iff in Hp as [Hp1 Hp2]. apply list_elem_of_In, list_elem_of_fmap in Hb as ([id b'] & -> & Hb).
  apply elem_of_map_to_list in Hb. exists id, b'. split_and!; [done|by apply Hm|done|done].
Qed.

(** C30: A player reads its own rows and no others.  Whatever the token carries
    besides its user: the balance and the movements are those of one wallet of
    that user, the bets are bets of that user, in the statuses the route shows,
    and a token with somebody else's wallet is refused. *)
Theorem player_reads_own (i : identity) (u : string) (w : world) (Hu : id_userId i = Some (JStr u)) :
  (forall c b w', run (getBalance W i) w = (Ok (c, b), w') ->
     exists wid wl w1 z, w_wallets w !! wid = Some wl /\ names u (w_userId wl) /\ c = w_currency wl /\
       tables_eq w w1 /\ run (@wp_getBalance W wid) w1 = (Ok z, w') /\ b = bigint_to_number z) /\
  (forall rows w', run (transactions created_at i) w = (Ok rows, w') ->
     (length rows <= 50)%nat /\ exists wid wl, w_wallets w !! wid = Some wl /\ names u (w_userId wl) /\
       forall r, r ∈ rows -> exists k row, (w_ledger w !! k = Some row) /\ l_walletId row = wid /\ r = tx_view created_at (k, row)) /\
  (forall vs w', run (bets_active i) w = (Ok vs, w') -> forall v, v ∈ vs ->
     exists id b, w_bets w !! id = Some b /\ names u (b_userId b) /\ (b_status b ∈ [active; payout_pending]) /\ v = serialize b) /\
  (forall vs w', run (bets_history i) w = (Ok vs, w') -> forall v, v ∈ vs ->
     exists id b, w_bets w !! id = Some b /\ names u (b_userId b) /\ (b_status b ∉ [reserving; cancelling]) /\ v = serialize b).
Proof using Type.
  split_and!.
  - unfold getBalance. intros c b w' ([wid wl] & w1 & E1 & E)%run_bind_ok. destruct (resolve_own _ _ _ _ _ _ Hu E1) as (Hw & Hn & Ht).
    apply run_bind_ok in E as (z & w2 & E2 & E). rewrite run_ret in E. cbn [fst snd] in E, E2.
    exists wid, wl, w1, z. assert (w2 = w') as <- by congruence. split_and!; try done; congruence.
  - unfold transactions. intros rows w' ([wid wl] & w1 & E1 & E)%run_bind_ok. destruct (resolve_own _ _ _ _ _ _ Hu E1) as (Hw & Hn & Ht).
    apply run_bind_ok in E as (l & w2 & E2 & E). cbn [fst] in E2. rewrite run_ret in E. assert (rows = List.map (tx_view created_at) l) as -> by congruence.
    apply run_db_ok in E2 as (fs & E2). assert (l = rows_of created_at wid (set_faults fs w1)) as -> by congruence.
    split; [rewrite length_map; unfold rows_of; rewrite length_take; lia|]. exists wid, wl. split; [done|]. split; [done|].
    intros r ([k row] & -> & Hr)%list_elem_of_fmap. unfold rows_of in Hr. apply elem_of_take in Hr as (n & Hr & _).
    apply list_elem_of_lookup_2 in Hr. rewrite (merge_sort_Permutation (later created_at)) in Hr.
    apply list_elem_of_In, List.filter_In in Hr as [Hr Hk]. apply bool_decide_eq_true in Hk.
    apply list_elem_of_In, elem_of_map_to_list in Hr. exists k, row. split_and!; [|done|done].
    unfold tables_eq in Ht. destruct_and!. change (w_ledger (set_faults fs w1)) with (w_ledger w1) in Hr. congruence.
  - intros vs w' E v Hv. eapply (bets_own i u (fun b => bool_decide (b_status b ∈ [active; payout_pending])) (merge_sort newer_bet)) in E as (id & b & Hb & Hn & Hs & ->); [|done| |exact Hv].
    + apply bool_decide_eq_true in Hs. by exists id, b.
    + intros l b. by rewrite (merge_sort_Permutation newer_bet).
  - intros vs w' E v Hv. eapply (bets_own i u (fun b => negb (bool_decide (b_status b ∈ [reserving; cancelling]))) (fun l => take 50 (merge_sort newer_bet l))) in E as (id & b & Hb & Hn & Hs & ->); [|done| |exact Hv].
    + apply negb_true_iff, bool_decide_eq_false in Hs. by exists id, b.
    + intros l b (n & Hn & _)%elem_of_take. apply list_elem_of_lookup_2 in Hn. by rewrite (merge_sort_Permutation newer_bet) in Hn.
Qed.
End own.

(** ** A concrete site *)

#[local] Existing Instance two_operators.
#[local] Existing Instance TicketJwt.

Definition secret_env (k : string) : option string := if eqb_str k "JWT_SECRET" then Some "s3cret"%string else None.
Definition site_options : jwt_options := mk_jwt_options "s3cret" (30 * 24 * 60 * 60).
Definition site_world : world :=
  mk_world 5000 [] 7 ∅ ∅ ∅ ∅ ∅ ∅ [] [] [] [] [] [] [] ∅ ∅.
Definition site_ticket : Ticket :=
  mk_ticket ([("sub", JStr (Keys.uuid_string 7)); ("username", JStr (guest_name 7))]%string ++ ticket_extra None 5000 2592005) "s3cret" 2592005.
Definition one_text (_ : string) : Ticket := site_ticket.
Definition site_request : request := mk_request (fun h => if eqb_str h "authorization" then Some (One "Bearer x") else None) None None.

Lemma site_ready : guest_ready site_world.
Proof. by split. Qed.

(** A guest of this site asks for its balance a day later, and forty days later. *)
Lemma guest_can_play_witness :
  exists g w1, run (createGuest site_options) site_world = (Ok g, w1) /\ gu_balance g = 10000 /\
    (run (i ← jwtGuard one_text site_options site_request;
          getBalance (Router.WalletRouter Ledger.LedgerService Ledger.LedgerService GameSession.isDemoWallet) i) (set_now 86405000 w1)).1 = Ok ("DEMO"%string, 10000) /\
    (run (i ← jwtGuard one_text site_options site_request;
          getBalance (Router.WalletRouter Ledger.LedgerService Ledger.LedgerService GameSession.isDemoWallet) i) (set_now 3456005000 w1)).1 =
    Raise (Unauthorized "invalid_token").
Proof.
  destruct (guest_can_play (HJ := TicketJwt_laws) one_text site_options Ledger.LedgerService secret_env site_world site_ticket
    eq_refl site_ready eq_refl) as (g & w1 & Hr & _ & Hg & Hall).
  exists g, w1. split; [exact Hr|]. split; [exact Hg|].
  assert (bears one_text site_request site_ticket) as Hb by (exists "x"%string; split; reflexivity).
  split; rewrite Hall by exact Hb; reflexivity.
Defined.

(** Another guest whose identifier starts with the same eight digits. *)
Definition taken_world : world := set_users {[ 9%N := mk_user (guest_name 9) true None ]} site_world.

(** The username holds 32 bits of the identifier and is unique, so a new guest
    is refused, as an internal error, when another has the same 32 bits. *)
Theorem guest_name_collides :
  guest_name 7 = guest_name 9 /\
  run (createGuest site_options) taken_world = (Raise UniqueViolation, bump_uuid taken_world).
Proof. split; [reflexivity|]. vm_compute. reflexivity. Qed.

(** Two players with a bet each. *)
Definition sample_bet (id user : uuid) : bet :=
  mk_bet id 100 user 50 PanelA 500 None active None 0 true None "DEMO" None None None 4000 None.
Definition two_players : world := set_bets {[ 60%N := sample_bet 60 7; 61%N := sample_bet 61 8 ]} (guest_world site_world).
Definition player_seven : identity := mk_identity (Some (JStr (Keys.uuid_string 7))) None.

Lemma player_reads_own_witness :
  run (bets_active player_seven) two_players = (Ok [serialize (sample_bet 60 7)], two_players) /\
  (exists id b, w_bets two_players !! id = Some b /\ names (Keys.uuid_string 7) (b_userId b) /\
     serialize (sample_bet 60 7) = serialize b) /\
  exists wid wl, w_wallets two_players !! wid = Some wl /\ names (Keys.uuid_string 7) (w_userId wl).
Proof.
  assert (run (bets_active player_seven) two_players = (Ok [serialize (sample_bet 60 7)], two_players)) as E by (vm_compute; reflexivity).
  destruct (player_reads_own Ledger.LedgerService (fun _ => 0) player_seven (Keys.uuid_string 7) two_players eq_refl)
    as (Hbal & _ & Hact & _).
  split; [exact E|]. split.
  - destruct (Hact _ _ E (serialize (sample_bet 60 7))) as (id & b & Hb & Hn & _ & Hv); [by left|]. by exists id, b.
  - assert (run (getBalance Ledger.LedgerService player_seven) two_players = (Ok ("DEMO"%string, 10000), two_players)) as Eb by (vm_compute; reflexivity).
    destruct (Hbal _ _ _ Eb) as (wid & wl & _ & _ & Hw & Hn & _). by exists wid, wl.
Defined.
End PlayerApi.
