(* ===== verification/Retention.v ===== *)
(** * The command line of erasure

    [scripts/retention-sweep.ts] and [scripts/anonymize-player.ts], on the service
    of [DataErasure].  What is printed is not modelled, the exit code is. 
    Proved: the sweep picks exactly the dormant players, oldest first; nothing is
    written without --apply; money is never touched and no player's failure stops
    the others; and two ways in which it does too much or nothing. *)

From Stdlib Require Import QArith.
From S2P Require Import Prelude Effects Js Cli Dates Money Schema Wallet Ledger Keys AuditLog Launch Sessions SessionSafety DataErasure.

Open Scope Z_scope.

#[local] Set Warnings "-clear-no-such-hyp".

(** ** The sweep *)

Inductive sweep_result :=
| NoSuchOperator
| NothingToDo
| WouldErase (l : list dormant_player)
| Applied (erased noop skippedNotSettled : Z).

(** [process.exit] *)
Definition exit_code (r : res sweep_result) : Z :=
  match r with Ok NoSuchOperator | Raise _ => 1 | Ok _ => 0 end.

Module Retention.
Import GameSession DataErasure.

Section sweep.
Context `{UuidColumn} (hmac256 : string -> string -> string) (stringify_length : json -> Z).
Context (process_env : Risk.env).

Definition resolveRetentionDays (args : list (string * Cli.value)) : res Z :=
  match (match Cli.str (Cli.arg "days" args) with Some d => Some d | None => process_env "RETENTION_DAYS" end) with
  | None => Ok 365
  | Some raw =>
      let n := js_Number raw in
      if negb (js_isFinite n) || negb (js_isInteger n) || negb (js_ge n 1)
      then Raise (JsError "invalid retention window")
      else match n with Fin q => Ok (Qfloor_Z q) | _ => Raise (JsError "invalid retention window") end
  end.

Definition limit_of (args : list (string * Cli.value)) : option Z :=
  match Cli.str (Cli.arg "limit" args) with
  | Some raw =>
      let n := js_Number raw in
      if js_isInteger n && js_ge n 0 then match n with Fin q => Some (Qfloor_Z q) | _ => None end else None
  | None => None
  end.

Definition MAX_TIME : Z := 8640000000000000.

(** [candidates.slice(0, limit)] *)
Definition slice_limit (limit : option Z) (l : list dormant_player) : list dormant_player :=
  match limit with Some n => take (Z.to_nat n) l | None => l end.

Definition erasure_of (days : Z) (c : dormant_player) : AnonymizePlayerInput :=
  mk_erasure (Keys.uuid_string (d_operatorId c)) (d_playerId c) None "retention-sweep"
    (Some ("retention sweep: dormant > " +:+ BigInt_toString days +:+ "d (last activity " +:+ Dates.toISOString (d_last c) +:+ ")")%string).

(** The counters: erased, no-op, skipped. *)
Definition sweep_one (days : Z) (n : Z * Z * Z) (c : dormant_player) : prog world (Z * Z * Z) :=
  let '(erased, noop, skipped) := n in
  try_catch
    (r ← anonymizePlayer hmac256 stringify_length Dates.toISOString process_env (erasure_of days c);
     mret (if (usersAffected r =? 0) || alreadyAnonymized r then (erased, noop + 1, skipped) else (erased + 1, noop, skipped)))
    (fun e => match e with
              | BadRequest m => mret (if eqb_str m "player_not_settled" then (erased, noop, skipped + 1) else n)
              | _ => mret n
              end).

(** [--operator-code]: the identifier to filter by, if any. *)
Definition operator_scope (args : list (string * Cli.value)) : prog world (option (option uuid)) :=
  match Cli.str (Cli.arg "operator-code" args) with
  | Some (String _ _ as code) =>
      op ← db_get (fun w => operator_with_code w code);
      mret (match op with Some id => Some (Some id) | None => None end)
  | _ => mret (Some None)
  end.

Definition in_scope (scope : option uuid) (c : dormant_player) : bool :=
  match scope with Some id => bool_decide (d_operatorId c = id) | None => true end.

Definition main (argv : list string) : prog world sweep_result :=
  let args := Cli.parseArgs argv in
  let apply_ := Cli.is_true (Cli.arg "apply" args) in
  match resolveRetentionDays args with
  | Raise e => raise e
  | Ok days =>
      let limit := limit_of args in
      now ← Date_now;
      let cutoff := now - days * 24 * 60 * 60 * 1000 in
      scope ← operator_scope args;
      match scope with
      | None => mret NoSuchOperator
      | Some scope =>
          found ← findDormantPlayers cutoff;
          let candidates := List.filter (in_scope scope) found in
          if cutoff <? - MAX_TIME then raise (JsError "Invalid time value")
          else
            match candidates with
            | [] => mret NothingToDo
            | _ =>
                if negb apply_ then mret (WouldErase candidates)
                else
                  n ← fold_each (slice_limit limit candidates) (sweep_one days) (0, 0, 0);
                  mret (Applied n.1.1 n.1.2 n.2)
            end
      end
  end.

(** ** One player *)

Inductive anonymize_result := Usage | NoOperator | Anonymized (r : AnonymizePlayerResult).

(** [scripts/anonymize-player.ts] *)
Definition anonymize_main (argv : list string) : prog world anonymize_result :=
  let args := Cli.parseArgs argv in
  let operatorId := Cli.str (Cli.arg "operator-id" args) in
  let operatorCode := Cli.str (Cli.arg "operator-code" args) in
  let truthy s := match s with Some (String _ _) => true | _ => false end in
  match Cli.str (Cli.arg "player-id" args) with
  | Some (String _ _ as playerId) =>
      if negb (truthy operatorId) && negb (truthy operatorCode) then mret Usage
      else
        opId ← (if truthy operatorId then mret operatorId
                else op ← db_get (fun w => operator_with_code w (nullish operatorCode EmptyString));
                     mret (option_map Keys.uuid_string op));
        match opId with
        | None => mret NoOperator
        | Some id =>
            r ← anonymizePlayer hmac256 stringify_length Dates.toISOString process_env
                  (mk_erasure id playerId (Cli.str (Cli.arg "currency" args)) "provision-cli" (Cli.str (Cli.arg "reason" args)));
            mret (Anonymized r)
        end
  | _ => mret Usage
  end.
End sweep.

(** ** Who is dormant *)

Definition in_group (g : dormant_player) (s : session) : Prop := s_operatorId s = d_operatorId g /\ s_playerId s = d_playerId g.
Definition group_key (g : dormant_player) : uuid * string := (d_operatorId g, d_playerId g).

(** A group is the wallets and the latest launch of its sessions. *)
Record group_ok (l : list session) (g : dormant_player) : Prop := {
  go_wallets wid : wid ∈ d_wallets g <-> exists s, s ∈ l /\ in_group g s /\ s_walletId s = wid;
  go_last s : s ∈ l -> in_group g s -> s_createdAt s <= d_last g;
  go_some : exists s, s ∈ l /\ in_group g s /\ s_createdAt s = d_last g
}.

Definition groups_ok (l : list session) (gs : list dormant_player) : Prop :=
  NoDup (group_key <$> gs) /\ (forall g, g ∈ gs -> group_ok l g) /\ forall s, s ∈ l -> exists g, g ∈ gs /\ in_group g s.

Definition joined (g : dormant_player) (s : session) : dormant_player :=
  mk_dormant (d_operatorId g) (d_playerId g) (if bool_decide (s_walletId s ∈ d_wallets g) then d_wallets g else d_wallets g ++ [s_walletId s])
    (if d_last g <? s_createdAt s then s_createdAt s else d_last g).

Lemma group_session_cases s gs :
  (exists gs1 g gs2, gs = gs1 ++ g :: gs2 /\ in_group g s /\ group_session s gs = gs1 ++ joined g s :: gs2) \/
  ((forall g, g ∈ gs -> ~ in_group g s) /\
   group_session s gs = gs ++ [mk_dormant (s_operatorId s) (s_playerId s) [s_walletId s] (s_createdAt s)]).
Proof.
  induction gs as [|g gs IH]; cbn; [by right; split; [set_solver|]|].
  destruct (bool_decide_reflect (d_operatorId g = s_operatorId s)) as [Ho|Ho]; cbn [andb].
  - destruct (eqb_str (d_playerId g) (s_playerId s)) eqn:Hp.
    + apply eqb_str_eq in Hp. left. by exists [], g, gs.
    + destruct IH as [(gs1 & h & gs2 & -> & Hh & ->)|[Hn ->]]; [left; by exists (g :: gs1), h, gs2|right]. split; [|done].
      intros h [->|Hh]%elem_of_cons; [|by apply Hn]. intros [_ Hq]. rewrite Hq, eqb_str_refl in Hp. done.
  - destruct IH as [(gs1 & h & gs2 & -> & Hh & ->)|[Hn ->]]; [left; by exists (g :: gs1), h, gs2|right]. split; [|done].
    intros h [->|Hh]%elem_of_cons; [|by apply Hn]. by intros [Hq _].
Qed.

Lemma group_same_key g h s : in_group g s -> in_group h s -> group_key g = group_key h.
Proof. intros [H1 H2] [H3 H4]. unfold group_key. congruence. Qed.

Lemma group_ok_other l g s : group_ok l g -> ~ in_group g s -> group_ok (l ++ [s]) g.
Proof.
  intros [Hw Hl Hs] Hn. split.
  - intros wid. rewrite Hw. setoid_rewrite elem_of_app. setoid_rewrite list_elem_of_singleton. naive_solver.
  - intros x [Hx| ->%list_elem_of_singleton]%elem_of_app Hg; [by apply Hl|done].
  - destruct Hs as (x & ? & ? & ?). exists x. split_and!; [|done|done]. apply elem_of_app. by left.
Qed.

Lemma group_ok_joined l g s : group_ok l g -> in_group g s -> group_ok (l ++ [s]) (joined g s).
Proof.
  intros [Hw Hl Hs] Hg. assert (forall x, in_group (joined g s) x <-> in_group g x) as Hj by done. split.
  - intros wid. setoid_rewrite Hj. setoid_rewrite elem_of_app. setoid_rewrite list_elem_of_singleton. cbn [d_wallets joined].
    destruct (bool_decide_reflect (s_walletId s ∈ d_wallets g)) as [Hin|Hout].
    + rewrite Hw. split; [naive_solver|]. intros (x & [Hx| ->] & Hx2 & <-); [eauto|]. by apply Hw.
    + rewrite elem_of_app, list_elem_of_singleton, Hw. naive_solver.
  - intros x [Hx| ->%list_elem_of_singleton]%elem_of_app Hx2; cbn [d_last joined]; destruct (Z.ltb_spec (d_last g) (s_createdAt s)); try lia.
    + specialize (Hl x Hx (proj1 (Hj x) Hx2)). lia.
    + by apply Hl, Hj.
  - cbn [d_last joined]. destruct (Z.ltb_spec (d_last g) (s_createdAt s)).
    + exists s. split_and!; [apply elem_of_app; right; by left|by apply Hj|done].
    + destruct Hs as (x & ? & ? & ?). exists x. split_and!; [apply elem_of_app; by left|by apply Hj|done].
Qed.

Lemma groups_step l gs s : groups_ok l gs -> groups_ok (l ++ [s]) (group_session s gs).
Proof.
  intros (Hnd & Hok & Hall). destruct (group_session_cases s gs) as [(gs1 & g & gs2 & -> & Hg & ->)|[Hn ->]].
  - rewrite fmap_app, fmap_cons in Hnd. split; [by rewrite fmap_app, fmap_cons|]. split.
    + intros h [Hh|[->|Hh]%elem_of_cons]%elem_of_app.
      * apply group_ok_other; [apply Hok, elem_of_app; by left|]. intros Hs. apply NoDup_app in Hnd as (_ & Hd & _).
        apply (Hd (group_key h)); [by apply list_elem_of_fmap_2|]. rewrite (group_same_key h g s) by done. by left.
      * apply group_ok_joined; [|done]. apply Hok, elem_of_app. right. by left.
      * apply group_ok_other; [apply Hok, elem_of_app; right; by right|]. intros Hs. apply NoDup_app in Hnd as (_ & _ & Hd).
        apply NoDup_cons in Hd as [Hd _]. apply Hd. rewrite (group_same_key g h s) by done. by apply list_elem_of_fmap_2.
    + intros x [Hx| ->%list_elem_of_singleton]%elem_of_app.
      * destruct (Hall x Hx) as (h & [Hh|[->|Hh]%elem_of_cons]%elem_of_app & Hx2).
        -- exists h. split; [apply elem_of_app; by left|done].
        -- exists (joined g s). split; [apply elem_of_app; right; by left|done].
        -- exists h. split; [apply elem_of_app; right; by right|done].
      * exists (joined g s). split; [apply elem_of_app; right; by left|done].
  - split; [|split].
    + rewrite fmap_app. apply NoDup_app. split; [done|]. split; [|by apply NoDup_singleton].
      intros k (g & -> & Hg)%list_elem_of_fmap Hk%list_elem_of_singleton. apply (Hn g Hg). unfold group_key in Hk. cbn in Hk. injection Hk as H1 H2. by split.
    + intros h [Hh| ->%list_elem_of_singleton]%elem_of_app; [by apply group_ok_other; [apply Hok|apply Hn]|]. split; cbn.
      * intros wid. rewrite list_elem_of_singleton. setoid_rewrite elem_of_app. setoid_rewrite list_elem_of_singleton. split.
        -- intros ->. exists s. split_and!; [by right|done|done].
        -- intros (x & [Hx| ->] & Hx2 & <-); [|done]. destruct (Hall x Hx) as (g & Hg & Hxg). destruct (Hn g Hg).
           destruct Hxg as [H1 H2], Hx2 as [H3 H4]. cbn in *. split; congruence.
      * intros x [Hx| ->%list_elem_of_singleton]%elem_of_app Hx2; [|lia]. destruct (Hall x Hx) as (g & Hg & Hxg). destruct (Hn g Hg).
        destruct Hxg as [H1 H2], Hx2 as [H3 H4]. cbn in *. split; congruence.
      * exists s. split_and!; [apply elem_of_app; right; by left|done|done].
    + intros x [Hx| ->%list_elem_of_singleton]%elem_of_app.
      * destruct (Hall x Hx) as (g & Hg & Hxg). exists g. split; [apply elem_of_app; by left|done].
      * eexists. split; [apply elem_of_app; right; by left|done].
Qed.

Lemma group_sessions_ok l : groups_ok l (group_sessions l).
Proof.
  unfold group_sessions. induction l as [|s l IH] using rev_ind; [by split; [apply NoDup_nil_2|split; set_solver]|].
  rewrite fold_left_app. by apply groups_step.
Qed.

(** *** The latest bet *)

Lemma last_bet_le wid l c : (forall t, last_bet wid l = Some t -> t < c) <-> forall b, b ∈ l -> b_walletId b = wid -> b_createdAt b < c.
Proof.
  unfold last_bet. induction l as [|b l IH] using rev_ind; [split; [set_solver|done]|].
  rewrite fold_left_app. cbn. revert IH. generalize (fold_left (fun m b => if bool_decide (b_walletId b = wid)
    then Some (match m with Some t => Z.max t (b_createdAt b) | None => b_createdAt b end) else m) l None). intros m IH.
  setoid_rewrite elem_of_app. setoid_rewrite list_elem_of_singleton.
  destruct (bool_decide_reflect (b_walletId b = wid)) as [<-|Hne].
  - split.
    + intros Ht. pose proof (Ht _ eq_refl) as H1. intros x [Hx| ->] Hw; [|destruct m; lia].
      apply (proj1 IH); [|done|done]. intros t ->. lia.
    + intros Hb t [= <-]. pose proof (Hb b (or_intror eq_refl) eq_refl). destruct m as [t|]; [|done].
      assert (t < c) by (apply (proj2 IH); [intros x Hx Hw; apply Hb; [by left|done]|done]). lia.
  - rewrite IH. split; intros Hb x; [intros [Hx| ->] Hw; [by apply Hb|done]|]. intros Hx Hw. apply Hb; [by left|done].
Qed.

Lemma last_activity_lt bets g c : last_activity bets g < c <->
  d_last g < c /\ forall b, b ∈ bets -> b_walletId b ∈ d_wallets g -> b_createdAt b < c.
Proof.
  unfold last_activity. generalize (d_last g). induction (d_wallets g) as [|wid ids IH]; intros t; cbn.
  { split; [intros Ht; split; [done|set_solver]|by intros []]. }
  rewrite IH. assert ((match last_bet wid bets with Some b => if t <? b then b else t | None => t end) < c <->
    t < c /\ forall s, last_bet wid bets = Some s -> s < c) as ->.
  { destruct (last_bet wid bets) as [s|]; [|naive_solver]. destruct (Z.ltb_spec t s); split.
    - intros. split; [lia|]. intros ? [= <-]. lia.
    - intros [_ Hs]. by apply Hs.
    - intros. split; [lia|]. intros ? [= <-]. lia.
    - by intros [? _]. }
  rewrite last_bet_le. setoid_rewrite elem_of_cons. naive_solver.
Qed.

(** *** Oldest first *)

Definition older (g h : dormant_player) : Prop := d_last g <= d_last h.

Lemma insert_oldest_perm g l : insert_oldest g l ≡ₚ g :: l.
Proof. induction l as [|h l IH]; cbn; [done|]. destruct (_ <? _); [done|]. rewrite IH. apply Permutation_swap. Qed.
Lemma sort_oldest_perm l : sort_oldest l ≡ₚ l.
Proof.
  unfold sort_oldest. induction l as [|g l IH] using rev_ind; [done|]. rewrite fold_left_app. cbn.
  rewrite insert_oldest_perm, IH. by rewrite Permutation_cons_append.
Qed.
Lemma insert_oldest_sorted g l : StronglySorted older l -> StronglySorted older (insert_oldest g l).
Proof.
  induction 1 as [|h l Hl IH Hh]; cbn; [by repeat constructor|]. destruct (Z.ltb_spec (d_last g) (d_last h)).
  - constructor; [by constructor|]. constructor; [unfold older; lia|]. eapply Forall_impl; [exact Hh|]. unfold older. lia.
  - constructor; [done|]. rewrite insert_oldest_perm. constructor; [unfold older; lia|done].
Qed.
Lemma sort_oldest_sorted l : StronglySorted older (sort_oldest l).
Proof.
  unfold sort_oldest. induction l as [|g l IH] using rev_ind; [constructor|]. rewrite fold_left_app. by apply insert_oldest_sorted.
Qed.

(** *** The selection *)

Definition is_anonymized (w : world) (wid : uuid) : Prop :=
  exists wl u, w_wallets w !! wid = Some wl /\ w_users w !! w_userId wl = Some u /\ is_Some (u_anonymizedAt u).

(** The player was launched under this operator, every launch and every bet of
    its wallets is older, and none of them is anonymized. *)
Definition dormant (cutoff : Z) (w : world) (op : uuid) (player : string) : Prop :=
  (exists k s, w_sessions w !! k = Some s /\ s_operatorId s = op /\ s_playerId s = player) /\
  forall k s, w_sessions w !! k = Some s -> s_operatorId s = op -> s_playerId s = player ->
    s_createdAt s < cutoff /\ ~ is_anonymized w (s_walletId s) /\
    forall i b, w_bets w !! i = Some b -> b_walletId b = s_walletId s -> b_createdAt b < cutoff.

Definition all_sessions (w : world) : list session := (map_to_list (w_sessions w)).*2.
Definition their_bets (w : world) : list bet :=
  bets_where (fun b => bool_decide (b_walletId b ∈ List.map s_walletId (all_sessions w))) w.
Definition anon_wallet_ids (w : world) : list uuid :=
  (wallets_where (fun e => bool_decide (e.1 ∈ List.map s_walletId (all_sessions w))
     && match w_users w !! w_userId e.2 with Some u => is_Some_b (u_anonymizedAt u) | None => false end) w).*1.
Definition selected (cutoff : Z) (w : world) : list dormant_player :=
  sort_oldest (List.filter (fun g => d_last g <? cutoff)
    (List.map (fun g => mk_dormant (d_operatorId g) (d_playerId g) (d_wallets g) (last_activity (their_bets w) g))
      (List.filter (fun g => negb (existsb (fun id => bool_decide (id ∈ anon_wallet_ids w)) (d_wallets g)))
        (group_sessions (all_sessions w))))).

Lemma run_find cutoff w : w_faults w = [] -> run (findDormantPlayers cutoff) w = (Ok (selected cutoff w), w).
Proof.
  intros Hf. unfold findDormantPlayers. rewrite run_bind, run_db_get by done. fold (all_sessions w).
  unfold selected. destruct (all_sessions w) as [|s l] eqn:E; [done|]. rewrite <- E.
  rewrite run_bind, run_db_get by done. rewrite run_bind, run_db_get by done. by rewrite run_ret.
Qed.

Lemma all_sessions_in w s : s ∈ all_sessions w <-> exists k, w_sessions w !! k = Some s.
Proof. apply map_values_in. Qed.

Lemma session_wallet_in w s : s ∈ all_sessions w -> s_walletId s ∈ List.map s_walletId (all_sessions w).
Proof. intros Hs. apply list_elem_of_fmap. by exists s. Qed.

Lemma anon_wallet_in w s : s ∈ all_sessions w -> s_walletId s ∈ anon_wallet_ids w <-> is_anonymized w (s_walletId s).
Proof.
  intros Hs. unfold anon_wallet_ids, wallets_where, is_anonymized. rewrite list_elem_of_fmap. split.
  - intros ([wid wl] & -> & [Hin%list_elem_of_In Hp]%list_elem_of_In%List.filter_In). apply elem_of_map_to_list in Hin.
    apply andb_true_iff in Hp as [_ Hp]. cbn [fst snd] in *. destruct (w_users w !! w_userId wl) as [u|] eqn:Eu; [|done].
    exists wl, u. split_and!; [done|done|by destruct (u_anonymizedAt u)].
  - intros (wl & u & Hwl & Hu & Ha). exists (s_walletId s, wl). split; [done|]. apply list_elem_of_In, List.filter_In.
    split; [by apply list_elem_of_In, elem_of_map_to_list|]. cbn [fst snd]. rewrite Hu, bool_decide_eq_true_2 by by apply session_wallet_in.
    by destruct (u_anonymizedAt u), Ha.
Qed.

Lemma selected_elem cutoff w h : h ∈ selected cutoff w <->
  exists g, g ∈ group_sessions (all_sessions w) /\ h = mk_dormant (d_operatorId g) (d_playerId g) (d_wallets g) (last_activity (their_bets w) g) /\
    last_activity (their_bets w) g < cutoff /\ forall wid, wid ∈ d_wallets g -> wid ∉ anon_wallet_ids w.
Proof.
  unfold selected. rewrite sort_oldest_perm, list_elem_of_In, List.filter_In, <- list_elem_of_In, list_elem_of_fmap.
  assert (Hanon : forall g, negb (existsb (fun id => bool_decide (id ∈ anon_wallet_ids w)) (d_wallets g)) = true <->
    forall wid, wid ∈ d_wallets g -> wid ∉ anon_wallet_ids w).
  { intros g. rewrite negb_true_iff. split.
    - intros He wid Hw Hin. assert (existsb (fun id => bool_decide (id ∈ anon_wallet_ids w)) (d_wallets g) = true) as E; [|congruence].
      apply existsb_exists. exists wid. split; [by apply list_elem_of_In|by apply bool_decide_eq_true].
    - intros Hw. destruct (existsb _ _) eqn:E; [|done]. apply existsb_exists in E as (wid & Hin%list_elem_of_In & Ha%bool_decide_eq_true).
      destruct (Hw wid Hin Ha). }
  split.
  - intros [(g & -> & [Hg%list_elem_of_In Ha]%list_elem_of_In%List.filter_In) Hl%Z.ltb_lt]. exists g. split_and!; [done|done|done|by apply Hanon].
  - intros (g & Hg & -> & Hl & Ha). split; [|by apply Z.ltb_lt]. exists g. split; [done|]. apply list_elem_of_In, List.filter_In.
    split; [by apply list_elem_of_In|by apply Hanon].
Qed.

Lemma NoDup_fmap_filter {A B} (f : A -> B) (P : A -> bool) l : NoDup (f <$> l) -> NoDup (f <$> List.filter P l).
Proof.
  induction l as [|x l IH]; [done|]. cbn. intros [Hx Hl]%NoDup_cons. destruct (P x); [|by apply IH]. apply NoDup_cons. split; [|by apply IH].
  intros (y & E & [Hy _]%list_elem_of_In%List.filter_In)%list_elem_of_fmap. apply Hx. rewrite E. apply list_elem_of_fmap_2. by apply list_elem_of_In.
Qed.

(** The selection is exactly the dormant players, each once, oldest first. *)
Lemma selected_exact cutoff w :
  (forall op player, (exists g, g ∈ selected cutoff w /\ d_operatorId g = op /\ d_playerId g = player) <-> dormant cutoff w op player) /\
  NoDup (group_key <$> selected cutoff w) /\ StronglySorted older (selected cutoff w).
Proof.
  destruct (group_sessions_ok (all_sessions w)) as (Hnd & Hok & Hall). split; [|split; [|apply sort_oldest_sorted]].
  - intros op player. split.
    + intros (h & (g & Hg & -> & Hl & Ha)%selected_elem & <- & <-). cbn [d_operatorId d_playerId].
      destruct (Hok g Hg) as [Hw Hlast (s0 & Hs0 & [Ho Hp] & _)]. apply last_activity_lt in Hl as [Hl Hb]. split.
      { apply all_sessions_in in Hs0 as [k Hk]. by exists k, s0. }
      intros k s Hk Hso Hsp. assert (Hs : s ∈ all_sessions w) by (apply all_sessions_in; by exists k).
      assert (Hin : s_walletId s ∈ d_wallets g) by (apply Hw; by exists s).
      split; [specialize (Hlast s Hs (conj Hso Hsp)); lia|]. split.
      * intros Han%anon_wallet_in; [|done]. by apply (Ha _ Hin).
      * intros i b Hi Hbw. apply Hb; [|by rewrite Hbw]. apply bets_where_elem. split; [by exists i|].
        apply bool_decide_eq_true. rewrite Hbw. by apply session_wallet_in.
    + intros [(k & s & Hk & Ho & Hp) Hd]. assert (Hs : s ∈ all_sessions w) by (apply all_sessions_in; by exists k).
      destruct (Hall s Hs) as (g & Hg & Hgs). destruct (Hok g Hg) as [Hw Hlast (s1 & Hs1 & Hg1 & Hs1l)].
      assert (Hmem : forall x, x ∈ all_sessions w -> in_group g x -> exists k, w_sessions w !! k = Some x /\ s_operatorId x = op /\ s_playerId x = player).
      { intros x [kx Hx]%all_sessions_in [H1 H2]. exists kx. destruct Hgs. split_and!; [done|congruence|congruence]. }
      eexists. split; [|destruct Hgs; split; cbn; [|]; [instantiate (1 := mk_dormant (d_operatorId g) (d_playerId g) (d_wallets g) (last_activity (their_bets w) g))|]; cbn; congruence].
      apply selected_elem. exists g. split_and!; [done|done| |].
      * apply last_activity_lt. split.
        -- destruct (Hmem s1 Hs1 Hg1) as (k1 & Hk1 & Ho1 & Hp1). rewrite <- Hs1l. by apply (Hd k1 s1).
        -- intros b [[i Hi] _]%bets_where_elem Hbw. apply Hw in Hbw as (x & Hx & Hgx & Hxw). destruct (Hmem x Hx Hgx) as (kx & Hkx & Hox & Hpx).
           by apply (proj2 (proj2 (Hd kx x Hkx Hox Hpx)) i b).
      * intros wid (x & Hx & Hgx & <-)%Hw. destruct (Hmem x Hx Hgx) as (kx & Hkx & Hox & Hpx).
        rewrite anon_wallet_in by done. by apply (Hd kx x).
  - unfold selected. rewrite sort_oldest_perm. apply NoDup_fmap_filter.
    unfold fmap. rewrite <- list_fmap_compose. change (group_key ∘ _) with group_key. by apply NoDup_fmap_filter.
Qed.

(** ** What a sweep changes *)

Section effect.
Context `{UuidColumn} (hmac256 : string -> string -> string) (stringify_length : json -> Z).
Context (process_env : Risk.env).

#[local] Abbreviation anonymize := (anonymizePlayer hmac256 stringify_length Dates.toISOString process_env).
#[local] Abbreviation sweep := (main hmac256 stringify_length process_env).
#[local] Abbreviation tomb := (playerTombstone hmac256 process_env).

(** An erasure leaves the users and the sessions alone, or scrubs those it resolved. *)
Record erasure_effect (input : AnonymizePlayerInput) (n : uuid) (w w' : world) : Prop := {
  ee_calm : w_faults w' = [];
  ee_wallets : w_wallets w' = w_wallets w;
  ee_rows : (w_users w' = w_users w /\ w_sessions w' = w_sessions w) \/
    let us := resolved hmac256 process_env (e_operatorId input) (e_playerId input) n w in
    w_users w' = scrubbed_users hmac256 process_env (w_now w) (row_ids us) (w_users w) /\
    w_sessions w' = scrubbed_sessions (tomb (e_operatorId input) (e_playerId input)) (List.concat (List.map snd us)) (w_sessions w)
}.

Lemma scrub_tx_calm now ids wids t w : w_faults w = [] -> w_faults (run (scrub_tx hmac256 process_env now ids wids t) w).2 = [].
Proof using Type.
  intros Hf. unfold scrub_tx. rewrite run_bind.
  assert (w_faults (run (for_each ids (scrub_user hmac256 process_env now)) w).2 = []) as H1.
  { apply (run_for_each_inv (fun w => w_faults w = [])); [done|]. intros id v _ Hv. unfold scrub_user. rewrite run_db_nofault by done.
    by repeat case_match. }
  destruct (run (for_each _ _) w) as [[[]|e] w1]; [|done]. cbn [snd] in H1. unfold db_set. rewrite run_bind, run_db_nofault by done.
  by rewrite run_db_nofault.
Qed.

Lemma anonymize_effect input n w : w_faults w = [] -> uuid_column (e_operatorId input) = Some n ->
  erasure_effect input n w (run (anonymize input) w).2.
Proof using Type.
  intros Hf Hn. destruct (run (anonymize input) w) as [r w'] eqn:E. cbn [snd].
  assert (Hsame : forall v, v = w -> erasure_effect input n w v) by (intros v ->; split; [done|done|by left]).
  unfold anonymizePlayer in E. rewrite run_bind, (run_resolve _ _ _ _ n) in E by done.
  destruct (resolved hmac256 process_env _ _ n w) as [|u0 us0] eqn:Hus; [rewrite run_ret in E; apply Hsame; congruence|]. rewrite <- Hus in E. cbv zeta in E.
  destruct (forallb _ _); [rewrite run_ret in E; apply Hsame; congruence|].
  rewrite run_bind in E. destruct (run (assert_settled _) w) as [ra w1] eqn:Ea. apply run_assert in Ea as [-> Ha]; [|done].
  destruct Ha as [->|(-> & _ & _)]; [apply Hsame; congruence|].
  unfold Date_now, gets in E. rewrite run_bind, run_atom in E. cbn [fst snd] in E. rewrite run_bind in E.
  unfold db_transaction in E. rewrite run_db_nofault in E by done. unfold run_transaction in E.
  match type of E with context [run (scrub_tx ?h ?p ?a ?b ?c ?d) w] => pose proof (scrub_tx_calm a b c d w Hf) as Hc; destruct (run (scrub_tx h p a b c d) w) as [[[]|e] w3] eqn:Etx end;
    cbn [snd] in Hc.
  - apply run_scrub_tx in Etx as (HU & HS & HW & Hf2); [|done]. rewrite run_bind in E. cbn [run emit atom fst snd] in E. rewrite run_bind in E.
    match type of E with context [Audit.record ?sl ?ev] => destruct (Audit.run_audit_record sl ev (set_events (EvMetric "player_anonymize" "" :: w_events w3) w3) Hf2) as [l El] end.
    rewrite El, run_ret in E. assert (w' = set_audit l (set_events (EvMetric "player_anonymize" "" :: w_events w3) w3)) as -> by congruence.
    split; [done|done|]. right. by split.
  - assert (w' = undo_tables w w3) as -> by congruence. split; [done|done|by left].
Qed.

(** A user the sweep may touch: named like a dormant player it erases, owner of a
    session such a player's erasure left behind, or anonymized before. *)
Definition touchable (P : list dormant_player) (w : world) (i : uuid) : Prop :=
  exists u, w_users w !! i = Some u /\ (is_Some (u_anonymizedAt u) \/
    exists c, c ∈ P /\ (named (Keys.uuid_string (d_operatorId c)) (d_playerId c) u \/
                        scrubbed (d_operatorId c) (tomb (Keys.uuid_string (d_operatorId c)) (d_playerId c)) w i)).

Record swept (P : list dormant_player) (w v : world) : Prop := {
  sw_calm : w_faults v = [];
  sw_wallets : w_wallets v = w_wallets w;
  sw_users i : w_users v !! i = w_users w !! i \/ touchable P w i;
  sw_sessions k s : w_sessions v !! k = Some s ->
    w_sessions w !! k = Some s \/ exists wl, w_wallets w !! s_walletId s = Some wl /\ touchable P w (w_userId wl)
}.

Lemma resolved_touchable P w v c i : swept P w v -> c ∈ P ->
  i ∈ row_ids (resolved hmac256 process_env (Keys.uuid_string (d_operatorId c)) (d_playerId c) (d_operatorId c) v) -> touchable P w i.
Proof using Type.
  intros S Hc Hi. destruct (sw_users _ _ _ S i) as [Hu|]; [|done].
  apply resolved_ids in Hi as [(u & Hv & Hnm)|([u Hv] & k & s & wl & Hk & Ho & Hp & Hwl & Hown)].
  - exists u. rewrite <- Hu. split; [done|]. right. exists c. split; [done|by left].
  - rewrite (sw_wallets _ _ _ S) in Hwl. destruct (sw_sessions _ _ _ S k s Hk) as [Hk'|(wl' & Hwl' & Ht)].
    + exists u. rewrite <- Hu. split; [done|]. right. exists c. split; [done|]. right. by exists k, s, wl.
    + rewrite Hwl in Hwl'. injection Hwl' as <-. by rewrite <- Hown.
Qed.

Lemma swept_step P w v c v' : swept P w v -> c ∈ P -> uuid_column (Keys.uuid_string (d_operatorId c)) = Some (d_operatorId c) ->
  forall input, e_operatorId input = Keys.uuid_string (d_operatorId c) -> e_playerId input = d_playerId c ->
  erasure_effect input (d_operatorId c) v v' -> swept P w v'.
Proof using Type.
  intros S Hc Hcol input Ho Hp [Hcalm Hwal Hrows]. rewrite Ho, Hp in Hrows. destruct S as [Sc Sw Su Ss].
  destruct Hrows as [[HU HS]|[HU HS]].
  { split; [done|congruence|by rewrite HU|by rewrite HS]. }
  pose proof (fun i => resolved_touchable P w v c i (Build_swept _ _ _ Sc Sw Su Ss) Hc) as Ht.
  split; [done|congruence| |].
  - intros i. rewrite HU. unfold scrubbed_users. rewrite map_lookup_imap.
    destruct (bool_decide_reflect (i ∈ row_ids (resolved hmac256 process_env (Keys.uuid_string (d_operatorId c)) (d_playerId c) (d_operatorId c) v))) as [Hin|Hout]; [right; by apply Ht|].
    destruct (Su i) as [E|]; [left|by right]. rewrite <- E. by destruct (w_users v !! i).
  - intros k s Hk. rewrite HS in Hk. unfold scrubbed_sessions in Hk. rewrite lookup_fmap in Hk.
    destruct (w_sessions v !! k) as [s0|] eqn:Hk0; [|done]. cbn in Hk.
    destruct (bool_decide_reflect (s_walletId s0 ∈ List.concat (List.map snd (resolved hmac256 process_env (Keys.uuid_string (d_operatorId c)) (d_playerId c) (d_operatorId c) v)))) as [Hw|Hw];
      [|injection Hk as <-; by apply Ss in Hk0].
    injection Hk as <-. right. cbn [s_walletId with_player].
    apply list_elem_of_In, in_concat in Hw as (l & (x & <- & Hx%list_elem_of_In)%in_map_iff & Hw%list_elem_of_In).
    pose proof (resolved_row _ _ _ _ _ _ _ Hx) as [_ Hx2]. rewrite Hx2 in Hw. apply wallets_of_in in Hw as (wl & Hwl & Hown).
    exists wl. split; [congruence|]. rewrite Hown. apply Ht. apply list_elem_of_fmap. by exists x.
Qed.

Lemma steps_sweep argv : steps_in scrub_only (sweep argv).
Proof using Type.
  unfold main. cbv zeta. destruct (resolveRetentionDays _ _); [|steps]. apply steps_bind; [steps|]. intros now.
  apply steps_bind; [unfold operator_scope; steps|]. intros [scope|]; [|steps].
  apply steps_bind; [unfold findDormantPlayers; steps|]. intros found. destruct (_ <? _); [steps|]. destruct (List.filter _ _); [steps|].
  destruct (negb _); [steps|]. apply steps_bind; [|steps]. apply steps_fold_each. intros [[e n] s] c. cbn [sweep_one].
  apply steps_try; [apply steps_bind; [apply steps_anonymize|steps]|]. intros []; steps.
Qed.

Lemma steps_dry argv : Cli.is_true (Cli.arg "apply" (Cli.parseArgs argv)) = false -> steps_in tables_eq (sweep argv).
Proof using Type.
  intros Ha. unfold main. cbv zeta. rewrite Ha. destruct (resolveRetentionDays _ _); [|steps]. apply steps_bind; [steps|]. intros now.
  apply steps_bind; [unfold operator_scope; steps|]. intros [scope|]; [|steps].
  apply steps_bind; [unfold findDormantPlayers; steps|]. intros found. destruct (_ <? _); [steps|]. by destruct (List.filter _ _); steps.
Qed.

(** The operator named on the command line, when one is. *)
Definition scoped (args : list (string * Cli.value)) (w : world) (op : uuid) : Prop :=
  match Cli.str (Cli.arg "operator-code" args) with
  | Some (String _ _ as code) => operator_with_code w code = Some op
  | _ => True
  end.

Lemma run_scope args w : w_faults w = [] ->
  exists o, run (operator_scope args) w = (Ok o, w) /\
    forall scope, o = Some scope -> forall c, in_scope scope c = true <-> scoped args w (d_operatorId c).
Proof using Type.
  intros Hf. unfold operator_scope, scoped. destruct (Cli.str _) as [[|a s]|]; [by eexists; split; [done|]; intros ? [= <-]| |by eexists; split; [done|]; intros ? [= <-]].
  rewrite run_bind, run_db_get, run_ret by done. destruct (operator_with_code w (String a s)) as [id|].
  - eexists. split; [done|]. intros ? [= <-] c. cbn. rewrite bool_decide_eq_true. split; [by intros ->|by intros [= ->]].
  - by eexists.
Qed.

Lemma run_sweep_all P w days : w_faults w = [] -> (forall c, c ∈ P -> uuid_column (Keys.uuid_string (d_operatorId c)) = Some (d_operatorId c)) ->
  forall l, (forall c, c ∈ l -> c ∈ P) -> forall n,
  swept P w (run (fold_each l (sweep_one hmac256 stringify_length process_env days) n) w).2.
Proof using Type.
  intros Hf Hcol l Hl n. apply (run_fold_each_inv (swept P w)); [by split; auto|]. intros [[e m] s] c v Hc Sv. cbn [sweep_one].
  rewrite run_try, run_bind.
  pose proof (anonymize_effect (erasure_of days c) (d_operatorId c) v (sw_calm _ _ _ Sv) (Hcol c (Hl c Hc))) as He.
  pose proof (swept_step P w v c _ Sv (Hl c Hc) (Hcol c (Hl c Hc)) (erasure_of days c) eq_refl eq_refl He) as Hs.
  destruct (run (anonymize _) v) as [[r|ex] v']; cbn [snd] in Hs; [by rewrite run_ret|]. by destruct ex; rewrite run_ret.
Qed.

Lemma sweep_one_total days n c w : exists m, (run (sweep_one hmac256 stringify_length process_env days n c) w).1 = Ok m.
Proof using Type.
  destruct n as [[e m] s]. cbn [sweep_one]. rewrite run_try, run_bind. destruct (run (anonymize _) w) as [[r|ex] v']; [by rewrite run_ret; eexists|].
  destruct ex; rewrite run_ret; by eexists.
Qed.
Lemma sweep_all_total days l n w : exists m, (run (fold_each l (sweep_one hmac256 stringify_length process_env days) n) w).1 = Ok m.
Proof using Type.
  revert n w. induction l as [|c l IH]; intros n w; [by exists n|]. cbn [fold_each]. rewrite run_bind.
  destruct (sweep_one_total days n c w) as [m Em]. destruct (run (sweep_one _ _ _ _ n c) w) as [r v]. cbn in Em. subst r. apply IH.
Qed.

End effect.

(** ** Concrete sweeps *)

#[local] Existing Instance two_operators.

Definition day : Z := 86400000.
(** Alice four hundred days after her sessions were revoked, and after they were
    opened and never closed. *)
Definition other_casino : operator := mk_operator true false "launch" [] None [] None None None None "other-casino" "Other Casino" None None.
Definition gone_world : world := set_operators (<[8%N := other_casino]> (w_operators revoked_world)) (set_now (400 * day) revoked_world).
Definition left_world : world := set_now (400 * day) SessionSafety.launched_world.
Definition sweep_of (argv : list string) : prog world sweep_result := main toy_hmac (fun _ => 100) (fun _ => None) argv.


(** A player who closes the page without logging out keeps an open session for
    ever: nothing closes a session when its token expires.  Such a player is
    listed as dormant by every sweep and erased by none. *)
Theorem unclosed_session_never_erased :
  (exists g, (run (sweep_of []) left_world).1 = Ok (WouldErase [g]) /\ d_playerId g = "alice"%string) /\
  (run (sweep_of ["--apply"%string]) left_world).1 = Ok (Applied 0 0 1).
Proof. split; [eexists; split; [vm_compute; reflexivity|reflexivity]|vm_compute; reflexivity]. Qed.

(** A restriction without a value, as an unset shell variable leaves it, or with
    a value that is not a number, is dropped instead of refused: the sweep of one
    operator erases the players of all, the sweep of one player has no limit. *)
Theorem sweep_restrictions_fail_open :
  (run (sweep_of ["--operator-code"; "other-casino"; "--apply"]%string) gone_world).1 = Ok NothingToDo /\
  (run (sweep_of ["--operator-code"; "--apply"]%string) gone_world).1 = Ok (Applied 1 0 0) /\
  (run (sweep_of ["--limit"; "0"; "--apply"]%string) gone_world).1 = Ok (Applied 0 0 0) /\
  (run (sweep_of ["--limit"; "O"; "--apply"]%string) gone_world).1 = Ok (Applied 1 0 0).
Proof. split_and!; vm_compute; reflexivity. Qed.
End Retention.
