(* ===== verification/Election.v ===== *)
(** * Leader election and the fence

    [ha/election.service.ts] over [ha/leader-lock.ts] and
    [ha/pg-advisory-lock.ts]: the polling, the heartbeat, promotion and
    demotion of any number of nodes racing on one Postgres session lock, with
    the monotonic fence that detects a stale leader. *)

From S2P Require Import Prelude Effects Schema.

Open Scope Z_scope.

#[local] Set Warnings "-clear-no-such-hyp".

Module Election.

(** ** State *)

Inductive ElectionEvent := LeaderAcquired (fence : Z) | LeaderLost.

(** One process: the fields of its [ElectionService] and its lock's client. *)
Record enode := mk_enode {
  n_leader : bool; n_myFence : option Z;
  n_acquireTimer : bool; n_heartbeatTimer : bool;
  n_stopped : bool; n_participates : bool;
  n_client : option N
}.

(** The database server and all the nodes.  The advisory lock belongs to a
    session and counts re-entrant acquisitions; a session that is not alive
    answers no query. *)
Record cluster := mk_cluster {
  cl_fence : Z;
  cl_lock : option (N * nat);
  cl_alive : gset N;
  cl_nextSession : N;
  cl_lease : option (N * Z);
  cl_nodes : gmap N enode;
  cl_faults : list fault;
  cl_events : list (N * ElectionEvent)
}.

Definition set_node (n : N) (x : enode) (c : cluster) : cluster :=
  mk_cluster (cl_fence c) (cl_lock c) (cl_alive c) (cl_nextSession c) (cl_lease c) (<[n := x]> (cl_nodes c))
    (cl_faults c) (cl_events c).
Definition set_lock (l : option (N * nat)) (c : cluster) : cluster :=
  mk_cluster (cl_fence c) l (cl_alive c) (cl_nextSession c) (cl_lease c) (cl_nodes c) (cl_faults c) (cl_events c).
Definition set_lease (l : option (N * Z)) (c : cluster) : cluster :=
  mk_cluster (cl_fence c) (cl_lock c) (cl_alive c) (cl_nextSession c) l (cl_nodes c) (cl_faults c) (cl_events c).
Definition set_fence (f : Z) (c : cluster) : cluster :=
  mk_cluster f (cl_lock c) (cl_alive c) (cl_nextSession c) (cl_lease c) (cl_nodes c) (cl_faults c) (cl_events c).
Definition drop_fault (c : cluster) : cluster :=
  mk_cluster (cl_fence c) (cl_lock c) (cl_alive c) (cl_nextSession c) (cl_lease c) (cl_nodes c) (tail (cl_faults c)) (cl_events c).
Definition add_event (n : N) (e : ElectionEvent) (c : cluster) : cluster :=
  mk_cluster (cl_fence c) (cl_lock c) (cl_alive c) (cl_nextSession c) (cl_lease c) (cl_nodes c) (cl_faults c) ((n, e) :: cl_events c).

(** The server tears a session down: its lock is released. *)
Definition end_session (s : N) (c : cluster) : cluster :=
  mk_cluster (cl_fence c) (match cl_lock c with Some (h, k) => if N.eqb h s then None else Some (h, k) | None => None end)
    (cl_alive c ∖ {[s]}) (cl_nextSession c) (cl_lease c) (cl_nodes c) (cl_faults c) (cl_events c).

Definition open_session (n : N) (c : cluster) : cluster :=
  mk_cluster (cl_fence c) (cl_lock c) ({[cl_nextSession c]} ∪ cl_alive c) (N.succ (cl_nextSession c)) (cl_lease c)
    (alter (fun x => mk_enode (n_leader x) (n_myFence x) (n_acquireTimer x) (n_heartbeatTimer x) (n_stopped x)
                       (n_participates x) (Some (cl_nextSession c))) n (cl_nodes c))
    (cl_faults c) (cl_events c).

(** ** PgAdvisoryLock *)

(** A query on a session: it may fail before or after it takes effect. *)
Definition query {A} (s : N) (f : cluster -> A * cluster) : prog cluster A :=
  atom_res (fun c =>
    if negb (bool_decide (s ∈ cl_alive c)) then (Raise DbUnavailable, c)
    else match cl_faults c with
         | FailBefore :: _ => (Raise DbUnavailable, drop_fault c)
         | FailAfter :: _ => (Raise DbUnavailable, (f (drop_fault c)).2)
         | _ => let '(a, c') := f (drop_fault c) in (Ok a, c')
         end).

Definition node_get {A} (n : N) (f : enode -> A) (dflt : A) : prog cluster A :=
  gets (fun c => match cl_nodes c !! n with Some x => f x | None => dflt end).

Definition node_set (n : N) (f : enode -> enode) : prog cluster unit :=
  atom (fun c => (tt, match cl_nodes c !! n with Some x => set_node n (f x) c | None => c end)).

Definition set_client (cl : option N) (x : enode) : enode :=
  mk_enode (n_leader x) (n_myFence x) (n_acquireTimer x) (n_heartbeatTimer x) (n_stopped x) (n_participates x) cl.

Definition client (n : N) : prog cluster (option N) := node_get n n_client None.

(** Lazily open the dedicated connection; opening it may fail. *)
Definition conn (n : N) : prog cluster N :=
  cl ← client n;
  match cl with
  | Some s => mret s
  | None => atom_res (fun c => match cl_faults c with
                               | FailBefore :: _ | FailAfter :: _ => (Raise DbUnavailable, drop_fault c)
                               | _ => (Ok (cl_nextSession c), open_session n (drop_fault c))
                               end)
  end.

Definition pg_try_advisory_lock (s : N) (c : cluster) : bool * cluster :=
  match cl_lock c with
  | None => (true, set_lock (Some (s, 1%nat)) c)
  | Some (h, k) => if N.eqb h s then (true, set_lock (Some (s, S k)) c) else (false, c)
  end.

Definition pg_advisory_unlock (s : N) (c : cluster) : unit * cluster :=
  match cl_lock c with
  | Some (h, S (S k)) => (tt, if N.eqb h s then set_lock (Some (s, S k)) c else c)
  | Some (h, _) => (tt, if N.eqb h s then set_lock None c else c)
  | None => (tt, c)
  end.

Definition writeLease (n : N) (fence : Z) : prog cluster unit := atom (fun c => (tt, set_lease (Some (n, fence)) c)).
Definition clearLease : prog cluster unit := atom (fun c => (tt, set_lease None c)).

Definition tryAcquire (n : N) : prog cluster (option Z) :=
  s ← conn n;
  locked ← query s (pg_try_advisory_lock s);
  if negb locked then mret None
  else
    fence ← query s (fun c => (cl_fence c + 1, set_fence (cl_fence c + 1) c));
    _ ← writeLease n fence;
    mret (Some fence).

Definition currentFence (n : N) : prog cluster Z :=
  s ← conn n; query s (fun c => (cl_fence c, c)).

Definition heartbeat (n : N) : prog cluster unit :=
  cl ← client n;
  match cl with
  | None => raise (JsError "heartbeat: no leader connection")
  | Some s =>
      _ ← query s (fun c => (tt, c));
      fence ← currentFence n;
      writeLease n fence
  end.

Definition release (n : N) : prog cluster unit :=
  cl ← client n;
  match cl with
  | None => mret tt
  | Some s => _ ← try_catch (query s (pg_advisory_unlock s)) (fun _ => mret tt); clearLease
  end.

Definition close (n : N) : prog cluster unit :=
  cl ← client n;
  _ ← match cl with Some s => atom (fun c => (tt, end_session s c)) | None => mret tt end;
  node_set n (set_client None).

(** ** ElectionService *)

Definition isLeader (n : N) : prog cluster bool := node_get n n_leader false.

Definition assertStillLeader (n : N) : prog cluster bool :=
  st ← node_get n (fun x => (n_leader x, n_myFence x)) (false, None);
  match st with
  | (true, Some f) =>
      try_catch (current ← currentFence n; mret (current =? f)) (fun _ => mret false)
  | _ => mret false
  end.

Definition promoted (fence : Z) (x : enode) : enode :=
  mk_enode true (Some fence) false (if n_stopped x then n_heartbeatTimer x else true) (n_stopped x) (n_participates x) (n_client x).
Definition demoted (x : enode) : enode :=
  mk_enode false None (if n_stopped x then n_acquireTimer x else true) false (n_stopped x) (n_participates x) (n_client x).

(** [promote] and [demote] run to completion between two awaits. *)
Definition promote (n : N) (fence : Z) : prog cluster unit :=
  atom (fun c => (tt, match cl_nodes c !! n with
                      | Some x => add_event n (LeaderAcquired fence) (set_node n (promoted fence x) c)
                      | None => c
                      end)).

Definition demote (n : N) : prog cluster unit :=
  was ← atom (fun c => match cl_nodes c !! n with
                       | Some x => if n_leader x then (true, add_event n LeaderLost (set_node n (demoted x) c)) else (false, c)
                       | None => (false, c)
                       end);
  if was : bool then close n else mret tt.

Definition tick (n : N) : prog cluster unit :=
  st ← node_get n (fun x => n_stopped x || n_leader x) true;
  if st : bool then mret tt
  else
    fence ← try_catch (f ← tryAcquire n; mret (Some f)) (fun _ => mret None);
    match fence with
    | Some (Some f) => promote n f
    | _ => mret tt
    end.

Definition beat (n : N) : prog cluster unit :=
  st ← node_get n (fun x => n_stopped x || negb (n_leader x)) true;
  if st : bool then mret tt
  else try_catch (heartbeat n) (fun _ => demote n).

Definition stepDown (n : N) : prog cluster unit :=
  l ← isLeader n;
  if negb l then mret tt
  else _ ← try_catch (release n) (fun _ => mret tt); demote n.

Definition onApplicationBootstrap (n : N) : prog cluster unit :=
  p ← node_get n n_participates false;
  if negb p then mret tt
  else
    _ ← try_catch (tick n) (fun _ => mret tt);
    node_set n (fun x => mk_enode (n_leader x) (n_myFence x) true (n_heartbeatTimer x) (n_stopped x) (n_participates x) (n_client x)).

Definition onModuleDestroy (n : N) : prog cluster unit :=
  was ← atom (fun c => match cl_nodes c !! n with
                       | Some x => (n_leader x, set_node n (mk_enode false (n_myFence x) false false true (n_participates x) (n_client x)) c)
                       | None => (false, c)
                       end);
  _ ← (if was : bool then try_catch (release n) (fun _ => mret tt) else mret tt);
  try_catch (close n) (fun _ => mret tt).

(** A session the network loses, with or without the node noticing. *)
Definition session_dies (s : N) : prog cluster unit := atom (fun c => (tt, end_session s c)).

(** Anything a node or the network can do. *)
Inductive action :=
| ABoot (n : N) | ATick (n : N) | ABeat (n : N) | AStepDown (n : N) | ADestroy (n : N) | AAssert (n : N) | ADies (s : N).

Definition act (a : action) : prog cluster unit :=
  match a with
  | ABoot n => onApplicationBootstrap n
  | ATick n => tick n
  | ABeat n => beat n
  | AStepDown n => stepDown n
  | ADestroy n => onModuleDestroy n
  | AAssert n => forget (assertStillLeader n)
  | ADies s => session_dies s
  end.

(** ** The fence *)

(** What each node believes. *)
Definition claims (c : cluster) (n : N) : option (bool * option Z) :=
  (fun x => (n_leader x, n_myFence x)) <$> cl_nodes c !! n.

(** The node whose claim the fence check accepts. *)
Definition authoritative (c : cluster) (n : N) : Prop := claims c n = Some (true, Some (cl_fence c)).

(** Everything but a bump and a promotion: the fence stays, no claim is gained. *)
Definition recedes (c c' : cluster) : Prop :=
  cl_fence c' = cl_fence c /\
  forall n f, claims c' n = Some (true, Some f) -> claims c n = Some (true, Some f).

#[export] Instance recedes_preorder : PreOrder recedes.
Proof. split; [by intros c|]. intros x y z [? ?] [? ?]. split; [congruence|auto]. Qed.

(** Fences granted but not yet claimed are tokens. *)
Definition I (c : cluster) (own : gset Z) : Prop :=
  (forall f, f ∈ own -> f <= cl_fence c) /\
  (forall n f, claims c n = Some (true, Some f) -> f <= cl_fence c /\ f ∉ own) /\
  (forall n m f, claims c n = Some (true, Some f) -> claims c m = Some (true, Some f) -> n = m).

Lemma recedes_inv c c' own : I c own -> recedes c c' -> I c' own.
Proof. intros (H1 & H2 & H3) [Hf Hc]. unfold I. rewrite Hf. split_and!; eauto. Qed.

Lemma inv_drop c own own' : own' ⊆ own -> I c own -> I c own'.
Proof.
  intros Hs (H1 & H2 & H3). split_and!; [|intros n f Hc; destruct (H2 n f Hc); split; [done|set_solver]|exact H3].
  intros f Hf. apply H1. set_solver.
Qed.

Lemma claims_same (c c' : cluster) : cl_nodes c' = cl_nodes c -> cl_fence c' = cl_fence c -> recedes c c'.
Proof. intros Hn Hf. split; [done|]. unfold claims. by rewrite Hn. Qed.

(** Rewriting a node without a new claim. *)
Lemma claims_set c n x x' :
  cl_nodes c !! n = Some x -> (n_leader x' = true -> n_leader x = true /\ n_myFence x' = n_myFence x) ->
  recedes c (set_node n x' c).
Proof.
  intros Hn Hx. split; [done|]. intros m f. unfold claims. cbn.
  destruct (decide (m = n)) as [->|Hne]; [|by rewrite lookup_insert_ne].
  rewrite lookup_insert_eq, Hn. cbn. intros [= Hl Hf]. destruct (Hx Hl) as [-> E]. by rewrite <- E, Hf.
Qed.

Lemma steps_query {A} s (f : cluster -> A * cluster) :
  (forall c, recedes c (f c).2) -> steps_in recedes (query s f).
Proof.
  intros Hf. apply steps_atom_res. intros c. destruct (negb _); cbn; [reflexivity|].
  assert (Hd : recedes c (drop_fault c)) by by apply claims_same.
  assert (Hq : recedes c (f (drop_fault c)).2) by (etrans; [exact Hd|apply Hf]).
  destruct (cl_faults c) as [|[] fs]; cbn; try done; by destruct (f (drop_fault c)).
Qed.

Lemma steps_node_get {A} n (f : enode -> A) d : steps_in recedes (node_get n f d).
Proof. apply steps_gets. apply _. Qed.

Lemma steps_conn n : steps_in recedes (conn n).
Proof.
  unfold conn, client. apply steps_bind; [apply steps_node_get|]. intros []; [apply steps_ret|].
  apply steps_atom_res. intros c.
  assert (Ho : recedes c (open_session n (drop_fault c))).
  { split; [done|]. intros m f. unfold claims. cbn. destruct (decide (m = n)) as [->|Hne].
    - rewrite lookup_alter_eq. by destruct (cl_nodes c !! n).
    - by rewrite lookup_alter_ne. }
  assert (Hd : recedes c (drop_fault c)) by by apply claims_same.
  destruct (cl_faults c) as [|[] fs]; done.
Qed.

Lemma steps_node_set n f :
  (forall x, n_leader (f x) = true -> n_leader x = true /\ n_myFence (f x) = n_myFence x) ->
  steps_in recedes (node_set n f).
Proof.
  intros Hf. apply steps_atom. intros c. cbn. destruct (cl_nodes c !! n) eqn:E; [|reflexivity]. eapply claims_set; [done|apply Hf].
Qed.

Lemma steps_lease (g : cluster -> option (N * Z)) : steps_in recedes (atom (fun c => (tt, set_lease (g c) c))).
Proof. apply steps_atom. intros c. by apply claims_same. Qed.

#[local] Hint Resolve steps_node_get steps_conn : vr_steps.

Lemma steps_currentFence n : steps_in recedes (currentFence n).
Proof. apply steps_bind; [apply steps_conn|]. intros s. by apply steps_query. Qed.
#[local] Hint Resolve steps_currentFence : vr_steps.

Lemma steps_heartbeat n : steps_in recedes (heartbeat n).
Proof.
  unfold heartbeat, client. apply steps_bind; [apply steps_node_get|]. intros [s|]; [|apply steps_raise].
  apply steps_bind; [by apply steps_query|]. intros _. apply steps_bind; [apply steps_currentFence|].
  intros f. apply (steps_lease (fun _ => Some (n, f))).
Qed.

Lemma steps_release n : steps_in recedes (release n).
Proof.
  unfold release, client. apply steps_bind; [apply steps_node_get|]. intros [s|]; [|apply steps_ret].
  apply steps_bind; [|intros _; apply (steps_lease (fun _ => None))].
  apply steps_try; [|intros; apply steps_ret]. apply steps_query. intros c. unfold pg_advisory_unlock.
  destruct (cl_lock c) as [[h [|[|k]]]|]; cbn; try destruct (N.eqb h s); try reflexivity; by apply claims_same.
Qed.

Lemma steps_close n : steps_in recedes (close n).
Proof.
  unfold close, client. apply steps_bind; [apply steps_node_get|]. intros cl. apply steps_bind.
  - destruct cl; [|apply steps_ret]. apply steps_atom. intros c. by apply claims_same.
  - intros _. apply steps_node_set. by intros x Hx.
Qed.
#[local] Hint Resolve steps_heartbeat steps_release steps_close : vr_steps.

Lemma steps_demote n : steps_in recedes (demote n).
Proof.
  apply steps_bind; [|intros []; [apply steps_close|apply steps_ret]]. apply steps_atom. intros c.
  destruct (cl_nodes c !! n) as [x|] eqn:E; [|reflexivity]. destruct (n_leader x) eqn:El; [|reflexivity]. cbn.
  transitivity (set_node n (demoted x) c); [by eapply claims_set|by apply claims_same].
Qed.
#[local] Hint Resolve steps_demote : vr_steps.

(** ** Every action is safe *)

Lemma safe_recedes {A} o (p : prog cluster A) Q :
  steps_in recedes p -> (forall r, Q o r) -> safe I o p Q.
Proof. intros Hp HQ. eapply safe_steps; [exact Hp| |done]. intros. by eapply recedes_inv. Qed.

(** The bump grants a fence nobody has. *)
Lemma safe_bump_fence s :
  safe I ∅ (query s (fun c => (cl_fence c + 1, set_fence (cl_fence c + 1) c)))
    (fun o r => match r with Ok f => o = {[f]} | Raise _ => o = ∅ end).
Proof.
  intros c F Ho HI. cbn [query atom_res].
  assert (Hsame : exists o', o' ## F /\ I (drop_fault c) (o' ∪ F) /\ o' = (∅ : gset Z)).
  { exists ∅. split; [set_solver|]. split; [|done]. by apply (recedes_inv c); [|apply claims_same]. }
  assert (Hbump : forall own, own ⊆ {[cl_fence c + 1]} ∪ F ->
    I (set_fence (cl_fence c + 1) (drop_fault c)) own).
  { intros own Hown. eapply inv_drop; [exact Hown|]. destruct HI as (H1 & H2 & H3). split_and!.
    - intros f [->%elem_of_singleton|Hf]%elem_of_union; cbn; [lia|]. specialize (H1 f ltac:(set_solver)). lia.
    - intros n f Hc. destruct (H2 n f Hc) as [Hle Hn]. cbn. split; [lia|].
      intros [->%elem_of_singleton|Hf]%elem_of_union; [lia|set_solver].
    - exact H3. }
  destruct (negb _); cbn; [exists ∅; split_and!; [set_solver|done|done]|].
  assert (Hfresh : {[cl_fence c + 1]} ## F).
  { intros f ->%elem_of_singleton Hf. destruct HI as (H1 & _). specialize (H1 (cl_fence c + 1) ltac:(set_solver)). lia. }
  destruct (cl_faults c) as [|[] fs]; cbn;
    try (exists {[cl_fence c + 1]}; split_and!; [done|by apply Hbump|done]).
  - destruct Hsame as (o' & ? & ? & ?). by exists o'.
  - exists ∅. split; [set_solver|]. split; [apply Hbump; set_solver|done].
Qed.

Lemma safe_tryAcquire n :
  safe I ∅ (tryAcquire n) (fun o r => match r with Ok (Some f) => o = {[f]} | _ => o = ∅ end).
Proof.
  unfold tryAcquire. apply safe_bind, safe_recedes; [apply steps_conn|]. intros [s|e]; [|done].
  apply safe_bind, safe_recedes.
  { apply steps_query. intros c. unfold pg_try_advisory_lock.
    destruct (cl_lock c) as [[h k]|]; [destruct (N.eqb h s)|]; cbn; try reflexivity; by apply claims_same. }
  intros [[]|e]; [|done|done]. cbn [negb].
  apply safe_bind. eapply safe_weaken; [apply safe_bump_fence|]. cbv beta. intros o [f|e] ->; [|done].
  intros c F Ho HI. cbn. exists {[f]}. split; [done|]. split; [|done]. by eapply recedes_inv; [|apply claims_same].
Qed.

Lemma safe_promote n f : safe I {[f]} (promote n f) (fun o _ => o = ∅).
Proof.
  intros c F Ho HI. cbn [promote atom fst snd]. exists ∅. split; [set_solver|]. split; [|done].
  destruct (cl_nodes c !! n) as [x|] eqn:E; [|eapply inv_drop; [|exact HI]; set_solver].
  destruct HI as (H1 & H2 & H3).
  assert (Hc : forall m g, claims (add_event n (LeaderAcquired f) (set_node n (promoted f x) c)) m = Some (true, Some g) ->
    m = n /\ g = f \/ m <> n /\ claims c m = Some (true, Some g)).
  { intros m g. unfold claims. cbn. destruct (decide (m = n)) as [->|Hne].
    - rewrite lookup_insert_eq. cbn. intros [= ->]. by left.
    - rewrite lookup_insert_ne by done. by right. }
  split_and!.
  - intros g Hg. cbn. apply H1. set_solver.
  - intros m g [[-> ->]|[Hne Hm]]%Hc; cbn.
    + split; [apply H1; set_solver|]. intros Hf. apply (Ho f); set_solver.
    + destruct (H2 m g Hm). split; [done|set_solver].
  - intros m m' g [[Em Eg]|[Hne Hm]]%Hc [[Em' Eg']|[Hne' Hm']]%Hc; subst; [done| | |by eapply H3].
    + destruct (H2 _ _ Hm') as [_ Hn]. set_solver.
    + destruct (H2 _ _ Hm) as [_ Hn]. set_solver.
Qed.

Lemma safe_tick n : safe I ∅ (tick n) (fun o _ => o = ∅).
Proof.
  unfold tick. apply safe_bind, safe_recedes; [apply steps_node_get|]. intros [[]|e]; [done| |done].
  apply safe_bind, safe_try, safe_bind. eapply safe_weaken; [apply safe_tryAcquire|].
  cbv beta. intros o [[f|]|e] ->; secure_next; [apply safe_promote|done|done].
Qed.

Lemma safe_act a : safe I ∅ (act a) (fun o _ => o = ∅).
Proof.
  destruct a; cbn [act].
  - unfold onApplicationBootstrap. apply safe_bind, safe_recedes; [apply steps_node_get|]. intros [[]|e]; [|done|done]. cbn [negb].
    apply safe_bind, safe_try. eapply safe_weaken; [apply safe_tick|]. cbv beta. intros o [[]|e] ->; secure_next;
      (apply safe_recedes; [|done]; by apply steps_node_set).
  - apply safe_tick.
  - apply safe_recedes; [|done]. unfold beat. steps.
  - apply safe_recedes; [|done]. unfold stepDown, isLeader. steps.
  - apply safe_recedes; [|done]. unfold onModuleDestroy. apply steps_bind; [|intros; steps].
    apply steps_atom. intros c. destruct (cl_nodes c !! n) eqn:E; [|reflexivity]. cbn. by eapply claims_set.
  - apply safe_recedes; [|done]. unfold assertStillLeader. steps.
  - apply safe_recedes; [|done]. apply steps_atom. intros c. by apply claims_same.
Qed.

(** ** Properties *)

(** C9: One authority.  However many nodes boot, poll, beat, step down, shut
    down and lose their sessions, in any interleaving and with any query
    failing, at most one node holds a claim the fence check accepts. *)
Theorem one_authoritative_node (acts : list action) c c' ps'
    (Hboot : forall n x, cl_nodes c !! n = Some x -> n_leader x = false) :
  pool_steps c (act <$> acts) c' ps' -> forall n m, authoritative c' n -> authoritative c' m -> n = m.
Proof.
  intros Hsteps.
  assert (HI : I c ∅).
  { assert (Hno : forall n f, claims c n <> Some (true, Some f)).
    { intros n f. unfold claims. destruct (cl_nodes c !! n) as [x|] eqn:E; [|done]. cbn. by rewrite (Hboot n x E). }
    split_and!; [set_solver|intros n f H; by apply Hno in H|intros n m f H; by apply Hno in H]. }
  destruct (pool_safe I _ _ _ _ Hsteps) as (own & _ & _ & H3); [|done|].
  - apply Forall_fmap, Forall_true. intros a. eapply safe_weaken; [apply safe_act|done].
  - intros n m Hn Hm. by eapply H3.
Qed.

(** Two nodes; the first leads. *)
Definition idle_node : enode := mk_enode false None true false false true None.
Definition two_nodes : cluster :=
  mk_cluster 4 None ∅ 0 None (<[1%N := idle_node]> {[2%N := idle_node]}) [] [].
Definition race : list action := [ATick 1%N; ATick 2%N; AStepDown 1%N; ATick 2%N].
Definition race_end := schedule_pool ([0;1;0;1;0;1;0;1;0;1;0;1;0] ++ replicate 8 2 ++ replicate 8 3)%nat two_nodes (act <$> race).

Lemma one_authoritative_node_witness :
  (authoritative race_end.1 2%N /\ cl_fence race_end.1 = 6) /\
  forall n, authoritative race_end.1 n -> n = 2%N.
Proof.
  assert (H2 : authoritative race_end.1 2%N) by (vm_compute; reflexivity).
  split; [split; [exact H2|vm_compute; reflexivity]|].
  intros n Hn. refine (one_authoritative_node race two_nodes race_end.1 race_end.2 _ _ n 2%N Hn H2).
  - intros k x Hx. cbn [two_nodes cl_nodes] in Hx.
    destruct (decide (k = 1%N)) as [->|Hne].
    + rewrite lookup_insert_eq in Hx. by injection Hx as <-.
    + rewrite lookup_insert_ne in Hx by done. apply lookup_singleton_Some in Hx as [_ <-]. reflexivity.
  - exact (schedule_pool_steps _ _ _).
Defined.

(** The fence check fails closed: it never throws, and it answers yes only
    to a node whose claim is current. *)
Theorem assertStillLeader_fails_closed n c :
  exists b c', run (assertStillLeader n) c = (Ok b, c') /\ (b = true -> authoritative c n).
Proof.
  unfold assertStillLeader, node_get. rewrite run_bind. cbn [run gets atom fst snd].
  unfold authoritative, claims. destruct (cl_nodes c !! n) as [x|] eqn:En; [|by eexists _, _].
  destruct (n_leader x) eqn:El; [|by eexists _, _].
  destruct (n_myFence x) as [f|] eqn:Ef; [|by eexists _, _].
  rewrite run_try, run_bind. destruct (run (currentFence n) c) as [[g|e] c1] eqn:Er; cbn [run raise]; [|by eexists _, _].
  eexists _, _. split; [done|]. intros ->%Z.eqb_eq. cbn. rewrite El, Ef. f_equal. f_equal. f_equal.
  unfold currentFence in Er. apply run_bind_ok in Er as (s & c2 & E1 & E2).
  assert (H1 : recedes c c2) by (replace c2 with (run (conn n) c).2 by (by rewrite E1); apply run_steps_in, steps_conn; apply _).
  unfold query in E2. rewrite run_atom_res in E2. destruct (negb _); [done|]. destruct H1 as [H1 _].
  destruct (cl_faults c2) as [|[] fs]; cbn in E2; by simplify_eq.
Qed.

(** Releasing, with the session alive: the unlock happens or is lost. *)
Lemma release_run n c x s k :
  cl_nodes c !! n = Some x -> n_client x = Some s -> s ∈ cl_alive c -> cl_lock c = Some (s, k) ->
  cl_faults c = [] \/ cl_faults c = [FailBefore] ->
  exists c', run (release n) c = (Ok tt, c') /\ cl_nodes c' = cl_nodes c /\ cl_alive c' = cl_alive c /\
    cl_fence c' = cl_fence c /\ cl_faults c' = [] /\ (cl_lock c' = None \/ exists k', cl_lock c' = Some (s, k')).
Proof.
  intros Hn Hs Ha Hl Hf. unfold release, client, node_get. rewrite run_bind. cbn [run gets atom fst snd]. rewrite Hn, Hs.
  rewrite run_bind, run_try. unfold query. rewrite run_atom_res, (bool_decide_eq_true_2 _ Ha).
  destruct c as [fe lo al nx le no fa ev]; cbn in *; subst lo.
  destruct Hf as [->| ->]; cbn; [|eexists; split_and!; [done..|right; eauto]].
  destruct k as [|[|k]]; cbn; rewrite ?N.eqb_refl; (eexists; split_and!; [done..|cbn; eauto]).
Qed.

(** Demoting a leader ends its session. *)
Lemma demote_run n c x s :
  cl_nodes c !! n = Some x -> n_leader x = true -> n_client x = Some s ->
  (cl_lock c = None \/ exists k, cl_lock c = Some (s, k)) ->
  exists c', run (demote n) c = (Ok tt, c') /\
    cl_nodes c' = <[n := set_client None (demoted x)]> (cl_nodes c) /\ cl_alive c' = cl_alive c ∖ {[s]} /\
    cl_fence c' = cl_fence c /\ cl_faults c' = cl_faults c /\ cl_lock c' = None.
Proof.
  intros Hn Hl Hs Hlo. destruct c as [fe lo al nx le no fa ev]; cbn in *.
  unfold demote. cbn -[close]. rewrite Hn, Hl. cbn -[close].
  unfold close, client, node_get. cbn. rewrite lookup_insert_eq. cbn. rewrite Hs. cbn.
  rewrite lookup_insert_eq. eexists. split; [done|]. cbn. rewrite insert_insert_eq. split_and!; try done.
  destruct Hlo as [->|[k ->]]; [done|]. by rewrite N.eqb_refl.
Qed.

(** A follower's poll when the lock is free. *)
Lemma tick_run m c y s' :
  cl_nodes c !! m = Some y -> n_leader y = false -> n_stopped y = false -> n_client y = Some s' ->
  s' ∈ cl_alive c -> cl_lock c = None -> cl_faults c = [] ->
  exists c', run (tick m) c = (Ok tt, c') /\ authoritative c' m /\ cl_fence c' = cl_fence c + 1.
Proof.
  intros Hm Hl Hst Hs Ha Hlo Hf. destruct c as [fe lo al nx le no fa ev]; cbn in *. subst lo fa.
  unfold tick, node_get. cbn -[tryAcquire]. rewrite Hm, Hl, Hst. cbn -[tryAcquire].
  unfold tryAcquire, conn, client, node_get, query. cbn. rewrite Hm, Hs. cbn.
  rewrite (bool_decide_eq_true_2 _ Ha). cbn. rewrite (bool_decide_eq_true_2 _ Ha). cbn.
  rewrite Hm. eexists. split; [done|]. split; [|done]. unfold authoritative, claims. cbn. by rewrite lookup_insert_eq.
Qed.

(** Failover.  When the leader steps down, even if its unlock fails, the
    lock is free, the node is a polling follower whose claim is gone, and the
    next poll of a healthy follower acquires leadership with a higher fence. *)
Theorem failover n m c x y s s' k
    (Hn : cl_nodes c !! n = Some x) (Hlead : n_leader x = true) (Hstop : n_stopped x = false) (Hs : n_client x = Some s)
    (Hm : cl_nodes c !! m = Some y) (Hfol : n_leader y = false) (Hrun : n_stopped y = false) (Hc : n_client y = Some s')
    (Hnm : n <> m) (Hss : s <> s') (Halive : s ∈ cl_alive c) (Halive' : s' ∈ cl_alive c)
    (Hlock : cl_lock c = Some (s, k)) (Hf : cl_faults c = [] \/ cl_faults c = [FailBefore]) :
  exists c1 c2, run (stepDown n) c = (Ok tt, c1) /\ cl_lock c1 = None /\ claims c1 n = Some (false, None) /\
    (exists x1, cl_nodes c1 !! n = Some x1 /\ n_acquireTimer x1 = true) /\
    run (tick m) c1 = (Ok tt, c2) /\ authoritative c2 m /\ cl_fence c2 = cl_fence c + 1.
Proof.
  destruct (release_run n c x s k Hn Hs Halive Hlock Hf) as (c0 & E0 & Hno & Hal & Hfe & Hfa & Hlo).
  destruct (demote_run n c0 x s) as (c1 & E1 & Hno1 & Hal1 & Hfe1 & Hfa1 & Hlo1); [by rewrite Hno|done..|].
  destruct (tick_run m c1 y s') as (c2 & E2 & Hau & Hfe2); try done.
  { rewrite Hno1, lookup_insert_ne, Hno by done. done. }
  { rewrite Hal1, Hal. set_solver. }
  { congruence. }
  exists c1, c2. split.
  { unfold stepDown, isLeader, node_get. rewrite run_bind. cbn [run gets atom fst snd]. rewrite Hn, Hlead. cbn [negb].
    rewrite run_bind, run_try, E0. exact E1. }
  split; [done|]. split; [unfold claims; by rewrite Hno1, lookup_insert_eq|]. split.
  { rewrite Hno1, lookup_insert_eq. eexists; split; [done|]. cbn. by rewrite Hstop. }
  split; [done|]. split; [done|]. congruence.
Qed.

Definition leading : cluster :=
  mk_cluster 4 (Some (0%N, 1%nat)) {[0%N; 1%N]} 2 None
    (<[1%N := mk_enode true (Some 4) false true false true (Some 0%N)]> {[2%N := mk_enode false None true false false true (Some 1%N)]})
    [FailBefore] [].

Lemma failover_witness :
  exists c1 c2, run (stepDown 1%N) leading = (Ok tt, c1) /\ cl_lock c1 = None /\ claims c1 1%N = Some (false, None) /\
    (exists x1, cl_nodes c1 !! 1%N = Some x1 /\ n_acquireTimer x1 = true) /\
    run (tick 2%N) c1 = (Ok tt, c2) /\ authoritative c2 2%N /\ cl_fence c2 = 5.
Proof.
  apply (failover 1%N 2%N leading (mk_enode true (Some 4) false true false true (Some 0%N))
    (mk_enode false None true false false true (Some 1%N)) 0%N 1%N 1%nat);
    try reflexivity; try done; by right.
Defined.

(** A poll already past its query when the process shuts down still
    promotes: [tick] does not look at [stopped] again after its await, so a
    node that is shutting down claims leadership, and the claim is current. *)
Theorem promotion_after_shutdown :
  let r := schedule_pool (replicate 6 0 ++ replicate 5 1 ++ [0])%nat two_nodes (act <$> [ATick 1%N; ADestroy 1%N]) in
  authoritative r.1 1%N /\ n_stopped <$> cl_nodes r.1 !! 1%N = Some true /\ cl_lock r.1 = None.
Proof. vm_compute. by split_and!. Qed.
End Election.
