(* ===== verification/Engine.v ===== *)
(** * The game engine

    [game/game-engine.service.ts]: the round loop of one node.  A node is the
    shared world and the engine's own memory ([node]); its methods are
    programs over both.  [setTimeout] is the single [e_timer] slot the source
    keeps, [fire] is the event loop running it, and [deadline] is the
    per-phase race timer of [safe], which may fire while the transition it
    guards is still waiting.  [Math.exp] and [Math.log] are parameters. *)

From stdpp Require Import sorting.
From S2P Require Import Prelude Effects Js Money Schema Wallet Bets.

Open Scope Z_scope.

(** ** State *)

Record EngineState := mk_es {
  es_roundId : uuid; es_seedId : uuid; es_phase : phase; es_phaseEndsAt : Z;
  es_startedAt : option Z; es_crashPoint : Z
}.

(** The next transition a timer runs. *)
Inductive transition := ToWaiting | ToBetting | ToRunning | ToCrashed | ToSettling | ToCompleted.

#[export] Instance transition_eq_dec : EqDecision transition.
Proof. solve_decision. Defined.

Record PublicRoundState := mk_public {
  pub_roundId : uuid; pub_phase : phase; pub_phaseEndsAt : Z; pub_multiplier : Z; pub_serverTime : Z
}.

Record PublishedRoundState := mk_published { pp_base : PublicRoundState; pp_startedAt : option Z; pp_seedId : uuid }.

Record engine := mk_engine {
  e_state : option EngineState; e_timer : option (Z * transition); e_running : bool;
  e_lastRoundAt : Z; e_deadman : bool; e_steppingDown : bool; e_driver : bool;
  e_races : list bool; e_published : list PublishedRoundState
}.

Record node := mk_node { nd_world : world; nd_engine : engine }.

Definition set_state (s : option EngineState) (e : engine) : engine :=
  mk_engine s (e_timer e) (e_running e) (e_lastRoundAt e) (e_deadman e) (e_steppingDown e) (e_driver e) (e_races e) (e_published e).
Definition set_timer (t : option (Z * transition)) (e : engine) : engine :=
  mk_engine (e_state e) t (e_running e) (e_lastRoundAt e) (e_deadman e) (e_steppingDown e) (e_driver e) (e_races e) (e_published e).
Definition set_running (b : bool) (e : engine) : engine :=
  mk_engine (e_state e) (e_timer e) b (e_lastRoundAt e) (e_deadman e) (e_steppingDown e) (e_driver e) (e_races e) (e_published e).
Definition set_lastRoundAt (t : Z) (e : engine) : engine :=
  mk_engine (e_state e) (e_timer e) (e_running e) t (e_deadman e) (e_steppingDown e) (e_driver e) (e_races e) (e_published e).
Definition set_deadman (b : bool) (e : engine) : engine :=
  mk_engine (e_state e) (e_timer e) (e_running e) (e_lastRoundAt e) b (e_steppingDown e) (e_driver e) (e_races e) (e_published e).
Definition set_steppingDown (b : bool) (e : engine) : engine :=
  mk_engine (e_state e) (e_timer e) (e_running e) (e_lastRoundAt e) (e_deadman e) b (e_driver e) (e_races e) (e_published e).
Definition set_driver (b : bool) (e : engine) : engine :=
  mk_engine (e_state e) (e_timer e) (e_running e) (e_lastRoundAt e) (e_deadman e) (e_steppingDown e) b (e_races e) (e_published e).
Definition set_races (l : list bool) (e : engine) : engine :=
  mk_engine (e_state e) (e_timer e) (e_running e) (e_lastRoundAt e) (e_deadman e) (e_steppingDown e) (e_driver e) l (e_published e).
Definition set_published (l : list PublishedRoundState) (e : engine) : engine :=
  mk_engine (e_state e) (e_timer e) (e_running e) (e_lastRoundAt e) (e_deadman e) (e_steppingDown e) (e_driver e) (e_races e) l.

(** *** Programs of a node *)

(** A world program run by a node. *)
Fixpoint lift {A} (p : prog world A) : prog node A :=
  match p with
  | Done r => Done r
  | Act f k => Act (fun n => let xw := f (nd_world n) in (fst xw, mk_node (snd xw) (nd_engine n))) (fun x => lift (k x))
  end.

(** Synchronous code reading or writing the engine's memory. *)
Definition mem {A} (f : engine -> A) : prog node A := gets (fun n => f (nd_engine n)).
Definition mem_set (f : engine -> engine) : prog node unit := atom (fun n => (tt, mk_node (nd_world n) (f (nd_engine n)))).
Definition clock : prog node Z := gets (fun n => w_now (nd_world n)).
Definition emit_ (ev : event) : prog node unit := lift (emit ev).

(** ** What the engine depends on *)

Class FairnessApi (Seed : Type) := {
  fa_ensureChain : prog world unit;
  fa_maintain : prog world unit;
  fa_allocateSeed : prog world (option Seed);
  fa_crashForSeed : Seed -> option Z;   (* None: throws *)
  fa_seedId : Seed -> uuid;
  fa_chainIndex : Seed -> Z;
  fa_revealSeed : uuid -> prog world unit
}.

(** Synchronous reads are functions of the node. *)
Class ElectionApi := {
  el_isLeader : node -> bool;
  el_assertStillLeader : prog node bool;
  el_stepDown : prog node unit
}.

Class CacheApi := {
  ca_getPublicState : node -> option PublicRoundState;
  ca_currentMultiplier : node -> Z
}.

(** ** Rounds *)

Definition round_with (r : round) (st : phase) (ends : option Z) (started crashed settled : option Z) : round :=
  mk_round (r_id r) (r_seedId r) (r_nonce r) (r_crashPoint r) st (r_bettingOpensAt r) ends started crashed settled (r_createdAt r).

Definition round_update (id : uuid) (f : round -> round) : prog world unit :=
  db (fun w => match w_rounds w !! id with
               | Some r => (Ok tt, set_rounds (<[id := f r]> (w_rounds w)) w)
               | None => (Raise RecordNotFound, w)
               end).

(** [updateMany({ where: { id, crashedAt: null }, data: { crashedAt } })] *)
Definition backfill_crashedAt (id : uuid) : prog world unit :=
  now ← Date_now;
  db_set (fun w => set_rounds (alter (fun r =>
    match r_crashedAt r with
    | None => round_with r (r_status r) (r_phaseEndsAt r) (r_startedAt r) (Some now) (r_settledAt r)
    | Some _ => r
    end) id (w_rounds w)) w).

Definition rounds_where (P : round -> bool) (w : world) : list round := List.filter P (map_to_list (w_rounds w)).*2.

(** [@@unique([seedId])] *)
Definition round_create (mk : uuid -> Z -> round) : prog world round :=
  db (fun w => let r := mk (w_uuid w) (w_now w) in
               match rounds_where (fun x => N.eqb (r_seedId x) (r_seedId r)) w with
               | [] => (Ok r, bump_uuid (set_rounds (<[r_id r := r]> (w_rounds w)) w))
               | _ => (Raise UniqueViolation, w)
               end).

Definition newest (a b : round) : Prop := r_createdAt b <= r_createdAt a.
#[export] Instance newest_dec a b : Decision (newest a b).
Proof. unfold newest. apply _. Defined.

Module Engine.

Definition OPEN_PHASES : list phase := [Waiting; Betting; Running; Crashed; Settling].
Definition is_open (r : round) : bool := bool_decide (r_status r ∈ OPEN_PHASES).

Definition RESUME_MAX_STALENESS_MS : Z := 30000.
Definition PHASE_MS_waiting : Z := 3000.
Definition PHASE_MS_betting : Z := 5000.
Definition PHASE_MS_crashed : Z := 2500.
Definition PHASE_MS_settling : Z := 500.
Definition PHASE_MS_completed : Z := 600.

(** [Number.isFinite(n) && n > 0 ? n : dflt]; undefined or empty is the default. *)
Definition numEnv (e : Risk.env) (name : string) (dflt : Z) : jsnum :=
  match e name with
  | None | Some EmptyString => Fin (QArith_base.inject_Z dflt)
  | Some raw => let n := js_Number raw in
                if js_isFinite n && js_gt n 0 then n else Fin (QArith_base.inject_Z dflt)
  end.

Definition phaseDeadlineMs (e : Risk.env) : jsnum := numEnv e "ENGINE_PHASE_DEADLINE_MS" 10000.
Definition deadmanMs (e : Risk.env) : jsnum := numEnv e "ENGINE_DEADMAN_MS" 60000.
Definition deadmanCheckMs (e : Risk.env) : jsnum := numEnv e "ENGINE_DEADMAN_CHECK_MS" 10000.

Definition post_outcome (p : phase) : bool := bool_decide (p ∈ [Running; Crashed; Settling]).

(** Why a persisted open round cannot be resumed.  The seed column is not
    nullable and the crash point is stored in cents. *)
Definition unresumableReason (now : Z) (r : round) : option string :=
  if negb (100 <=? r_crashPoint r) then Some "corrupt crashPoint"%string
  else match r_phaseEndsAt r with
  | None => Some "missing phaseEndsAt"%string
  | Some ends =>
      if bool_decide (r_status r ∈ [Waiting; Betting]) && (RESUME_MAX_STALENESS_MS <? now - ends)
      then Some "ancient"%string
      else if post_outcome (r_status r) && negb (is_Some_b (r_startedAt r))
      then Some "no startedAt"%string
      else None
  end.

(** The reversal of an open stake. *)
Definition restart_params (b : bet) : ReverseParams := {|
  rp_originalKey := KDebit (b_roundId b) (b_userId b) (b_panel b); rp_reverseKey := KRestartRefund (b_id b);
  rp_amount := b_amount b; rp_originalDirection := OrigDebit; rp_type := Refund; rp_ref := Some (b_id b);
  rp_intent := Some "restart_refund"%string |}.

Section service.
Context (W : WalletProvider) (Seed : Type) (fairness : FairnessApi Seed) (election : ElectionApi) (cache : CacheApi).
Context (env : Risk.env).
(** [Math.floor(Math.exp(GROWTH * ms) * 100)], the live multiplier in cents,
    and [Math.log(crashPoint) / GROWTH] in ms. *)
Context (expCents : Z -> Z) (crashMs : Z -> Z).
Context (redis_up : world -> bool).
(** The registered auto-cashout driver ([bets.evaluateAutoCashouts]). *)
Context (autoCashoutDriver : Z -> prog node unit).

(** *** Money recovery *)

(** One active bet of a closing round. *)
Definition refundActive (b : bet) : prog world unit :=
  try_catch
    (_ ← wp_reverse (b_walletId b) (restart_params b);
     now ← Date_now;
     bet_update (b_id b) (set_settled cancelled now))
    (fun _ => emit (EvLog "restart refund failed")).

Definition closeAndRefundRound (roundId : uuid) : prog world unit :=
  act ← db_get (bets_where (Bets.active_in roundId));
  _ ← for_each act refundActive;
  now ← Date_now;
  round_update roundId (fun r => round_with r Completed (r_phaseEndsAt r) (r_startedAt r) (r_crashedAt r) (Some now)).

Definition closeStaleExtra (r : round) : prog world unit :=
  if negb (post_outcome (r_status r)) then
    _ ← emit (EvLog "stale extra is pre-outcome"); closeAndRefundRound (r_id r)
  else
    _ ← emit (EvLog "stale extra is post-outcome");
    _ ← fa_revealSeed (r_seedId r);
    _ ← when (negb (is_Some_b (r_crashedAt r))) (backfill_crashedAt (r_id r));
    _ ← emit (EvSettle (r_id r));
    now ← Date_now;
    round_update (r_id r) (fun r => round_with r Completed (r_phaseEndsAt r) (r_startedAt r) (r_crashedAt r) (Some now)).

Definition is_stuck (cutoff : option Z) (b : bet) : bool :=
  (Bets.has_status reserving b || Bets.has_status cancelling b) &&
  match cutoff with Some t => b_createdAt b <? t | None => true end.

(** Reverse one claimed slot: refund it if the ledger knows its debit, drop it
    otherwise. *)
Definition reverseSlot (b : bet) : prog world unit :=
  let debitKey := KDebit (b_roundId b) (b_userId b) (b_panel b) in
  _ ← wp_rollback (b_walletId b) debitKey (Some (b_id b));
  debited ← db_get (fun w => w_ledger w !! debitKey);
  match debited with
  | Some _ =>
      _ ← wp_credit (b_walletId b) (b_amount b) Refund (KRestartRefund (b_id b)) (Some (b_id b));
      now ← Date_now;
      bet_update (b_id b) (set_settled cancelled now)
  | None => try_catch (bet_delete (b_id b)) (fun _ => mret tt)
  end.

Definition recoverSlot (n : Z) (b : bet) : prog world Z :=
  claimed ← (if Bets.has_status reserving b
             then count ← bet_updateMany_id (b_id b) (Bets.has_status reserving) (set_status cancelling); mret (negb (count =? 0))
             else mret true);
  if negb claimed then mret n
  else try_catch (_ ← reverseSlot b; mret (n + 1)) (fun _ => _ ← emit (EvLog "reserving recovery failed"); mret n).

Definition recoverReservingBets (olderThanMs : Z) : prog world Z :=
  now ← Date_now;
  let cutoff := if 0 <? olderThanMs then Some (now - olderThanMs) else None in
  slots ← db_get (bets_where (is_stuck cutoff));
  match slots with
  | [] => mret 0
  | _ => _ ← emit (EvLog "recovering slots"); fold_each slots recoverSlot 0
  end.

(** Active on a completed round that never crashed, settled before [cutoff]. *)
Definition is_stranded (cutoff : Z) (w : world) (b : bet) : bool :=
  Bets.has_status active b &&
  match w_rounds w !! b_roundId b with
  | Some r => phase_eqb (r_status r) Completed && negb (is_Some_b (r_crashedAt r)) &&
              match r_settledAt r with Some t => t <? cutoff | None => false end
  | None => false
  end.

Definition healStranded (n : Z) (b : bet) : prog world Z :=
  try_catch
    (_ ← wp_reverse (b_walletId b) (restart_params b);
     now ← Date_now;
     count ← bet_updateMany_id (b_id b) (Bets.has_status active) (set_settled cancelled now);
     mret (if 0 <? count then n + 1 else n))
    (fun _ => _ ← emit (EvLog "stranded-active finalize failed"); mret n).

Definition recoverStrandedActiveBets (olderThanMs : Z) : prog world Z :=
  now ← Date_now;
  stranded ← db_get (fun w => take 100 (bets_where (is_stranded (now - olderThanMs) w) w));
  match stranded with
  | [] => mret 0
  | _ => _ ← emit (EvLog "finalizing stranded bets"); fold_each stranded healStranded 0
  end.

Definition recoverInterruptedRounds : prog world unit :=
  _ ← recoverReservingBets 0;
  _ ← recoverStrandedActiveBets 0;
  stuck ← db_get (rounds_where is_open);
  match stuck with
  | [] => mret tt
  | _ => _ ← emit (EvLog "recovering interrupted rounds"); for_each stuck (fun r => closeAndRefundRound (r_id r))
  end.

(** *** Timers *)

(** [schedule(ms, () => this.safe(() => this.enterX()))] *)
Definition schedule (ms : Z) (t : transition) : prog node unit :=
  atom (fun n => (tt, mk_node (nd_world n)
    (set_timer (Some (w_now (nd_world n) + Z.max 0 ms, t)) (nd_engine n)))).

Definition armDeadman : prog node unit := mem_set (set_deadman true).
Definition clearDeadman : prog node unit := mem_set (set_deadman false).

Definition stop : prog node unit :=
  mem_set (fun e => set_deadman false (set_timer None (set_running false e))).

(** *** Public reads *)

Definition liveMultiplier (now : Z) (s : EngineState) : Z :=
  match es_phase s with
  | Crashed | Settling | Completed => es_crashPoint s
  | Running => match es_startedAt s with
               | Some t0 => if t0 =? 0 then 100 else Z.max 100 (expCents (now - t0))
               | None => 100
               end
  | _ => 100
  end.

Definition currentMultiplier (n : node) : Z :=
  if negb (el_isLeader n) then ca_currentMultiplier n
  else match e_state (nd_engine n) with
       | Some s => liveMultiplier (w_now (nd_world n)) s
       | None => 100
       end.

Definition publicOf (now : Z) (s : EngineState) : PublicRoundState :=
  mk_public (es_roundId s) (es_phase s) (es_phaseEndsAt s) (liveMultiplier now s) now.

Definition getPublicState (n : node) : option PublicRoundState :=
  if negb (el_isLeader n) then ca_getPublicState n
  else option_map (publicOf (w_now (nd_world n))) (e_state (nd_engine n)).

(** Publish the public state; Redis is optional. *)
Definition mirror : prog node unit :=
  atom (fun n => (tt,
    match e_state (nd_engine n), getPublicState n with
    | Some s, Some base =>
        if redis_up (nd_world n)
        then mk_node (nd_world n) (set_published (mk_published base (es_startedAt s) (es_seedId s) :: e_published (nd_engine n)) (nd_engine n))
        else n
    | _, _ => n
    end)).

Definition stillLeader : prog node bool :=
  ok ← el_assertStillLeader;
  if ok : bool then mret true
  else _ ← emit_ (EvLog "fence check failed"); _ ← stop; mret false.

(** [emitPhase]: the public state under "phase" and under the phase's name. *)
Definition emitPhase (ph : phase) : prog node unit :=
  atom (fun n => (tt, match e_state (nd_engine n) with
    | Some s => mk_node (set_events (EvPhase (es_roundId s) ph :: w_events (nd_world n)) (nd_world n)) (nd_engine n)
    | None => n
    end)).

(** [this.state.phase = ph; this.state.phaseEndsAt = Date.now() + ms], in one
    synchronous stretch, on whatever object [this.state] is now; [started] sets
    [startedAt] to the same instant.  The guard saw it defined, and nothing sets
    it back to null. *)
Definition es_enter (ph : phase) (ends : Z) (started : option Z) (s : EngineState) : EngineState :=
  mk_es (es_roundId s) (es_seedId s) ph ends (match started with Some t => Some t | None => es_startedAt s end) (es_crashPoint s).

Definition begin (ph : phase) (ms : Z) (started : bool) : prog node (EngineState * Z) :=
  atom_res (fun n =>
    let now := w_now (nd_world n) in
    match e_state (nd_engine n) with
    | Some s => let s' := es_enter ph (now + ms) (if started then Some now else None) s in
                (Ok (s', now), mk_node (nd_world n) (set_state (Some s') (nd_engine n)))
    | None => (Raise (JsError "null state"), n)
    end).

(** [this.events.emit(...)] of something read from [this.state]. *)
Definition emit_of (f : EngineState -> event) : prog node unit :=
  atom_res (fun n => match e_state (nd_engine n) with
    | Some s => (Ok tt, mk_node (set_events (f s :: w_events (nd_world n)) (nd_world n)) (nd_engine n))
    | None => (Raise (JsError "null state"), n)
    end).

(** [if (!this.state) return; if (!await stillLeader) return; body] *)
Definition guarded (body : prog node unit) : prog node unit :=
  s ← mem e_state;
  match s with
  | None => mret tt
  | Some _ => ok ← stillLeader; if ok : bool then body else mret tt
  end.

(** *** The transitions *)

Definition openRound (seed : Seed) (crashPoint phaseEndsAt : Z) : prog node (option round) :=
  try_catch
    (r ← lift (round_create (fun id now =>
       mk_round id (fa_seedId seed) (fa_chainIndex seed) crashPoint Waiting phaseEndsAt (Some phaseEndsAt) None None None now));
     mret (Some r))
    (fun e => match e with
              | UniqueViolation => _ ← emit_ (EvLog "round.create hit P2002"); _ ← stop; mret None
              | _ => raise e
              end).

Definition enterWaiting : prog node unit :=
  ok ← stillLeader;
  if negb ok then mret tt
  else
    _ ← lift (try_catch fa_maintain (fun _ => mret tt));
    seed ← lift fa_allocateSeed;
    match seed with
    | None => _ ← emit_ (EvLog "awaiting committed block salt"); schedule 1500 ToWaiting
    | Some seed =>
        match fa_crashForSeed seed with
        | None => raise (JsError "crashForSeed")
        | Some crashPoint =>
            now ← clock;
            let phaseEndsAt := now + PHASE_MS_waiting in
            r ← openRound seed crashPoint phaseEndsAt;
            match r with
            | None => mret tt
            | Some r =>
                _ ← mem_set (set_state (Some (mk_es (r_id r) (fa_seedId seed) Waiting phaseEndsAt None crashPoint)));
                _ ← mirror;
                _ ← emitPhase Waiting;
                schedule PHASE_MS_waiting ToBetting
            end
        end
    end.

Definition enterBetting : prog node unit := guarded (
  sn ← begin Betting PHASE_MS_betting false; let s := sn.1 in
  _ ← lift (round_update (es_roundId s) (fun r =>
        round_with r Betting (Some (es_phaseEndsAt s)) (r_startedAt r) (r_crashedAt r) (r_settledAt r)));
  _ ← mirror;
  _ ← emitPhase Betting;
  schedule PHASE_MS_betting ToRunning).

Definition enterRunning : prog node unit := guarded (
  sn ← begin Running 60000 true; let s := sn.1 in let now := sn.2 in
  _ ← lift (round_update (es_roundId s) (fun r =>
        round_with r Running (Some (es_phaseEndsAt s)) (Some now) (r_crashedAt r) (r_settledAt r)));
  _ ← mirror;
  _ ← emitPhase Running;
  crash ← mem (fun e => option_map es_crashPoint (e_state e));
  schedule (Z.max 0 (crashMs (nullish crash 100))) ToCrashed).

Definition enterCrashed : prog node unit := guarded (
  sn ← begin Crashed PHASE_MS_crashed false; let s := sn.1 in let now := sn.2 in
  _ ← lift (round_update (es_roundId s) (fun r =>
        round_with r Crashed (Some (es_phaseEndsAt s)) (r_startedAt r) (Some now) (r_settledAt r)));
  _ ← lift (fa_revealSeed (es_seedId s));
  _ ← mirror;
  _ ← emit_ (EvCrash (es_roundId s) (es_crashPoint s));
  _ ← emitPhase Crashed;
  schedule PHASE_MS_crashed ToSettling).

Definition enterSettling : prog node unit := guarded (
  sn ← begin Settling PHASE_MS_settling false; let s := sn.1 in
  _ ← lift (round_update (es_roundId s) (fun r =>
        round_with r Settling (Some (es_phaseEndsAt s)) (r_startedAt r) (r_crashedAt r) (r_settledAt r)));
  _ ← mirror;
  _ ← emit_of (fun s => EvSettle (es_roundId s));
  _ ← emitPhase Settling;
  schedule PHASE_MS_settling ToCompleted).

Definition enterCompleted : prog node unit := guarded (
  sn ← begin Completed PHASE_MS_completed false; let s := sn.1 in let now := sn.2 in
  _ ← lift (round_update (es_roundId s) (fun r =>
        round_with r Completed (Some (es_phaseEndsAt s)) (r_startedAt r) (r_crashedAt r) (Some now)));
  _ ← mirror;
  _ ← atom (fun n => (tt, mk_node (nd_world n) (set_lastRoundAt (w_now (nd_world n)) (nd_engine n))));
  _ ← emit_ (EvMetric "rounds_total" "");
  _ ← emit_of (fun s => EvSettled (es_roundId s));
  _ ← emitPhase Completed;
  schedule PHASE_MS_completed ToWaiting).

Definition enter (t : transition) : prog node unit :=
  match t with
  | ToWaiting => enterWaiting | ToBetting => enterBetting | ToRunning => enterRunning
  | ToCrashed => enterCrashed | ToSettling => enterSettling | ToCompleted => enterCompleted
  end.

(** *** safe: the race between a transition and its deadline *)

Definition open_race : prog node nat :=
  atom (fun n => let e := nd_engine n in (length (e_races e), mk_node (nd_world n) (set_races (e_races e ++ [false]) e))).

(** The first of the two promises to settle decides the race. *)
Definition settle_race (id : nat) : prog node bool :=
  atom (fun n => let e := nd_engine n in
    match e_races e !! id with
    | Some false => (true, mk_node (nd_world n) (set_races (<[id := true]> (e_races e)) e))
    | _ => (false, n)
    end).

Definition phase_failed : prog node unit :=
  _ ← emit_ (EvLog "phase transition failed");
  _ ← emit_ (EvMetric "errors" "phase_transition");
  schedule 1500 ToWaiting.

Definition safe_ (t : transition) : prog node unit :=
  id ← open_race;
  failed ← try_catch (_ ← enter t; mret false) (fun _ => mret true);
  first ← settle_race id;
  if first && failed then phase_failed else mret tt.

(** The deadline of race [id] expires; a race not yet opened has none. *)
Definition deadline (id : nat) : prog node unit :=
  first ← settle_race id;
  if first : bool then phase_failed else mret tt.

(** The event loop runs the timer when it is due. *)
Definition fire : prog node unit :=
  due ← atom (fun n => match e_timer (nd_engine n) with
                       | Some (at_, t) => if at_ <=? w_now (nd_world n)
                           then (Some t, mk_node (nd_world n) (set_timer None (nd_engine n))) else (None, n)
                       | None => (None, n)
                       end);
  match due with
  | None => mret tt
  | Some t => run_ ← mem e_running; if run_ : bool then safe_ t else mret tt
  end.

(** *** Boot, failover, resume *)

(** A value read from [this.state] after an await. *)
Definition state_now : prog node EngineState :=
  atom_res (fun n => match e_state (nd_engine n) with Some s => (Ok s, n) | None => (Raise (JsError "null state"), n) end).

Definition resumed_state (r : round) : EngineState :=
  mk_es (r_id r) (r_seedId r) (r_status r) (nullish (r_phaseEndsAt r) 0) (r_startedAt r) (r_crashPoint r).

(** A running round whose crash time passed during the gap: honor, then crash. *)
Definition honorThenCrash (crashPoint : Z) : prog node unit :=
  _ ← emit_ (EvLog "crash elapsed during the gap");
  ok ← stillLeader;
  if negb ok then mret tt
  else
    d ← mem e_driver;
    _ ← (if d : bool then autoCashoutDriver crashPoint else emit_ (EvLog "no auto-cashout driver registered"));
    enterCrashed.

Definition resumeCrashed (r : round) (left : Z) : prog node unit :=
  s ← state_now;
  _ ← lift (fa_revealSeed (es_seedId s));
  _ ← lift (backfill_crashedAt (r_id r));
  _ ← mirror;
  _ ← emit_of (fun s => EvCrash (es_roundId s) (es_crashPoint s));
  schedule left ToSettling.

Definition resumeRound (r : round) : prog node unit :=
  now ← atom (fun n => (w_now (nd_world n), mk_node (nd_world n) (set_state (Some (resumed_state r)) (nd_engine n))));
  let left := Z.max 0 (nullish (r_phaseEndsAt r) 0 - now) in
  _ ← mirror;
  _ ← emitPhase (r_status r);
  match r_status r with
  | Waiting => schedule left ToBetting
  | Betting => schedule left ToRunning
  | Running =>
      let crashTime := nullish (r_startedAt r) 0 + Z.max 0 (crashMs (r_crashPoint r)) in
      if now <? crashTime then schedule (crashTime - now) ToCrashed
      else honorThenCrash (r_crashPoint r)
  | Crashed => resumeCrashed r left
  | Settling => _ ← emit_of (fun s => EvSettle (es_roundId s)); schedule left ToCompleted
  | Completed => _ ← emit_ (EvLog "UNREACHABLE terminal phase"); enterWaiting
  end.

(** The open rounds, newest first. *)
Definition open_rounds (w : world) : list round := merge_sort newest (rounds_where is_open w).

Definition resumeOrRecover : prog node bool :=
  _ ← lift (recoverReservingBets 0);
  open ← lift (db_get open_rounds);
  match open with
  | [] => mret false
  | candidate :: stale =>
      _ ← when (0 <? Z.of_nat (length stale)) (emit_ (EvLog "single-open-round invariant violated"));
      _ ← lift (for_each stale closeStaleExtra);
      now ← clock;
      match unresumableReason now candidate with
      | Some _ =>
          _ ← emit_ (EvLog "candidate round NOT resumable");
          _ ← lift (closeAndRefundRound (r_id candidate)); mret false
      | None => _ ← resumeRound candidate; mret true
      end
  end.

Definition start : prog node unit :=
  was ← atom (fun n => let e := nd_engine n in
    if e_running e then (true, n)
    else (false, mk_node (nd_world n)
      (set_deadman true (set_steppingDown false (set_lastRoundAt (w_now (nd_world n)) (set_running true e))))));
  if was : bool then mret tt
  else
    _ ← lift fa_ensureChain;
    _ ← lift (recoverStrandedActiveBets 0);
    resumed ← resumeOrRecover;
    if resumed : bool then emit_ (EvLog "Game engine started (resumed in-flight round)")
    else _ ← emit_ (EvLog "Game engine started"); enterWaiting.

(** The election listeners of [onModuleInit]. *)
Definition onLeaderAcquired : prog node unit :=
  _ ← emit_ (EvMetric "engine_leader" "1");
  try_catch start (fun _ => emit_ (EvLog "start failed")).
Definition onLeaderLost : prog node unit := _ ← emit_ (EvMetric "engine_leader" "0"); stop.

(** *** The liveness deadman *)

Definition msSinceLastRound : prog node Z := gets (fun n => w_now (nd_world n) - e_lastRoundAt (nd_engine n)).

Definition deadmanCheck : prog node unit :=
  busy ← gets (fun n => e_steppingDown (nd_engine n) || negb (el_isLeader n));
  if busy : bool then mret tt
  else
    stalledMs ← msSinceLastRound;
    if js_ge (deadmanMs env) stalledMs then mret tt
    else
      _ ← mem_set (set_steppingDown true);
      _ ← emit_ (EvLog "engine STALL");
      _ ← emit_ (EvMetric "errors" "engine_stall");
      try_catch el_stepDown (fun _ => _ ← emit_ (EvLog "deadman step-down failed"); stop).
End service.
End Engine.
