(* ===== verification/EngineSafety.v ===== *)
(** * Properties of the engine

    Resumability, fencing, liveness of the loop, determinism across failover,
    secrecy of the crash point, and the recovery of stranded money; and the
    interleavings in which a late or fenced-off transition acts on a round that
    is no longer its own. *)

From Stdlib Require Import QArith.
From S2P Require Import Prelude Effects Js Money Schema Wallet Ledger Crash EthBlock Fairness Bets BetSafety BetFlow Engine.

Open Scope Z_scope.

#[local] Set Warnings "-clear-no-such-hyp".

Module EngineSafety.
Import Engine.

(** Exactly which persisted rounds are resumed.  A row is resumed iff its
    crash point is at least 1.00x (an instant bust included), it has a deadline,
    a round with an outcome has a start time whatever its age, and a round
    without one is at most 30 s past its deadline. *)
Theorem resumable_iff now r :
  unresumableReason now r = None <->
  100 <= r_crashPoint r /\ exists ends, r_phaseEndsAt r = Some ends /\
    match r_status r with
    | Waiting | Betting => now - ends <= 30000
    | Running | Crashed | Settling => is_Some (r_startedAt r)
    | Completed => True
    end.
Proof.
  unfold unresumableReason, RESUME_MAX_STALENESS_MS.
  destruct (Z.leb_spec 100 (r_crashPoint r)) as [Hc|Hc]; cbn [negb]; [|split; [done|lia]].
  destruct (r_phaseEndsAt r) as [ends|]; [|split; [done|by intros (_ & ? & ? & _)]].
  assert (Hx : forall P : Prop, (exists e, Some ends = Some e /\ P) <-> P) by naive_solver.
  unfold post_outcome. destruct (r_status r) eqn:Hst; cbn [bool_decide decide];
    repeat (match goal with |- context [bool_decide ?P] => let b := eval vm_compute in (bool_decide P) in change (bool_decide P) with b end);
    cbn [andb negb]; destruct (Z.ltb_spec 30000 (now - ends)); destruct (r_startedAt r) as [t|]; cbn;
    (split; [intros Hn; split; [done|]; exists ends; split; [done|]|intros (_ & e & [= <-] & He)]); try done; try lia; try by eexists.
  all: try by destruct He.
Qed.

Section loop.
Context (W : WalletProvider) (Seed : Type) (fairness : FairnessApi Seed) (election : ElectionApi) (cache : CacheApi).
Context (expCents crashMs : Z -> Z) (redis_up : world -> bool) (driver : Z -> prog node unit).

#[local] Abbreviation enter_ := (enter Seed fairness election cache expCents crashMs redis_up).
#[local] Abbreviation mirror_ := (mirror election cache expCents redis_up).

(** ** Fencing *)

Definition halted (n : node) : Prop := e_running (nd_engine n) = false /\ e_timer (nd_engine n) = None.

(** A transition of a node whose fence check fails writes nothing: it stops
    the loop, cancels the timer and leaves every table as it was. *)
Theorem fenced_transition_writes_nothing t n
    (Hfence : forall n, run el_assertStillLeader n = (Ok false, n))
    (Hstate : t = ToWaiting \/ is_Some (e_state (nd_engine n))) :
  exists n', run (enter_ t) n = (Ok tt, n') /\ tables_eq (nd_world n) (nd_world n') /\ halted n'.
Proof.
  assert (Hstill : run (stillLeader election) n = (Ok false, mk_node
      (set_events (EvLog "fence check failed" :: w_events (nd_world n)) (nd_world n))
      (set_deadman false (set_timer None (set_running false (nd_engine n)))))).
  { unfold stillLeader. rewrite run_bind, Hfence. reflexivity. }
  assert (Hguard : forall body, is_Some (e_state (nd_engine n)) ->
    exists n', run (guarded election body) n = (Ok tt, n') /\ tables_eq (nd_world n) (nd_world n') /\ halted n').
  { intros body [s Hs]. unfold guarded, mem. rewrite run_bind. cbn [run gets atom fst snd]. rewrite Hs.
    rewrite run_bind, Hstill. eexists. split; [done|]. split; [frame|by split]. }
  destruct Hstate as [->|Hs]; [|destruct t; cbn [enter]; try by apply Hguard].
  all: unfold enter, enterWaiting; rewrite run_bind, Hstill; eexists; (split; [done|]); (split; [frame|by split]).
Qed.

(** ** Liveness of the loop *)

(** The loop goes on: a transition is armed, or the node has stood down. *)
Definition armed (n : node) : Prop := is_Some (e_timer (nd_engine n)) \/ e_running (nd_engine n) = false.

(** Ends armed, or with an exception. *)
Definition arms (r : res unit) (n : node) : Prop := match r with Ok _ => armed n | Raise _ => True end.

Lemma spec_seq {A B} (P : node -> Prop) (p : prog node A) (k : A -> prog node B) (Q : res B -> node -> Prop) :
  (forall e n, Q (Raise e) n) -> (forall a, spec (fun _ => True) (k a) Q) -> spec P (x ← p; k x) Q.
Proof.
  intros HQ Hk. apply (spec_bind _ (fun _ _ => True)); [|done].
  intros n _. destruct (run p n).1; [done|apply HQ].
Qed.

Lemma spec_schedule ms t : spec (fun _ => True) (schedule ms t) arms.
Proof. intros n _. left. by eexists. Qed.

Lemma spec_stillLeader (k : bool -> prog node unit) (P : node -> Prop) :
  spec (fun _ => True) (k true) arms -> spec halted (k false) arms -> spec P (ok ← stillLeader election; k ok) arms.
Proof.
  intros Ht Hf. apply (spec_bind _ (fun (ok : bool) n => ok = false -> halted n)).
  - unfold stillLeader. intros n _. rewrite run_bind. destruct (run el_assertStillLeader n) as [[[]|e] n']; cbn; [done|by intros _|done].
  - intros [] n Hn; [by apply Ht|apply Hf; by apply Hn].
Qed.

Lemma halted_armed (n : node) : halted n -> armed n.
Proof. intros [Hr _]. by right. Qed.

Ltac arms_tac := repeat (apply spec_seq; [done|intros ?; cbn zeta]); apply spec_schedule.

Lemma spec_guarded body :
  spec (fun _ => True) body arms -> spec (fun n => is_Some (e_state (nd_engine n))) (guarded election body) arms.
Proof.
  intros Hb n [s Hs]. unfold guarded. rewrite run_bind. cbn [run mem gets atom fst snd]. rewrite Hs.
  apply (spec_stillLeader (fun ok => if ok then body else mret tt) (fun _ => True)); [done| |done].
  apply spec_ret. apply halted_armed.
Qed.

Lemma spec_enter t : spec (fun n => t = ToWaiting \/ is_Some (e_state (nd_engine n))) (enter_ t) arms.
Proof.
  destruct t; cbn [enter]; cycle 1.
  1-5: eapply spec_conseq; [apply spec_guarded; arms_tac|intros n [?|?]; done|done].
  unfold enterWaiting. apply spec_stillLeader; cbn [negb]; [|apply spec_ret; apply halted_armed].
  apply spec_seq; [done|]. intros _. apply spec_seq; [done|]. intros [seed|]; [|arms_tac].
  destruct (fa_crashForSeed seed) as [c|]; [|by apply spec_raise].
  apply spec_seq; [done|]. intros now. cbn zeta.
  apply (spec_bind _ (fun r n => r = None -> halted n)).
  - intros n _. unfold openRound. rewrite run_try, run_bind.
    destruct (run (lift (round_create _)) n) as [[r|e] n']; [done|]. by destruct e.
  - intros [r|]; [arms_tac|]. apply spec_ret. intros n Hn. by apply halted_armed, Hn.
Qed.

(** Nothing but a race itself settles it. *)
Definition same_races (n n' : node) : Prop := e_races (nd_engine n') = e_races (nd_engine n).

#[local] Instance same_races_preorder : PreOrder same_races.
Proof. split; [done|]. unfold same_races. intros x y z ??. congruence. Qed.

Lemma steps_lift {A} (p : prog world A) : steps_in same_races (lift p).
Proof. induction p as [r|X f k IH]; cbn; [done|]. split; [done|apply IH]. Qed.

Lemma steps_mem_set f : (forall e, e_races (f e) = e_races e) -> steps_in same_races (mem_set f).
Proof. intros Hf. apply steps_atom. intros n. apply Hf. Qed.

Lemma steps_enter t : steps_in same_races el_assertStillLeader -> steps_in same_races (enter_ t).
Proof.
  intros Hassert. assert (Hstill : steps_in same_races (stillLeader election)).
  { unfold stillLeader, stop, emit_. steps; try apply steps_lift; by apply steps_mem_set. }
  assert (Hmirror : steps_in same_races mirror_).
  { apply steps_atom. intros n. cbn. destruct (e_state (nd_engine n)), (getPublicState election cache expCents n), (redis_up (nd_world n)); done. }
  assert (Hatom : forall A (f : node -> A * node), (forall n, same_races n (f n).2) -> steps_in same_races (atom f)).
  { intros. by apply steps_atom. }
  assert (Hbegin : forall ph ms b, steps_in same_races (begin ph ms b)).
  { intros. apply steps_atom_res. intros n. by destruct (e_state (nd_engine n)). }
  assert (Hemit : forall f, steps_in same_races (emit_of f)).
  { intros. apply steps_atom_res. intros n. by destruct (e_state (nd_engine n)). }
  assert (Hphase : forall ph, steps_in same_races (emitPhase ph)).
  { intros. apply steps_atom. intros n. by destruct (e_state (nd_engine n)). }
  assert (Hsched : forall ms t, steps_in same_races (schedule ms t)) by (intros; by apply steps_atom).
  pose proof @steps_lift as Hlift.
  destruct t; cbn [enter]; unfold enterWaiting, enterBetting, enterRunning, enterCrashed, enterSettling, enterCompleted,
    guarded, openRound, stop, emit_, mem, clock; steps; try apply Hlift; try by apply steps_mem_set.
  all: by apply steps_atom.
Qed.

(** C8: The loop never stalls.  Whatever the database, the fairness service,
    Redis or the election do, a transition that runs to its end leaves the next
    one armed, by its own schedule or by the recovery of a failure, unless the
    node has stood down; and if its deadline expires first, the recovery arms a
    fresh round. *)
Theorem loop_never_stalls t n id
    (Hstate : t = ToWaiting \/ is_Some (e_state (nd_engine n)))
    (Hassert : steps_in same_races el_assertStillLeader) :
  armed (run (safe_ Seed fairness election cache expCents crashMs redis_up t) n).2 /\
  (e_races (nd_engine n) !! id = Some false -> exists at_, e_timer (nd_engine (run (deadline id) n).2) = Some (at_, ToWaiting)).
Proof.
  assert (Hraces : forall n', same_races n' (run (enter_ t) n').2) by (intros; by apply run_steps_in, steps_enter; [apply _|]).
  split.
  - unfold safe_. rewrite run_bind. cbn [run open_race atom fst snd].
    set (n1 := mk_node (nd_world n) (set_races (e_races (nd_engine n) ++ [false]) (nd_engine n))).
    assert (Harm : arms (run (enter_ t) n1).1 (run (enter_ t) n1).2) by (apply spec_enter; exact Hstate).
    assert (Hopen : e_races (nd_engine (run (enter_ t) n1).2) !! length (e_races (nd_engine n)) = Some false).
    { rewrite (Hraces n1). cbn. by rewrite lookup_app_r, Nat.sub_diag by lia. }
    rewrite run_bind, run_try, run_bind. destruct (run (enter_ t) n1) as [[[]|e] n2]; cbn [fst snd] in *;
      cbn [run mret prog_mret]; rewrite run_bind; cbn [run settle_race atom fst snd]; rewrite Hopen; cbn; [exact Harm|].
    left. by eexists.
  - intros Hid. unfold deadline. rewrite run_bind. cbn [run settle_race atom fst snd]. rewrite Hid. cbn. by eexists.
Qed.

(** ** Determinism across failover *)

Lemma run_mirror n :
  exists n', run mirror_ n = (Ok tt, n') /\ nd_world n' = nd_world n /\
    e_timer (nd_engine n') = e_timer (nd_engine n) /\ e_state (nd_engine n') = e_state (nd_engine n).
Proof.
  unfold mirror. rewrite run_atom. cbn [fst snd]. eexists. split; [reflexivity|].
  destruct (e_state (nd_engine n)) as [s|] eqn:Hs, (getPublicState election cache expCents n), (redis_up (nd_world n)); by rewrite ?Hs.
Qed.

Lemma run_lift {A} (p : prog world A) n :
  run (lift p) n = ((run p (nd_world n)).1, mk_node (run p (nd_world n)).2 (nd_engine n)).
Proof.
  revert n. induction p as [r|X f k IH]; intros n; cbn; [by destruct n|]. by rewrite IH.
Qed.

(** Resuming a climbing round before its crash. *)
Lemma run_resume_running m r t0 :
  r_status r = Running -> r_startedAt r = Some t0 -> w_now (nd_world m) < t0 + Z.max 0 (crashMs (r_crashPoint r)) ->
  exists m', run (resumeRound Seed fairness election cache expCents crashMs redis_up driver r) m = (Ok tt, m') /\
    e_timer (nd_engine m') = Some (t0 + Z.max 0 (crashMs (r_crashPoint r)), ToCrashed) /\
    e_state (nd_engine m') = Some (resumed_state r).
Proof.
  intros Hst Ht0 Hm. unfold resumeRound. rewrite run_bind, run_atom. cbn [fst snd].
  set (m1 := mk_node (nd_world m) (set_state (Some (resumed_state r)) (nd_engine m))).
  destruct (run_mirror m1) as (m2 & E & Hwm & Htm & Hsm). cbv zeta. rewrite run_bind.
  rewrite E. cbn in Hsm. rewrite run_bind. unfold emitPhase. rewrite run_atom, Hsm, Hst, Ht0. cbn [fst snd nullish].
  destruct (Z.ltb_spec (w_now (nd_world m)) (t0 + Z.max 0 (crashMs (r_crashPoint r)))) as [_|?]; [|lia].
  cbn. eexists. split; [done|]. cbn. rewrite Hwm. cbn. split; [f_equal; f_equal; lia|exact Hsm].
Qed.

Definition crash_time (n : node) (crashPoint : Z) : Z := w_now (nd_world n) + Z.max 0 (crashMs crashPoint).


(** ** Secrecy of the crash point *)

Definition same_but_crash (s : EngineState) (c : Z) : EngineState :=
  mk_es (es_roundId s) (es_seedId s) (es_phase s) (es_phaseEndsAt s) (es_startedAt s) c.

(** What the leader publishes for a state. *)
Definition payload (now : Z) (s : EngineState) : PublishedRoundState :=
  mk_published (publicOf expCents now s) (es_startedAt s) (es_seedId s).

(** C21: The crash point stays secret until the crash.  What the leader puts on
    the wire is the public payload of its state, and before the crash that
    payload, and the state any client reads, are the same whatever the crash
    point is; from the crash on they carry it. *)
Theorem crash_point_secret n s c
    (Hlead : el_isLeader n = true) (Hup : redis_up (nd_world n) = true)
    (Hs : e_state (nd_engine n) = Some s) :
  (exists n', run mirror_ n = (Ok tt, n') /\
     e_published (nd_engine n') = payload (w_now (nd_world n)) s :: e_published (nd_engine n)) /\
  (if bool_decide (es_phase s ∈ [Waiting; Betting; Running])
   then payload (w_now (nd_world n)) (same_but_crash s c) = payload (w_now (nd_world n)) s
   else pub_multiplier (pp_base (payload (w_now (nd_world n)) s)) = es_crashPoint s).
Proof.
  split.
  - unfold mirror, getPublicState. rewrite run_atom. cbn [fst snd]. rewrite Hlead, Hs. cbn. rewrite Hup. eexists. by split.
  - unfold payload, publicOf, liveMultiplier. cbn. by destruct (es_phase s).
Qed.
End loop.

(** ** The engine on the services it runs with *)

(** The fairness service as the engine sees it. *)
Definition FairnessService (env : Risk.env) (P : SaltProvider) (hmac : list Z -> string -> string)
    (sha : list Z -> string) (rand : N -> string) (len : json -> Z) : FairnessApi allocated := {|
  fa_ensureChain := forget (Fairness.ensureChain env P sha rand len);
  fa_maintain := Fairness.maintain env P sha rand len false;
  fa_allocateSeed := Fairness.allocateSeed env P sha rand len;
  fa_crashForSeed := Fairness.crashForSeed hmac;
  fa_seedId a := sd_id (al_seed a);
  fa_chainIndex a := sd_chainIndex (al_seed a);
  fa_revealSeed := Fairness.revealSeed |}.

(** An election whose node holds the role [leader], and a cache with no view. *)
Definition role (leader : bool) : ElectionApi := {|
  el_isLeader _ := leader; el_assertStillLeader := gets (fun _ => leader); el_stepDown := mret tt |}.
Definition no_view : CacheApi := {| ca_getPublicState _ := None; ca_currentMultiplier _ := 100 |}.

Definition demo_fairness : FairnessApi allocated :=
  FairnessService (fun _ => None) (Providers.DailySaltProvider (fun _ => "00"%string))
    (fun _ _ => "80000000000000000000000000000000"%string) (fun _ => "00"%string) (fun _ => "00"%string) (fun _ => 0).
Definition demo_exp (ms : Z) : Z := 100 + ms / 10.
Definition demo_crash (c : Z) : Z := (c - 100) * 10.
Definition demo_enter (leader : bool) : transition -> prog node unit :=
  enter allocated demo_fairness (role leader) no_view demo_exp demo_crash (fun _ => true).
Definition demo_safe (leader : bool) : transition -> prog node unit :=
  safe_ allocated demo_fairness (role leader) no_view demo_exp demo_crash (fun _ => true).
Definition demo_fire : prog node unit :=
  fire allocated demo_fairness (role true) no_view demo_exp demo_crash (fun _ => true).

(** A round at 2.50x in [ph], its seed the first of the active epoch. *)
Definition demo_round (ph : phase) : round := mk_round 100%N 11%N 1 250 ph 0 (Some 5000) (Some 1000) None None 0.
Definition demo_state (ph : phase) : EngineState := mk_es 100%N 11%N ph 5000 (Some 1000) 250.
Definition demo_seeds : list seed := [mk_seed 11 1 1 "h1" "aa" None; mk_seed 12 1 2 "h2" "bb" None].
Definition demo_chains : list chain :=
  [mk_chain 1 0 "c0" 2 "random" None None (Some "r"%string) ChActive 0 None;
   mk_chain 2 1 "c1" 2 "random" None None (Some "q"%string) ChArmed 0 None].
Definition demo_node (ph : phase) (now : Z) : node :=
  mk_node (set_now now (set_rounds {[ 100%N := demo_round ph ]} (set_seeds demo_seeds (set_chains demo_chains
    (Nat.iter 200 bump_uuid empty_world)))))
    (mk_engine (Some (demo_state ph)) None true 0 true false true [] []).

Lemma fenced_transition_writes_nothing_witness :
  exists n', run (demo_enter false ToRunning) (demo_node Betting 4000) = (Ok tt, n') /\
    w_rounds (nd_world n') !! 100%N = Some (demo_round Betting) /\ halted n'.
Proof.
  destruct (fenced_transition_writes_nothing _ demo_fairness (role false) no_view demo_exp demo_crash (fun _ => true)
    ToRunning (demo_node Betting 4000) (fun _ => eq_refl) (or_intror (mk_is_Some _ _ eq_refl))) as (n' & E & T & H).
  exists n'. split; [exact E|]. split; [|exact H].
  replace n' with (run (demo_enter false ToRunning) (demo_node Betting 4000)).2 by (unfold demo_enter; by rewrite E).
  vm_compute. reflexivity.
Defined.

(** A database that fails the transition's write. *)
Definition broken_node : node :=
  mk_node (set_faults [FailBefore] (nd_world (demo_node Betting 4000))) (nd_engine (demo_node Betting 4000)).

Lemma loop_never_stalls_witness :
  armed (run (demo_safe true ToRunning) broken_node).2 /\
  e_timer (nd_engine (run (demo_safe true ToRunning) broken_node).2) = Some (5500, ToWaiting).
Proof.
  split; [|vm_compute; reflexivity].
  exact (proj1 (loop_never_stalls _ demo_fairness (role true) no_view demo_exp demo_crash (fun _ => true)
    ToRunning broken_node 0%nat (or_intror (mk_is_Some _ _ eq_refl)) ltac:(repeat constructor))).
Defined.


Lemma crash_point_secret_witness :
  payload demo_exp 3000 (same_but_crash (demo_state Running) 9999) = payload demo_exp 3000 (demo_state Running).
Proof.
  exact (proj2 (crash_point_secret (role true) no_view demo_exp (fun _ => true) (demo_node Running 3000)
    (demo_state Running) 9999 eq_refl eq_refl eq_refl)).
Defined.

(** ** Recovery of reservations *)

(** C20: Recovery refunds exactly what was taken.  A slot left reserving or
    cancelling is refunded its stake, once, and cancelled when the ledger holds
    its debit; when it does not, no money moves and the slot is freed.  Either
    way the slot is no longer one that recovery selects. *)
Theorem recovery_refunds_what_was_debited n b w wl
    (Hf : w_faults w = []) (Hb : w_bets w !! b_id b = Some b) (Hst : is_stuck None b = true)
    (Hwl : w_wallets w !! b_walletId b = Some wl) (Hpos : 0 < b_amount b) (Hsolvent : 0 <= w_balance wl)
    (Hk : w_ledger w !! KRestartRefund (b_id b) = None) :
  exists w', run (recoverSlot Ledger.LedgerService n b) w = (Ok (n + 1), w') /\
    (forall b', w_bets w' !! b_id b = Some b' -> is_stuck None b' = false) /\
    match w_ledger w !! KDebit (b_roundId b) (b_userId b) (b_panel b) with
    | Some _ => exists row, w_ledger w' = <[KRestartRefund (b_id b) := row]> (w_ledger w) /\ l_amount row = b_amount b /\
        Ledger.balance w' (b_walletId b) = Some (w_balance wl + b_amount b) /\
        w_bets w' = <[b_id b := set_settled cancelled (w_now w) (set_status cancelling b)]> (w_bets w)
    | None => w_ledger w' = w_ledger w /\ w_wallets w' = w_wallets w /\ w_bets w' = delete (b_id b) (w_bets w)
    end.
Proof.
  assert (Hclaim : exists w1, run (if Bets.has_status reserving b
      then count ← bet_updateMany_id (b_id b) (Bets.has_status reserving) (set_status cancelling); mret (negb (count =? 0))
      else mret true) w = (Ok true, w1) /\ w_faults w1 = [] /\ w_now w1 = w_now w /\ w_ledger w1 = w_ledger w /\ w_wallets w1 = w_wallets w /\
      w_bets w1 = <[b_id b := set_status cancelling b]> (w_bets w)).
  { destruct (Bets.has_status reserving b) eqn:Hr.
    - rewrite run_bind, (BetFlow.run_claim _ _ _ b) by done. eexists. split; [reflexivity|]. by split_and!.
    - unfold is_stuck in Hst. rewrite Hr, andb_true_r in Hst. cbn in Hst. apply bool_decide_eq_true in Hst.
      exists w. split; [done|]. split_and!; try done. unfold set_status, bet_with_status. rewrite <- Hst, insert_id; [done|].
      by destruct b. }
  destruct Hclaim as (w1 & E & F1 & N1 & L1 & W1 & B1). unfold recoverSlot. rewrite run_bind, E. cbn [negb].
  rewrite run_try, run_bind. unfold reverseSlot. cbn zeta. rewrite run_bind. cbn [wp_rollback Ledger.LedgerService run Ledger.rollback mret prog_mret].
  rewrite run_bind, run_db_get, L1 by done.
  destruct (w_ledger w !! KDebit (b_roundId b) (b_userId b) (b_panel b)) as [row0|].
  - rewrite run_bind. cbn [wp_credit Ledger.LedgerService].
    destruct (BetFlow.run_credit_fresh (b_walletId b) (b_amount b) Refund (KRestartRefund (b_id b)) (Some (b_id b)) wl w1) as (row & A & _ & Hc);
      [done..|by rewrite W1|by rewrite L1|].
    rewrite Hc, run_bind. cbn [run Date_now gets atom fst snd]. unfold bet_update. rewrite run_db_nofault by done.
    cbn [w_bets Ledger.posted bump_uuid set_ledger set_wallets w_now]. rewrite B1, lookup_insert_eq. cbn [run mret prog_mret].
    eexists. split; [reflexivity|]. cbn. rewrite insert_insert_eq, N1, L1. split; [intros b'; rewrite lookup_insert_eq; by intros [= <-]|].
    exists row. split_and!; try done. unfold Ledger.balance. cbn. by rewrite lookup_insert_eq.
  - rewrite run_try. unfold bet_delete. rewrite run_db_nofault, B1, lookup_insert_eq by done. cbn [run mret prog_mret].
    eexists. split; [reflexivity|]. cbn. rewrite delete_insert_eq. split; [intros b'; by rewrite lookup_delete_eq|]. by split_and!.
Qed.

(** A reservation whose activation never happened, its stake debited. *)
Definition stuck_bet : bet := mk_bet 0%N 100%N 7%N 1%N PanelA 120 None reserving None 0 false (Some 5%N) "USD" None None None 0 None.
Definition stuck_world : world :=
  set_bets {[ 0%N := stuck_bet ]}
    (set_ledger {[ KDebit 100%N 7%N PanelA := mk_ledger 1%N 1%N BetDebit (-120) 380 (Some 0%N) ]}
      (set_wallets {[ 1%N := mk_wallet 7%N "usd" 380 ]} (bump_uuid (bump_uuid empty_world)))).

Lemma recovery_refunds_what_was_debited_witness :
  exists w', run (recoverSlot Ledger.LedgerService 0 stuck_bet) stuck_world = (Ok 1, w') /\ Ledger.balance w' 1%N = Some 500.
Proof.
  destruct (recovery_refunds_what_was_debited 0 stuck_bet stuck_world (mk_wallet 7%N "usd" 380)) as (w' & H1 & _ & row & _ & _ & H2 & _);
    [by vm_compute..|]. exists w'. split; [exact H1|exact H2].
Defined.

(** ** Interleavings that escape the guards *)

Definition finished (ps : list (prog world unit)) : bool :=
  List.forallb (fun p => match p with Done (Ok _) => true | _ => false end) ps.

(** A betting round on the demo wallet, and a player of the panel. *)
Definition betting_world : world :=
  set_rounds {[ 100%N := mk_round 100%N 1%N 1 250 Betting 0 (Some 5000) None None None 0 ]} BetSafety.sample_world.
Definition player (r : Bets.request) : prog world unit := BetSafety.run_sample (BetSafety.ask Betting 100 r).

(** Boot recovery can strand a stake.  It claims a reservation whose debit
    has not happened yet, finds no debit in the ledger and deletes the row; the
    debit commits in between, placeBet's activation finds no row, and the player
    is left debited with no bet, no refund and nothing a later pass can see. *)
Theorem recovery_strands_a_late_debit :
  let r := schedule_pool (replicate 4 0 ++ replicate 5 1 ++ replicate 2 0 ++ replicate 9 1 ++ replicate 9 0)%nat betting_world
    [player (Bets.RPlace (BetSafety.stake_args 120)); forget (recoverReservingBets Ledger.LedgerService 0)] in
  finished r.2 = true /\ w_bets r.1 = ∅ /\
  BetSafety.posted_amount r.1 (KDebit 100%N 7%N PanelA) = Some (-120) /\
  BetSafety.posted_amount r.1 (KRestartRefund 0%N) = None /\ Ledger.balance r.1 1%N = Some 380.
Proof. vm_compute. by split_and!. Qed.

(** The stake of an active bet, debited. *)
Definition staked_world : world :=
  set_bets {[ 0%N := mk_bet 0%N 100%N 7%N 1%N PanelA 120 None active None 0 false (Some 5%N) "USD" None
                       (Some (TxLedger 1%N)) None 0 None ]}
    (set_ledger {[ KDebit 100%N 7%N PanelA := mk_ledger 1%N 1%N BetDebit (-120) 380 (Some 0%N) ]}
      (set_wallets {[ 1%N := mk_wallet 7%N "usd" 380 ]} (bump_uuid (bump_uuid betting_world)))).

(** Closing a round can refund a stake twice.  [closeAndRefundRound] reverses
    the bets it read as active without claiming them, under a key of its own;
    a player's cancel that claims the bet in between is paid under another, and
    both refunds post. *)
Theorem restart_refund_races_cancel :
  let r := schedule_pool (replicate 1 0 ++ replicate 9 1 ++ replicate 9 0)%nat staked_world
    [forget (closeAndRefundRound Ledger.LedgerService 100%N); player (Bets.RCancel 7%N PanelA)] in
  finished r.2 = true /\
  BetSafety.posted_amount r.1 (KRefund 0%N) = Some 120 /\
  BetSafety.posted_amount r.1 (KRestartRefund 0%N) = Some 120 /\
  Ledger.balance r.1 1%N = Some 620.
Proof. vm_compute. by split_and!. Qed.

(** *** A transition that outlives its deadline *)

Definition done_ (p : prog node unit) : bool := match p with Done (Ok _) => true | _ => false end.
(** Time passes, then the event loop runs the timer that is due. *)
Definition after (ms : Z) : prog node unit :=
  _ ← atom (fun n => (tt, mk_node (set_now (w_now (nd_world n) + ms) (nd_world n)) (nd_engine n)));
  demo_fire.
(** What one client of the loop saw last: newest events first. *)
Definition crash_events (n : node) : list event :=
  List.filter (fun ev => match ev with EvCrash _ _ | EvSettle _ => true | _ => false end) (w_events (nd_world n)).
Definition revealed (n : node) : list uuid :=
  sd_id <$> List.filter (fun s => is_Some_b (sd_revealedAt s)) (w_seeds (nd_world n)).
Definition status_of (n : node) (id : uuid) : option phase := r_status <$> w_rounds (nd_world n) !! id.

(** A late crash reveals the next round's seed.  [enterCrashed] captures its
    round after awaiting the fence check; if that await outlives the deadline,
    the recovery has already opened a successor, and the late transition marks
    the successor crashed, reveals its seed and announces its crash point before
    anyone could bet on it. *)
Theorem late_crash_hits_successor :
  let r := schedule_pool (replicate 3 0 ++ replicate 9 1 ++ replicate 30 2 ++ replicate 30 0)%nat (demo_node Running 5500)
    [demo_safe true ToCrashed; deadline 0; after 1500] in
  List.forallb done_ r.2 = true /\
  crash_events r.1 = [EvCrash 200%N 193] /\ revealed r.1 = [12%N] /\
  status_of r.1 200%N = Some Crashed /\ status_of r.1 100%N = Some Running.
Proof. vm_compute. by split_and!. Qed.
End EngineSafety.
