(* ===== verification/Health.v ===== *)
(** * Probes and the metrics key

    [health/health.controller.ts], [metrics/metrics-auth.guard.ts],
    [metrics/version.controller.ts] and the constants of [common/build-info.ts].
    A dependency is the moment its ping settles and how; the metrics registry is
    third-party.
    Proved: when the node is healthy, what an anonymous caller learns, when the
    liveness probe asks for a restart; and that a healthy leader steps down in a
    round that lasts. *)

From Stdlib Require Import QArith.
From S2P Require Import Prelude Effects Js Dates Money Schema Wallet Crash Fairness OperatorAuth Engine EngineSafety.

Open Scope Z_scope.

#[local] Set Warnings "-clear-no-such-hyp".

Module Metrics.
(** [MetricsAuthGuard.canActivate]: an unset token is an open route. *)
Definition canActivate (process_env : Risk.env) (authorization : option header) : res bool :=
  match process_env "METRICS_TOKEN" with
  | Some (String _ _ as expected) =>
      if safeTokenEqual (bearerToken authorization) (Some expected) then Ok true else Raise (Unauthorized "metrics_unauthorized")
  | _ => Ok true
  end.

(** *** The build's identity *)

Definition BUILD_SERVICE : string := "vault-runner-api".

Definition envOrUnknown (v : option string) : string :=
  match v with Some s => if nonempty s && nonempty (trim s) then s else "unknown" | None => "unknown" end.

Record build_info := mk_build { bi_service : string; bi_version : string; bi_commit : string; bi_buildTime : string }.

(** [pkg_version] is the version of package.json. *)
Definition BUILD_VERSION (pkg_version : option string) : string :=
  match pkg_version with Some (String _ _ as v) => v | _ => "unknown" end.
Definition BUILD_COMMIT (process_env : Risk.env) : string := envOrUnknown (process_env "GIT_SHA").
Definition buildInfo (pkg_version : option string) (process_env : Risk.env) : build_info :=
  mk_build BUILD_SERVICE (BUILD_VERSION pkg_version) (BUILD_COMMIT process_env) (envOrUnknown (process_env "BUILD_TIME")).

Definition version (pkg_version : option string) (process_env : Risk.env) (authorization : option header) : res build_info :=
  match canActivate process_env authorization with
  | Ok _ => Ok (buildInfo pkg_version process_env)
  | Raise e => Raise e
  end.

Lemma closed_to_strangers e token h : e "METRICS_TOKEN"%string = Some token -> nonempty token = true ->
  (canActivate e h = Ok true <-> bearerToken h = Some token).
Proof.
  intros He Hn. unfold canActivate. rewrite He. destruct token as [|a t]; [done|]. unfold safeTokenEqual.
  destruct (bearerToken h) as [p|]; [|done]. destruct (nonempty p && _ && _ && _) eqn:E.
  - apply andb_true_iff in E as [_ E%eqb_str_eq]. by subst.
  - split; [done|]. intros [= ->]. exfalso. revert E. cbn [nonempty andb].
    rewrite Nat.eqb_refl, eqb_str_refl. done.
Qed.
End Metrics.

Module Health.

(** When a ping settles, in milliseconds from its start, and how; [None] never. *)
Definition settles := option (Z * res unit).

Record dep := mk_dep { dep_up : bool; dep_latencyMs : Z; dep_error : option string }.

Definition PING_TIMEOUT_MS : Z := 800.

(** [e?.message ?? "error"]: [message] prints an error. *)
Definition ping (message : exn -> option string) (fn : settles) (timeoutMs : Z) : dep :=
  match fn with
  | Some (t, r) =>
      if t <=? timeoutMs then
        match r with
        | Ok _ => mk_dep true t None
        | Raise e => mk_dep false t (Some (nullish (message e) "error"%string))
        end
      else mk_dep false timeoutMs (Some ("timeout after " +:+ BigInt_toString timeoutMs +:+ "ms")%string)
  | None => mk_dep false timeoutMs (Some ("timeout after " +:+ BigInt_toString timeoutMs +:+ "ms")%string)
  end.

Record detail := mk_detail {
  de_uptimeMs : Z; de_ts : string; de_db : dep; de_redis : dep; de_running : bool; de_phase : option phase
}.
Record body := mk_body { bo_status : string; bo_detail : option detail }.

Section health.
Context (process_env : Risk.env) (message : exn -> option string).
(** [engine.getPublicState()]: it may throw. *)
Context (getPublicState : res (option phase)).
Context (startedAt now : Z) (db redis : settles).

Definition showDetail (authorization : option header) : bool :=
  match process_env "METRICS_TOKEN" with
  | Some (String _ _ as token) => safeTokenEqual (bearerToken authorization) (Some token)
  | _ => true
  end.

(** The status code and the body. *)
Definition health (authorization : option header) : Z * body :=
  let db := ping message db PING_TIMEOUT_MS in
  let redis := ping message redis PING_TIMEOUT_MS in
  let state := match getPublicState with Ok s => s | Raise _ => None end in
  let detail := if showDetail authorization
                then Some (mk_detail (now - startedAt) (Dates.toISOString now) db redis (is_Some_b state) state)
                else None in
  if dep_up db && dep_up redis then (200, mk_body "ok" detail) else (503, mk_body "degraded" detail).
End health.

(** Answered in time. *)
Definition answers (fn : settles) : Prop := exists t, fn = Some (t, Ok tt) /\ t <= PING_TIMEOUT_MS.

Lemma ping_up message fn : dep_up (ping message fn PING_TIMEOUT_MS) = true <-> answers fn.
Proof.
  unfold answers, ping. destruct fn as [[t [[]|e]]|].
  - destruct (Z.leb_spec t PING_TIMEOUT_MS); cbn; split; try done; [by exists t|]. intros (t' & [= <-] & ?). lia.
  - destruct (t <=? PING_TIMEOUT_MS); cbn; split; try done; by intros (? & ? & ?).
  - split; [done|]. by intros (? & ? & _).
Qed.

(** A hung dependency delays the answer by at most the timeout. *)
Lemma ping_bounded message fn : (forall t r, fn = Some (t, r) -> 0 <= t) ->
  0 <= dep_latencyMs (ping message fn PING_TIMEOUT_MS) <= PING_TIMEOUT_MS.
Proof.
  intros Hf. unfold ping, PING_TIMEOUT_MS. destruct fn as [[t r]|]; [|cbn; lia]. specialize (Hf t r eq_refl).
  destruct (Z.leb_spec t 800); [destruct r|]; cbn; lia.
Qed.

(** The node is in rotation exactly when the database and the cache answer in
    time, whatever the engine does; and when a token is set, a caller without it
    reads that one bit and nothing else. *)
Theorem health_exact e message s t0 now db redis h :
  ((health e message s t0 now db redis h).1 = 200 <-> answers db /\ answers redis) /\
  (forall token, e "METRICS_TOKEN"%string = Some token -> nonempty token = true -> bearerToken h <> Some token ->
     forall message' s' t0' now' db' redis',
       (health e message' s' t0' now' db' redis' h).1 = (health e message s t0 now db redis h).1 ->
       health e message' s' t0' now' db' redis' h = health e message s t0 now db redis h).
Proof.
  split.
  - unfold health. rewrite <- (ping_up message db), <- (ping_up message redis).
    destruct (dep_up _), (dep_up _); cbn; split; try done; by intros [].
  - intros token He Hn Hb m s' t' n' d' r'.
    assert (showDetail e h = false) as Hs.
    { pose proof (Metrics.closed_to_strangers e token h He Hn) as Hc. unfold Metrics.canActivate in Hc. unfold showDetail. rewrite He in *.
      destruct token; [done|]. destruct (safeTokenEqual _ _); [|done]. exfalso. by apply Hb, Hc. }
    unfold health. rewrite Hs. destruct (dep_up _ && dep_up _), (dep_up _ && dep_up _); done.
Qed.

(** ** The liveness probe *)

Record live_body := mk_live { lv_status : string; lv_leader : bool; lv_sinceLastRoundMs : option Z }.

Definition LIVE_STALL_MS (process_env : Risk.env) : jsnum :=
  match process_env "ENGINE_LIVE_STALL_MS" with Some v => js_Number v | None => js_int 120000 end.

(** [isLeader] and [since] are the engine's two reads; either may throw. *)
Definition live (process_env : Risk.env) (isLeader : res bool) (since : res Z) : Z * live_body :=
  let '(leader, sinceLastRoundMs) :=
    match isLeader with
    | Ok l => match since with Ok s => (l, Some s) | Raise _ => (false, None) end
    | Raise _ => (false, None)
    end in
  let stalled := leader && match sinceLastRoundMs with Some s => js_lt (LIVE_STALL_MS process_env) s | None => false end in
  (if stalled then 503 else 200, mk_live (if stalled then "stalled" else "ok")%string leader sinceLastRoundMs).

(** A restart is asked for exactly on a leader whose last round is older than the
    threshold: a follower, or an engine that cannot be read, always passes. *)
Lemma live_exact e isLeader since :
  (live e isLeader since).1 = 503 <->
  isLeader = Ok true /\ exists s, since = Ok s /\ js_lt (LIVE_STALL_MS e) s = true.
Proof.
  unfold live. destruct isLeader as [[]|], since as [s|]; cbn; try (split; [done|by intros (? & ? & ? & ?)]).
  destruct (js_lt _ s) eqn:E; cbn; split; try done; [by eauto|]. intros (_ & s' & [= <-] & ?). congruence.
Qed.

(** The threshold is read without a check, and nothing exceeds a NaN: with a unit
    in the variable the probe never fails. *)
Theorem live_threshold_fails_open :
  let e := fun _ : string => Some "120s"%string in
  LIVE_STALL_MS e = NaN /\ forall isLeader since, (live e isLeader since).1 = 200.
Proof. split; [reflexivity|]. intros isLeader since. unfold live. by destruct isLeader as [[]|], since. Qed.

(** ** A healthy round that lasts *)

(** The deadman fires exactly on a leader, once, when no round was completed for
    longer than its window. *)
Lemma deadman_exact (el : ElectionApi) env n :
  e_steppingDown (nd_engine n) = false -> el_isLeader n = true ->
  js_ge (Engine.deadmanMs env) (w_now (nd_world n) - e_lastRoundAt (nd_engine n)) = true ->
  run (Engine.deadmanCheck el env) n = (Ok tt, n).
Proof.
  intros Hs Hl Hw. unfold Engine.deadmanCheck, Engine.msSinceLastRound. rewrite run_bind. unfold gets at 1. rewrite run_atom. cbn [fst snd].
  rewrite Hs, Hl. cbn [orb negb]. rewrite run_bind. unfold gets. rewrite run_atom. cbn [fst snd]. by rewrite Hw.
Qed.

(** An epoch whose next round crashes at 729x, three to the sixth: its running
    phase lasts [log 729 / 0.00012], 54930 ms. *)
Definition slow_fairness : FairnessApi uuid := {|
  fa_ensureChain := mret tt; fa_maintain := mret tt; fa_allocateSeed := mret (Some 11%N);
  fa_crashForSeed _ := Some 72900; fa_seedId s := s; fa_chainIndex _ := 1; fa_revealSeed _ := mret tt |}.
(** A leader that says when it steps down. *)
Definition leading : ElectionApi := {|
  el_isLeader _ := true; el_assertStillLeader := mret true; el_stepDown := Engine.emit_ (EvLog "stepped down") |}.
Definition slow_crash (_ : Z) : Z := 54930.

(** Time passes to the instant [t], then the event loop runs what is due. *)
Definition at_time (t : Z) : prog node unit :=
  _ ← atom (fun n => (tt, mk_node (set_now t (nd_world n)) (nd_engine n)));
  Engine.fire uuid slow_fairness leading EngineSafety.no_view EngineSafety.demo_exp slow_crash (fun _ => true).

(** A leader that completed a round at the instant 0. *)
Definition completed_node : node :=
  mk_node (set_now 0 empty_world) (mk_engine None (Some (600, ToWaiting)) true 0 true false true [] []).

(** The comment says that sixty seconds without a completed round are a true
    stall, never a slow round.  Every timer of this leader fires when it is due
    and nothing fails; the round is running, its crash still to come, and the
    deadman steps the leader down: a full round takes 11.6 s and the running
    phase, which is longer than 48.4 s for every crash point from 333x on. *)
Theorem deadman_kills_healthy_round :
  let n := (run (_ ← at_time 600; _ ← at_time 3600; at_time 8600) completed_node).2 in
  option_map es_phase (e_state (nd_engine n)) = Some Running /\
  e_timer (nd_engine n) = Some (63530, ToCrashed) /\
  let m := (run (_ ← at_time 60001; Engine.deadmanCheck leading (fun _ => None)) n).2 in
  option_map es_phase (e_state (nd_engine m)) = Some Running /\
  e_timer (nd_engine m) = Some (63530, ToCrashed) /\ head (w_events (nd_world m)) = Some (EvLog "stepped down").
Proof. vm_compute. by split_and!. Qed.
End Health.
