(* ===== verification/Telemetry.v ===== *)
(** * What the service reports of itself

    [metrics/metrics.service.ts] and its scrape route, [observability/sentry.ts]
    and [common/log-redact.ts].  The registry of the metrics library is the class
    [Prom], with the documented laws of its counters and gauges; the error tracker
    is the argument that may throw.  A division of two doubles is kept exact.
    Proved: what the counters and the realized-RTP gauge say of the calls made,
    fed by the events the other components emit. *)

From Stdlib Require Import QArith.
From S2P Require Import Prelude Effects Js Money Schema Wallet Ledger OperatorAuth Bets BetSafety BetFlow Reconcile Health.

Open Scope Z_scope.

#[local] Set Warnings "-clear-no-such-hyp".

Abbreviation labels := (list (string * string)) (only parsing).

(** Counters, gauges and a histogram of the metrics library. *)
Class Prom (R : Type) := {
  prom_new : R;
  prom_inc : string -> labels -> Z -> R -> res R;
  prom_set : string -> labels -> Q -> R -> R;
  prom_observe : string -> Z -> R -> R;
  prom_count : string -> labels -> R -> Z;
  prom_gauge : string -> labels -> R -> Q;
  prom_text : R -> string
}.

(** A counter starts at 0 and refuses a negative increment; a gauge is what it
    was set to last. *)
Class PromLaws (R : Type) `{Prom R} := {
  new_count name l : prom_count name l prom_new = 0;
  new_gauge name l : prom_gauge name l prom_new = 0%Q;
  inc_adds name l v r : 0 <= v -> exists r', prom_inc name l v r = Ok r' /\
    (forall name' l', prom_count name' l' r' = prom_count name' l' r + if decide ((name', l') = (name, l)) then v else 0) /\
    (forall name' l', prom_gauge name' l' r' = prom_gauge name' l' r);
  inc_refuses name l v r : v < 0 -> exists e, prom_inc name l v r = Raise e;
  set_sets name l v r name' l' : prom_gauge name' l' (prom_set name l v r) = if decide ((name', l') = (name, l)) then v else prom_gauge name' l' r;
  set_counts name l v r name' l' : prom_count name' l' (prom_set name l v r) = prom_count name' l' r;
  observe_counts name v r name' l' : prom_count name' l' (prom_observe name v r) = prom_count name' l' r;
  observe_gauges name v r name' l' : prom_gauge name' l' (prom_observe name v r) = prom_gauge name' l' r
}.

Module MetricsService.

Section service.
Context {R : Type} {PR : Prom R}.

Record service := mk_service { registry : R; stakeSum : Z; payoutSum : Z }.

(** [counter.inc(labels, v)], [gauge.set(labels, v)] *)
Definition inc (name : string) (l : labels) (v : Z) : prog service unit :=
  atom_res (fun m => match prom_inc name l v (registry m) with
                     | Ok r => (Ok tt, mk_service r (stakeSum m) (payoutSum m))
                     | Raise e => (Raise e, m)
                     end).
Definition set (name : string) (l : labels) (v : Q) : prog service unit :=
  atom (fun m => (tt, mk_service (prom_set name l v (registry m)) (stakeSum m) (payoutSum m))).

(** The sums are doubles: an addition rounds. *)
Definition js_plus (a b : Z) : Z := bigint_to_number (a + b).
Definition add_stake (v : Z) : prog service unit := atom (fun m => (tt, mk_service (registry m) (js_plus (stakeSum m) v) (payoutSum m))).
Definition add_payout (v : Z) : prog service unit := atom (fun m => (tt, mk_service (registry m) (stakeSum m) (js_plus (payoutSum m) v))).

Definition updateRtp : prog service unit :=
  m ← gets id;
  when (0 <? stakeSum m) (set "vaultrun_realized_rtp" [] (inject_Z (payoutSum m) / inject_Z (stakeSum m))).

Definition recordBet (stakeMinor : Z) : prog service unit :=
  _ ← inc "vaultrun_bets_total" [] 1;
  _ ← inc "vaultrun_stake_minor_total" [] stakeMinor;
  _ ← add_stake stakeMinor;
  updateRtp.

Definition recordPayout (payoutMinor : Z) : prog service unit :=
  _ ← inc "vaultrun_cashouts_total" [] 1;
  _ ← inc "vaultrun_payout_minor_total" [] payoutMinor;
  _ ← add_payout payoutMinor;
  updateRtp.

Definition recordSaltFallback (reason mode : string) : prog service unit :=
  inc "vaultrun_fairness_salt_fallback_total" [("reason", reason); ("mode", mode)]%string 1.
Definition recordPlayerAnonymize : prog service unit := inc "vaultrun_player_anonymize_total" [] 1.
Definition recordRejected (reason : string) : prog service unit := inc "vaultrun_bets_rejected_total" [("reason", reason)]%string 1.
Definition recordRgBlock (reason : string) : prog service unit := inc "vaultrun_rg_blocks_total" [("reason", reason)]%string 1.
Definition recordRound (now : Z) : prog service unit :=
  _ ← inc "vaultrun_rounds_total" [] 1;
  set "vaultrun_engine_last_round_timestamp_seconds" [] (now # 1000).
Definition recordError (where_ : string) : prog service unit := inc "vaultrun_errors_total" [("where", where_)]%string 1.
Definition setEngineLeader (node : string) (leader : bool) : prog service unit :=
  _ ← set "vaultrun_engine_leader" [("node", node)]%string (if leader then 1 else 0)%Q;
  inc "vaultrun_engine_leadership_changes_total" [("node", node); ("event", if leader then "acquired" else "lost")]%string 1.
Definition setWsConnections (n : Z) : prog service unit := set "vaultrun_ws_connections" [] (inject_Z n).
Definition observeSettlementLatency (ms : Z) : prog service unit :=
  atom (fun m => (tt, mk_service (prom_observe "vaultrun_settlement_latency_ms" ms (registry m)) (stakeSum m) (payoutSum m))).
Definition setPendingPayouts (count oldestAgeSeconds : Z) : prog service unit :=
  _ ← set "vaultrun_pending_payouts" [] (inject_Z count);
  set "vaultrun_pending_payout_oldest_seconds" [] (inject_Z oldestAgeSeconds).
Definition setReservingBacklog (count oldestAgeSeconds : Z) : prog service unit :=
  _ ← set "vaultrun_reserving_slots" [] (inject_Z count);
  set "vaultrun_reserving_oldest_seconds" [] (inject_Z oldestAgeSeconds).
Definition setWalletRollbackPending (count : Z) : prog service unit := set "vaultrun_wallet_rollback_pending" [] (inject_Z count).

(** [MetricsController.scrape] behind its guard: [this.metrics.render()]. *)
Definition scrape (process_env : Risk.env) (authorization : option header) (m : service) : res string :=
  match Metrics.canActivate process_env authorization with Ok _ => Ok (prom_text (registry m)) | Raise e => Raise e end.

(** The constructor: the build in the labels, the boot time as the last round. *)
Definition constructor (commit version : string) (now : Z) : service :=
  let r := prom_set "vaultrun_build_info" [("commit", commit); ("version", version)]%string 1%Q prom_new in
  mk_service (prom_set "vaultrun_engine_last_round_timestamp_seconds" [] (now # 1000) r) 0 0.

(** The call of the service behind an event of the other components' traces. *)
Definition feed (nodeId : string) (now : Z) (e : event) : prog service unit :=
  match e with
  | EvRecordBet amount => recordBet (bigint_to_number amount)
  | EvRecordPayout amount => recordPayout (bigint_to_number amount)
  | EvMetric name label =>
    if String.eqb name "bets_rejected" then recordRejected label
    else if String.eqb name "rg_blocks" then recordRgBlock label
    else if String.eqb name "errors" then recordError label
    else if String.eqb name "rounds_total" then recordRound now
    else if String.eqb name "player_anonymize" then recordPlayerAnonymize
    else if String.eqb name "engine_leader" then setEngineLeader nodeId (String.eqb label "1")
    else if String.eqb name "audit_event_write_failures" then inc "vaultrun_audit_event_write_failures_total" [] 1
    else mret tt
  | EvGauge name a b =>
    if String.eqb name "pending_payouts" then setPendingPayouts a b
    else if String.eqb name "reserving_slots" then setReservingBacklog a b
    else if String.eqb name "wallet_rollback_pending" then setWalletRollbackPending a
    else if String.eqb name "ws_connections" then setWsConnections a
    else if String.eqb name "settlement_latency_ms" then observeSettlementLatency a
    else mret tt
  | _ => mret tt
  end.

(** ** What the numbers say *)

Context {PL : PromLaws R}.

Definition staked (e : event) : Z := match e with EvRecordBet a => a | _ => 0 end.
Definition paid (e : event) : Z := match e with EvRecordPayout a => a | _ => 0 end.
Definition is_bet (e : event) : Z := match e with EvRecordBet _ => 1 | _ => 0 end.
Definition is_payout (e : event) : Z := match e with EvRecordPayout _ => 1 | _ => 0 end.
Definition refused (reason : string) (e : event) : Z :=
  match e with EvMetric n l => if String.eqb n "bets_rejected" && String.eqb l reason then 1 else 0 | _ => 0 end.

(** The service after some calls, of which [S] was staked in [nb] bets and [P] paid in [np]. *)
Record tells (nb S np P : Z) (rejects : string -> Z) (m : service) : Prop := {
  te_bets : prom_count "vaultrun_bets_total" [] (registry m) = nb;
  te_stake : prom_count "vaultrun_stake_minor_total" [] (registry m) = S;
  te_cashouts : prom_count "vaultrun_cashouts_total" [] (registry m) = np;
  te_payout : prom_count "vaultrun_payout_minor_total" [] (registry m) = P;
  te_rejected reason : prom_count "vaultrun_bets_rejected_total" [("reason", reason)]%string (registry m) = rejects reason;
  te_sums : stakeSum m = S /\ payoutSum m = P;
  te_rtp : prom_gauge "vaultrun_realized_rtp" [] (registry m) = if 0 <? S then (inject_Z P / inject_Z S)%Q else 0%Q
}.

Lemma to_number_small z : 0 <= z < 2 ^ 53 -> bigint_to_number z = z.
Proof. intros Hz. unfold bigint_to_number. rewrite Z.abs_eq by lia. destruct (Z.ltb_spec z (2 ^ 53)); [done|lia]. Qed.

(** An operation that touches neither the money counters nor their gauge, and
    counts [d] more refusals. *)
Definition harmless (p : prog service unit) (d : string -> Z) : Prop :=
  forall nb S np P rej m, tells nb S np P rej m -> exists m', run p m = (Ok tt, m') /\ tells nb S np P (fun r => rej r + d r) m'.

Lemma run_inc name l v m : 0 <= v -> exists r, run (inc name l v) m = (Ok tt, mk_service r (stakeSum m) (payoutSum m)) /\
  (forall n' l', prom_count n' l' r = prom_count n' l' (registry m) + if decide ((n', l') = (name, l)) then v else 0) /\
  (forall n' l', prom_gauge n' l' r = prom_gauge n' l' (registry m)).
Proof using PL.
  intros Hv. destruct (inc_adds name l v (registry m) Hv) as (r & E & Hc & Hg). exists r. split; [|done].
  unfold inc. by rewrite run_atom_res, E.
Qed.

Definition none (_ : string) : Z := 0.

Lemma harmless_ret : harmless (mret tt) none.
Proof using Type. intros nb S np P rej m []. exists m. split; [done|]. split; [done..| |done|done]. intros r. unfold none. rewrite Z.add_0_r. done. Qed.

Lemma harmless_seq p q d : harmless p none -> harmless q d -> harmless (_ ← p; q) d.
Proof using Type.
  intros Hp Hq nb S np P rej m Hm. destruct (Hp _ _ _ _ _ _ Hm) as (m1 & E1 & H1).
  destruct (Hq _ _ _ _ _ _ H1) as (m2 & E2 & H2). exists m2. rewrite run_bind, E1. split; [done|].
  destruct H2. split; try done. intros r. rewrite te_rejected0. unfold none. lia.
Qed.

Definition money_names : list string :=
  ["vaultrun_bets_total"; "vaultrun_stake_minor_total"; "vaultrun_cashouts_total"; "vaultrun_payout_minor_total"; "vaultrun_realized_rtp"]%string.

Lemma harmless_inc name l : name ∉ money_names ->
  harmless (inc name l 1) (fun r => if decide ((name, l) = ("vaultrun_bets_rejected_total", [("reason", r)])%string) then 1 else 0).
Proof using PL.
  intros Hn nb S np P rej m []. destruct (inc_adds name l 1 (registry m) ltac:(done)) as (r & E & Hc & Hg).
  exists (mk_service r (stakeSum m) (payoutSum m)). split; [unfold inc; by rewrite run_atom_res, E|].
  split; cbn [registry stakeSum payoutSum]; rewrite ?Hg, ?Hc; try done.
  all: try (rewrite decide_False; [lia|]; intros [= <- <-]; apply Hn; unfold money_names; set_solver).
  intros s. rewrite Hc, te_rejected0. do 2 case_decide; [done|congruence..|done].
Qed.

Lemma harmless_set name l v : name ∉ money_names -> harmless (set name l v) none.
Proof using PL.
  intros Hn nb S np P rej m []. exists (mk_service (prom_set name l v (registry m)) (stakeSum m) (payoutSum m)).
  split; [done|]. split; cbn [registry stakeSum payoutSum]; rewrite ?set_counts, ?set_sets; try done.
  - intros s. rewrite set_counts, te_rejected0. unfold none. lia.
  - rewrite decide_False; [done|]. intros [= <- <-]. apply Hn. unfold money_names. set_solver.
Qed.

Lemma harmless_observe ms : harmless (observeSettlementLatency ms) none.
Proof using PL.
  intros nb S np P rej m [].
  exists (mk_service (prom_observe "vaultrun_settlement_latency_ms" ms (registry m)) (stakeSum m) (payoutSum m)). split; [done|].
  split; cbn [registry stakeSum payoutSum]; rewrite ?observe_counts, ?observe_gauges; try done.
  intros s. rewrite observe_counts, te_rejected0. unfold none. lia.
Qed.

Lemma harmless_eq p d d' : (forall r, d r = d' r) -> harmless p d -> harmless p d'.
Proof using Type.
  intros Hd Hp nb S np P rej m Hm. destruct (Hp _ _ _ _ _ _ Hm) as (m' & E & []). exists m'. split; [done|].
  split; try done. intros r. by rewrite <- Hd.
Qed.

Lemma harmless_other name l : name ∉ money_names -> name <> "vaultrun_bets_rejected_total"%string -> harmless (inc name l 1) none.
Proof using PL. intros Hn Hr. eapply harmless_eq; [|by apply harmless_inc]. intros r. cbn. rewrite decide_False by congruence. done. Qed.

Ltac distinct := unfold money_names; rewrite ?not_elem_of_cons; repeat split; try done; apply not_elem_of_nil.

(** An event that records no money. *)
Lemma feed_harmless nodeId now e : staked e = 0 -> paid e = 0 -> is_bet e = 0 -> is_payout e = 0 ->
  harmless (feed nodeId now e) (fun r => refused r e).
Proof using PL.
  intros _ _ Hb Hp. destruct e as [name label| | | | |a|a|name a b|s]; try discriminate; cbn [feed refused]; try apply harmless_ret.
  - destruct (String.eqb name "bets_rejected") eqn:E.
    { eapply harmless_eq; [|apply harmless_inc; distinct]. intros r. cbn. destruct (String.eqb_spec label r) as [->|Hne].
      - by rewrite decide_True. - rewrite decide_False; [done|congruence]. }
    cbn [andb]. repeat case_match; first [apply harmless_ret | apply harmless_seq; [|]; apply harmless_set || apply harmless_other | apply harmless_other]; try distinct.
    all: try (apply harmless_set; distinct). all: try (apply harmless_other; distinct).
  - repeat case_match; first [apply harmless_ret | apply harmless_observe | apply harmless_seq; apply harmless_set | apply harmless_set]; distinct.
Qed.
(** The gauge after an update, from the two sums. *)
Lemma run_updateRtp r S P : 0 <= S -> exists r', run updateRtp (mk_service r S P) = (Ok tt, mk_service r' S P) /\
  (forall n l, prom_count n l r' = prom_count n l r) /\
  prom_gauge "vaultrun_realized_rtp" [] r' = if 0 <? S then (inject_Z P / inject_Z S)%Q else prom_gauge "vaultrun_realized_rtp" [] r.
Proof using PL.
  intros HS. unfold updateRtp. rewrite run_bind. cbn [run gets atom stakeSum payoutSum id fst snd]. destruct (0 <? S) eqn:E; cbn [when].
  - eexists. split; [reflexivity|]. split; [intros n l; apply set_counts|]. by rewrite set_sets, decide_True.
  - by exists r.
Qed.

Ltac counters Hc1 Hc2 := rewrite ?Hc2, ?Hc1; repeat (first [rewrite decide_True by done | rewrite decide_False by congruence]); try lia.

Lemma feed_bet nb S np P rej m a : tells nb S np P rej m -> 0 <= S -> 0 <= a -> S + a < 2 ^ 53 ->
  exists m', run (recordBet (bigint_to_number a)) m = (Ok tt, m') /\ tells (nb + 1) (S + a) np P rej m'.
Proof using PL.
  intros [] HS Ha Hlt. destruct te_sums0 as [E1 E2]. rewrite to_number_small by lia. unfold recordBet.
  destruct (run_inc "vaultrun_bets_total" [] 1 m) as (r1 & R1 & C1 & G1); [done|].
  destruct (run_inc "vaultrun_stake_minor_total" [] a (mk_service r1 (stakeSum m) (payoutSum m))) as (r2 & R2 & C2 & G2); [done|].
  cbn [registry stakeSum payoutSum] in *. destruct (run_updateRtp r2 (S + a) P) as (r3 & R3 & C3 & G3); [lia|].
  exists (mk_service r3 (S + a) P). split.
  - rewrite run_bind, R1, run_bind, R2, run_bind. cbn [run add_stake atom fst snd registry stakeSum payoutSum].
    unfold js_plus. by rewrite E1, E2, to_number_small by lia.
  - split; cbn [registry stakeSum payoutSum]; [rewrite C3; counters C1 C2; done..| | | |].
    + rewrite C3. counters C1 C2.
    + intros reason. rewrite C3, <- te_rejected0. counters C1 C2.
    + done.
    + rewrite G3. destruct (0 <? S + a) eqn:E; [done|]. apply Z.ltb_ge in E. rewrite G2, G1, te_rtp0.
      by destruct (Z.ltb_spec 0 S); [lia|].
Qed.
Lemma feed_payout nb S np P rej m a : tells nb S np P rej m -> 0 <= S -> 0 <= P -> 0 <= a -> P + a < 2 ^ 53 ->
  exists m', run (recordPayout (bigint_to_number a)) m = (Ok tt, m') /\ tells nb S (np + 1) (P + a) rej m'.
Proof using PL.
  intros [] HS HP Ha Hlt. destruct te_sums0 as [E1 E2]. rewrite to_number_small by lia. unfold recordPayout.
  destruct (run_inc "vaultrun_cashouts_total" [] 1 m) as (r1 & R1 & C1 & G1); [done|].
  destruct (run_inc "vaultrun_payout_minor_total" [] a (mk_service r1 (stakeSum m) (payoutSum m))) as (r2 & R2 & C2 & G2); [done|].
  cbn [registry stakeSum payoutSum] in *. destruct (run_updateRtp r2 S (P + a)) as (r3 & R3 & C3 & G3); [lia|].
  exists (mk_service r3 S (P + a)). split.
  - rewrite run_bind, R1, run_bind, R2, run_bind. cbn [run add_payout atom fst snd registry stakeSum payoutSum].
    unfold js_plus. by rewrite E1, E2, to_number_small by lia.
  - split; cbn [registry stakeSum payoutSum]; [rewrite C3; counters C1 C2; done..| | | |].
    + rewrite C3. counters C1 C2.
    + intros reason. rewrite C3, <- te_rejected0. counters C1 C2.
    + done.
    + rewrite G3. destruct (0 <? S) eqn:E; [done|]. by rewrite G2, G1, te_rtp0.
Qed.

Lemma fresh_tells commit version now : tells 0 0 0 0 none (constructor commit version now).
Proof using PL.
  split; cbn [constructor registry stakeSum payoutSum]; rewrite ?set_counts, ?set_sets, ?new_count, ?new_gauge; try done.
  intros r. by rewrite !set_counts, new_count.
Qed.

(** What a scrape shows after any calls: the bets, the stakes, the wins and the
    payouts of these calls, their refusals by reason, and as realized RTP the
    ratio of the two sums, 0 as long as nothing was staked; all of it exact
    while the sums stay below the integers a double holds. *)
Theorem metrics_exact commit version nodeId now0 now (es : list event)
    (Hpos : Forall (fun e => 0 <= staked e /\ 0 <= paid e) es) (HS : sumZ staked es < 2 ^ 53) (HP : sumZ paid es < 2 ^ 53) :
  exists m, run (for_each es (feed nodeId now)) (constructor commit version now0) = (Ok tt, m) /\
    tells (sumZ is_bet es) (sumZ staked es) (sumZ is_payout es) (sumZ paid es) (fun r => sumZ (refused r) es) m.
Proof using PL.
  enough (H : forall nb S np P rej m, tells nb S np P rej m -> 0 <= S -> 0 <= P -> S + sumZ staked es < 2 ^ 53 -> P + sumZ paid es < 2 ^ 53 ->
    exists m', run (for_each es (feed nodeId now)) m = (Ok tt, m') /\
      tells (nb + sumZ is_bet es) (S + sumZ staked es) (np + sumZ is_payout es) (P + sumZ paid es) (fun r => rej r + sumZ (refused r) es) m').
  { destruct (H _ _ _ _ _ _ (fresh_tells commit version now0)) as (m & E & Hm); [done..|lia|lia|]. exists m. split; [exact E|]. exact Hm. }
  clear HS HP. induction es as [|e es IH]; intros nb S np P rej m Hm HS0 HP0 HS HP; cbn [sumZ for_each] in *.
  { exists m. split; [done|]. destruct Hm. split; rewrite ?Z.add_0_r; try done. intros r. by rewrite Z.add_0_r. }
  apply Forall_cons in Hpos as [[He1 He2] Hpos].
  assert (Hnn : 0 <= sumZ staked es /\ 0 <= sumZ paid es) by (split; apply sumZ_nonneg; eapply Forall_impl; [exact Hpos|naive_solver|exact Hpos|naive_solver]).
  assert (Hstep : exists m1, run (feed nodeId now e) m = (Ok tt, m1) /\
    tells (nb + is_bet e) (S + staked e) (np + is_payout e) (P + paid e) (fun r => rej r + refused r e) m1).
  { destruct e as [name label| | | | |a|a|name a b|s]; cbn [staked paid is_bet is_payout] in *; rewrite ?Z.add_0_r.
    all: try (apply feed_harmless; done).
    - destruct (feed_bet nb S np P rej m a Hm) as (m1 & E & H1); [lia..|]. exists m1. split; [exact E|]. destruct H1.
      split; try done. intros r. cbn [refused]. by rewrite Z.add_0_r.
    - destruct (feed_payout nb S np P rej m a Hm) as (m1 & E & H1); [lia..|]. exists m1. split; [exact E|]. destruct H1.
      split; try done. intros r. cbn [refused]. by rewrite Z.add_0_r. }
  destruct Hstep as (m1 & E1 & H1). destruct (IH Hpos _ _ _ _ _ _ H1) as (m2 & E2 & H2); [lia..|].
  exists m2. rewrite run_bind, E1. split; [exact E2|]. rewrite <- !Z.add_assoc in H2. destruct H2.
  split; try done. intros r. rewrite te_rejected0. lia.
Qed.
End service.
Arguments service R : clear implicits.

(** *** A registry of two tables *)

Record table := mk_table { t_counts : list (string * labels * Z); t_gauges : list (string * labels * Q) }.
Definition find_row {A} (d : A) (name : string) (l : labels) (rows : list (string * labels * A)) : A :=
  match List.find (fun r => bool_decide (r.1 = (name, l))) rows with Some r => r.2 | None => d end.
#[export] Instance table_prom : Prom table := {|
  prom_new := mk_table [] [];
  prom_inc name l v r := if v <? 0 then Raise (JsError "cannot decrease") else
    Ok (mk_table ((name, l, find_row 0 name l (t_counts r) + v) :: t_counts r) (t_gauges r));
  prom_set name l v r := mk_table (t_counts r) ((name, l, v) :: t_gauges r);
  prom_observe _ _ r := r;
  prom_count name l r := find_row 0 name l (t_counts r);
  prom_gauge name l r := find_row 0%Q name l (t_gauges r);
  prom_text _ := ""
|}.

#[export] Instance table_laws : PromLaws table.
Proof.
  assert (Hf : forall A (d : A) n l v rows n' l', find_row d n' l' ((n, l, v) :: rows) = if decide ((n', l') = (n, l)) then v else find_row d n' l' rows).
  { intros. unfold find_row. cbn [List.find]. cbn [fst snd]. repeat case_decide; try case_bool_decide; try congruence; done. }
  split; cbn; try done.
  - intros name l v r Hv. destruct (Z.ltb_spec v 0); [lia|]. eexists. split; [reflexivity|]. split; [|done].
    intros n' l'. cbn. rewrite Hf. case_decide as E; [by injection E as -> ->|lia].
  - intros name l v r Hv. destruct (Z.ltb_spec v 0); [by eexists|lia].
Qed.

Definition shown (es : list event) : service table := (run (for_each es (feed "node-a" 5000)) (constructor "c0ffee" "1.2.3" 1000)).2.
Definition rtp_shown (es : list event) : Q := prom_gauge "vaultrun_realized_rtp" [] (registry (shown es)).

Definition sample_events : list event :=
  [EvRecordBet 200; EvMetric "bets_rejected" "bad_amount"; EvRecordBet 100; EvRecordPayout 291].

Lemma metrics_exact_witness :
  exists m, run (for_each sample_events (feed (R := table) "node-a" 5000)) (constructor "c0ffee" "1.2.3" 1000) = (Ok tt, m) /\
    tells 2 300 1 291 (fun r => sumZ (refused r) sample_events) m.
Proof. exact (metrics_exact "c0ffee" "1.2.3" "node-a" 1000 5000 sample_events ltac:(repeat constructor; cbn; lia) eq_refl eq_refl). Defined.

(** *** What the gauge does not say *)

(** The events of a run, the oldest first. *)
Definition trace (p : prog world unit) : list event := rev (w_events (run p BetFlow.bet_world).2).

(** A stake that was given back stays in the denominator: a player who only
    places and cancels lowers the realized RTP, while no money moved. *)
Theorem cancelled_stake_in_rtp :
  let honest := [EvRecordBet 100; EvRecordPayout 97] in
  let cancelled := trace (_ ← Reconcile.guest_place PanelA 120; Reconcile.guest_cancel PanelA) in
  let w := (run (_ ← Reconcile.guest_place PanelA 120; Reconcile.guest_cancel PanelA) BetFlow.bet_world).2 in
  (w_balance <$> w_wallets w !! 1%N) = (w_balance <$> w_wallets BetFlow.bet_world !! 1%N) /\
  (rtp_shown honest == 97 # 100)%Q /\ (rtp_shown (honest ++ cancelled) == 97 # 220)%Q.
Proof. vm_compute. by split_and!. Qed.

(** The sums are those of one process: a node that takes over pays wins whose
    stakes another node counted. *)
Theorem failover_inflates_rtp : (rtp_shown [EvRecordPayout 900; EvRecordBet 100] == 9)%Q.
Proof. by vm_compute. Qed.

(** A boot counts as a lost leadership, although no transition took place. *)
Theorem boot_counts_as_flap :
  prom_count "vaultrun_engine_leadership_changes_total" [("node", "node-a"); ("event", "lost")]%string
    (registry (run (setEngineLeader "node-a" false) (constructor (R := table) "c0ffee" "1.2.3" 1000)).2) = 1.
Proof. by vm_compute. Qed.
End MetricsService.

(** ** The error tracker *)

Module Sentry.
Section sentry.
(** [Sentry.init], given the options, and [Sentry.captureException]. *)
Context {Err Ctx : Type} (init : string * string * option string -> res unit) (capture : Err -> option Ctx -> res unit).

(** The module's variable and the reports handed to the library. *)
Record sentry := mk_sentry { enabled : bool; reports : list (Err * option Ctx) }.
Definition boot : sentry := mk_sentry false [].

Definition initSentry (process_env : Risk.env) (s : sentry) : sentry :=
  match process_env "SENTRY_DSN" with
  | Some raw =>
    if nonempty (trim raw) then
      match init (trim raw, default "production"%string (process_env "NODE_ENV"), process_env "SENTRY_RELEASE") with
      | Ok _ => mk_sentry true (reports s)
      | Raise _ => s
      end
    else s
  | None => s
  end.

Definition isSentryEnabled (s : sentry) : bool := enabled s.

Definition captureException (err : Err) (context : option Ctx) : prog sentry unit :=
  atom (fun s => (tt, if enabled s then
    match capture err context with Ok _ => mk_sentry true (reports s ++ [(err, context)]) | Raise _ => s end else s)).

(** Without a DSN the tracker is off, a report is no effect; with one that the
    library accepts it is on; and reporting never throws. *)
Theorem tracker_never_throws process_env (l : list (Err * option Ctx)) :
  let s := initSentry process_env boot in
  (enabled s = true <-> exists raw, process_env "SENTRY_DSN"%string = Some raw /\ nonempty (trim raw) = true /\
     init (trim raw, default "production"%string (process_env "NODE_ENV"%string), process_env "SENTRY_RELEASE"%string) = Ok tt) /\
  exists s', run (for_each l (fun r => captureException r.1 r.2)) s = (Ok tt, s') /\ (enabled s = false -> s' = s).
Proof.
  intros s. split.
  - unfold s, initSentry. destruct (process_env "SENTRY_DSN"%string) as [raw|]; [|cbn; naive_solver].
    destruct (nonempty (trim raw)) eqn:En; [|cbn; naive_solver]. destruct (init _) as [[]|] eqn:Ei; cbn.
    + split; [|done]. intros _. by exists raw.
    + split; [done|]. intros (raw' & [= <-] & _ & H). by rewrite Ei in H.
  - generalize s as s0. clear s. induction l as [|r l IH]; intros s0; cbn [for_each]; [by exists s0|].
    rewrite run_bind. cbn [captureException run atom fst snd]. destruct (enabled s0) eqn:Ee.
    + destruct (IH (match capture r.1 r.2 with Ok _ => mk_sentry true (reports s0 ++ [(r.1, r.2)]) | Raise _ => s0 end)) as (s' & E & _).
      exists s'. split; [exact E|done].
    + destruct (IH s0) as (s' & E & H). exists s'. split; [exact E|]. intros _. by apply H.
Qed.
End sentry.
End Sentry.

(** ** Identifiers in logs *)

Module Redact.
(** The text and whether an ellipsis follows it. *)
Definition shortId (id : option string) : string * bool :=
  match id with
  | Some (String _ _ as s) => if (String.length s <=? 8)%nat then (s, false) else (slice_to 8 s, true)
  | _ => ("unknown"%string, false)
  end.

(** A log line holds at most eight characters of an identifier, and two
    identifiers that differ later are the same in it. *)
Theorem short_id_hides (s t : string) : String.length s = 8%nat -> t <> ""%string ->
  shortId (Some (s +:+ t)%string) = (s, true) /\ forall id, (String.length (shortId id).1 <= 8)%nat.
Proof.
  intros Hs Ht. split.
  - do 8 (destruct s as [|? s]; [done|]). destruct s; [|done]. by destruct t.
  - intros [[|a id]|]; cbn; [lia| |lia]. destruct (_ <=? _)%nat eqn:E.
    + apply Nat.leb_le in E. cbn. lia.
    + cbn. do 8 (destruct id; cbn; [lia|]). cbn. lia.
Qed.
End Redact.
