(* ===== verification/Bootstrap.v ===== *)
(** * Start-up

    What a process decides before it serves: [main.ts], the connection strings of
    [prisma/prisma.service.ts] and [ha/pg-advisory-lock.ts], the node's name of
    [ha/ha.module.ts] and the probe of [redis/redis-io.adapter.ts].  The URL
    parser, the printing of its query and of a number are arguments; a connection
    is the moment it settles and how, as a ping of [Health] is. *)

From Stdlib Require Import QArith.
From S2P Require Import Prelude Effects Js Money Schema Health.

Open Scope Z_scope.

#[local] Set Warnings "-clear-no-such-hyp".

Module DbUrl.

(** The components the services read of a [URL]. *)
Record url := mk_url {
  u_protocol : string; u_username : string; u_password : string; u_host : string; u_pathname : string;
  u_searchParams : list (string * string)
}.

(** [URLSearchParams]: [get] is the first pair, [set] replaces it and drops the others. *)
Fixpoint params_get (k : string) (l : list (string * string)) : option string :=
  match l with [] => None | (k', v) :: rest => if String.eqb k k' then Some v else params_get k rest end.
Definition params_delete (k : string) (l : list (string * string)) : list (string * string) :=
  List.filter (fun p => negb (String.eqb k p.1)) l.
Fixpoint params_set (k v : string) (l : list (string * string)) : list (string * string) :=
  match l with
  | [] => [(k, v)]
  | (k', v') :: rest => if String.eqb k k' then (k, v) :: params_delete k rest else (k', v') :: params_set k v rest
  end.

Section urls.
Context (new_URL : string -> option url) (qs_toString : list (string * string) -> string) (Number_toString : jsnum -> string).

(** The URL rebuilt from its components; the origin of a [postgresql:] URL is "null". *)
Definition rebuild (u : url) : string :=
  let auth := if nonempty (u_username u)
    then (u_username u +:+ (if nonempty (u_password u) then ":" +:+ u_password u else "") +:+ "@")%string else ""%string in
  let qs := qs_toString (u_searchParams u) in
  (u_protocol u +:+ "//" +:+ auth +:+ u_host u +:+ u_pathname u +:+ (if nonempty qs then "?" +:+ qs else ""))%string.

Definition with_params (u : url) (l : list (string * string)) : url :=
  mk_url (u_protocol u) (u_username u) (u_password u) (u_host u) (u_pathname u) l.

Definition stripPrismaParams (s : string) : string :=
  match new_URL s with
  | Some u => rebuild (with_params u (fold_left (fun l k => params_delete k l)
      ["schema"; "connection_limit"; "pgbouncer"; "pool_timeout"; "connect_timeout"]%string (u_searchParams u)))
  | None => s
  end.

Definition numEnv (process_env : Risk.env) (name : string) (dflt : Z) : jsnum :=
  match process_env name with
  | None | Some EmptyString => js_int dflt
  | Some raw => let n := js_Number raw in if js_isFinite n && js_ge n 0 then n else js_int dflt
  end.

(** [`-c name=value`] for each bound that is on, joined with spaces. *)
Definition flags (statementTimeoutMs idleTxTimeoutMs : jsnum) : list string :=
  (if js_gt statementTimeoutMs 0 then ["-c statement_timeout=" +:+ Number_toString statementTimeoutMs] else []) ++
  (if js_gt idleTxTimeoutMs 0 then ["-c idle_in_transaction_session_timeout=" +:+ Number_toString idleTxTimeoutMs] else []).

Definition withStatementTimeout (s : option string) (statementTimeoutMs idleTxTimeoutMs : jsnum) : option string :=
  match s with
  | None | Some EmptyString => s
  | Some raw =>
    match flags statementTimeoutMs idleTxTimeoutMs with
    | [] => s
    | fs =>
      match new_URL raw with
      | Some u =>
        let joined := join_with " "%char fs in
        let value := match params_get "options" (u_searchParams u) with
                     | Some (String _ _ as existing) => (existing +:+ " " +:+ joined)%string
                     | _ => joined
                     end in
        Some (rebuild (with_params u (params_set "options" value (u_searchParams u))))
      | None => s
      end
    end
  end.

(** The options the Prisma client is built with. *)
Record prisma_options := mk_prisma { datasourceUrl : option string; maxWait : jsnum; tx_timeout : jsnum }.
Definition prisma_constructor (process_env : Risk.env) : prisma_options := {|
  datasourceUrl := withStatementTimeout (process_env "DATABASE_URL")
    (numEnv process_env "ENGINE_DB_STATEMENT_TIMEOUT_MS" 8000) (numEnv process_env "ENGINE_DB_IDLE_TX_TIMEOUT_MS" 10000);
  maxWait := numEnv process_env "ENGINE_DB_TX_MAXWAIT_MS" 5000;
  tx_timeout := numEnv process_env "ENGINE_DB_TX_TIMEOUT_MS" 8000 |}.

(** The connection string of the election's own client. *)
Definition leader_url (process_env : Risk.env) : res string :=
  match process_env "DATABASE_URL" with
  | None | Some EmptyString => Raise (JsError "HaModule: DATABASE_URL is required for the engine leader lock")
  | Some s => Ok (stripPrismaParams s)
  end.

Definition hostNodeId (process_env : Risk.env) (pid : Z) : string :=
  (default "node" (process_env "HOSTNAME"%string) +:+ "-" +:+ BigInt_toString pid)%string.

(** ** The query of a URL *)

Lemma get_set k v l : params_get k (params_set k v l) = Some v.
Proof.
  induction l as [|[k' v'] l IH]; cbn; [by rewrite String.eqb_refl|].
  destruct (String.eqb_spec k k') as [->|Hne]; cbn; [by rewrite String.eqb_refl|]. by destruct (String.eqb_spec k k').
Qed.

Lemma get_delete k k' l : k <> k' -> params_get k (params_delete k' l) = params_get k l.
Proof.
  intros Hne. induction l as [|[a v] l IH]; [done|]. unfold params_delete in *. cbn [List.filter fst negb].
  destruct (String.eqb_spec k' a) as [->|]; cbn [negb params_get]; [|by rewrite IH].
  rewrite IH. by destruct (String.eqb_spec k a).
Qed.

Lemma get_deleted k l : params_get k (params_delete k l) = None.
Proof.
  induction l as [|[a v] l IH]; [done|]. unfold params_delete in *. cbn [List.filter fst].
  destruct (String.eqb_spec k a) as [->|Hne]; cbn [negb params_get]; [done|]. by destruct (String.eqb_spec k a).
Qed.

Lemma get_set_other k k' v l : k <> k' -> params_get k (params_set k' v l) = params_get k l.
Proof.
  intros Hne. induction l as [|[a x] l IH]; cbn [params_set params_get].
  - by destruct (String.eqb_spec k k').
  - destruct (String.eqb_spec k' a) as [<-|Ha]; cbn [params_get].
    + destruct (String.eqb_spec k k'); [done|]. by apply get_delete.
    + by rewrite IH.
Qed.

(** The pool's connections are bounded: the URL the client gets differs from the
    configured one in [options] only, which ends in both limits. *)
Theorem pool_is_bounded process_env raw u :
  process_env "DATABASE_URL"%string = Some raw -> raw <> ""%string -> new_URL raw = Some u ->
  js_gt (numEnv process_env "ENGINE_DB_STATEMENT_TIMEOUT_MS" 8000) 0 = true ->
  exists u', datasourceUrl (prisma_constructor process_env) = Some (rebuild u') /\
    (u_protocol u', u_username u', u_password u', u_host u', u_pathname u') =
      (u_protocol u, u_username u, u_password u, u_host u, u_pathname u) /\
    (forall k, k <> "options"%string -> params_get k (u_searchParams u') = params_get k (u_searchParams u)) /\
    exists before after, params_get "options" (u_searchParams u') = Some (before +:+ ("-c statement_timeout=" +:+
      Number_toString (numEnv process_env "ENGINE_DB_STATEMENT_TIMEOUT_MS" 8000)) +:+ after)%string /\
      (before = "" \/ exists existing, params_get "options" (u_searchParams u) = Some existing /\ before = existing +:+ " ")%string.
Proof.
  intros Henv Hne Hu Hgt. unfold prisma_constructor. cbn [datasourceUrl]. rewrite Henv. unfold withStatementTimeout, flags. rewrite Hgt.
  destruct raw as [|a raw]; [done|]. cbn [app]. rewrite Hu.
  set (st := ("-c statement_timeout=" +:+ _)%string).
  set (idle := if js_gt _ 0 then _ else _).
  assert (Hj : exists after, join_with " "%char (st :: idle) = (st +:+ after)%string).
  { destruct idle as [|x idle]; cbn [join_with]; [exists ""%string; by rewrite string_app_nil|].
    by eexists. }
  destruct Hj as [after ->].
  eexists. split; [reflexivity|]. cbn [with_params u_protocol u_username u_password u_host u_pathname u_searchParams].
  split; [done|]. split; [intros k Hk; by apply get_set_other|]. rewrite get_set.
  destruct (params_get "options" (u_searchParams u)) as [[|c existing]|].
  - exists ""%string, after. split; [done|by left].
  - exists (String c existing +:+ " ")%string, after. split; [|right; by eexists].
    f_equal. by rewrite string_app_assoc.
  - exists ""%string, after. split; [done|by left].
Qed.
End urls.

(** *** Values that switch the bound off, or carry it too far *)

Definition env_of (l : list (string * string)) : Risk.env := fun k => DbUrl.params_get k l.
Definition toy_url : url := mk_url "postgresql:" "vault" "pw" "db:5432" "/vaultrun" [("schema", "public"); ("options", "-c statement_timeout=200")]%string.
Definition toy_parser (_ : string) : option url := Some toy_url.
Definition toy_query (l : list (string * string)) : string := join_with "&"%char ((fun p => (p.1 +:+ "=" +:+ p.2)%string) <$> l).
Definition toy_number (n : jsnum) : string := match n with Fin q => BigInt_toString (Qfloor_Z q) | _ => "NaN" end.

(** An unset or an empty variable takes the default; one that holds a blank is the
    number 0, and the bound is silently off. *)
Theorem blank_variable_unbounds :
  numEnv (env_of [("ENGINE_DB_STATEMENT_TIMEOUT_MS", "")]%string) "ENGINE_DB_STATEMENT_TIMEOUT_MS" 8000 = js_int 8000 /\
  js_gt (numEnv (env_of [("ENGINE_DB_STATEMENT_TIMEOUT_MS", " ")]%string) "ENGINE_DB_STATEMENT_TIMEOUT_MS" 8000) 0 = false.
Proof. vm_compute. by split. Qed.

(** The election's client keeps the [options] of the configured URL: a statement
    timeout given there bounds its heartbeat as well. *)
Theorem configured_timeout_reaches_leader :
  leader_url toy_parser toy_query (env_of [("DATABASE_URL", "postgresql://...")]%string) =
  Ok "postgresql://vault:pw@db:5432/vaultrun?options=-c statement_timeout=200"%string.
Proof. by vm_compute. Qed.

Lemma pool_is_bounded_witness :
  exists u', datasourceUrl (prisma_constructor toy_parser toy_query toy_number (env_of [("DATABASE_URL", "postgresql://...")]%string)) = Some (rebuild toy_query u') /\
    params_get "schema" (u_searchParams u') = Some "public"%string.
Proof.
  destruct (pool_is_bounded toy_parser toy_query toy_number (env_of [("DATABASE_URL", "postgresql://...")]%string) "postgresql://..." toy_url)
    as (u' & E & _ & Hk & _); [reflexivity|discriminate|reflexivity|reflexivity|].
  exists u'. split; [exact E|]. exact (Hk "schema"%string ltac:(discriminate)).
Defined.
End DbUrl.

(** ** The transport of the sockets *)

Module RedisIo.

(** The adapter's fields, and whether its probes were left connected. *)
Record adapter := mk_adapter { ad_active : bool; ad_clients : bool }.

(** [Promise.all([pub.connect(), sub.connect()])]: both values, or the first
    rejection. *)
Definition promise_all (pub sub : Health.settles) : Health.settles :=
  match pub, sub with
  | Some (t1, Raise e1), Some (t2, Raise e2) => if t1 <=? t2 then Some (t1, Raise e1) else Some (t2, Raise e2)
  | Some (t, Raise e), _ | _, Some (t, Raise e) => Some (t, Raise e)
  | Some (t1, Ok _), Some (t2, Ok _) => Some (Z.max t1 t2, Ok tt)
  | _, _ => None
  end.

(** A rejection of the timer's. *)
Definition probe_timeout (ms : Z) : exn := JsError ("redis probe timeout after " +:+ BigInt_toString ms +:+ "ms").

Definition withTimeout (p : Health.settles) (ms : Z) : Z * res unit :=
  match p with Some (t, r) => if t <=? ms then (t, r) else (ms, Raise (probe_timeout ms)) | None => (ms, Raise (probe_timeout ms)) end.

(** The errors the clients emit, in order, with their times; the first one seen
    when the probe is given up is what is thrown. *)
Definition connect (probeTimeoutMs : Z) (pub sub : Health.settles) (errors : list (Z * exn)) : res unit * adapter :=
  let '(t, r) := withTimeout (promise_all pub sub) probeTimeoutMs in
  match r with
  | Ok _ => (Ok tt, mk_adapter true true)
  | Raise e =>
    let firstError := head (List.filter (fun x => x.1 <=? t) errors) in
    (Raise (match firstError with Some (_, e1) => e1 | None => e end), mk_adapter false false)
  end.

Definition dispose (a : adapter) : adapter := mk_adapter (ad_active a) false.

(** A connection made in time. *)
Definition connected (p : Health.settles) (ms : Z) : Prop := exists t, p = Some (t, Ok tt) /\ t <= ms.

Lemma connect_ok ms pub sub errors : 0 <= ms ->
  (connect ms pub sub errors).1 = Ok tt <-> connected pub ms /\ connected sub ms.
Proof.
  intros Hms. unfold connect, withTimeout, promise_all, connected.
  destruct pub as [[t1 [[]|e1]]|], sub as [[t2 [[]|e2]]|]; cbn.
  1: { destruct (Z.leb_spec (t1 `max` t2) ms); cbn; [|naive_solver lia].
       split; [|done]. intros _. split; eexists; (split; [reflexivity|lia]). }
  all: repeat case_match; cbn in *; simplify_eq; naive_solver.
Qed.
End RedisIo.

Module Boot.

Inductive cors_origin := AnyOrigin | Allowlist (l : list string).

Definition corsOrigin (process_env : Risk.env) : cors_origin :=
  match trim <$> process_env "CORS_ORIGIN"%string with
  | None | Some EmptyString => AnyOrigin
  | Some raw => if String.eqb raw "*" then AnyOrigin else Allowlist (trim <$> split_on ","%char raw)
  end.
Definition corsCredentials (o : cors_origin) : bool := match o with AnyOrigin => false | Allowlist _ => true end.

Inductive transport := RedisTransport | InMemoryTransport.

Record server := mk_server { sv_cors : cors_origin; sv_credentials : bool; sv_transport : transport; sv_port : jsnum }.

(** [bootstrap]: what the process listens with. *)
Definition bootstrap (process_env : Risk.env) (pub sub : Health.settles) (errors : list (Z * exn)) : server :=
  let origin := corsOrigin process_env in
  let wsAdapter := RedisIo.connect 2000 pub sub errors in
  {| sv_cors := origin; sv_credentials := corsCredentials origin;
     sv_transport := match wsAdapter.1 with Ok _ => RedisTransport | Raise _ => InMemoryTransport end;
     sv_port := match process_env "PORT"%string with Some (String _ _ as p) => js_Number p | _ => js_int 3001 end |}.

(** A cross-origin call carries credentials only towards a configured list of
    origins; the process serves whether or not Redis answers, and fans out over
    it exactly when both its connections stand within two seconds. *)
Theorem bootstrap_safe process_env pub sub errors :
  let s := bootstrap process_env pub sub errors in
  (sv_credentials s = true <-> exists raw, process_env "CORS_ORIGIN"%string = Some raw /\ trim raw <> ""%string /\ trim raw <> "*"%string /\
     sv_cors s = Allowlist (trim <$> split_on ","%char (trim raw))) /\
  (sv_transport s = RedisTransport <-> RedisIo.connected pub 2000 /\ RedisIo.connected sub 2000).
Proof.
  intros s. split.
  - unfold s, bootstrap. cbn [sv_credentials sv_cors]. unfold corsOrigin. destruct (process_env "CORS_ORIGIN"%string) as [raw|]; cbn; [|naive_solver].
    destruct (trim raw) as [|a t] eqn:Et; [cbn; naive_solver|]. destruct (String.eqb_spec (String a t) "*") as [E|E].
    + cbn. split; [done|]. intros (r & [= <-] & _ & Hn & _). congruence.
    + cbn. split; [|done]. intros _. exists raw. by rewrite Et.
  - rewrite <- (RedisIo.connect_ok 2000 pub sub errors ltac:(done)). unfold s, bootstrap. cbn [sv_transport].
    destruct (RedisIo.connect 2000 pub sub errors) as [[[]|e] a]; cbn; naive_solver.
Qed.
End Boot.
