(* ===== verification/RoundCache.v ===== *)
(** * The follower's round cache

    [game/public-round-cache.ts]: the view a follower keeps of the round from
    the leader's publications, and what it serves from it.  A JSON text is the
    value it denotes, [None] one that does not parse; [Math.exp] is a
    parameter, as in [Engine]. *)

From Stdlib Require Import QArith.
From S2P Require Import Prelude Effects Js Money Schema Wallet Keys Bets Engine EngineSafety.

Open Scope Z_scope.

Record PublicRoundView := mk_view {
  v_roundId : string; v_phase : string; v_phaseEndsAt : jsnum; v_startedAt : option jsnum;
  v_seedId : string; v_multiplier : jsnum; v_serverTime : jsnum
}.

(** The shape served to clients; multipliers are hundredths. *)
Record ServedState := mk_served {
  sv_roundId : string; sv_phase : string; sv_phaseEndsAt : jsnum; sv_multiplier : jsnum; sv_serverTime : jsnum
}.

Module RoundCache.

Definition hundredths (c : Z) : jsnum := Fin (c # 100).

Definition phase_name (ph : phase) : string :=
  match ph with
  | Waiting => "waiting" | Betting => "betting" | Running => "running"
  | Crashed => "crashed" | Settling => "settling" | Completed => "completed"
  end.

(** [Number(p.k ?? d)] *)
Definition number_or (d : jsnum) (v : option json) : jsnum :=
  match v with None | Some JNull => d | Some v => json_Number v end.

Definition str (v : option json) : option string := match v with Some (JStr s) => Some s | _ => None end.

(** [ingest]: the new view, or the one there was. *)
Definition ingest (now : Z) (raw : option json) (view : option PublicRoundView) : option PublicRoundView :=
  match raw with
  | Some (JObj p) =>
      let get k := assoc_last k p in
      match str (get "roundId"%string), str (get "phase"%string) with
      | Some roundId, Some ph => Some (mk_view roundId ph
          (number_or (js_int 0) (get "phaseEndsAt"%string))
          (match get "startedAt"%string with None | Some JNull => None | Some v => Some (json_Number v) end)
          (nullish (str (get "seedId"%string)) EmptyString)
          (number_or (hundredths 100) (get "multiplier"%string))
          (number_or (js_int now) (get "serverTime"%string)))
      | _, _ => view
      end
  | _ => view
  end.

(** [Math.max(a, b)] and [a - b]. *)
Definition js_max (a b : jsnum) : jsnum :=
  match a, b with
  | NaN, _ | _, NaN => NaN
  | Infinite true, x | x, Infinite true => x
  | Infinite false, _ | _, Infinite false => Infinite false
  | Fin p, Fin q => if Qle_bool q p then Fin p else Fin q
  end.
Definition js_sub (a b : jsnum) : jsnum :=
  match a, b with
  | NaN, _ | _, NaN => NaN
  | Infinite x, Infinite y => if Bool.eqb x y then NaN else Infinite x
  | Infinite x, Fin _ => Infinite x
  | Fin _, Infinite y => Infinite (negb y)
  | Fin p, Fin q => Fin (p - q)
  end.
(** A number is truthy unless it is zero or NaN. *)
Definition js_truthy (a : jsnum) : bool :=
  match a with NaN => false | Infinite _ => true | Fin q => negb (Qeq_bool q 0) end.

Section reads.
(** [Math.floor(Math.exp(GROWTH * ms) * 100) / 100] *)
Context (expMult : jsnum -> jsnum).

Definition currentMultiplier (now : Z) (view : option PublicRoundView) : jsnum :=
  match view with
  | None => hundredths 100
  | Some v =>
      if eqb_str (v_phase v) "crashed" || eqb_str (v_phase v) "settling" || eqb_str (v_phase v) "completed"
      then v_multiplier v
      else match v_startedAt v with
           | Some t => if eqb_str (v_phase v) "running" && js_truthy t
                       then js_max (hundredths 100) (expMult (js_sub (js_int now) t)) else hundredths 100
           | None => hundredths 100
           end
  end.

Definition getPublicState (now : Z) (view : option PublicRoundView) : option ServedState :=
  option_map (fun v => mk_served (v_roundId v) (v_phase v) (v_phaseEndsAt v) (currentMultiplier now view) (js_int now)) view.
End reads.

(** ** Agreement with the leader *)

(** [JSON.stringify(payload)] of what the leader publishes. *)
Definition encode (p : PublishedRoundState) : json :=
  let b := pp_base p in
  JObj [("roundId", JStr (Keys.uuid_string (pub_roundId b))); ("phase", JStr (phase_name (pub_phase b)));
        ("phaseEndsAt", JNum (inject_Z (pub_phaseEndsAt b))); ("multiplier", JNum (pub_multiplier b # 100));
        ("serverTime", JNum (inject_Z (pub_serverTime b)));
        ("startedAt", match pp_startedAt p with Some t => JNum (inject_Z t) | None => JNull end);
        ("seedId", JStr (Keys.uuid_string (pp_seedId p)))]%string.

(** What the leader itself serves. *)
Definition served (p : PublicRoundState) : ServedState :=
  mk_served (Keys.uuid_string (pub_roundId p)) (phase_name (pub_phase p)) (js_int (pub_phaseEndsAt p))
    (hundredths (pub_multiplier p)) (js_int (pub_serverTime p)).

(** A field the view does not read has no influence on it. *)
Lemma ingest_ignores now k v p view :
  k ∉ ["roundId"; "phase"; "phaseEndsAt"; "startedAt"; "seedId"; "multiplier"; "serverTime"]%string ->
  ingest now (Some (JObj ((k, v) :: p))) view = ingest now (Some (JObj p)) view.
Proof.
  intros Hk. assert (Hg : forall q, q <> k -> assoc_last q ((k, v) :: p) = assoc_last q p).
  { intros q Hq. cbn. destruct (assoc_last q p); [done|]. destruct (eqb_str q k) eqn:E; [|done]. by apply eqb_str_eq in E. }
  cbn [ingest]. rewrite !Hg; [done|..]; intros Heq; apply Hk; rewrite <- Heq; set_solver.
Qed.

Lemma js_sub_integer a b : js_sub (js_int a) (js_int b) = js_int (a - b).
Proof. cbn. unfold js_int, Qminus, Qplus, Qopp, inject_Z. cbn. repeat f_equal; lia. Qed.

Lemma js_truthy_integer z : js_truthy (js_int z) = negb (z =? 0).
Proof. cbn. unfold Qeq_bool. cbn. by rewrite Z.mul_1_r. Qed.

Lemma js_max_hundredths a b : js_max (hundredths a) (hundredths b) = hundredths (Z.max a b).
Proof.
  cbn. unfold Qle_bool. cbn. destruct (Z.leb_spec (b * 100) (a * 100)); unfold hundredths; repeat f_equal; lia.
Qed.

#[local] Arguments js_truthy : simpl never.
#[local] Arguments js_sub : simpl never.
#[local] Arguments js_max : simpl never.

(** Evaluate comparisons of literals. *)
Ltac literals := str_literals; cbn.

(** The view of a published payload. *)
Lemma ingest_encode now p old :
  ingest now (Some (encode p)) old = Some (mk_view (Keys.uuid_string (pub_roundId (pp_base p))) (phase_name (pub_phase (pp_base p)))
    (js_int (pub_phaseEndsAt (pp_base p))) (js_int <$> pp_startedAt p) (Keys.uuid_string (pp_seedId p))
    (hundredths (pub_multiplier (pp_base p))) (js_int (pub_serverTime (pp_base p)))).
Proof. cbn. literals. by destruct (pp_startedAt p). Qed.

(** C23: A follower shows what the leader shows.  From the moment it has ingested
    what the leader published for a state, whatever it held before and however
    many other fields the message carries, it serves at every later time exactly
    the public state the leader itself serves at that time: the live multiplier
    while the round climbs, the crash point once it is out. *)
Theorem follower_agrees_with_leader expCents expMult s published ingested extra old
    (Hexp : forall ms, expMult (js_int ms) = hundredths (expCents ms))
    (Hextra : Forall (fun k => k ∉ ["roundId"; "phase"; "phaseEndsAt"; "startedAt"; "seedId"; "multiplier"; "serverTime"]%string) (map fst extra)) :
  let message := match encode (EngineSafety.payload expCents published s) with JObj p => JObj (extra ++ p) | j => j end in
  let view := ingest ingested (Some message) old in
  forall now, getPublicState expMult now view = Some (served (Engine.publicOf expCents now s)).
Proof.
  cbv zeta. intros now.
  assert (Hm : forall p, ingest ingested (Some (JObj (extra ++ p))) old = ingest ingested (Some (JObj p)) old).
  { intros p. induction extra as [|[k v] extra' IH]; [done|]. apply Forall_cons in Hextra as [Hk Hextra].
    cbn [app]. rewrite ingest_ignores by done. by apply IH. }
  unfold encode. rewrite Hm. fold (encode (EngineSafety.payload expCents published s)). rewrite ingest_encode.
  unfold served. cbn. f_equal. f_equal. unfold Engine.liveMultiplier. destruct (es_phase s); literals; try done.
  all: destruct (es_startedAt s) as [t|]; cbn; literals; try done.
  rewrite js_truthy_integer. destruct (t =? 0); cbn; [done|]. by rewrite js_sub_integer, Hexp, js_max_hundredths.
Qed.

Definition demo_expMult (ms : jsnum) : jsnum :=
  match ms with Fin q => hundredths (EngineSafety.demo_exp (Qfloor_Z q)) | x => x end.

Lemma follower_agrees_with_leader_witness :
  getPublicState demo_expMult 4000 (ingest 1200 (Some (match encode (EngineSafety.payload EngineSafety.demo_exp 1000 (EngineSafety.demo_state Running)) with
      | JObj p => JObj ([("crashPoint"%string, JNum (250 # 100))] ++ p) | j => j end)) None)
    = Some (served (mk_public 100%N Running 5000 400 4000)).
Proof.
  apply (follower_agrees_with_leader EngineSafety.demo_exp demo_expMult (EngineSafety.demo_state Running) 1000 1200
    [("crashPoint"%string, JNum (250 # 100))] None).
  - intros ms. cbn. unfold Qfloor_Z. cbn. by rewrite Z.div_1_r.
  - repeat constructor. by apply (bool_decide_unpack _); vm_compute.
Defined.

(** ** The life of the cache *)

(** The view, the subscriber's connection and whether the channel reaches it. *)
Record cache := mk_cache { ca_view : option PublicRoundView; ca_sub : bool; ca_subscribed : bool }.
Definition constructed : cache := mk_cache None false false.

(** A message and the time it is handled at. *)
Definition receive (c : cache) (m : Z * option json) : cache :=
  mk_cache (ingest m.1 m.2 (ca_view c)) (ca_sub c) (ca_subscribed c).

(** [onModuleInit]: the answers of [GET round:current], of [duplicate()] and of
    [SUBSCRIBE]. *)
Definition onModuleInit (now : Z) (snap : res (option (option json))) (duplicate subscribe : res unit) (c : cache) : cache :=
  let c := match snap with Ok (Some raw) => receive c (now, raw) | _ => c end in
  match duplicate with
  | Ok _ => mk_cache (ca_view c) true (match subscribe with Ok _ => true | Raise _ => false end)
  | Raise _ => c
  end.

(** [this.sub.on("message", (_ch, msg) => this.ingest(msg))] *)
Definition on_message (c : cache) (m : Z * option json) : cache := if ca_sub c && ca_subscribed c then receive c m else c.
Definition onModuleDestroy (c : cache) : cache := mk_cache (ca_view c) false false.

Lemma ingest_keeps now raw view : ingest now raw view = match ingest now raw None with Some v => Some v | None => view end.
Proof. unfold ingest. repeat case_match; done. Qed.

(** The view a text gives by itself. *)
Definition read (m : Z * option json) : option PublicRoundView := ingest m.1 m.2 None.

Lemma received ms c : ca_view (fold_left receive ms c) = match last (omap read ms) with Some v => Some v | None => ca_view c end.
Proof.
  revert c. induction ms as [|m ms IH]; intros c; [done|]. cbn [fold_left omap list_omap]. rewrite IH. cbn [receive ca_view].
  rewrite ingest_keeps. fold (read m). destruct (read m) as [v|]; [|done].
  rewrite last_cons. by destruct (last _).
Qed.

(** A follower holds the last text it could read of the snapshot and the messages,
    in the order they came, however many it could not read and whatever failed
    while it started; without a subscription it holds the snapshot for good. *)
Theorem holds_last_readable now snap duplicate subscribe ms :
  let c := onModuleInit now snap duplicate subscribe constructed in
  let texts := match snap with Ok (Some raw) => [(now, raw)] | _ => [] end ++
    match duplicate, subscribe with Ok _, Ok _ => ms | _, _ => [] end in
  ca_view (onModuleDestroy (fold_left on_message ms c)) = last (omap read texts).
Proof.
  cbv zeta. set (c0 := match snap with Ok (Some raw) => receive constructed (now, raw) | _ => constructed end).
  assert (H0 : forall l, last (omap read (match snap with Ok (Some raw) => [(now, raw)] | _ => [] end ++ l)) =
    match last (omap read l) with Some v => Some v | None => ca_view c0 end).
  { intros l. destruct snap as [[raw|]|]; cbn [app]; [|by destruct (last _)..]. cbn [omap list_omap].
    change (ca_view c0) with (read (now, raw)). destruct (read (now, raw)) as [v|]; [rewrite last_cons|]; by destruct (last _). }
  rewrite H0. assert (Hoff : forall c, ca_sub c && ca_subscribed c = false -> fold_left on_message ms c = c).
  { intros c Hc. induction ms as [|m ms' IH]; [done|]. cbn [fold_left]. unfold on_message at 2. by rewrite Hc. }
  assert (Hon : forall c, ca_sub c = true -> ca_subscribed c = true -> fold_left on_message ms c = fold_left receive ms c).
  { clear. induction ms as [|m ms IH]; intros c H1 H2; [done|]. cbn [fold_left]. unfold on_message at 2. rewrite H1, H2. by apply IH. }
  unfold onModuleInit. fold c0. cbn [onModuleDestroy ca_view].
  destruct duplicate as [?|?]; [destruct subscribe as [?|?]|].
  - rewrite Hon, received by done. done.
  - by rewrite Hoff.
  - rewrite Hoff; [done|]. unfold c0. by destruct snap as [[raw|]|].
Qed.

(** Freshness plays no part: a text published earlier and delivered later, as a
    deposed leader's can be, replaces the newer one. *)
Theorem older_publication_wins :
  let text time ph := Some (JObj [("roundId", JStr "r"); ("phase", JStr ph); ("serverTime", JNum (inject_Z time))]%string) in
  let c := onModuleInit 1000 (Ok None) (Ok tt) (Ok tt) constructed in
  (v_serverTime <$> ca_view (fold_left on_message [(9001, text 9000 "settling"); (9002, text 4000 "running")]%string c)) = Some (js_int 4000).
Proof. by vm_compute. Qed.
End RoundCache.
