(* ===== verification/Gateway.v ===== *)
(** * The real-time gateway

    [game/game.gateway.ts] and [game/ws-schemas.ts]: what a player's socket may
    ask for, what it is told, and the sweeps the process runs on timers.  The
    gateway's memory is a record ([gateway]): the sockets the server knows with
    what the handlers attach to them, the socket of each user, the message
    counters and the flags of the sweeps.  A handler is a program over the
    shared world and this memory ([gnode]), so a message, a sweep and a
    connection in progress interleave at every [await].

    Parameters: the token library and the UUID column ([Jwt], [UuidColumn]),
    the engine's public state and multiplier, the election's [isLeader], the
    rounding of the decimal column a target is stored in, and whether the
    socket library runs the disconnect handler inside [disconnect(true)] or
    some time later ([close_now]).  An identifier is a text in a token and a
    UUID in a query; a text that is none makes the query throw.  The times of
    a session are whole milliseconds. *)

From Stdlib Require Import QArith.
From S2P Require Import Prelude Effects Js Money Schema Wallet Keys OperatorWallet AuditLog OperatorConfig Launch Sessions Bets Engine.

Open Scope Z_scope.

(** ** Messages *)

(** A room of the server, and who a message goes to. *)
Inductive dest := ToAll | ToRoom (room : string) | ToSocket (id : N).

(** The events clients receive, with what each carries. *)
Inductive ws_message :=
| RoundState (s : PublicRoundState)
| RoundPhase (roundId : uuid) (ph : phase)
| RoundCrashed (roundId : uuid) (multiplier : Z)
| RoundSettled (roundId : uuid)
| MultiplierUpdate (roundId : uuid) (multiplier serverTime : Z)
| AutoCashoutAccepted (p : panel) (multiplier payout : option Z) (pending : bool)
| BalanceUpdated (currency : string) (balance : Z)
| BetBusted (p : panel)
| BetAccepted (r : BetResult)
| BetRejected (r : BetResult)
| BetCancelled (r : BetResult)
| CashoutAccepted (r : CashoutResult)
| CashoutRejected (r : CashoutResult)
| SessionTimeLimit (maxSessionSec : option Z)
| RealityCheck (elapsedSec wagered won net : Z) (currency : string) (enforce : bool).

(** The acknowledgement of a message. *)
Inductive reply :=
| Failed (reason : string)
| FailedPanel (reason : string) (p : panel)
| Acked
| AckTime (t0 : option Q) (serverTime : Z)
| AckBet (r : BetResult)
| AckCashout (r : CashoutResult).

(** ** Message schemas *)

Module WsSchemas.
Definition MAX_SAFE_INTEGER : Z := 9007199254740991.

Definition z_panel (v : option json) : option panel :=
  match v with
  | Some (JStr s) => if eqb_str s "A" then Some PanelA else if eqb_str s "B" then Some PanelB else None
  | _ => None
  end.

(** [z.number().finite()] and its bounds; a JSON number is finite. *)
Definition z_number (ok : jsnum -> bool) (v : json) : option Q :=
  match v with JNum q => if ok (Fin q) then Some q else None | _ => None end.

Definition placeSchema (body : option json) : option (panel * Q * option Q) :=
  match body with
  | Some (JObj o) =>
      panel ← z_panel (assoc_last "panel" o);
      amount ← (v ← assoc_last "amount" o; z_number (fun n => js_gt n 0 && js_le n MAX_SAFE_INTEGER) v);
      autoCashout ← Schemas.z_optional (z_number (fun n => js_gt n 1)) (assoc_last "autoCashout" o);
      Some (panel, amount, autoCashout)
  | _ => None
  end.

Definition panelSchema (body : option json) : option panel :=
  match body with Some (JObj o) => z_panel (assoc_last "panel" o) | _ => None end.

Definition timeSyncSchema (body : option json) : option (option Q) :=
  match body with
  | Some (JObj o) => Schemas.z_optional (z_number js_isFinite) (assoc_last "t0" o)
  | _ => None
  end.
End WsSchemas.

(** ** Responsible-gambling decisions *)

(** Per-socket state the sweep reads. *)
Record RgSocketState := mk_rgs {
  rs_rg : EffectiveRg; rs_sessionStartedAt : Z; rs_rgRealityDueAt : option Z;
  rs_rgPending : bool; rs_rgTimeLimitNotified : bool
}.

Record RgDecision := mk_decision {
  emitRealityCheck : bool; tripTimeLimit : bool; nextDueAt : option Z;
  nextPending : bool; nextTimeLimitNotified : bool
}.

Definition time_limit_reached (s : RgSocketState) (now : Z) : bool :=
  match maxSessionSec (rs_rg s) with
  | Some m => rs_sessionStartedAt s + m * 1000 <=? now
  | None => false
  end.

Definition rgEvaluate (s : RgSocketState) (now : Z) : RgDecision :=
  let base := mk_decision false false (rs_rgRealityDueAt s) (rs_rgPending s) (rs_rgTimeLimitNotified s) in
  if time_limit_reached s now
  then mk_decision false (negb (rs_rgTimeLimitNotified s)) (nextDueAt base) (nextPending base) true
  else match realityCheckIntervalSec (rs_rg s), rs_rgRealityDueAt s with
       | Some interval, Some due =>
           if due <=? now
           then mk_decision true false (Some (now + interval * 1000))
                  (if enforceRealityCheck (rs_rg s) then true else rs_rgPending s) (nextTimeLimitNotified base)
           else base
       | _, _ => base
       end.

(** ** The gateway's memory *)

(** [client.data] *)
Record sock_data := mk_data {
  d_userId : option string; d_walletId : option string; d_limits : option Risk.PerBetLimits;
  d_demo : bool; d_sessionId : option string; d_currency : option string; d_operatorId : option string;
  d_rg : option EffectiveRg; d_sessionStartedAt : option Z; d_rgRealityDueAt : option Z;
  d_rgPending : bool; d_rgTimeLimitNotified : bool
}.

Definition no_data : sock_data :=
  mk_data None None None false None None None None None None false false.

(** A [Socket]: handlers keep it after it has left the server's registry. *)
Record socket := mk_socket { sk_connected : bool; sk_rooms : list string; sk_data : sock_data }.

(** What a timer runs. *)
Inductive job := JTick | JReconcile | JReserving (olderThanMs : Z) | JRg.

(** [userSockets] keeps, with each entry, the rank it was inserted at, which is
    what an iterator over a live [Map] follows. *)
Record gateway := mk_gateway {
  g_sockets : gmap N socket;
  g_userSockets : list (option string * (N * N));
  g_rank : N;
  g_msgRate : gmap N (Z * Z);
  g_reconciling : bool; g_sweeping : bool; g_rgSweeping : bool;
  g_driver : bool; g_timers : list (Z * job);
  g_out : list (dest * ws_message)
}.

Definition empty_gateway : gateway := mk_gateway ∅ [] 0 ∅ false false false false [] [].

Record gnode := mk_gnode { gn_world : world; gn_gate : gateway }.

Definition set_sockets (x : gmap N socket) (g : gateway) : gateway :=
  mk_gateway x (g_userSockets g) (g_rank g) (g_msgRate g) (g_reconciling g) (g_sweeping g) (g_rgSweeping g) (g_driver g) (g_timers g) (g_out g).
Definition set_userSockets (x : list (option string * (N * N))) (r : N) (g : gateway) : gateway :=
  mk_gateway (g_sockets g) x r (g_msgRate g) (g_reconciling g) (g_sweeping g) (g_rgSweeping g) (g_driver g) (g_timers g) (g_out g).
Definition set_msgRate (x : gmap N (Z * Z)) (g : gateway) : gateway :=
  mk_gateway (g_sockets g) (g_userSockets g) (g_rank g) x (g_reconciling g) (g_sweeping g) (g_rgSweeping g) (g_driver g) (g_timers g) (g_out g).
Definition set_reconciling (b : bool) (g : gateway) : gateway :=
  mk_gateway (g_sockets g) (g_userSockets g) (g_rank g) (g_msgRate g) b (g_sweeping g) (g_rgSweeping g) (g_driver g) (g_timers g) (g_out g).
Definition set_sweeping (b : bool) (g : gateway) : gateway :=
  mk_gateway (g_sockets g) (g_userSockets g) (g_rank g) (g_msgRate g) (g_reconciling g) b (g_rgSweeping g) (g_driver g) (g_timers g) (g_out g).
Definition set_rgSweeping (b : bool) (g : gateway) : gateway :=
  mk_gateway (g_sockets g) (g_userSockets g) (g_rank g) (g_msgRate g) (g_reconciling g) (g_sweeping g) b (g_driver g) (g_timers g) (g_out g).
Definition set_wiring (d : bool) (t : list (Z * job)) (g : gateway) : gateway :=
  mk_gateway (g_sockets g) (g_userSockets g) (g_rank g) (g_msgRate g) (g_reconciling g) (g_sweeping g) (g_rgSweeping g) d t (g_out g).
Definition set_out (x : list (dest * ws_message)) (g : gateway) : gateway :=
  mk_gateway (g_sockets g) (g_userSockets g) (g_rank g) (g_msgRate g) (g_reconciling g) (g_sweeping g) (g_rgSweeping g) (g_driver g) (g_timers g) x.

Definition on_gate (f : gateway -> gateway) (n : gnode) : gnode := mk_gnode (gn_world n) (f (gn_gate n)).

(** *** Programs *)

(** A program of a service, run by the process. *)
Fixpoint gserve {A} (p : prog world A) : prog gnode A :=
  match p with
  | Done r => Done r
  | Act f k => Act (fun n => let xw := f (gn_world n) in (fst xw, mk_gnode (snd xw) (gn_gate n))) (fun x => gserve (k x))
  end.

(** Synchronous code on the gateway's memory. *)
Definition gmem {A} (f : gateway -> A) : prog gnode A := gets (fun n => f (gn_gate n)).
Definition gmem_set (f : gateway -> gateway) : prog gnode unit := atom (fun n => (tt, on_gate f n)).
Definition gclock : prog gnode Z := gets (fun n => w_now (gn_world n)).

Definition send (d : dest) (m : ws_message) : prog gnode unit :=
  gmem_set (fun g => set_out ((d, m) :: g_out g) g).
Definition log_warn (what : string) : prog gnode unit := gserve (emit (EvLog what)).

(** [try { p } finally { f }] *)
Definition finally {S A} (p : prog S A) (f : prog S unit) : prog S A :=
  r ← try_catch p (fun e => _ ← f; raise e);
  _ ← f;
  mret r.

Module Gateway.

Definition WS_MSG_LIMIT : Z := 15.

Definition userRoom (userId : option string) : string := ("user:" +:+ nullish userId "undefined")%string.

(** Milliseconds: a number at least 30 seconds, or 120 seconds. *)
Definition resolveReservingStaleMs (raw : option string) : Q :=
  match js_Number_opt raw with
  | Fin q => if js_ge (Fin q) 30 then q * inject_Z 1000 else inject_Z 120000
  | _ => inject_Z 120000
  end.

(** An age in milliseconds, as a date subtracts it. *)
Definition whole_ms (q : Q) : Z := - Qfloor_Z (- q).

(** *** The registry *)

Definition connected (id : N) (g : gateway) : bool :=
  match g_sockets g !! id with Some s => sk_connected s | None => false end.

Definition data_of (id : N) (g : gateway) : sock_data :=
  match g_sockets g !! id with Some s => sk_data s | None => no_data end.

Definition set_data (id : N) (f : sock_data -> sock_data) (g : gateway) : gateway :=
  set_sockets (alter (fun s => mk_socket (sk_connected s) (sk_rooms s) (f (sk_data s))) id (g_sockets g)) g.

(** [server.sockets.sockets.size] *)
Definition live_sockets (g : gateway) : Z :=
  Z.of_nat (length (List.filter (fun e => sk_connected e.2) (map_to_list (g_sockets g)))).

Definition user_socket (u : option string) (g : gateway) : option N := snd <$> amap_get u (g_userSockets g).

(** [userSockets.set(u, id)]: an entry keeps its rank. *)
Definition user_set (u : option string) (id : N) (g : gateway) : gateway :=
  match amap_get u (g_userSockets g) with
  | Some (rank, _) => set_userSockets (amap_set u (rank, id) (g_userSockets g)) (g_rank g) g
  | None => set_userSockets (amap_set u (g_rank g, id) (g_userSockets g)) (g_rank g + 1)%N g
  end.

Definition user_delete (u : option string) (g : gateway) : gateway :=
  set_userSockets (List.filter (fun e => negb (opt_eqb e.1 u)) (g_userSockets g)) (g_rank g) g.

(** The iterator's next entry, from a rank on. *)
Definition next_entry (from : N) (g : gateway) : option (option string * (N * N)) :=
  List.find (fun e => (from <=? e.2.1)%N) (g_userSockets g).

Definition truthy_str (s : option string) : bool := match s with Some s => nonempty s | None => false end.

(** *** allow *)

Definition allow_mem (id : N) (now : Z) (g : gateway) : bool * gateway :=
  match g_msgRate g !! id with
  | Some (n, t) =>
      if 1000 <? now - t
      then (true, set_msgRate (<[id := (1, now)]> (g_msgRate g)) g)
      else (n + 1 <=? WS_MSG_LIMIT, set_msgRate (<[id := (n + 1, t)]> (g_msgRate g)) g)
  | None => (true, set_msgRate (<[id := (1, now)]> (g_msgRate g)) g)
  end.

Definition allow (id : N) : prog gnode bool :=
  atom (fun n => let r := allow_mem id (w_now (gn_world n)) (gn_gate n) in (r.1, mk_gnode (gn_world n) r.2)).

(** *** handleDisconnect *)

(** The handler, which awaits nothing. *)
Definition on_disconnect (id : N) (n : gnode) : gnode :=
  let g := gn_gate n in
  let userId := d_userId (data_of id g) in
  let g1 := if truthy_str userId && opt_eqb (user_socket userId g) (Some id) then user_delete userId g else g in
  let g2 := set_msgRate (delete id (g_msgRate g1)) g1 in
  let size := live_sockets g2 in
  let live := if connected id g2 then size - 1 else size in
  mk_gnode (set_events (EvGauge "ws_connections" (Z.max 0 live) 0 :: w_events (gn_world n)) (gn_world n)) g2.

(** The socket leaves the registry and its rooms. *)
Definition close_socket (id : N) (g : gateway) : gateway :=
  set_sockets (alter (fun s => mk_socket false [] (sk_data s)) id (g_sockets g)) g.

(** A connection ends: the handler runs on a closed socket. *)
Definition handleDisconnect (id : N) : prog gnode unit :=
  atom (fun n => (tt, on_disconnect id (on_gate (close_socket id) n))).

Section service.
Context {Token : Type} `{HJ : Jwt Token} `{HU : UuidColumn}.
Context (W : WalletProvider) (risk : Risk.RiskLimits).
Context (PAYOUT_PENDING_ALERT_SEC RESERVING_ALERT_SEC : jsnum).
Context (engineState : prog world (option PublicRoundState)) (engineMultiplier : prog world Z).
Context (isLeader : prog gnode bool) (operatorApi : bool).
Context (JWT_SECRET : string) (decimal_cents : Q -> Z) (close_now : bool).

(** The engine, as the bet service sees it. *)
Definition engineView : EngineView := {|
  Bets.getPublicState :=
    s ← engineState;
    mret (option_map (fun p => {| ps_phase := pub_phase p; ps_roundId := pub_roundId p |}) s);
  Bets.currentMultiplier := engineMultiplier
|}.

(** A text where a query wants a UUID. *)
Definition column (s : string) : prog world uuid :=
  match uuid_column s with Some n => mret n | None => raise (JsError "Inconsistent column data") end.

Definition column_opt (s : option string) : prog world (option uuid) :=
  match s with Some s => n ← column s; mret (Some n) | None => mret None end.

(** [disconnect(true)] of a socket the registry still has. *)
Definition disconnect (id : N) (n : gnode) : gnode :=
  if connected id (gn_gate n)
  then let n' := on_gate (close_socket id) n in if close_now then on_disconnect id n' else n'
  else n.

(** *** handleConnection *)

Definition as_string (v : option json) : option string :=
  match v with Some (JStr s) => Some s | _ => None end.

(** What the claims put on the socket before anything else is awaited; the
    second part only when the session carries controls and a start. *)
Definition bind_claims (p : option json) (d : sock_data) : sock_data :=
  mk_data (as_string (claim p "sub"))
    (if truthy (claim p "walletId") then as_string (claim p "walletId") else d_walletId d)
    (match BetLimits.deserializeBetLimits (claim p "limits") with Some l => Some l | None => d_limits d end)
    (match claim p "demo" with Some (JBool true) => true | _ => false end)
    (as_string (claim p "sessionId")) (as_string (claim p "currency")) (as_string (claim p "operatorId"))
    (d_rg d) (d_sessionStartedAt d) (d_rgRealityDueAt d) (d_rgPending d) (d_rgTimeLimitNotified d).

Definition started_at (p : option json) : option Z :=
  match claim p "sessionStartedAt" with
  | Some v => match json_Number v with Fin q => Some (Qfloor_Z q) | _ => None end
  | None => None
  end.

Definition bind_rg (rg : EffectiveRg) (startedAt : Z) (d : sock_data) : sock_data :=
  mk_data (d_userId d) (d_walletId d) (d_limits d) (d_demo d) (d_sessionId d) (d_currency d) (d_operatorId d)
    (Some rg) (Some startedAt) (d_rgRealityDueAt d) (d_rgPending d) false.

Definition bind_restored (rg : EffectiveRg) (startedAt : Z) (restored : bool * option Z) (d : sock_data) : sock_data :=
  mk_data (d_userId d) (d_walletId d) (d_limits d) (d_demo d) (d_sessionId d) (d_currency d) (d_operatorId d)
    (d_rg d) (d_sessionStartedAt d)
    (match restored.2 with
     | Some due => Some due
     | None => match realityCheckIntervalSec rg with Some i => Some (startedAt + i * 1000) | None => None end
     end)
    restored.1 (d_rgTimeLimitNotified d).

(** The persisted check; a database failure counts as pending. *)
Definition reload_check (rg : EffectiveRg) (p : option json) : prog gnode (bool * option Z) :=
  if is_Some_b (realityCheckIntervalSec rg) && truthy (claim p "sessionId")
  then try_catch
         (gserve (id ← column (nullish (as_string (claim p "sessionId")) EmptyString); GameSession.loadRealityCheckState id))
         (fun _ => _ ← log_warn "RG reality-check reload failed; assuming pending"; mret (true, None))
  else mret (false, None).

(** Join the user's room, drop the user's previous socket, take its place. *)
Definition register (id : N) (userId : option string) (n : gnode) : gnode :=
  let n1 := on_gate (fun g => set_sockets (alter (fun s =>
              mk_socket (sk_connected s) (userRoom userId :: sk_rooms s) (sk_data s)) id (g_sockets g)) g) n in
  let n2 := match user_socket userId (gn_gate n1) with
            | Some prev => if (prev =? id)%N then n1 else disconnect prev n1
            | None => n1
            end in
  on_gate (user_set userId id) n2.

Definition authenticate (id : N) (token : Token) : prog gnode unit :=
  now ← gclock;
  match verifyAsync now token JWT_SECRET with
  | None => raise (JsError "jwt")
  | Some payload =>
      let p := Some payload in
      let is_operator := match claim p "kind" with Some (JStr k) => eqb_str k "operator" | _ => false end in
      _ ← when (is_operator && truthy (claim p "sessionId"))
        (live ← gserve (sid ← column (nullish (as_string (claim p "sessionId")) EmptyString); GameSession.isLive sid);
         if live : bool then mret tt else raise (JsError "session_not_live"));
      let userId := as_string (claim p "sub") in
      let rg := Rg.deserializeRg (claim p "rg") in
      _ ← gmem_set (set_data id (fun d =>
            let d := bind_claims p d in
            match rg, started_at p with Some g, Some t => bind_rg g t d | _, _ => d end));
      _ ← match rg, started_at p with
          | Some g, Some t =>
              restored ← reload_check g p;
              gmem_set (set_data id (bind_restored g t restored))
          | Some _, None => log_warn "RG NOT applied"
          | None, _ => mret tt
          end;
      atom (fun n => (tt, register id userId n))
  end.

(** A connection the server has just accepted, under an identifier of its own. *)
Definition accept (id : N) : prog gnode unit :=
  gmem_set (fun g => match g_sockets g !! id with
                     | None => set_sockets (<[id := mk_socket true [] no_data]> (g_sockets g)) g
                     | Some _ => g
                     end).

Definition handleConnection (id : N) (token : option Token) : prog gnode unit :=
  _ ← match token with
      | Some token => try_catch (authenticate id token) (fun _ => mret tt)
      | None => mret tt
      end;
  s ← gserve engineState;
  _ ← match s with Some s => send (ToSocket id) (RoundState s) | None => mret tt end;
  size ← gmem live_sockets;
  gserve (emit (EvGauge "ws_connections" size 0)).

(** *** Timers *)

(** [if (this.flag) return; this.flag = true], in one synchronous stretch: was
    it set? *)
Definition test_and_set (get : gateway -> bool) (set : bool -> gateway -> gateway) : prog gnode bool :=
  atom (fun n => if get (gn_gate n) then (true, n) else (false, on_gate (set true) n)).

(** A body that runs alone on this node, whatever it throws. *)
Definition exclusive (get : gateway -> bool) (set : bool -> gateway -> gateway) (body : prog gnode unit) : prog gnode unit :=
  busy ← test_and_set get set;
  if busy : bool then mret tt else finally body (gmem_set (set false)).

Definition runReconcile : prog gnode unit :=
  leader ← isLeader;
  if negb leader then mret tt
  else exclusive g_reconciling set_reconciling
         (try_catch (_ ← gserve (Bets.reconcilePendingPayouts W PAYOUT_PENDING_ALERT_SEC 50); mret tt) (fun _ => mret tt)).

(** One pass over everything a crash or an outage may have stranded. *)
Definition reservingPass (olderThanMs : Z) : prog world unit :=
  _ ← Engine.recoverReservingBets W olderThanMs;
  _ ← Engine.recoverStrandedActiveBets W 60000;
  _ ← Bets.reportReservingBacklog RESERVING_ALERT_SEC;
  _ ← Bets.reconcileVoidingBets W 50;
  _ ← Rollbacks.drainPending operatorApi 50;
  n ← Rollbacks.countPending;
  emit (EvGauge "wallet_rollback_pending" n 0).

Definition runReservingSweep (olderThanMs : Z) : prog gnode unit :=
  leader ← isLeader;
  if negb leader then mret tt
  else exclusive g_sweeping set_sweeping
         (try_catch (gserve (reservingPass olderThanMs)) (fun _ => log_warn "reserving sweep failed")).

(** The sessions of this node's sockets, in the order they first appear. *)
Definition by_session (g : gateway) : list (string * list N) :=
  fold_left (fun m e =>
    match e with (_, (_, id)) =>
      match connected id g, d_sessionId (data_of id g) with
      | true, Some s => if nonempty s then amap_set s (nullish (amap_get s m) [] ++ [id]) m else m
      | _, _ => m
      end
    end) (g_userSockets g) [].

Definition disconnectRevokedSockets : prog gnode unit :=
  bySession ← gmem by_session;
  match bySession with
  | [] => mret tt
  | _ =>
      notLive ← gserve (ids ← fold_each bySession.*1 (fun l s => id ← column s; mret (l ++ [id])) [];
                        GameSession.findNotLive ids);
      for_each bySession (fun e =>
        match uuid_column e.1 with
        | Some sid => if bool_decide (sid ∈ notLive)
                      then for_each e.2 (fun id => atom (fun n => (tt, disconnect id n)))
                      else mret tt
        | None => mret tt
        end)
  end.

(** The state of one socket the sweep decides on, and what it stores back. *)
Definition rg_state (rg : EffectiveRg) (startedAt : Z) (d : sock_data) : RgSocketState :=
  mk_rgs rg startedAt (d_rgRealityDueAt d) (d_rgPending d) (d_rgTimeLimitNotified d).

Definition commit_decision (x : RgDecision) (d : sock_data) : sock_data :=
  mk_data (d_userId d) (d_walletId d) (d_limits d) (d_demo d) (d_sessionId d) (d_currency d) (d_operatorId d)
    (d_rg d) (d_sessionStartedAt d) (nextDueAt x) (nextPending x) (nextTimeLimitNotified x).

(** Read the socket, decide and store, in one synchronous stretch. *)
Definition decide_socket (now : Z) (id : N) (n : gnode) : option (sock_data * EffectiveRg * Z * RgDecision) * gnode :=
  let g := gn_gate n in
  if connected id g
  then let d := data_of id g in
       match d_rg d, d_sessionStartedAt d with
       | Some rg, Some startedAt =>
           let x := rgEvaluate (rg_state rg startedAt d) now in
           (Some (d, rg, startedAt, x), on_gate (set_data id (commit_decision x)) n)
       | _, _ => (None, n)
       end
  else (None, n).

Definition persist_check (sessionId : option string) (x : RgDecision) : prog gnode unit :=
  match sessionId with
  | Some s =>
      when (nonempty s)
        (try_catch
           (gserve (id ← column s;
                    if nextPending x then GameSession.markRealityCheckPending id (nextDueAt x)
                    else GameSession.ackRealityCheck id (nextDueAt x)))
           (fun _ => log_warn "RG reality-check persist failed"))
  | None => mret tt
  end.

Definition accounting_of (walletId : option string) (startedAt : Z) : prog gnode Bets.Accounting :=
  let zero := {| Bets.acc_wagered := 0; Bets.acc_won := 0; Bets.acc_net := 0 |} in
  if truthy_str walletId
  then try_catch
         (gserve (id ← column (nullish walletId EmptyString); Bets.sessionAccounting id startedAt))
         (fun _ => _ ← log_warn "RG accounting failed"; mret zero)
  else mret zero.

Definition sweep_socket (now : Z) (userId : option string) (id : N) : prog gnode unit :=
  found ← atom (decide_socket now id);
  match found with
  | None => mret tt
  | Some (d, rg, startedAt, x) =>
      _ ← when (tripTimeLimit x) (send (ToRoom (userRoom userId)) (SessionTimeLimit (maxSessionSec rg)));
      when (emitRealityCheck x)
        (acc ← accounting_of (d_walletId d) startedAt;
         _ ← send (ToRoom (userRoom userId))
               (RealityCheck (Z.max 0 ((now - startedAt) / 1000)) (Bets.acc_wagered acc) (Bets.acc_won acc) (Bets.acc_net acc)
                  (nullish (d_currency d) "DEMO"%string) (enforceRealityCheck rg));
         persist_check (d_sessionId d) x)
  end.

(** [for (const [userId, socketId] of this.userSockets)], over the live map. *)
Fixpoint sweep_from (fuel : nat) (from : N) (now : Z) : prog gnode unit :=
  match fuel with
  | O => mret tt
  | S fuel =>
      e ← gmem (next_entry from);
      match e with
      | None => mret tt
      | Some (userId, (rank, id)) => _ ← sweep_socket now userId id; sweep_from fuel (rank + 1) now
      end
  end.

Definition runRgSweep (fuel : nat) : prog gnode unit :=
  exclusive g_rgSweeping set_rgSweeping
    (now ← gclock;
     try_catch (_ ← disconnectRevokedSockets; sweep_from fuel 0 now) (fun _ => log_warn "RG sweep failed")).

(** *** Realtime drivers *)

Definition uuid_room (u : uuid) : string := userRoom (Some (Keys.uuid_string u)).

Definition announce_auto (c : CashoutResult) : prog gnode unit :=
  let room := ToRoom (uuid_room (co_userId c)) in
  _ ← send room (AutoCashoutAccepted (co_panel c) (co_multiplier c) (co_payout c) (co_pending c));
  match co_balance c with
  | Some b => send room (BalanceUpdated (nullish (co_currency c) "DEMO"%string) b)
  | None => mret tt
  end.

Definition onTick : prog gnode unit :=
  leader ← isLeader;
  if negb leader then mret tt
  else
    s ← gserve engineState;
    match s with
    | Some s =>
        if phase_eqb (pub_phase s) Running
        then
          _ ← send ToAll (MultiplierUpdate (pub_roundId s) (pub_multiplier s) (pub_serverTime s));
          cashed ← gserve (Bets.evaluateAutoCashouts W engineView risk (pub_multiplier s));
          for_each cashed announce_auto
        else mret tt
    | None => mret tt
    end.

Definition onSettle (roundId : uuid) : prog gnode unit :=
  leader ← isLeader;
  if negb leader then mret tt
  else
    t0 ← gclock;
    busted ← gserve (Bets.settleRound roundId);
    t1 ← gclock;
    _ ← gserve (emit (EvGauge "settlement_latency_ms" (t1 - t0) 0));
    for_each busted (fun b => send (ToRoom (uuid_room b.1)) (BetBusted b.2)).

(** What an event of the engine makes the gateway do. *)
Definition relay (ev : event) : prog gnode unit :=
  match ev with
  | EvPhase r ph => send ToAll (RoundPhase r ph)
  | EvCrash r m => send ToAll (RoundCrashed r m)
  | EvSettle r => onSettle r
  | EvSettled r => send ToAll (RoundSettled r)
  | _ => mret tt
  end.

Definition run_job (fuel : nat) (j : job) : prog gnode unit :=
  match j with
  | JTick => onTick
  | JReconcile => runReconcile
  | JReserving ms => runReservingSweep ms
  | JRg => runRgSweep fuel
  end.

(** Wire the process; the result is what it starts without waiting for. *)
Definition afterInit (process_env : Risk.env) : prog gnode (list (prog gnode unit)) :=
  let operator := match process_env "WALLET_PROVIDER_TYPE" with Some t => eqb_str t "operator" | None => false end in
  let reservingStaleMs := whole_ms (resolveReservingStaleMs (process_env "RESERVING_STALE_SEC")) in
  _ ← gmem_set (fun g => set_wiring true
        (g_timers g ++ [(120, JTick)] ++ (if operator then [(30000, JReconcile)] else []) ++
         [(60000, JReserving reservingStaleMs); (5000, JRg)]) g);
  mret [if operator then runReconcile
        else try_catch (n ← gserve Bets.countPendingPayouts;
                        when (0 <? n) (log_warn "owed payouts will NOT be reconciled until operator mode is enabled"))
               (fun _ => mret tt)].

Definition onModuleDestroy : prog gnode unit := gmem_set (fun g => set_wiring (g_driver g) [] g).

(** *** Client to server *)

Definition onSubscribe (id : N) : prog gnode reply :=
  ok ← allow id;
  if negb ok then mret (Failed "rate_limited")
  else
    s ← gserve engineState;
    _ ← match s with Some s => send (ToSocket id) (RoundState s) | None => mret tt end;
    mret Acked.

Definition onTimeSync (id : N) (body : option json) : prog gnode reply :=
  ok ← allow id;
  if negb ok then mret (Failed "rate_limited")
  else
    now ← gclock;
    mret (AckTime (match WsSchemas.timeSyncSchema body with Some t0 => t0 | None => None end) now).

(** The arguments a socket's data and a parsed message make. *)
Definition place_args (userId : option string) (d : sock_data) (panel : panel) (amount : Q) (autoCashout : option Q) : prog world PlaceArgs :=
  userId ← column (nullish userId EmptyString);
  walletId ← column_opt (d_walletId d);
  operatorId ← column_opt (d_operatorId d);
  mret {| q_userId := userId; q_panel := panel; q_amount := Fin amount; q_autoCashout := decimal_cents <$> autoCashout;
          q_walletId := walletId; q_limits := d_limits d; q_demo := d_demo d;
          q_rgCtx := Some {| rc_rg := d_rg d; rc_rgPending := d_rgPending d; rc_sessionStartedAt := d_sessionStartedAt d |};
          q_operatorId := operatorId |}.

(** A database failure lets the bet through: connection and sweep still hold. *)
Definition still_live (sessionId : option string) : prog gnode bool :=
  match sessionId with
  | Some s => if nonempty s
              then try_catch (gserve (id ← column s; GameSession.isLive id)) (fun _ => mret true)
              else mret true
  | None => mret true
  end.

Definition announce_balance (id : N) (ok : bool) (currency : option string) (balance : option Z) : prog gnode unit :=
  match balance with
  | Some b => when ok (send (ToSocket id) (BalanceUpdated (nullish currency "DEMO"%string) b))
  | None => mret tt
  end.

Definition onPlaceBet (id : N) (body : option json) : prog gnode reply :=
  ok ← allow id;
  if negb ok then mret (Failed "rate_limited")
  else
    d ← gmem (data_of id);
    if negb (truthy_str (d_userId d)) then mret (Failed "not_authenticated")
    else match WsSchemas.placeSchema body with
    | None => mret (Failed "invalid_payload")
    | Some (panel, amount, autoCashout) =>
        live ← still_live (d_sessionId d);
        if negb live then mret (FailedPanel "session_revoked" panel)
        else
          d' ← gmem (data_of id);
          r ← gserve (q ← place_args (d_userId d) d' panel amount autoCashout; Bets.placeBet W engineView risk q);
          _ ← send (ToSocket id) (if br_ok r then BetAccepted r else BetRejected r);
          _ ← announce_balance id (br_ok r) (br_currency r) (br_balance r);
          mret (AckBet r)
    end.

Definition onCancelBet (id : N) (body : option json) : prog gnode reply :=
  ok ← allow id;
  if negb ok then mret (Failed "rate_limited")
  else
    d ← gmem (data_of id);
    if negb (truthy_str (d_userId d)) then mret (Failed "not_authenticated")
    else match WsSchemas.panelSchema body with
    | None => mret (Failed "invalid_payload")
    | Some panel =>
        r ← gserve (u ← column (nullish (d_userId d) EmptyString); Bets.cancelBet W engineView u panel);
        _ ← send (ToSocket id) (if br_ok r then BetCancelled r else BetRejected r);
        _ ← announce_balance id (br_ok r) (br_currency r) (br_balance r);
        mret (AckBet r)
    end.

Definition onCashOut (id : N) (body : option json) : prog gnode reply :=
  ok ← allow id;
  if negb ok then mret (Failed "rate_limited")
  else
    d ← gmem (data_of id);
    if negb (truthy_str (d_userId d)) then mret (Failed "not_authenticated")
    else match WsSchemas.panelSchema body with
    | None => mret (Failed "invalid_payload")
    | Some panel =>
        r ← gserve (u ← column (nullish (d_userId d) EmptyString); Bets.cashOut W engineView risk u panel None);
        _ ← send (ToSocket id) (if co_ok r then CashoutAccepted r else CashoutRejected r);
        _ ← announce_balance id (co_ok r) (co_currency r) (co_balance r);
        mret (AckCashout r)
    end.

Definition ack_data (due : option Z) (d : sock_data) : sock_data :=
  mk_data (d_userId d) (d_walletId d) (d_limits d) (d_demo d) (d_sessionId d) (d_currency d) (d_operatorId d)
    (d_rg d) (d_sessionStartedAt d) (match due with Some t => Some t | None => d_rgRealityDueAt d end) false (d_rgTimeLimitNotified d).

Definition next_due (rg : EffectiveRg) (now : Z) : option Z :=
  match realityCheckIntervalSec rg with Some i => Some (now + i * 1000) | None => None end.

(** Lift the pause and restart the interval, in one synchronous stretch. *)
Definition ack_socket (id : N) (n : gnode) : option (option string * option Z) * gnode :=
  let d := data_of id (gn_gate n) in
  match d_rg d with
  | Some rg =>
      if truthy_str (d_userId d)
      then let due := next_due rg (w_now (gn_world n)) in
           (Some (d_sessionId d, due), on_gate (set_data id (ack_data due)) n)
      else (None, n)
  | None => (None, n)
  end.

Definition onRealityCheckAck (id : N) : prog gnode reply :=
  ok ← allow id;
  if negb ok then mret (Failed "rate_limited")
  else
    acked ← atom (ack_socket id);
    match acked with
    | None => mret (Failed "not_authenticated")
    | Some (sessionId, due) =>
        _ ← match sessionId with
            | Some s => when (nonempty s)
                (try_catch (gserve (sid ← column s; GameSession.ackRealityCheck sid due))
                   (fun _ => log_warn "RG reality-check ack persist failed"))
            | None => mret tt
            end;
        mret Acked
    end.

(** *** What the event loop may run *)

Inductive ws_request :=
| WConnect (token : option Token)
| WDisconnect
| WSubscribe
| WTimeSync (body : option json)
| WPlace (body : option json)
| WCancel (body : option json)
| WCash (body : option json)
| WAck.

(** The event of one socket, as a program of its own. *)
Definition on_request (id : N) (r : ws_request) : prog gnode unit :=
  match r with
  | WConnect token => _ ← accept id; handleConnection id token
  | WDisconnect => handleDisconnect id
  | WSubscribe => forget (onSubscribe id)
  | WTimeSync body => forget (onTimeSync id body)
  | WPlace body => forget (onPlaceBet id body)
  | WCancel body => forget (onCancelBet id body)
  | WCash body => forget (onCashOut id body)
  | WAck => forget (onRealityCheckAck id)
  end.
End service.
End Gateway.
