(* ===== verification/GatewayTiming.v ===== *)
(** * The gateway over time: the message limit and the reality checks

    Over [Gateway]: how many messages of a socket pass in any second, with how
    far a burst across two windows goes, and the timing of reality checks and of
    the session limit over the whole life of a socket, sweeps and
    acknowledgements in the order of the clock. *)

From S2P Require Import Prelude Effects Js Money Schema OperatorConfig Gateway.

Open Scope Z_scope.

Module GatewayTiming.
Import Gateway.

(** ** The message limit *)

(** What reaches the limiter: a message of a socket at a time, or the end of
    another socket. *)
Inductive traffic := Hit (id : N) (t : Z) | Gone (id : N).

Definition arrive (x : traffic) (g : gateway) : bool * gateway :=
  match x with
  | Hit id t => allow_mem id t g
  | Gone id => (false, set_msgRate (delete id (g_msgRate g)) g)
  end.

(** The answers to the messages of socket [c], with their times. *)
Fixpoint answers (c : N) (l : list traffic) (g : gateway) : list (Z * bool) :=
  match l with
  | [] => []
  | x :: l => let r := arrive x g in
              (match x with Hit id t => if (id =? c)%N then [(t, r.1)] else [] | Gone _ => [] end) ++ answers c l r.2
  end.

(** One socket's counter alone. *)
Definition let_in (r : option (Z * Z)) (now : Z) : bool * (Z * Z) :=
  match r with
  | Some (n, t) => if 1000 <? now - t then (true, (1, now)) else (n + 1 <=? WS_MSG_LIMIT, (n + 1, t))
  | None => (true, (1, now))
  end.

Fixpoint let_in_all (r : option (Z * Z)) (ts : list Z) : list (Z * bool) :=
  match ts with
  | [] => []
  | t :: ts => let x := let_in r t in (t, x.1) :: let_in_all (Some x.2) ts
  end.

Definition times_of (c : N) (l : list traffic) : list Z :=
  omap (fun x => match x with Hit id t => if (id =? c)%N then Some t else None | Gone _ => None end) l.

Definition stays (c : N) (l : list traffic) : Prop := Gone c ∉ l.

Lemma allow_mem_own c t g :
  (allow_mem c t g).1 = (let_in (g_msgRate g !! c) t).1 /\
  g_msgRate (allow_mem c t g).2 !! c = Some (let_in (g_msgRate g !! c) t).2.
Proof.
  unfold allow_mem, let_in. destruct (g_msgRate g !! c) as [[n t0]|]; [destruct (1000 <? t - t0)|];
    cbn; by rewrite lookup_insert_eq.
Qed.

Lemma allow_mem_other c d t g : d <> c -> g_msgRate (allow_mem d t g).2 !! c = g_msgRate g !! c.
Proof.
  intros Hd. unfold allow_mem. destruct (g_msgRate g !! d) as [[n t0]|]; [destruct (1000 <? t - t0)|];
    cbn; by rewrite lookup_insert_ne.
Qed.

(** Other sockets do not count. *)
Lemma answers_alone c l g : stays c l -> answers c l g = let_in_all (g_msgRate g !! c) (times_of c l).
Proof.
  revert g. unfold stays. induction l as [|[id t|id] l IH]; intros g Hs; [done|..]; cbn.
  - destruct (N.eqb_spec id c) as [->|Hne]; cbn.
    + destruct (allow_mem_own c t g) as [H1 H2]. rewrite IH, H1, H2; [done|set_solver].
    + rewrite IH, allow_mem_other by set_solver. done.
  - rewrite IH by set_solver. cbn. rewrite lookup_delete_ne; [done|]. set_solver.
Qed.

Definition in_window (a : Z) (x : Z * bool) : bool := x.2 && (a <=? x.1) && (x.1 <=? a + 1000).
Definition admitted (a : Z) (l : list (Z * bool)) : Z := Z.of_nat (length (List.filter (in_window a) l)).

(** What is left of a counter for the second that starts at [a]. *)
Definition allowance (r : option (Z * Z)) (a : Z) : Z :=
  match r with
  | None => 2 * WS_MSG_LIMIT - 1
  | Some (n, t) =>
      if a + 1000 <? t then 0
      else if a <=? t then Z.max 0 (WS_MSG_LIMIT - n)
      else if a <=? t + 1000 then Z.max 0 (WS_MSG_LIMIT - n) + WS_MSG_LIMIT
      else 2 * WS_MSG_LIMIT - 1
  end.

Definition last_start (r : option (Z * Z)) (u : Z) : Prop := match r with Some (n, t) => 1 <= n /\ t <= u | None => True end.

Lemma let_in_allowance r u a : last_start r u ->
  (if in_window a (u, (let_in r u).1) then 1 else 0) + allowance (Some (let_in r u).2) a <= allowance r a /\
  last_start (Some (let_in r u).2) u.
Proof.
  unfold last_start, let_in, in_window, allowance, WS_MSG_LIMIT. destruct r as [[n t]|]; intros Hr; [|clear Hr];
    [destruct (Z.ltb_spec 1000 (u - t))|]; cbn [fst snd];
    repeat match goal with |- context [?x <=? ?y] => destruct (Z.leb_spec x y) | |- context [?x <? ?y] => destruct (Z.ltb_spec x y) end;
    cbn [andb]; lia.
Qed.

Definition ascending (ts : list Z) : Prop := Sorted.StronglySorted Z.le ts.

Lemma admitted_bound a ts : forall r u, ascending (u :: ts) -> last_start r u -> admitted a (let_in_all r ts) <= allowance r a.
Proof.
  induction ts as [|v ts IH]; intros r u Hs Hr.
  - unfold admitted, allowance, WS_MSG_LIMIT; cbn. destruct r as [[n t]|]; [|lia].
    repeat case_match; lia.
  - inversion Hs as [|? ? Hs' Hu]; subst. assert (Huv : u <= v) by (by inversion Hu).
    assert (Hr' : last_start r v) by (destruct r as [[n t]|]; cbn in *; lia).
    destruct (let_in_allowance r v a Hr') as [Hle Hst]. specialize (IH _ v Hs' Hst).
    cbn [let_in_all]. unfold admitted in *. cbn [List.filter].
    destruct (in_window a (v, (let_in r v).1)); cbn [length] in *; lia.
Qed.

Definition arrivals (l : list traffic) : list Z := omap (fun x => match x with Hit _ t => Some t | Gone _ => None end) l.

Lemma times_of_sublist c l : times_of c l `sublist_of` arrivals l.
Proof.
  induction l as [|[id t|id] l IH]; cbn; [constructor| |done].
  destruct (id =? c)%N; cbn; by constructor.
Qed.

Lemma times_of_ascending c l : ascending (arrivals l) -> ascending (times_of c l).
Proof.
  unfold ascending. generalize (times_of_sublist c l). generalize (times_of c l) (arrivals l).
  induction 1 as [|x l1 l2 Hsub IH|x l1 l2 Hsub IH]; intros Hs; [done|..]; inversion Hs as [|? ? Hs' Hx]; subst; [|auto].
  constructor; [auto|]. rewrite Forall_forall in *. intros y Hy. apply Hx. eapply sublist_subseteq; eauto.
Qed.

(** How many messages came at [t] or later. *)
Definition since (t : Z) (ts : list Z) : Z := Z.of_nat (length (List.filter (fun x => t <=? x) ts)).

Lemma since_snoc t ts u : since t (ts ++ [u]) = since t ts + if t <=? u then 1 else 0.
Proof. unfold since. rewrite List.filter_app, length_app. cbn. destruct (t <=? u); cbn; lia. Qed.

Lemma since_mono t t' ts : t' <= t -> since t ts <= since t' ts.
Proof.
  intros Ht. unfold since. induction ts as [|x ts IH]; cbn; [lia|].
  destruct (Z.leb_spec t x), (Z.leb_spec t' x); cbn [length]; lia.
Qed.

Lemma since_none t ts u : Forall (fun x => x <= u) ts -> u < t -> since t ts = 0.
Proof. unfold since. induction 1 as [|x ts Hx Hts IH]; cbn; [done|]. destruct (Z.leb_spec t x); [lia|auto]. Qed.

Lemma ascending_before pre u rest : ascending (pre ++ u :: rest) -> Forall (fun x => x <= u) pre.
Proof.
  unfold ascending. induction pre as [|x pre IH]; [constructor|]. intros Hs; inversion Hs as [|? ? Hs' Hx]; subst.
  constructor; [|auto]. rewrite Forall_forall in Hx. apply Hx. set_solver.
Qed.

(** A counter never exceeds the messages since its window opened. *)
Definition counts (r : option (Z * Z)) (pre : list Z) : Prop :=
  match r with Some (n, t) => n <= since t pre | None => True end.

Lemma let_in_counts r pre u : Forall (fun x => x <= u) pre -> counts r pre -> last_start r u ->
  counts (Some (let_in r u).2) (pre ++ [u]).
Proof.
  intros Hpre Hr Hl. assert (Hnn : 0 <= since u pre) by (unfold since; lia).
  destruct r as [[n t]|]; cbn in *; [destruct (Z.ltb_spec 1000 (u - t))|]; cbn; rewrite since_snoc;
    destruct Hl || clear Hl; repeat match goal with |- context [?x <=? ?y] => destruct (Z.leb_spec x y) end; lia.
Qed.

(** A refused message follows more than the limit in its second. *)
Lemma refused_after_many ts : forall r pre u,
  ascending (pre ++ ts) -> counts r pre -> Forall (last_start r) ts -> (u, false) ∈ let_in_all r ts ->
  exists post rest, ts = post ++ u :: rest /\ WS_MSG_LIMIT < since (u - 1000) (pre ++ post ++ [u]).
Proof.
  induction ts as [|v ts IH]; intros r pre u Hs Hr Hl Hin; [by apply elem_of_nil in Hin|].
  pose proof (ascending_before _ _ _ Hs) as Hpre. inversion Hl as [|? ? Hv Hl']; subst.
  cbn [let_in_all] in Hin. apply elem_of_cons in Hin as [[= -> Hno]|Hin].
  - exists [], ts. split; [done|]. cbn [app]. destruct r as [[n t]|]; [|done]. cbn in Hno, Hr.
    destruct (Z.ltb_spec 1000 (v - t)); [done|]. cbn in Hno. symmetry in Hno. apply Z.leb_gt in Hno.
    rewrite since_snoc. pose proof (since_mono t (v - 1000) pre ltac:(lia)). destruct (Z.leb_spec (v - 1000) v); lia.
  - destruct (IH (Some (let_in r v).2) (pre ++ [v]) u) as (post & rest & -> & Hn).
    + by rewrite <- app_assoc.
    + by apply let_in_counts.
    + rewrite Forall_forall in *. intros y Hy. assert (v <= y).
      { unfold ascending in Hs. clear - Hs Hy. induction pre as [|x pre IHp]; inversion Hs as [|? ? Hs' Hx]; subst; [|auto].
        rewrite Forall_forall in Hx. auto. }
      specialize (Hl' y Hy). destruct r as [[n t]|]; cbn in *; [destruct (1000 <? v - t)|]; cbn; lia.
    + done.
    + exists (v :: post), rest. split; [done|]. by rewrite <- app_assoc in Hn.
Qed.

(** Over any traffic of any sockets in the order of the clock, a socket the
    limiter has not seen gets at most one message less than twice the limit through in any
    second, and is refused a message only after sending more than the limit in
    the second that message ends. *)
Theorem message_limit c l g a : ascending (arrivals l) -> stays c l -> g_msgRate g !! c = None ->
  admitted a (answers c l g) <= 2 * WS_MSG_LIMIT - 1 /\
  forall u, (u, false) ∈ answers c l g ->
    exists sent rest, times_of c l = sent ++ rest /\ Forall (fun t => t <= u) sent /\ WS_MSG_LIMIT < since (u - 1000) sent.
Proof.
  intros Ha Hs Hg. rewrite (answers_alone _ _ _ Hs), Hg. pose proof (times_of_ascending c l Ha) as Hc. split.
  - destruct (times_of c l) as [|u ts] eqn:E; [done|]. apply (admitted_bound a (u :: ts) None u); [|done].
    constructor; [done|]. inversion Hc; subst. by constructor.
  - intros u Hu. destruct (refused_after_many (times_of c l) None [] u Hc I) as (post & rest & E & Hn); [|done|].
    { by apply Forall_forall. }
    exists (post ++ [u]), rest. rewrite E in Hc |- *. split; [by rewrite <- app_assoc|]. split; [|done].
    apply Forall_app; split; [by eapply ascending_before|by repeat constructor].
Qed.

(** Thirty messages pass within a millisecond of the border of two windows. *)
Definition burst : list traffic :=
  Hit 1 0 :: replicate 14 (Hit 1 1000) ++ replicate 15 (Hit 1 1001).

Lemma message_limit_witness :
  admitted 1 (answers 1 burst empty_gateway) = 29 /\ admitted 1 (answers 1 burst empty_gateway) <= 2 * WS_MSG_LIMIT - 1.
Proof.
  split; [reflexivity|]. refine (proj1 (message_limit 1 burst empty_gateway 1 _ _ _)).
  - unfold ascending, arrivals; cbn. repeat (constructor; [|repeat (constructor; [lia|]); constructor]). constructor.
  - intros H; cbn in H. repeat (apply elem_of_cons in H as [H|H]; [discriminate H|]). by apply elem_of_nil in H.
  - reflexivity.
Defined.

(** The limit of fifteen messages a second does not hold over a border of two
    windows: twenty-nine messages of one socket pass within one millisecond. *)
Theorem burst_passes_twice_the_limit :
  length (List.filter (fun x => x.2 && (1000 <=? x.1)) (answers 1 burst empty_gateway)) = 29%nat /\
  Forall (fun x => x <= 1001) (arrivals burst).
Proof. split; [reflexivity|]. unfold arrivals; cbn. repeat (constructor; [lia|]). constructor. Qed.

(** ** Reality checks and the session limit, over the life of a socket *)

Inductive rg_input := Sweep | Ack.
Inductive note := Checked | LimitHit.

(** One sweep or one acknowledgement, as [decide_socket] and [ack_socket] do it. *)
Definition rg_input_step (rg : EffectiveRg) (started : Z) (x : Z * rg_input) (d : sock_data) : list (Z * note) * sock_data :=
  match x.2 with
  | Sweep => let r := rgEvaluate (rg_state rg started d) x.1 in
             ((if tripTimeLimit r then [(x.1, LimitHit)] else []) ++ (if emitRealityCheck r then [(x.1, Checked)] else []),
              commit_decision r d)
  | Ack => ([], ack_data (next_due rg x.1) d)
  end.

Fixpoint rg_life (rg : EffectiveRg) (started : Z) (l : list (Z * rg_input)) (d : sock_data) : list (Z * note) * sock_data :=
  match l with
  | [] => ([], d)
  | x :: l => let r := rg_input_step rg started x d in
              let s := rg_life rg started l r.2 in
              (r.1 ++ s.1, s.2)
  end.

Section rg.
Context (rg : EffectiveRg) (started : Z).

Definition interval_ms : Z := nullish (realityCheckIntervalSec rg) 0 * 1000.

(** The session limit ends everything; two checks are an interval apart. *)
Definition well_spaced (x y : Z * note) : Prop :=
  x.2 = Checked /\ (y.2 = Checked -> x.1 + interval_ms <= y.1).

Definition limit_reached (t : Z) : Prop :=
  match maxSessionSec rg with Some m => started + m * 1000 <= t | None => False end.

Definition within_limit (x : Z * note) : Prop :=
  match x.2 with Checked => ~ limit_reached x.1 | LimitHit => limit_reached x.1 end.

Inductive decided (d : sock_data) (now : Z) : RgDecision -> Prop :=
| decided_limit : limit_reached now ->
    decided d now (mk_decision false (negb (d_rgTimeLimitNotified d)) (d_rgRealityDueAt d) (d_rgPending d) true)
| decided_check due : ~ limit_reached now -> d_rgRealityDueAt d = Some due -> due <= now ->
    decided d now (mk_decision true false (Some (now + interval_ms)) (enforceRealityCheck rg || d_rgPending d) (d_rgTimeLimitNotified d))
| decided_quiet : ~ limit_reached now ->
    match realityCheckIntervalSec rg, d_rgRealityDueAt d with Some _, Some due => now < due | _, _ => True end ->
    decided d now (mk_decision false false (d_rgRealityDueAt d) (d_rgPending d) (d_rgTimeLimitNotified d)).

Lemma rgEvaluate_decided d now : decided d now (rgEvaluate (rg_state rg started d) now).
Proof.
  unfold rgEvaluate, time_limit_reached, rg_state; cbn.
  assert (Hl : (match maxSessionSec rg with Some m => started + m * 1000 <=? now | None => false end) = true <-> limit_reached now).
  { unfold limit_reached. destruct (maxSessionSec rg); [apply Z.leb_le|split; [discriminate|intros []]]. }
  destruct (match maxSessionSec rg with Some m => started + m * 1000 <=? now | None => false end) eqn:E.
  { constructor. by apply Hl. }
  assert (Hn : ~ limit_reached now) by (rewrite <- Hl; discriminate). clear Hl E.
  destruct (realityCheckIntervalSec rg) as [i|] eqn:Ei; [|constructor; [done|by rewrite Ei]].
  destruct (d_rgRealityDueAt d) as [due|] eqn:Ed; [|rewrite <- Ed; constructor; [done|by rewrite Ei, Ed]].
  destruct (Z.leb_spec due now).
  - pose proof (decided_check d now due Hn Ed H) as T. unfold interval_ms in T. rewrite Ei in T. exact T.
  - rewrite <- Ed. constructor; [done|]. by rewrite Ei, Ed.
Qed.

Lemma limit_reached_mono t t' : t <= t' -> limit_reached t -> limit_reached t'.
Proof. unfold limit_reached. destruct (maxSessionSec rg); [lia|done]. Qed.

(** The times of a life, after [u]. *)
Fixpoint later (u : Z) (l : list (Z * rg_input)) : Prop :=
  match l with [] => True | x :: l => u <= x.1 /\ later x.1 l end.

(** Once the limit is noted nothing more is. *)
Lemma rg_life_over l : forall d u, later u l -> d_rgTimeLimitNotified d = true -> limit_reached u ->
  (rg_life rg started l d).1 = [].
Proof.
  induction l as [|[t [|]] l IH]; intros d u Hl Hd Hu; [done|..]; destruct Hl as [Ht Hl]; cbn in Ht;
    pose proof (limit_reached_mono _ _ Ht Hu) as Hu'; cbn.
  - destruct (rgEvaluate_decided d t); [|done..]. cbn. rewrite Hd. cbn. by apply (IH _ t).
  - by apply (IH _ t).
Qed.

(** No check before it is due, whatever is acknowledged. *)
Definition due_after (b : Z) (d : sock_data) : Prop := match d_rgRealityDueAt d with Some due => b <= due | None => True end.

Lemma rg_life_due l : forall d u b, later u l -> due_after b d -> b <= u + interval_ms ->
  Forall (fun x => x.2 = Checked -> b <= x.1) (rg_life rg started l d).1.
Proof.
  induction l as [|[t [|]] l IH]; intros d u b Hl Hd Hb; [constructor|..]; destruct Hl as [Ht Hl]; cbn in Ht; cbn.
  - pose proof Hd as Hd'. unfold due_after in Hd'.
    destruct (rgEvaluate_decided d t) as [Hlim|due Hlim Hdue Hle|Hlim Hq]; cbn.
    + apply Forall_app. split; [destruct (d_rgTimeLimitNotified d); by repeat constructor|]. apply (IH _ t); [done|done|lia].
    + rewrite Hdue in Hd'. constructor; [cbn; lia|]. apply (IH _ t); [done|unfold due_after; cbn [d_rgRealityDueAt commit_decision nextDueAt]; lia|lia].
    + apply (IH _ t); [done|done|lia].
  - apply (IH _ t); [done| |lia]. unfold due_after, ack_data, next_due, interval_ms in *; cbn.
    destruct (realityCheckIntervalSec rg); cbn in *; [lia|done].
Qed.

(** A noted limit has been reached. *)
Definition noted_ok (u : Z) (d : sock_data) : Prop := d_rgTimeLimitNotified d = true -> limit_reached u.

Lemma rg_life_spaced l : forall d u, later u l -> noted_ok u d ->
  Sorted.StronglySorted well_spaced (rg_life rg started l d).1 /\ Forall within_limit (rg_life rg started l d).1.
Proof.
  induction l as [|[t [|]] l IH]; intros d u Hl Hd; [by repeat constructor|..]; destruct Hl as [Ht Hl]; cbn in Ht;
    (assert (Hd' : noted_ok t d) by (intros H; by eapply limit_reached_mono, Hd)); cbn.
  - destruct (rgEvaluate_decided d t) as [Hlim|due Hlim Hdue Hle|Hlim Hq]; cbn; [|destruct (IH (commit_decision (mk_decision true false (Some (t + interval_ms)) (enforceRealityCheck rg || d_rgPending d) (d_rgTimeLimitNotified d)) d) t Hl Hd') as [IH1 IH2]|by apply (IH _ t)].
    + rewrite (rg_life_over l _ t); [|done..]. destruct (d_rgTimeLimitNotified d); cbn; by repeat constructor.
    + split; constructor; [done| |done|done]. apply Forall_and; split; [by apply Forall_forall|].
      apply (rg_life_due l _ t); [done|unfold due_after; cbn [d_rgRealityDueAt commit_decision nextDueAt fst]; lia|cbn [fst]; lia].
  - by apply (IH _ t).
Qed.

Definition no_ack (l : list (Z * rg_input)) : Prop := Forall (fun x => x.2 = Sweep) l.

(** A sweep never lifts the pause; a check sets it. *)
Lemma rg_life_pending l d : no_ack l -> enforceRealityCheck rg = true ->
  d_rgPending d = true \/ Exists (fun x => x.2 = Checked) (rg_life rg started l d).1 ->
  d_rgPending (rg_life rg started l d).2 = true.
Proof.
  intros Hl He. revert d. induction Hl as [|[t x] l Hx Hl IH]; intros d; cbn.
  { intros [H|H]; [done|]. by apply Exists_nil in H. }
  cbn in Hx; subst x. cbn. intros H. apply IH.
  destruct (rgEvaluate_decided d t) as [Hlim|due Hlim Hdue Hle|Hlim Hq]; cbn in *; rewrite ?He; [|by left|done].
  destruct H as [H|H]; [by left|]. rewrite Exists_app in H. destruct H as [H|H]; [|by right].
  exfalso. destruct (d_rgTimeLimitNotified d); cbn in H; inversion H as [? ? H1|? ? H1]; [done|inversion H1].
Qed.

Lemma rg_life_app l1 l2 d :
  rg_life rg started (l1 ++ l2) d =
  ((rg_life rg started l1 d).1 ++ (rg_life rg started l2 (rg_life rg started l1 d).2).1,
   (rg_life rg started l2 (rg_life rg started l1 d).2).2).
Proof.
  revert d; induction l1 as [|x l1 IH]; intros d; cbn.
  - by destruct (rg_life rg started l2 d).
  - rewrite IH. cbn. by rewrite app_assoc.
Qed.
End rg.

(** C36: Over the whole life of a socket, sweeps and acknowledgements in the order
    of the clock: the session limit is announced at most once, not before it is
    reached, and no reality check is announced after it; two reality checks are
    at least the interval apart, whatever was acknowledged between them; and
    where the pause is enforced, the socket is paused from a check until the
    next acknowledgement. *)
Theorem rg_timing rg started l d u : later u l -> d_rgTimeLimitNotified d = false ->
  let r := rg_life rg started l d in
  Sorted.StronglySorted (well_spaced rg) r.1 /\ Forall (within_limit rg started) r.1 /\
  forall l1 l2, l = l1 ++ l2 -> no_ack l2 -> enforceRealityCheck rg = true ->
    Exists (fun x => x.2 = Checked) (rg_life rg started l2 (rg_life rg started l1 d).2).1 -> d_rgPending r.2 = true.
Proof.
  intros Hl Hd r. split_and!; [eapply rg_life_spaced; [done|by intros H; rewrite Hd in H]..|].
  intros l1 l2 E Hn He Hc. subst r. rewrite E, rg_life_app. cbn. apply rg_life_pending; auto.
Qed.

(** Sweeps at most [delta] apart. *)
Fixpoint swept (delta u : Z) (l : list (Z * rg_input)) : Prop :=
  match l with [] => True | x :: l => x.2 = Sweep /\ u <= x.1 <= u + delta /\ swept delta x.1 l end.

(** While sweeps run at most [delta] milliseconds apart and reach the due
    time, a reality check comes no later than [delta] after it is due, unless the
    session limit comes first. *)
Theorem rg_check_punctual rg started l d u delta due i :
  realityCheckIntervalSec rg = Some i -> d_rgRealityDueAt d = Some due -> u <= due ->
  swept delta u l -> Exists (fun x => due <= x.1) l -> ~ limit_reached rg started (due + delta) ->
  exists t, (t, Checked) ∈ (rg_life rg started l d).1 /\ due <= t <= due + delta.
Proof.
  intros Hi. revert d u. induction l as [|[t x] l IH]; intros d u Hdue Hu Hs He Hlim; [by apply Exists_nil in He|].
  destruct Hs as (Hx & Ht & Hs). cbn in Hx, Ht; subst x. cbn.
  assert (Hnl : t <= due + delta -> ~ limit_reached rg started t) by (intros H1 H2; apply Hlim; by eapply limit_reached_mono).
  destruct (rgEvaluate_decided rg started d t) as [Hlim'|due' Hlim' Hdue' Hle|Hlim' Hq]; cbn.
  - exfalso. destruct (Z.leb_spec due t); [apply Hnl; [lia|done]|apply Hnl; [lia|done]].
  - rewrite Hdue in Hdue'. injection Hdue' as <-. exists t. split; [by left|lia].
  - rewrite Hi, Hdue in Hq. apply (IH _ t); [done|lia|done| |done].
    apply Exists_cons in He as [He|He]; [cbn in He; lia|done].
Qed.

Definition hourly : EffectiveRg := mk_rg (Some 3600) (Some 7200) true None None.
Definition hourly_life : list (Z * rg_input) := [(0, Sweep); (3600000, Sweep); (3700000, Ack); (7100000, Sweep); (7200000, Sweep); (7300000, Sweep)].
Definition hourly_data : sock_data :=
  mk_data (Some "7"%string) None None false None None None (Some hourly) (Some 0) (Some 3600000) false false.

Lemma rg_timing_witness :
  (rg_life hourly 0 hourly_life hourly_data).1 = [(3600000, Checked); (7200000, LimitHit)] /\
  Sorted.StronglySorted (well_spaced hourly) (rg_life hourly 0 hourly_life hourly_data).1.
Proof.
  split; [reflexivity|]. refine (proj1 (rg_timing hourly 0 hourly_life hourly_data 0 _ eq_refl)).
  cbn. repeat split; lia.
Defined.

Lemma rg_check_punctual_witness :
  exists t, (t, Checked) ∈ (rg_life hourly 0 [(3598000, Sweep); (3603000, Sweep)] hourly_data).1 /\ 3600000 <= t <= 3605000.
Proof.
  apply (rg_check_punctual hourly 0 _ hourly_data 3594000 5000 3600000 3600); try reflexivity; [lia|cbn; repeat split; lia|apply Exists_cons_tl, Exists_cons_hd; cbn; lia|].
  unfold limit_reached; cbn; lia.
Defined.
End GatewayTiming.
