(* ===== verification/GatewaySafety.v ===== *)
(** * What the gateway guarantees

    Over [Gateway]: one live socket per user; who may place a bet; what a
    connection with a play token restores; what the responsible-gambling sweep
    leaves on every socket; and what a player can do while a connection is still
    being set up. *)

From Stdlib Require Import QArith.
From S2P Require Import Prelude Effects Js Money Schema Wallet Keys OperatorWallet AuditLog OperatorConfig Launch Sessions Bets Ledger BetFlow Engine Gateway.

Open Scope Z_scope.

#[local] Set Warnings "-clear-no-such-hyp".

Module GatewaySafety.
Import Gateway.

(** ** One live socket per user *)

(** A user's room holds one connected socket, the one the gateway knows. *)
Definition in_room (id : N) (r : string) (g : gateway) : Prop :=
  exists s, g_sockets g !! id = Some s /\ sk_connected s = true /\ r ∈ sk_rooms s.

Definition rooms_ok (g : gateway) : Prop :=
  forall id r, in_room id r g -> exists u, r = userRoom u /\ user_socket u g = Some id.

(** What the invariant reads: the sockets' rooms and the users' sockets. *)
Definition same_rooms (g g' : gateway) : Prop :=
  (forall id r, in_room id r g' -> in_room id r g) /\ (forall u, user_socket u g' = user_socket u g).

Lemma same_rooms_ok g g' : same_rooms g g' -> rooms_ok g -> rooms_ok g'.
Proof. intros [Hr Hu] H id r Hin. destruct (H id r (Hr _ _ Hin)) as (u & -> & E). exists u. by rewrite Hu. Qed.

Lemma in_room_set_data id f g i r : in_room i r (set_data id f g) -> in_room i r g.
Proof.
  intros (s & Hs & Hc & Hin). unfold set_data in Hs; cbn in Hs. destruct (decide (id = i)) as [->|].
  - rewrite lookup_alter_eq in Hs. destruct (g_sockets g !! i) as [s0|] eqn:E; [|done]. cbn in Hs. injection Hs as <-. by exists s0.
  - rewrite lookup_alter_ne in Hs by done. by exists s.
Qed.

Lemma same_rooms_data id f g : same_rooms g (set_data id f g).
Proof. split; [apply in_room_set_data|done]. Qed.

Lemma in_room_close id g i r : in_room i r (close_socket id g) <-> i <> id /\ in_room i r g.
Proof.
  unfold in_room, close_socket; cbn. destruct (decide (id = i)) as [->|].
  - rewrite lookup_alter_eq. split; [|by intros [? _]]. intros (s & Hs & Hc & _).
    destruct (g_sockets g !! i); [|done]. cbn in Hs. injection Hs as <-. done.
  - rewrite lookup_alter_ne by done. naive_solver.
Qed.

Lemma user_socket_delete u u' g : user_socket u (user_delete u' g) = if decide (u = u') then None else user_socket u g.
Proof.
  unfold user_socket, user_delete; cbn. induction (g_userSockets g) as [|[v [rank id]] m IH]; cbn.
  - by destruct (decide (u = u')).
  - unfold opt_eqb at 1. case_bool_decide as Hv; cbn [negb].
    + subst v. etrans; [exact IH|]. destruct (decide (u = u')) as [->|]; [done|]. by rewrite decide_False by congruence.
    + cbn. destruct (decide (v = u)) as [->|]; [by rewrite decide_False|done].
Qed.

Lemma user_socket_set u id g u' : user_socket u' (user_set u id g) = if decide (u = u') then Some id else user_socket u' g.
Proof.
  unfold user_set, user_socket. destruct (amap_get u (g_userSockets g)) as [[rank old]|]; cbn; rewrite amap_get_set;
    by destruct (decide (u = u')).
Qed.

Lemma in_room_user_set u id g i r : in_room i r (user_set u id g) <-> in_room i r g.
Proof. unfold user_set. by destruct (amap_get u (g_userSockets g)) as [[rank old]|]. Qed.

(** A closed socket takes its own entry with it, and no other. *)
Lemma on_disconnect_others id n u i : user_socket u (gn_gate n) = Some i -> i <> id ->
  user_socket u (gn_gate (on_disconnect id n)) = Some i.
Proof.
  intros Hu Hi. unfold on_disconnect; cbn. destruct (truthy_str _ && _) eqn:E; [|done].
  apply andb_true_iff in E as [_ E]. apply opt_eqb_true in E.
  change (user_socket u (user_delete (d_userId (data_of id (gn_gate n))) (gn_gate n)) = Some i).
  rewrite user_socket_delete, decide_False; [done|congruence].
Qed.

Lemma in_room_on_disconnect id n i r : in_room i r (gn_gate (on_disconnect id n)) <-> in_room i r (gn_gate n).
Proof. unfold on_disconnect; cbn. by destruct (truthy_str _ && _). Qed.

Lemma rooms_ok_close id n : rooms_ok (gn_gate n) -> rooms_ok (gn_gate (on_disconnect id (on_gate (close_socket id) n))).
Proof.
  intros H i r Hin. apply in_room_on_disconnect in Hin. apply in_room_close in Hin as [Hne Hin].
  destruct (H i r Hin) as (u & -> & Hu). exists u. split; [done|]. by apply on_disconnect_others.
Qed.

Section system.
Context {Token : Type} (HJ : Jwt Token) (HU : UuidColumn).
Context (W : WalletProvider) (risk : Risk.RiskLimits).
Context (PAYOUT_PENDING_ALERT_SEC RESERVING_ALERT_SEC : jsnum).
Context (engineState : prog world (option PublicRoundState)) (engineMultiplier : prog world Z).
Context (isLeader : prog gnode bool) (operatorApi : bool).
Context (JWT_SECRET : string) (decimal_cents : Q -> Z) (close_now : bool).

(** [disconnect(true)], whenever the library runs the handler. *)
Lemma disconnect_others id n u i : user_socket u (gn_gate n) = Some i -> i <> id ->
  user_socket u (gn_gate (disconnect close_now id n)) = Some i.
Proof.
  intros Hu Hi. unfold disconnect. destruct (connected id (gn_gate n)); [|done]. cbv zeta.
  destruct close_now; [by apply on_disconnect_others|done].
Qed.

Lemma in_room_disconnect id n i r : in_room i r (gn_gate (disconnect close_now id n)) <-> i <> id /\ in_room i r (gn_gate n).
Proof.
  unfold disconnect. destruct (connected id (gn_gate n)) eqn:E; cbv zeta.
  - destruct close_now; [rewrite in_room_on_disconnect|]; apply in_room_close.
  - split; [|by intros []]. intros Hin. split; [|done]. intros ->. destruct Hin as (s & Hs & Hc & _).
    unfold connected in E. rewrite Hs in E. congruence.
Qed.

Lemma rooms_ok_disconnect id n : rooms_ok (gn_gate n) -> rooms_ok (gn_gate (disconnect close_now id n)).
Proof.
  intros H i r Hin. apply in_room_disconnect in Hin as [Hne Hin]. destruct (H i r Hin) as (u & -> & Hu).
  exists u. split; [done|]. by apply disconnect_others.
Qed.

(** Joining is the only step that could break it, and drops the previous one. *)
Lemma rooms_ok_register id u n : rooms_ok (gn_gate n) -> rooms_ok (gn_gate (register close_now id u n)).
Proof.
  intros H. unfold register. set (n1 := on_gate _ n).
  assert (Hn1 : forall i r, in_room i r (gn_gate n1) -> (i = id /\ r = userRoom u) \/ in_room i r (gn_gate n)).
  { intros i r (s & Hs & Hc & Hin). cbn in Hs. destruct (decide (id = i)) as [->|].
    - rewrite lookup_alter_eq in Hs. destruct (g_sockets (gn_gate n) !! i) as [s0|] eqn:E; [|done]. cbn in Hs.
      injection Hs as <-. cbn in *. apply elem_of_cons in Hin as [->|Hin]; [by left|]. right. by exists s0.
    - rewrite lookup_alter_ne in Hs by done. right. by exists s. }
  assert (Hus : forall v, user_socket v (gn_gate n1) = user_socket v (gn_gate n)) by done.
  intros i r Hin. cbn [gn_gate on_gate] in Hin |- *. apply in_room_user_set in Hin.
  assert (Hkeep : (i = id /\ r = userRoom u) \/
    exists v, r = userRoom v /\ (i = id \/ v <> u) /\ user_socket v (gn_gate match user_socket u (gn_gate n1) with
      | Some prev => if (prev =? id)%N then n1 else disconnect close_now prev n1 | None => n1 end) = Some i).
  { rewrite Hus in Hin |- *. destruct (user_socket u (gn_gate n)) as [prev|] eqn:Ep.
    - destruct (N.eqb_spec prev id) as [->|Hne].
      + destruct (Hn1 _ _ Hin) as [|Hin']; [by left|right]. destruct (H _ _ Hin') as (v & -> & Hv). exists v.
        rewrite Hus. split_and!; [done| |done]. destruct (decide (i = id)); [by left|right; intros ->; congruence].
      + apply in_room_disconnect in Hin as [Hip Hin]. destruct (Hn1 _ _ Hin) as [|Hin']; [by left|right].
        destruct (H _ _ Hin') as (v & -> & Hv). exists v. split_and!; [done|right; intros ->; congruence|].
        apply disconnect_others; [by rewrite Hus|done].
    - destruct (Hn1 _ _ Hin) as [|Hin']; [by left|right]. destruct (H _ _ Hin') as (v & -> & Hv). exists v.
      rewrite Hus. split_and!; [done|right; intros ->; congruence|done]. }
  destruct Hkeep as [[-> ->]|(v & -> & Hv & Hs)].
  - exists u. split; [done|]. by rewrite user_socket_set, decide_True.
  - exists v. split; [done|]. rewrite user_socket_set. destruct (decide (u = v)) as [->|]; [|done]. destruct Hv as [->|]; done.
Qed.

(** *** Every step of the process *)

Definition keeps_rooms (n n' : gnode) : Prop := rooms_ok (gn_gate n) -> rooms_ok (gn_gate n').

#[export] Instance keeps_rooms_preorder : PreOrder keeps_rooms.
Proof. split; [by intros n H|intros n1 n2 n3 H1 H2 H; by apply H2, H1]. Qed.

Lemma steps_gserve {A} (R : gnode -> gnode -> Prop) (p : prog world A) :
  (forall n w, R n (mk_gnode w (gn_gate n))) -> steps_in R (gserve p).
Proof. intros HR. induction p as [r|X f k IH]; cbn; [done|]. split; [intros n; apply HR|done]. Qed.

Lemma keeps_world {A} (p : prog world A) : steps_in keeps_rooms (gserve p).
Proof. apply steps_gserve. by intros n w H. Qed.

Lemma keeps_same f : (forall g, same_rooms g (f g)) -> steps_in keeps_rooms (gmem_set f).
Proof. intros Hf. apply steps_atom. intros n H. eapply same_rooms_ok; [apply Hf|exact H]. Qed.

Lemma keeps_send d m : steps_in keeps_rooms (send d m).
Proof. by apply keeps_same. Qed.

Lemma keeps_allow id : steps_in keeps_rooms (allow id).
Proof.
  apply steps_atom. intros n H. eapply same_rooms_ok; [|exact H]. unfold allow_mem; cbn.
  destruct (g_msgRate (gn_gate n) !! id) as [[k t]|]; [destruct (1000 <? _)|]; done.
Qed.

Lemma steps_finally {A} R (p : prog gnode A) f : steps_in R p -> steps_in R f -> steps_in R (finally p f).
Proof. intros Hp Hf. unfold finally. repeat first [apply steps_bind|apply steps_try|apply steps_ret|apply steps_raise|done|intros]. Qed.

Lemma keeps_exclusive get set body : (forall b g, same_rooms g (set b g)) -> steps_in keeps_rooms body ->
  steps_in keeps_rooms (exclusive get set body).
Proof.
  intros Hs Hb. unfold exclusive, test_and_set. apply steps_bind.
  - apply steps_atom. intros n. destruct (get (gn_gate n)); [by intros H|]. intros H. eapply same_rooms_ok; [apply Hs|exact H].
  - intros [|]; [apply steps_ret|]. apply steps_finally; [done|]. by apply keeps_same.
Qed.

#[local] Hint Resolve keeps_world keeps_send keeps_allow : vr_steps.

Lemma keeps_drop id : steps_in keeps_rooms (atom (fun n => (tt, disconnect close_now id n))).
Proof. apply steps_atom. intros n Hok. by apply rooms_ok_disconnect. Qed.

Lemma keeps_register id u : steps_in keeps_rooms (atom (fun n => (tt, register close_now id u n))).
Proof. apply steps_atom. intros n Hok. by apply rooms_ok_register. Qed.

Lemma keeps_data id f : steps_in keeps_rooms (gmem_set (set_data id f)).
Proof. apply keeps_same. intros g. apply same_rooms_data. Qed.

Lemma keeps_ack id : steps_in keeps_rooms (atom (ack_socket id)).
Proof.
  apply steps_atom. intros n H. unfold ack_socket. cbv zeta. repeat case_match; try done; cbn.
  eapply same_rooms_ok; [apply same_rooms_data|done].
Qed.
#[local] Hint Resolve keeps_drop keeps_register keeps_data keeps_ack : vr_steps.

Lemma keeps_disconnectRevoked : steps_in keeps_rooms (disconnectRevokedSockets close_now).
Proof.
  unfold disconnectRevokedSockets, gmem. steps.
Qed.

Lemma keeps_decide now id : steps_in keeps_rooms (atom (decide_socket now id)).
Proof.
  apply steps_atom. intros n H. unfold decide_socket. cbv zeta. repeat case_match; try done; cbn.
  eapply same_rooms_ok; [apply same_rooms_data|done].
Qed.

Lemma keeps_sweep fuel from now : steps_in keeps_rooms (sweep_from fuel from now).
Proof.
  revert from; induction fuel as [|fuel IH]; intros from; cbn [sweep_from]; [apply steps_ret|].
  unfold sweep_socket, accounting_of, persist_check, log_warn, gmem. steps. apply keeps_decide.
Qed.

Lemma keeps_authenticate id token : steps_in keeps_rooms (authenticate JWT_SECRET close_now id token).
Proof.
  unfold authenticate, reload_check, log_warn, gclock. steps.
Qed.

#[local] Hint Resolve keeps_authenticate keeps_sweep : vr_steps.

Context (Hleader : steps_in eq isLeader).

Lemma keeps_leader : steps_in keeps_rooms isLeader.
Proof. eapply steps_mono; [|exact Hleader]. by intros n n' <-. Qed.
#[local] Hint Resolve keeps_leader : vr_steps.

Lemma keeps_job fuel j :
  steps_in keeps_rooms (run_job W risk PAYOUT_PENDING_ALERT_SEC RESERVING_ALERT_SEC engineState engineMultiplier isLeader operatorApi close_now fuel j).
Proof.
  destruct j; cbn [run_job].
  - unfold onTick, announce_auto. steps.
  - unfold runReconcile. apply steps_bind; [apply keeps_leader|]. intros [|]; [|apply steps_ret]. apply keeps_exclusive; [done|]. steps.
  - unfold runReservingSweep, log_warn. apply steps_bind; [apply keeps_leader|]. intros [|]; [|apply steps_ret]. apply keeps_exclusive; [done|]. steps.
  - unfold runRgSweep, gclock, log_warn. apply keeps_exclusive; [done|]. steps.
Qed.

Lemma keeps_request id r :
  steps_in keeps_rooms (on_request W risk engineState engineMultiplier JWT_SECRET decimal_cents close_now id r).
Proof.
  destruct r; cbn [on_request].
  - unfold accept, handleConnection, gmem. steps.
    apply steps_atom. intros n H. cbn. destruct (g_sockets (gn_gate n) !! id) eqn:E; [done|].
    eapply same_rooms_ok; [|exact H]. split; [|done]. intros i r (s & Hs & Hc & Hin). cbn in Hs.
    destruct (decide (id = i)) as [->|]; [|rewrite lookup_insert_ne in Hs by done; by exists s].
    rewrite lookup_insert_eq in Hs. injection Hs as <-. by apply elem_of_nil in Hin.
  - apply steps_atom. intros n Hok. by apply rooms_ok_close.
  - unfold onSubscribe. steps.
  - unfold onTimeSync, gclock. steps.
  - unfold onPlaceBet, still_live, announce_balance, gmem. steps.
  - unfold onCancelBet, announce_balance, gmem. steps.
  - unfold onCashOut, announce_balance, gmem. steps.
  - unfold onRealityCheckAck, log_warn. steps.
Qed.
End system.

(** C32: One user has one live socket: under any interleaving of connections,
    messages, disconnections and sweeps, from an empty registry, the connected
    sockets that joined a user's room are one, the socket the gateway has on
    record for that user, whether the library runs the disconnect handler at
    once or later. *)
Theorem one_live_socket {Token} (HJ : Jwt Token) (HU : UuidColumn) W risk thr1 thr2 engineState engineMultiplier
    (isLeader : prog gnode bool) operatorApi secret cents close_now
    (reqs : list (N * ws_request)) (jobs : list (nat * job)) w n' ps' user id :
  steps_in eq isLeader ->
  pool_steps (mk_gnode w empty_gateway)
    (((fun r => on_request W risk engineState engineMultiplier secret cents close_now r.1 r.2) <$> reqs) ++
     ((fun j => run_job W risk thr1 thr2 engineState engineMultiplier isLeader operatorApi close_now j.1 j.2) <$> jobs)) n' ps' ->
  user <> "undefined"%string -> in_room id (userRoom (Some user)) (gn_gate n') ->
  user_socket (Some user) (gn_gate n') = Some id /\
  forall id', in_room id' (userRoom (Some user)) (gn_gate n') -> id' = id.
Proof.
  intros Hl Hsteps Hu Hin.
  assert (Hok : rooms_ok (gn_gate n')).
  { eapply (pool_steps_in keeps_rooms); [exact Hsteps| |by intros i r (s & Hs & _)].
    apply Forall_app; split; apply Forall_fmap, Forall_true; intros x; [apply keeps_request|by apply keeps_job]. }
  assert (Huniq : forall i, in_room i (userRoom (Some user)) (gn_gate n') -> user_socket (Some user) (gn_gate n') = Some i).
  { intros i Hi. destruct (Hok _ _ Hi) as ([v|] & E & Hs); apply string_app_inj in E; cbn in E; congruence. }
  split; [auto|]. intros id' Hin'. apply Huniq in Hin, Hin'. congruence.
Qed.

(** ** Who may place a bet *)

Lemma run_gserve {A} (p : prog world A) n :
  run (gserve p) n = ((run p (gn_world n)).1, mk_gnode (run p (gn_world n)).2 (gn_gate n)).
Proof.
  destruct n as [w g]. cbn [gn_world gn_gate]. revert w. induction p as [r|X f k IH]; intros w; [done|]. cbn. apply IH.
Qed.

(** The refusal a socket's message meets before the bet service is asked. *)
Definition place_refusal `{HU : UuidColumn} (id : N) (body : option json) (n : gnode) : option reply :=
  let d := data_of id (gn_gate n) in
  if negb (allow_mem id (w_now (gn_world n)) (gn_gate n)).1 then Some (Failed "rate_limited")
  else if negb (truthy_str (d_userId d)) then Some (Failed "not_authenticated")
  else match WsSchemas.placeSchema body with
       | None => Some (Failed "invalid_payload")
       | Some (p, _, _) =>
           match d_sessionId d with
           | Some s =>
               match uuid_column s with
               | Some sid => if nonempty s && bool_decide (GameSession.sessions_where (GameSession.live_id sid) (gn_world n) = [])
                             then Some (FailedPanel "session_revoked" p) else None
               | None => None
               end
           | None => None
           end
       end.

Lemma allow_mem_data id now i g : data_of i (allow_mem id now g).2 = data_of i g.
Proof. unfold allow_mem. destruct (g_msgRate g !! id) as [[k t]|]; [destruct (1000 <? _)|]; done. Qed.

Lemma run_allow id n : run (allow id) n =
  (Ok (allow_mem id (w_now (gn_world n)) (gn_gate n)).1, mk_gnode (gn_world n) (allow_mem id (w_now (gn_world n)) (gn_gate n)).2).
Proof. reflexivity. Qed.

Lemma run_gmem {A} (f : gateway -> A) n : run (gmem f) n = (Ok (f (gn_gate n)), n).
Proof. reflexivity. Qed.

Lemma run_isLive sid w : w_faults w = [] ->
  run (GameSession.isLive sid) w = (Ok (negb (bool_decide (GameSession.sessions_where (GameSession.live_id sid) w = []))), w).
Proof.
  intros Hf. unfold GameSession.isLive. rewrite run_bind, run_db_get by done. rewrite run_ret. do 2 f_equal.
  destruct (GameSession.sessions_where _ w) eqn:E; [done|]. case_bool_decide; [done|]. cbn. apply Z.gtb_lt. lia.
Qed.

(** A bet message is turned away before anything is staked, in this order:
    over the message limit, not authenticated, malformed, session revoked; the
    reply names the reason and no table changes. *)
Theorem place_bet_gates `{HU : UuidColumn} W risk engineState engineMultiplier cents id body n r :
  w_faults (gn_world n) = [] -> place_refusal id body n = Some r ->
  exists n', run (onPlaceBet W risk engineState engineMultiplier cents id body) n = (Ok r, n') /\
    tables_eq (gn_world n) (gn_world n').
Proof.
  intros Hf. unfold place_refusal, onPlaceBet. cbv zeta. rewrite run_bind, run_allow.
  destruct (allow_mem id _ (gn_gate n)).1; cbn [negb]; [|intros [= <-]; eexists; split; [reflexivity|reflexivity]].
  rewrite run_bind, run_gmem. cbn [gn_gate]. rewrite allow_mem_data.
  destruct (truthy_str _); cbn [negb]; [|intros [= <-]; eexists; split; [reflexivity|reflexivity]].
  destruct (WsSchemas.placeSchema body) as [[[p amount] target]|]; [|intros [= <-]; eexists; split; [reflexivity|reflexivity]].
  destruct (d_sessionId _) as [s|]; [|done]. destruct (uuid_column s) as [sid|] eqn:Ec; [|done].
  unfold still_live, column. rewrite Ec. destruct (nonempty s); [|done]. cbn [andb].
  case_bool_decide as Hs; [|done]. intros [= <-].
  rewrite run_bind, run_try, run_gserve, bind_ret_l. cbn [gn_world gn_gate]. rewrite run_isLive by done.
  rewrite bool_decide_eq_true_2 by done. eexists. split; [reflexivity|reflexivity].
Qed.

(** Every way a program can end. *)
Fixpoint yields {S A} (Q : res A -> Prop) (p : prog S A) : Prop :=
  match p with Done r => Q r | Act f k => forall x, yields Q (k x) end.

Lemma yields_bind {S A B} (Q : res B -> Prop) (p : prog S A) (k : A -> prog S B) :
  yields (fun r => match r with Ok a => yields Q (k a) | Raise e => Q (Raise e) end) p -> yields Q (x ← p; k x).
Proof. induction p as [[a|e]|X f c IH]; cbn; [done..|]. intros H x. apply IH, H. Qed.

Lemma yields_any {S A} (Q : res A -> Prop) (p : prog S A) : (forall r, Q r) -> yields Q p.
Proof. intros HQ. induction p as [r|X f k IH]; cbn; auto. Qed.

Lemma run_yields {S A} (Q : res A -> Prop) (p : prog S A) s : yields Q p -> Q (run p s).1.
Proof. revert s; induction p as [r|X f k IH]; cbn; intros s H; [done|]. apply IH, H. Qed.

(** A reality check is waiting for its acknowledgement. *)
Definition paused (d : sock_data) : Prop :=
  exists rg t, d_rg d = Some rg /\ enforceRealityCheck rg = true /\ d_sessionStartedAt d = Some t /\ t <> 0 /\
    d_rgPending d = true /\ d_demo d = false.

Definition refuses (r : res BetResult) : Prop := match r with Ok br => br_ok br = false | Raise _ => True end.

(** The bet service refuses a paused session whatever else happens meanwhile. *)
Lemma placeBet_paused W E risk q rg t : steps_in tables_eq (@getPublicState E) ->
  Bets.active_rg (q_demo q) (q_rgCtx q) = Some (rg, t) -> enforceRealityCheck rg = true -> Bets.rgPending (q_rgCtx q) = true ->
  steps_in tables_eq (Bets.placeBet W E risk q) /\ yields refuses (Bets.placeBet W E risk q).
Proof.
  intros HE Ha He Hp. unfold Bets.placeBet, Bets.placeInRound. split.
  - apply steps_bind; [done|]. intros st. destruct (Bets.in_phase Betting st); [|done].
    destruct (Bets.bigint_floor _); [|done]. destruct (Risk.checkBetAmount _ _ _); [unfold Bets.recordRejected; steps|].
    rewrite Ha, Hp. cbn [Bets.rg_gate]. rewrite He. cbn [andb]. unfold Bets.rg_refuse, Bets.recordRejected, Bets.recordRgBlock, emit, atom.
    cbn. split_and!; try done; intros; frame.
  - apply yields_bind, yields_any. intros [st|]; [|done]. destruct (Bets.in_phase Betting st); [|done].
    destruct (Bets.bigint_floor _); [|done]. destruct (Risk.checkBetAmount _ _ _); [done|].
    rewrite Ha, Hp. cbn [Bets.rg_gate]. rewrite He. done.
Qed.

Definition quiet (n n' : gnode) : Prop := tables_eq (gn_world n) (gn_world n') /\ g_sockets (gn_gate n') = g_sockets (gn_gate n).
#[export] Instance quiet_preorder : PreOrder quiet.
Proof. split; unfold quiet; [done|]. intros a b c [H1 E1] [H2 E2]. split; [by etrans|congruence]. Qed.

Lemma quiet_gserve {A} (p : prog world A) : steps_in tables_eq p -> steps_in quiet (gserve p).
Proof. induction p as [r|X f k IH]; cbn; [done|]. intros [Hf Hk]. split; [by split|auto]. Qed.

Lemma quiet_send d m : steps_in quiet (send d m).
Proof. by apply steps_atom. Qed.

Lemma quiet_still_live `{HU : UuidColumn} s : steps_in quiet (still_live s).
Proof.
  unfold still_live. destruct s as [s|]; [|done]. destruct (nonempty s); [|done]. apply steps_try; [|done].
  apply quiet_gserve. unfold column, GameSession.isLive. steps.
Qed.

Lemma data_of_sockets id g g' : g_sockets g' = g_sockets g -> data_of id g' = data_of id g.
Proof. unfold data_of. by intros ->. Qed.

(** The bet of a paused socket, from the arguments on. *)
Lemma paused_bet `{HU : UuidColumn} W risk engineState engineMultiplier cents u d p a x :
  steps_in tables_eq engineState -> paused d ->
  let m := (q ← place_args cents u d p a x; Bets.placeBet W (engineView engineState engineMultiplier) risk q) in
  steps_in tables_eq m /\ yields refuses m.
Proof.
  intros HE (rg & t & Hrg & He & Ht & Hnz & Hp & Hd) m.
  assert (Hargs : yields (fun r => match r with
      | Ok q => Bets.active_rg (q_demo q) (q_rgCtx q) = Some (rg, t) /\ Bets.rgPending (q_rgCtx q) = true
      | Raise _ => True end) (place_args cents u d p a x) /\ steps_in tables_eq (place_args cents u d p a x)).
  { unfold place_args, column_opt, column. split; [|steps].
    repeat case_match; cbn; try done; rewrite Hrg, Ht, Hd; cbn; (split; [|done]); by rewrite (proj2 (Z.eqb_neq t 0) Hnz). }
  destruct Hargs as [Hy Hs]. subst m.
  assert (HV : steps_in tables_eq (@Bets.getPublicState (engineView engineState engineMultiplier))) by (cbn; steps).
  clear Hrg Ht Hd Hp HE. revert Hy Hs. generalize (place_args cents u d p a x).
  intros p0. induction p0 as [[q|e]|X f k IH].
  - intros [H1 H2] _. exact (placeBet_paused W _ risk q rg t HV H1 He H2).
  - done.
  - intros Hy [Hf Hk]. split; [split; [exact Hf|]|]; intros y; by apply (IH y).
Qed.


(** ** From the play token to the socket *)

Lemma play_claims_read v s wl limits rg : let l := GameSession.play_claims v s wl limits rg in
  assoc_last "sub" l = Some (JStr (Keys.uuid_string (w_userId wl))) /\
  assoc_last "walletId" l = Some (JStr (Keys.uuid_string (s_walletId s))) /\
  assoc_last "currency" l = Some (JStr (s_currency s)) /\
  assoc_last "operatorId" l = Some (JStr (v_operatorId v)) /\
  assoc_last "sessionId" l = Some (JStr (Keys.uuid_string (s_id s))) /\
  assoc_last "kind" l = Some (JStr "operator") /\
  assoc_last "sessionStartedAt" l = Some (JNum (inject_Z (s_createdAt s))) /\
  assoc_last "limits" l = BetLimits.serializeBetLimits <$> limits /\
  assoc_last "demo" l = (if v_demo v then Some (JBool true) else None) /\
  assoc_last "rg" l = Rg.serializeRg <$> rg.
Proof. cbv zeta. unfold GameSession.play_claims. destruct limits, (v_demo v), rg; by split_and!. Qed.

(** What a fresh socket holds once its session's token is accepted. *)
Definition restored_due (row : session) (g : EffectiveRg) (startedAt : Z) : option Z :=
  let persisted := if is_Some_b (realityCheckIntervalSec g) then s_rcDueAt row else None in
  match persisted with
  | Some due => Some due
  | None => match realityCheckIntervalSec g with Some i => Some (startedAt + i * 1000) | None => None end
  end.

Definition session_data (v : VerifiedLaunch) (s row : session) (userId : uuid) limits (rg : option EffectiveRg) : sock_data :=
  mk_data (Some (Keys.uuid_string userId)) (Some (Keys.uuid_string (s_walletId s))) limits (v_demo v)
    (Some (Keys.uuid_string (s_id s))) (Some (s_currency s)) (Some (v_operatorId v)) rg
    (match rg with Some _ => Some (s_createdAt s) | None => None end)
    (match rg with Some g => restored_due row g (s_createdAt s) | None => None end)
    (match rg with Some g => is_Some_b (realityCheckIntervalSec g) && is_Some_b (s_rcPendingAt row) | None => false end) false.

Lemma data_of_set_data id f g : is_Some (g_sockets g !! id) -> data_of id (set_data id f g) = f (data_of id g).
Proof. intros [s Hs]. unfold data_of, set_data; cbn. by rewrite lookup_alter_eq, Hs. Qed.

Lemma data_of_close id i g : data_of i (close_socket id g) = data_of i g.
Proof.
  unfold data_of, close_socket; cbn. destruct (decide (id = i)) as [->|]; [|by rewrite lookup_alter_ne].
  rewrite lookup_alter_eq. by destruct (g_sockets g !! i).
Qed.

Lemma data_of_on_disconnect id i n : data_of i (gn_gate (on_disconnect id n)) = data_of i (gn_gate n).
Proof. unfold on_disconnect; cbn. by destruct (truthy_str _ && _). Qed.

Lemma data_of_register close_now id u i n : data_of i (gn_gate (register close_now id u n)) = data_of i (gn_gate n).
Proof.
  unfold register. set (n1 := on_gate _ n).
  assert (Hn1 : data_of i (gn_gate n1) = data_of i (gn_gate n)).
  { unfold data_of; cbn. destruct (decide (id = i)) as [->|]; [|by rewrite lookup_alter_ne].
    rewrite lookup_alter_eq. by destruct (g_sockets (gn_gate n) !! i). }
  rewrite <- Hn1. unfold on_gate at 1; cbn [gn_gate].
  assert (Hset : forall g, data_of i (user_set u id g) = data_of i g).
  { intros g. unfold user_set. by destruct (amap_get u (g_userSockets g)) as [[? ?]|]. }
  rewrite Hset. destruct (user_socket u (gn_gate n1)) as [prev|]; [|done]. destruct (prev =? id)%N; [done|].
  unfold disconnect. destruct (connected prev (gn_gate n1)); [|done]. cbv zeta.
  destruct close_now; [rewrite data_of_on_disconnect|]; apply data_of_close.
Qed.

Lemma connected_register close_now id u n : connected id (gn_gate n) = true -> in_room id (userRoom u) (gn_gate (register close_now id u n)).
Proof.
  intros Hc. unfold register. set (n1 := on_gate _ n). cbn [gn_gate on_gate]. apply in_room_user_set.
  assert (H1 : in_room id (userRoom u) (gn_gate n1)).
  { unfold connected in Hc. destruct (g_sockets (gn_gate n) !! id) as [s|] eqn:E; [|done].
    eexists. cbn. rewrite lookup_alter_eq, E. cbn. split_and!; [done|done|by left]. }
  destruct (user_socket u (gn_gate n1)) as [prev|]; [|done]. destruct (N.eqb_spec prev id); [done|].
  by apply in_room_disconnect.
Qed.

Lemma run_loadRealityCheckState sid w row : w_faults w = [] -> w_sessions w !! sid = Some row ->
  run (GameSession.loadRealityCheckState sid) w = (Ok (is_Some_b (s_rcPendingAt row), s_rcDueAt row), w).
Proof. intros Hf Hr. unfold GameSession.loadRealityCheckState. by rewrite run_bind, run_db_get, Hr. Qed.

Lemma live_session sid row w : w_sessions w !! sid = Some row -> s_id row = sid -> s_revokedAt row = None ->
  GameSession.sessions_where (GameSession.live_id sid) w <> [].
Proof.
  intros Hr Hid Hrev E. apply (not_elem_of_nil row). rewrite <- E. unfold GameSession.sessions_where.
  apply list_elem_of_In, List.filter_In. split; [apply list_elem_of_In; by eapply map_value_in|].
  unfold GameSession.live_id. by rewrite bool_decide_eq_true_2, Hrev.
Qed.

(** Nothing after the authentication touches the registry. *)
Definition same_registry (n n' : gnode) : Prop :=
  g_sockets (gn_gate n') = g_sockets (gn_gate n) /\ g_userSockets (gn_gate n') = g_userSockets (gn_gate n).
#[export] Instance same_registry_preorder : PreOrder same_registry.
Proof. split; unfold same_registry; [done|]. intros a b c [H1 E1] [H2 E2]. split; congruence. Qed.

Lemma connection_rest engineState secret close_now {Token} {HJ : Jwt Token} {HU : UuidColumn} id token n n1 :
  run (authenticate secret close_now id token) n = (Ok tt, n1) ->
  same_registry n1 (run (handleConnection engineState secret close_now id (Some token)) n).2.
Proof.
  intros E. unfold handleConnection. rewrite run_bind, run_try, E. cbn [fst snd].
  apply run_steps_in; [apply _|].
  assert (Hg : forall A (p : prog world A), steps_in same_registry (gserve p)) by (intros; by apply steps_gserve).
  unfold gmem. steps; try apply Hg. by apply steps_atom.
Qed.

Lemma run_reload_check {HU : UuidColumn} rg p sid row n :
  claim p "sessionId" = Some (JStr (Keys.uuid_string sid)) -> uuid_column (Keys.uuid_string sid) = Some sid ->
  w_faults (gn_world n) = [] -> w_sessions (gn_world n) !! sid = Some row ->
  run (reload_check rg p) n =
    (Ok (if is_Some_b (realityCheckIntervalSec rg) then (is_Some_b (s_rcPendingAt row), s_rcDueAt row) else (false, None)), n).
Proof.
  intros Hp Hcol Hf Hrow. unfold reload_check. rewrite Hp. cbn [truthy as_string nullish]. rewrite LaunchToken.uuid_nonempty, andb_true_r.
  destruct (is_Some_b _); [|done]. rewrite run_try, run_gserve. unfold column. rewrite Hcol, bind_ret_l.
  rewrite (run_loadRealityCheckState sid _ row) by done. cbn [fst snd]. by destruct n.
Qed.

(** The token's claims, accepted on a fresh socket. *)
Lemma run_authenticate {Token} {HJ : Jwt Token} {HU : UuidColumn} secret close_now id token payload n user sid row :
  let p := Some payload in
  verifyAsync (w_now (gn_world n)) token secret = Some payload -> w_faults (gn_world n) = [] ->
  claim p "kind" = Some (JStr "operator") -> claim p "sub" = Some (JStr user) ->
  claim p "sessionId" = Some (JStr (Keys.uuid_string sid)) -> uuid_column (Keys.uuid_string sid) = Some sid ->
  w_sessions (gn_world n) !! sid = Some row -> s_id row = sid -> s_revokedAt row = None ->
  connected id (gn_gate n) = true ->
  exists n1, run (authenticate secret close_now id token) n = (Ok tt, n1) /\
    in_room id (userRoom (Some user)) (gn_gate n1) /\ user_socket (Some user) (gn_gate n1) = Some id /\
    data_of id (gn_gate n1) =
      (let d := bind_claims p (data_of id (gn_gate n)) in
       match Rg.deserializeRg (claim p "rg"), started_at p with
       | Some g, Some t => bind_restored g t (if is_Some_b (realityCheckIntervalSec g) then (is_Some_b (s_rcPendingAt row), s_rcDueAt row) else (false, None))
                             (bind_rg g t d)
       | _, _ => d
       end).
Proof.
  intros p Hver Hf Hk Hsub Hs Hcol Hrow Hid Hrev Hconn.
  unfold authenticate. unfold gclock, gets. rewrite run_bind, run_atom. cbn [fst snd]. rewrite Hver. fold p.
  rewrite Hk, Hs, Hsub. cbn [truthy as_string nullish]. rewrite LaunchToken.uuid_nonempty. cbn [andb eqb_str].
  change (eqb_str "operator" "operator") with true. cbn [andb when].
  rewrite run_bind, run_bind, run_gserve. unfold column. rewrite Hcol, bind_ret_l, run_isLive by done.
  rewrite bool_decide_eq_false_2 by (by eapply live_session). cbn [negb fst snd]. rewrite run_ret.
  assert (Hsock : is_Some (g_sockets (gn_gate n) !! id)).
  { unfold connected in Hconn. destruct (g_sockets (gn_gate n) !! id); [eauto|done]. }
  assert (Hlast : forall n2 d, connected id (gn_gate n2) = true -> data_of id (gn_gate n2) = d ->
    exists n1, run (atom (fun n => (tt, register close_now id (Some user) n))) n2 = (Ok tt, n1) /\
      in_room id (userRoom (Some user)) (gn_gate n1) /\ user_socket (Some user) (gn_gate n1) = Some id /\ data_of id (gn_gate n1) = d).
  { intros n2 d Hc Hd. eexists. split; [reflexivity|]. cbn [fst snd].
    split_and!; [by apply connected_register|by unfold register; cbn [gn_gate on_gate]; rewrite user_socket_set, decide_True|by rewrite data_of_register]. }
  assert (Hset : forall f m, connected id (gn_gate m) = true -> is_Some (g_sockets (gn_gate m) !! id) ->
    connected id (set_data id f (gn_gate m)) = true /\ is_Some (g_sockets (set_data id f (gn_gate m)) !! id)).
  { intros f m Hc [s0 Hs0]. unfold connected, set_data in *; cbn. rewrite lookup_alter_eq, Hs0 in *. cbn. eauto. }
  rewrite run_bind. unfold gmem_set at 1. rewrite run_atom. cbn [fst snd].
  destruct n as [w g]. cbn [gn_world gn_gate on_gate] in *. rewrite run_bind.
  destruct (Rg.deserializeRg (claim p "rg")) as [rg|]; [destruct (started_at p) as [t|]|].
  - rewrite run_bind. erewrite run_reload_check; [|done..]. unfold gmem_set. rewrite run_atom. cbn [fst snd on_gate gn_world gn_gate].
    destruct (Hset (fun d => bind_rg rg t (bind_claims p d)) (mk_gnode w g) Hconn Hsock) as [Hc1 Hs1]. cbn [gn_gate] in *.
    apply Hlast; cbn [gn_gate].
    + apply (Hset _ (mk_gnode w (set_data id (fun d => bind_rg rg t (bind_claims p d)) g)) Hc1 Hs1).
    + etrans; [by apply data_of_set_data|]. f_equal. by apply data_of_set_data.
  - unfold log_warn. rewrite run_gserve. cbn. apply Hlast; [by apply (Hset _ (mk_gnode w g))|by apply data_of_set_data].
  - rewrite run_ret. apply Hlast; [by apply (Hset _ (mk_gnode w g))|by apply data_of_set_data].
Qed.

(** C34: A connection with the play token of a live session restores that session
    exactly: the wallet, operator and currency it was opened for, the bet limits
    and controls resolved at launch, the start the session limit counts from,
    and the reality check as the database has it, pending or not and due when it
    was due; the socket takes its user's place. *)
Theorem token_restores_session {Token} {HJ : Jwt Token} {HU : UuidColumn} (HL : JwtLaws Token)
    engineState secret close_now betLimits rgConfig ccy v s wl t0 ttl token id n row :
  let limits := BetLimits.effectiveLimitsFor betLimits ccy in
  let rg := if v_demo v then None else Rg.effectiveRgFor rgConfig ccy in
  let sid := Keys.uuid_string (s_id s) in
  let user := Some (Keys.uuid_string (w_userId wl)) in
  signAsync t0 (GameSession.play_claims v s wl limits rg) secret (inject_Z ttl) None = Some token ->
  w_now (gn_world n) / 1000 < t0 / 1000 + ttl -> w_faults (gn_world n) = [] ->
  uuid_column sid = Some (s_id s) -> w_sessions (gn_world n) !! s_id s = Some row -> s_id row = s_id s -> s_revokedAt row = None ->
  connected id (gn_gate n) = true -> data_of id (gn_gate n) = no_data ->
  let g := gn_gate (run (handleConnection engineState secret close_now id (Some token)) n).2 in
  data_of id g = session_data v s row (w_userId wl) limits rg /\ in_room id (userRoom user) g /\ user_socket user g = Some id.
Proof.
  intros limits rg sid user Hsign Httl Hf Hcol Hrow Hid Hrev Hconn Hdata. cbv zeta.
  destruct (play_claims_read v s wl limits rg) as (Psub & Pwal & Pccy & Pop & Psid & Pkind & Pstart & Plim & Pdemo & Prg).
  destruct (config_survives_token betLimits rgConfig ccy) as [Hlim Hrgc]. cbv zeta in Hlim, Hrgc. fold limits in Hlim.
  assert (Hrg : Rg.deserializeRg (Rg.serializeRg <$> rg) = rg) by (subst rg; by destruct (v_demo v)).
  apply sign_verify in Hsign as (extra & Hextra & _ & _ & Hver).
  assert (Hc := fun k => LaunchToken.claim_signed k (GameSession.play_claims v s wl limits rg) extra Hextra).
  specialize (Hver (w_now (gn_world n))). rewrite (proj2 (Z.ltb_lt _ _) Httl) in Hver.
  destruct (run_authenticate secret close_now id token _ n (Keys.uuid_string (w_userId wl)) (s_id s) row Hver Hf) as (n1 & E & Hin & Hu & Hd);
    [by rewrite Hc..|done|done|done|done|done|].
  destruct (connection_rest engineState secret close_now id token n n1 E) as [E1 E2].
  unfold user_socket. rewrite E2. split_and!; [|by unfold in_room; rewrite E1|exact Hu].
  rewrite (data_of_sockets id _ _ E1), Hd, Hdata. unfold bind_claims, started_at, session_data.
  rewrite !Hc, Psub, Pwal, Pccy, Pop, Psid, Pstart, Plim, Pdemo, Prg, Hrg, Hlim by done.
  cbn [truthy as_string json_Number]. rewrite LaunchToken.uuid_nonempty, Qfloor_int.
  replace (match (if v_demo v then Some (JBool true) else None) with Some (JBool true) => true | _ => false end) with (v_demo v)
    by (by destruct (v_demo v)).
  destruct rg as [g|]; [|by destruct limits]. unfold bind_restored, bind_rg, restored_due; cbn.
  destruct (realityCheckIntervalSec g); cbn; by destruct limits.
Qed.

(** ** The sweep itself *)

(** The data a sweep at [now] leaves on a socket. *)
Definition swept_data (now : Z) (g : gateway) (id : N) : sock_data :=
  let d := data_of id g in
  match connected id g, d_rg d, d_sessionStartedAt d with
  | true, Some rg, Some startedAt => commit_decision (rgEvaluate (rg_state rg startedAt d) now) d
  | _, _, _ => d
  end.

Lemma decide_socket_gate now id n :
  exists f, (decide_socket now id n).2 = on_gate (set_data id f) n /\ f (data_of id (gn_gate n)) = swept_data now (gn_gate n) id.
Proof.
  unfold decide_socket, swept_data. cbv zeta.
  assert (Hid : n = on_gate (set_data id (fun d => d)) n).
  { destruct n as [w g]. unfold on_gate, set_data; cbn. f_equal. destruct g; unfold set_sockets; cbn. f_equal.
    symmetry. apply map_eq. intros i. destruct (decide (id = i)) as [->|]; [|by rewrite lookup_alter_ne].
    rewrite lookup_alter_eq. by destruct (g_sockets !! i) as [[]|]. }
  repeat case_match; try (exists (fun d => d); by split); eexists; split; reflexivity.
Qed.

Lemma data_of_set_other id i f g : id <> i -> data_of i (set_data id f g) = data_of i g.
Proof. intros Hi. unfold data_of, set_data; cbn. by rewrite lookup_alter_ne. Qed.

Lemma connected_set_data id i f g : connected i (set_data id f g) = connected i g.
Proof.
  unfold connected, set_data; cbn. destruct (decide (id = i)) as [->|]; [|by rewrite lookup_alter_ne].
  rewrite lookup_alter_eq. by destruct (g_sockets g !! i).
Qed.

Lemma data_of_set_own id f g : f no_data = no_data \/ is_Some (g_sockets g !! id) -> data_of id (set_data id f g) = f (data_of id g).
Proof.
  unfold data_of, set_data; cbn. rewrite lookup_alter_eq. destruct (g_sockets g !! id); [done|]. by intros [H|[? ?]].
Qed.

(** A handled failure is no failure. *)
Lemma run_try_ok {S A} (p : prog S A) h s : (forall e s, exists a, (run (h e) s).1 = Ok a) -> exists a, (run (try_catch p h) s).1 = Ok a.
Proof. intros Hh. rewrite run_try. destruct (run p s) as [[a|e] s'] eqn:E; cbn; [eauto|apply Hh]. Qed.

Lemma run_log what n : exists n', run (log_warn what) n = (Ok tt, n') /\ same_registry n n'.
Proof. eexists. split; [reflexivity|by split]. Qed.

Section sweep.
Context {HU : UuidColumn}.

Lemma registry_steps {A} (p : prog gnode A) n : steps_in same_registry p -> same_registry n (run p n).2.
Proof. intros Hp. by apply run_steps_in; [apply _|]. Qed.

Lemma registry_gserve {A} (p : prog world A) : steps_in same_registry (gserve p).
Proof. by apply steps_gserve. Qed.
#[local] Hint Resolve registry_gserve : vr_steps.

(** One socket: its data, and nothing else of the registry; it never fails. *)
Lemma run_sweep_socket now u id n :
  exists n', run (sweep_socket now u id) n = (Ok tt, n') /\ same_registry (decide_socket now id n).2 n'.
Proof.
  unfold sweep_socket. rewrite run_bind, run_atom. cbn [fst snd].
  destruct (decide_socket now id n) as [[[[[d rg] startedAt] x]|] n1]; cbn [fst snd]; [|by exists n1; split].
  match goal with |- exists n', run ?p n1 = _ /\ _ => assert (Hs : steps_in same_registry p);
    [|assert (Hok : exists a, (run p n1).1 = Ok a)] end.
  - unfold accounting_of, persist_check, log_warn. steps; by apply steps_atom.
  - rewrite run_bind. destruct (run (when (tripTimeLimit x) _) n1) as [[[]|e] n2] eqn:E; [|by destruct (tripTimeLimit x)].
    destruct (emitRealityCheck x); cbn [when]; [|by eexists]. rewrite run_bind.
    assert (Ha : exists a, (run (accounting_of (d_walletId d) startedAt) n2).1 = Ok a).
    { unfold accounting_of. destruct (truthy_str _); [|by eexists]. apply run_try_ok. intros e s. by eexists. }
    destruct (run (accounting_of _ _) n2) as [r n3] eqn:E3. destruct Ha as [acc Ha]; cbn in Ha; subst r.
    rewrite run_bind. unfold send at 1, gmem_set. rewrite run_atom. cbn [fst snd]. unfold persist_check.
    destruct (d_sessionId d) as [s|]; [|by eexists]. destruct (nonempty s); cbn [when]; [|by eexists].
    apply run_try_ok. intros e s'. by eexists.
  - pose proof (registry_steps _ n1 Hs) as Hr. destruct (run _ n1) as [r n2]. destruct Hok as [[] Hok]. cbn in *. subst r. by exists n2.
Qed.

Lemma run_sweep_socket_data now u id n :
  exists n', run (sweep_socket now u id) n = (Ok tt, n') /\ g_userSockets (gn_gate n') = g_userSockets (gn_gate n) /\
    data_of id (gn_gate n') = swept_data now (gn_gate n) id /\
    forall j, j <> id -> data_of j (gn_gate n') = data_of j (gn_gate n) /\ connected j (gn_gate n') = connected j (gn_gate n).
Proof.
  destruct (run_sweep_socket now u id n) as (n1 & E & Hs & Hu). destruct (decide_socket_gate now id n) as (f & Hf & Hfd).
  rewrite Hf in Hs, Hu. exists n1. split; [done|]. split; [by rewrite Hu|]. split.
  - rewrite (data_of_sockets _ _ _ Hs). cbn [on_gate gn_gate]. rewrite <- Hfd. apply data_of_set_own.
    destruct (g_sockets (gn_gate n) !! id) eqn:E0; [right; by eexists|left].
    unfold swept_data, connected, data_of in Hfd. rewrite E0 in Hfd. exact Hfd.
  - intros j Hj. rewrite (data_of_sockets _ _ _ Hs). unfold connected. rewrite Hs. cbn [on_gate gn_gate].
    split; [by apply data_of_set_other|apply connected_set_data].
Qed.

Definition entry_ids (l : list (option string * (N * N))) : list N := (fun e => e.2.2) <$> l.
Definition entry_ranks (l : list (option string * (N * N))) : list N := (fun e => e.2.1) <$> l.

Lemma next_entry_split pre e suf from g : g_userSockets g = pre ++ e :: suf ->
  Forall (fun r => (r < from)%N) (entry_ranks pre) -> (from <= e.2.1)%N -> next_entry from g = Some e.
Proof.
  unfold next_entry. intros ->. induction pre as [|x pre IH]; cbn; intros Hp He.
  - by rewrite (proj2 (N.leb_le _ _) He).
  - inversion Hp as [|? ? Hx Hp']; subst. destruct (N.leb_spec from x.2.1); [lia|by apply IH].
Qed.

Lemma next_entry_end from g : Forall (fun r => (r < from)%N) (entry_ranks (g_userSockets g)) -> next_entry from g = None.
Proof.
  unfold next_entry. induction (g_userSockets g) as [|x l IH]; cbn; intros Hp; [done|].
  inversion Hp as [|? ? Hx Hp']; subst. destruct (N.leb_spec from x.2.1); [lia|by apply IH].
Qed.

(** The loop over the entries that are left. *)
Lemma run_sweep_from suf : forall pre fuel from now n,
  g_userSockets (gn_gate n) = pre ++ suf -> Forall (fun r => (r < from)%N) (entry_ranks pre) ->
  Forall (fun r => (from <= r)%N) (entry_ranks suf) -> Sorted.StronglySorted N.lt (entry_ranks suf) ->
  NoDup (entry_ids suf) -> (length suf <= fuel)%nat ->
  exists n', run (sweep_from fuel from now) n = (Ok tt, n') /\ g_userSockets (gn_gate n') = g_userSockets (gn_gate n) /\
    forall i, data_of i (gn_gate n') = if decide (i ∈ entry_ids suf) then swept_data now (gn_gate n) i else data_of i (gn_gate n).
Proof.
  induction suf as [|[u [rank id]] suf IH]; intros pre fuel from now n Hg Hpre Hsuf Hsort Hnd Hfuel.
  - exists n. split_and!; [|done|]; [|intros i; by rewrite decide_False by (by intros ?%elem_of_nil)].
    destruct fuel as [|fuel]; [done|]. cbn [sweep_from]. rewrite run_bind, run_gmem, next_entry_end; [done|].
    by rewrite Hg, app_nil_r.
  - destruct fuel as [|fuel]; cbn in Hfuel; [lia|]. cbn [sweep_from].
    inversion Hsuf as [|? ? Hfrom Hsuf']; subst. inversion Hsort as [|? ? Hsort' Hlt]; subst.
    cbn in Hnd. apply NoDup_cons in Hnd as [Hni Hnd].
    rewrite run_bind, run_gmem, (next_entry_split _ _ _ _ _ Hg Hpre Hfrom). cbn [fst snd].
    destruct (run_sweep_socket_data now u id n) as (n1 & E1 & Hu1 & Hown & Hoth). rewrite run_bind, E1.
    destruct (IH (pre ++ [(u, (rank, id))]) fuel (rank + 1)%N now n1) as (n' & E' & Hu' & Hd'); [| | |done..| |].
    + rewrite Hu1. cbn. by rewrite Hg, <- app_assoc.
    + unfold entry_ranks. rewrite fmap_app. apply Forall_app; split; [|repeat constructor; cbn; lia].
      eapply Forall_impl; [exact Hpre|]. cbn in *. lia.
    + eapply Forall_impl; [exact Hlt|]. cbn. lia.
    + lia.
    + exists n'. split_and!; [done|by rewrite Hu', Hu1|]. intros i. rewrite Hd'.
      destruct (decide (i = id)) as [->|Hi].
      * rewrite (decide_False (P := id ∈ entry_ids suf)) by done. by rewrite decide_True by (by left).
      * destruct (Hoth i Hi) as [Ho1 Ho2]. unfold swept_data. rewrite Ho1, Ho2.
        destruct (decide (i ∈ entry_ids suf)); [by rewrite decide_True by (by right)|].
        rewrite decide_False; [done|]. cbn. intros [|]%elem_of_cons; done.
Qed.
End sweep.

(** C35: The responsible-gambling sweep decides every registered socket once: after
    the sockets of revoked sessions were dropped, each remaining entry's socket
    holds what [rgEvaluate] decides for its state at the time the sweep began,
    no other socket's data changes, the sweep ends whatever the accounting and
    the persistence of a check do, and the next one may start. *)
Theorem rg_sweep_exact {HU : UuidColumn} close_now fuel n n1 :
  let g1 := gn_gate n1 in
  g_rgSweeping (gn_gate n) = false ->
  run (disconnectRevokedSockets close_now) (on_gate (set_rgSweeping true) n) = (Ok tt, n1) ->
  Sorted.StronglySorted N.lt (entry_ranks (g_userSockets g1)) -> NoDup (entry_ids (g_userSockets g1)) ->
  (length (g_userSockets g1) <= fuel)%nat ->
  exists n', run (runRgSweep close_now fuel) n = (Ok tt, n') /\ g_rgSweeping (gn_gate n') = false /\
    forall i, data_of i (gn_gate n') =
      if decide (i ∈ entry_ids (g_userSockets g1)) then swept_data (w_now (gn_world n)) g1 i else data_of i g1.
Proof.
  intros g1 Hflag Hd Hsort Hnd Hfuel.
  destruct (run_sweep_from (g_userSockets g1) [] fuel 0 (w_now (gn_world n)) n1) as (n2 & E & Hu & Hdata);
    [done|constructor|apply Forall_true; intros; lia|done..|].
  exists (on_gate (set_rgSweeping false) n2). split; [|by split].
  unfold runRgSweep, exclusive, test_and_set. rewrite run_bind, run_atom, Hflag. cbn [fst snd].
    unfold finally. rewrite run_bind, run_try. unfold gclock, gets. rewrite run_bind, run_atom. cbn [fst snd].
    cbn [on_gate gn_world].
    rewrite run_try, run_bind, Hd, E. cbn [fst snd]. rewrite run_bind. unfold gmem_set. rewrite run_atom. cbn [fst snd]. by rewrite run_ret.
Qed.

(** ** Examples *)

Definition few_ids : UuidColumn := fun s => List.find (fun n => eqb_str s (Keys.uuid_string n)) [1; 3; 5; 7]%N.

(** A session of player 7 with a reality check pending, due every hour. *)
Definition hourly_json : json := JObj [("realityCheckIntervalSec", JNum (inject_Z 3600))]%string.
Definition paused_session : session :=
  mk_session 3 5 "alice" "usd" "en" 1 false "j1" 1 None (Some 3600001) (Some 3600000) None.
Definition gateway_world : world := set_sessions {[ 3%N := paused_session ]} BetFlow.bet_world.
Definition gateway_launch : VerifiedLaunch :=
  mk_launch (Keys.uuid_string 5) "alice" (Some "usd"%string) "en" false JNull "j1".
Definition play_ticket : Ticket :=
  mk_ticket (GameSession.play_claims gateway_launch paused_session (mk_wallet 7 "usd" 500) None (Rg.effectiveRgFor (Some hourly_json) "usd")
             ++ ticket_extra None 1 14400) "our-secret" 14400.
Definition guest_ticket : Ticket := mk_ticket [("sub", JStr (Keys.uuid_string 7))]%string "our-secret" 14400.

Definition betting_state : prog world (option PublicRoundState) := mret (Some (mk_public 100 Betting 5000 100 0)).
Definition sample_request (id : N) (r : @ws_request Ticket) : prog gnode unit :=
  @on_request Ticket TicketJwt few_ids Ledger.LedgerService Risk.default_limits betting_state (mret 100) "our-secret"
    (fun q => Qfloor_Z (q * 100)) true id r.
Definition bet_120 : option json := Some (JObj [("panel", JStr "A"); ("amount", JNum 120)])%string.
Definition start_node (w : world) : gnode := mk_gnode w empty_gateway.

(** What [schedule] leaves: the bets, the connected sockets and the user's socket. *)
Definition bets_of (n : gnode) : list (bet_status * Z) :=
  (fun b => (b_status b, b_amount b)) <$> (map_to_list (w_bets (gn_world n))).*2.

Definition reconnect_and_bet : gnode :=
  (schedule_pool ([0; 0; 0; 0] ++ replicate 40 1 ++ replicate 10 0)%nat (start_node gateway_world)
     [sample_request 1 (WConnect (Some play_ticket)); sample_request 1 (WPlace bet_120)]).1.
Definition reconnect_then_bet : gnode :=
  (schedule_pool (replicate 20 0 ++ replicate 40 1)%nat (start_node gateway_world)
     [sample_request 1 (WConnect (Some play_ticket)); sample_request 1 (WPlace bet_120)]).1.

(** The pause can be dodged by reconnecting: the handler attaches the player and
    the controls to the socket before it awaits the persisted check, and only
    then sets the pause, so a bet message served in between is staked, although
    the check was pending in the database all along; after the connection is set
    up the same message is refused. *)
Theorem reconnect_window_skips_pause :
  bets_of reconnect_and_bet = [(active, 120)] /\ d_rgPending (data_of 1 (gn_gate reconnect_and_bet)) = true /\
  w_sessions (gn_world reconnect_and_bet) = w_sessions gateway_world /\
  bets_of reconnect_then_bet = [].
Proof. vm_compute. by split_and!. Qed.

Definition dead_registers : gnode :=
  (schedule_pool ([0; 0; 0; 0] ++ replicate 20 1 ++ replicate 5 2 ++ replicate 20 0)%nat (start_node gateway_world)
     [sample_request 1 (WConnect (Some play_ticket)); sample_request 2 (WConnect (Some guest_ticket));
      sample_request 1 WDisconnect]).1.

(** A socket that closes while its connection is being set up is registered all
    the same, and the user's live socket is dropped for it. *)
Theorem dead_socket_evicts_live :
  connected 1 (gn_gate dead_registers) = false /\ connected 2 (gn_gate dead_registers) = false /\
  user_socket (Some (Keys.uuid_string 7)) (gn_gate dead_registers) = Some 1%N.
Proof. vm_compute. by split_and!. Qed.

Definition two_tabs : gnode * list (prog gnode unit) :=
  schedule_pool (replicate 20 0 ++ replicate 20 1)%nat (start_node gateway_world)
     [sample_request 1 (WConnect (Some guest_ticket)); sample_request 2 (WConnect (Some guest_ticket))].

Lemma one_live_socket_witness :
  in_room 2 (userRoom (Some (Keys.uuid_string 7))) (gn_gate two_tabs.1) /\
  forall id, in_room id (userRoom (Some (Keys.uuid_string 7))) (gn_gate two_tabs.1) -> id = 2%N.
Proof.
  assert (H : in_room 2 (userRoom (Some (Keys.uuid_string 7))) (gn_gate two_tabs.1)).
  { eexists. split_and!; [vm_compute; reflexivity|reflexivity|by left]. }
  split; [exact H|].
  refine (proj2 (one_live_socket TicketJwt few_ids Ledger.LedgerService Risk.default_limits NaN NaN betting_state (mret 100)
    (mret true) false "our-secret" (fun q => Qfloor_Z (q * 100)) true
    [(1%N, WConnect (Some guest_ticket)); (2%N, WConnect (Some guest_ticket))] [] gateway_world two_tabs.1 two_tabs.2
    (Keys.uuid_string 7) 2 I _ ltac:(discriminate) H)).
  exact (schedule_pool_steps (replicate 20 0 ++ replicate 20 1)%nat (start_node gateway_world)
     [sample_request 1 (WConnect (Some guest_ticket)); sample_request 2 (WConnect (Some guest_ticket))]).
Defined.

(** The paused session, connected. *)
Definition fresh_node (w : world) : gnode := mk_gnode w (set_sockets {[ 1%N := mk_socket true [] no_data ]} empty_gateway).
Definition restored_node : gnode :=
  (run (@handleConnection Ticket TicketJwt few_ids betting_state "our-secret" true 1 (Some play_ticket)) (fresh_node gateway_world)).2.

Lemma token_restores_session_witness :
  d_rgPending (data_of 1 (gn_gate restored_node)) = true /\
  data_of 1 (gn_gate restored_node) =
    session_data gateway_launch paused_session paused_session 7 None (Rg.effectiveRgFor (Some hourly_json) "usd").
Proof.
  split; [vm_compute; reflexivity|].
  exact (proj1 (token_restores_session (HJ := TicketJwt) (HU := few_ids) TicketJwt_laws betting_state "our-secret" true
    None (Some hourly_json) "usd" gateway_launch paused_session (mk_wallet 7 "usd" 500) 1 14400 play_ticket 1
    (fresh_node gateway_world) paused_session eq_refl eq_refl eq_refl eq_refl eq_refl eq_refl eq_refl eq_refl eq_refl)).
Defined.

Definition place_on (n : gnode) : res reply * gnode :=
  run (@onPlaceBet few_ids Ledger.LedgerService Risk.default_limits betting_state (mret 100) (fun q => Qfloor_Z (q * 100)) 1 bet_120) n.


Definition revoked_world : world :=
  set_sessions {[ 3%N := GameSession.session_with paused_session (Some 50) None None None ]} gateway_world.
Definition revoked_node : gnode := mk_gnode revoked_world (gn_gate restored_node).

Lemma place_bet_gates_witness :
  place_refusal (HU := few_ids) 1 bet_120 revoked_node = Some (FailedPanel "session_revoked" PanelA) /\
  exists n', place_on revoked_node = (Ok (FailedPanel "session_revoked" PanelA), n') /\ tables_eq (gn_world revoked_node) (gn_world n').
Proof.
  split; [vm_compute; reflexivity|].
  apply (place_bet_gates (HU := few_ids)); [reflexivity|vm_compute; reflexivity].
Defined.

(** The sweep after the pause was loaded: not due yet. *)
Lemma rg_sweep_exact_witness :
  exists n', run (runRgSweep (HU := few_ids) true 1) restored_node = (Ok tt, n') /\ g_rgSweeping (gn_gate n') = false /\
    data_of 1 (gn_gate n') = data_of 1 (gn_gate restored_node).
Proof.
  destruct (rg_sweep_exact (HU := few_ids) true 1 restored_node (run (disconnectRevokedSockets (HU := few_ids) true) (on_gate (set_rgSweeping true) restored_node)).2
    eq_refl) as (n' & E & Hf & Hd).
  - vm_compute. reflexivity.
  - vm_compute. repeat constructor.
  - vm_compute. repeat constructor. by intros ?%elem_of_nil.
  - vm_compute. repeat constructor.
  - exists n'. split_and!; [exact E|exact Hf|]. rewrite Hd. vm_compute. reflexivity.
Defined.
End GatewaySafety.
